(* ===== verification/_CoqProject ===== *)
-Q . S2P
Prelude.v
Dict.v
Sorting.v
Prog.v
Calendar.v
CalendarFacts.v
ClockTime.v
Json.v
Schemas.v
Reservation.v
Watch.v
Policy.v
Backoff.v
WatchSpec.v
WatchLog.v
WatchStore.v
WatchStoreCorrect.v
WatchStoreTheorems.v
Effects.v
WatchService.v
WatchServiceTheorems.v
PollProtocol.v
PollTheorems.v
PollSystem.v
MockState.v
MockTheorems.v
Dispatcher.v
Recovery.v
RecoveryTheorems.v
Venues.v
VenueTheorems.v
Validator.v
ValidatorTheorems.v
MockAdapter.v
MockAdapterTheorems.v
BookingService.v
BookingTheorems.v
PromptSystem.v
RedisServer.v
WatchScripts.v
RedisWatch.v
RedisKeys.v
RedisHistory.v
RedisSteps.v
RedisTheorems.v
RedisMethods.v
RedisModel.v
RedisExamples.v
MockScripts.v
MockKeys.v
MockInvariant.v
MockProtection.v
MockModel.v
Throttle.v
ThrottleTheorems.v
Projection.v
Url.v
Settings.v
Address.v
AddressTheorems.v
Accounts.v
AccountTheorems.v
PasswordWork.v
WebApi.v
WebTheorems.v
TaskQueue.v
Readiness.v
Email.v
RedisThrottle.v
RedisThrottleTheorems.v
Composition.v
CompositionTheorems.v
Migrations.v
MigrationTheorems.v
Worker.v
SettingsTheorems.v
WorkerTheorems.v
WorkerService.v
Boundary.v
PromptRoute.v
