(* ===== verification/Prelude.v ===== *)
(** * Dibs, a reservation sniper: verification development

    ** The program

    Dibs books a restaurant table, a court or a tee time for its user, at once
    or as soon as one appears.  Its backend ([src/backend]) works in four
    stages:

    - a prompt is extracted by a language model and validated against a clock
      and a venue catalog into a [ReservationIntent] ([orchestrator/], [data/]);
    - a READY intent is searched and booked at once
      ([services/booking_service.py]) or becomes a watch
      ([orchestrator/router.py], [services/watch_service.py]);
    - a watch is polled at jittered intervals by any number of workers.  A poll
      claims one scheduling window in the watch repository, searches, asks the
      repository for a booking permit, books, and commits the outcome
      ([WatchService.poll_window], [db/repositories/watches.py],
      [watch_scripts.py]).  Claims are fenced by a token, a revision and a
      lease, so that a delivery may be repeated, late or cut short;
    - a dispatcher publishes due windows to the queue and a recovery pass
      repairs what crashes left behind ([workers/dispatcher.py],
      [services/watch_recovery.py]).

    Providers are behind an adapter; the one in the repository is a mock with
    capacity, idempotency and pins ([integrations/mock_booking.py],
    [db/repositories/mock_booking.py]).

    ** How the development is organised

    A coroutine is a program tree over its awaited calls ([Prog]); any call may
    raise, and the rest of the system may act between two calls.  A store whose
    operations are critical sections is a state with one function per
    operation; a Redis store is a program over atomic server actions, each
    Lua script being one of them.  Interfaces are type classes: services are
    verified against [WatchRepository] and its laws, and the in-memory store is
    shown to obey them.

    Shared vocabulary
    - [Prelude]: notations, automation, lists and options.
    - [Dict], [Sorting]: Python's insertion-ordered [dict] and stable [sorted].
    - [Calendar], [CalendarFacts], [ClockTime], [Json]: [datetime], dates, text,
      times of day as text, canonical JSON.
    - [Prog]: programs, their runs, interleaved small steps, the logic [safe].

    Data, one file per group of source files
    - [Schemas] ([orchestrator/schemas.py]), [Reservation]
      ([models/reservation.py]), [Watch] ([models/watch.py],
      [models/watch_runtime.py], [db/repositories/watch_decisions.py]): records
      and enums with the checks their pydantic constructors run; an update by
      [model_copy] runs none, there as here.
    - [Policy] ([workers/scheduler.py], [services/watch_policy.py]) and
      [Backoff] (the outage delay of [services/watch_service.py]).

    From prompt to booking
    - [Venues], [VenueTheorems] ([data/venues.py]): holidays, opening hours,
      catalog, name resolution.
    - [Validator], [ValidatorTheorems] ([orchestrator/validator.py],
      [engine.py]): an accepted extraction becomes a valid intent that lists
      exactly what is missing; a READY one can be booked.
    - [BookingService], [BookingTheorems] ([services/booking_service.py],
      [orchestrator/router.py]): at most one booking, under a key that
      determines owner and request.
    - [MockAdapter], [MockAdapterTheorems] ([integrations/mock_booking.py]):
      what slots are generated.
    - [MockState], [MockTheorems] ([InMemoryMockBookingStateRepository]):
      bookings are replayed, one booking per slot.
    - [PromptSystem]: the booking service over the adapter over the store, next
      to any other clients.

    Watch repositories
    - [WatchSpec]: what a store promises about one watch, as relations on a
      view; the classes [WatchRepository] and [LawfulRepository].
    - [WatchLog]: histories of a lawful store.
    - [WatchStore], [WatchStoreCorrect], [WatchStoreTheorems]
      ([InMemoryWatchRepository]): the eight dictionaries and every operation,
      the refinement of [WatchSpec], the history theorems.
    - [RedisServer]: the server commands the repositories use and one law per
      command; [WatchScripts] ([watch_scripts.py]): the fourteen scripts;
      [RedisWatch] ([RedisWatchRepository]): every method.
    - [RedisKeys], [RedisHistory], [RedisSteps], [RedisTheorems],
      [RedisMethods]: keys are disjoint, each action keeps an invariant of the
      keys of a watch and a legal history, the history theorems, and that
      methods which read in one call and write in another only issue actions
      that are legal and warranted by what they read.
    - [RedisModel], [RedisExamples]: an executable server that meets the laws,
      and histories on it.

    Watch services
    - [Effects]: the calls and exceptions of the services.
    - [WatchService], [WatchServiceTheorems] ([services/watch_service.py]).
    - [PollProtocol], [PollTheorems]: what one poll does for any answers.
    - [PollSystem]: polls against the repository, interleaved with other
      clients.
    - [Dispatcher] ([workers/dispatcher.py]), [Recovery], [RecoveryTheorems]
      ([services/watch_recovery.py]).


    Accounts, routes and what surrounds the services
    - [Throttle], [ThrottleTheorems] ([SlidingWindowThrottle] of
      [services/throttle.py]): at most [max_events] per window.
    - [RedisThrottle], [RedisThrottleTheorems] (its
      Redis counterpart): the same for any number of processes, up to the
      disagreement of their clocks.
    - [Projection] ([db/repositories/watch_history.py]):
      the history table as functions of its rows; it converges to the last
      version of a watch.
    - [Url]: the part of [urllib.parse] the settings use.
    - [Settings], [SettingsTheorems] ([config.py]): every [from_environment];
      what loads fits the services built from it.
    - [Accounts], [AccountTheorems] ([services/auth_service.py],
      [services/password.py], [db/repositories/accounts.py]): sessions are
      opened and honoured only as they should be.
    - [PasswordWork] ([_password_work] of [services/auth_service.py] over
      [asyncio.Semaphore]): the password slots under cancellation.
    - [Address], [AddressTheorems] ([is_internal_address] of
      [services/throttle.py], with the part of [ipaddress] it reads): which
      texts are addresses, and which addresses are internal.
    - [WebApi], [WebTheorems] ([api/], the prompt throttle of
      [main.py]): watches of accounts are private, guesses are counted.

    Provider state on Redis
    - [MockScripts] ([mock_booking_scripts.py],
      [RedisMockBookingStateRepository]): the four scripts and every method.
    - [MockKeys], [MockInvariant], [MockProtection]: disjoint
      keys, the invariant of slots and pins, the bounds, the protection of a
      booking.
    - [MockModel]: an executable server with a clock, witnesses, and histories
      in which the two repositories disagree.

    Around the services
    - [TaskQueue] ([workers/queue.py]): the in-process queue as a state machine.
    - [Readiness] ([services/readiness.py], [/health]): evidence, not guesses.
    - [Email] ([integrations/email.py], [services/recipients.py]): who is told
      what.
    - [Composition], [CompositionTheorems] ([lifespan]
      and [create_app] of [main.py], [api/dependencies.py], [create_pool] of
      [db/postgres.py]): which components a process binds, what it acquires,
      releases and survives.
    - [Migrations], [MigrationTheorems]
      ([db/postgres.py]): files and runner, for any number of processes.
    - [Worker], [WorkerTheorems], [WorkerService]
      ([workers/tasks/monitor_watch.py], [workers/celery_app.py]):
      cached resources, deliveries, shutdown; the worker polls with the
      service of the API process.
    - [Boundary]: status codes ([main.py]), policy headers
      ([api/routes/watches.py]), the language model provider
      ([orchestrator/providers.py]), the SMTP session and the logging
      fallback ([logging_config.py]).
    - [PromptRoute] ([parse_prompt] and [parse_and_book] of [main.py],
      [orchestrator/engine.py], [misc/scripts/spot_check.py]): a prompt from
      its header to its booking, over the union of the calls of the parts
      ([Prog.embed]); the spot check runs on the stores of one process.

    ** Conventions

    Instants and durations are integers of microseconds, the resolution of
    [datetime] and [timedelta]; where the code goes through a binary float
    ([int(moment.timestamp() * 1000)]) the float is computed exactly.  Python
    integers are unbounded and so is [Z]; Lua numbers are doubles, and what
    the scripts need of them is stated for integers below [10^14] only.  Text
    is ASCII (UTF-8 bytes in [Email] and [Boundary]).  Random draws, [uuid]s, digests, the language model and the
    clocks are parameters or answers of calls, so the theorems hold for all of
    them; a digest is never assumed injective.

    Loops that are not structural run on fuel with a proof that it suffices:
    [exponent_loop] has 64 steps for a delay ratio bounded by the settings,
    the slot generator one per grid step of a day, both by theorem; the five
    retries of a cancellation and the two of a reconciliation are the code's.

    ** What the theorems show

    Polling: every provider booking is covered by a claim and a permit, a
    confirmation is committed next, a poll commits and announces at most once,
    what it commits is valid and due after the clock it read, what it reports
    is what it committed.  Stores: no lost
    update, one owner, terminal states are final, at most one terminal event,
    an expired lease is reclaimed, cleanup is bounded, dispatch is single
    flight - for the in-memory store as a refinement, for Redis by an
    invariant of its keys that survives lost answers and expiring keys.
    Recovery leaves no active watch without a schedule and absorbs failures.
    Booking requests book once and are replayed; a prompt is counted before it
    costs anything, and what is done is what its intent asks for, under the
    account of an open session.  Validation, slot generation
    and name resolution are characterised completely.  Provider state on Redis
    is bounded and protects bookings while clocks agree.  Accounts: sessions
    are earned, watches private also to an expired session, guesses and
    prompts counted, in memory and on Redis.  Processes: what loads fits, components belong together, what is
    acquired is released but for a pool whose migration failed, migrations and worker shutdown happen once, the
    worker polls with the service of the API process, queue and readiness
    tell the truth, and so does the email.

    Some theorems record behaviour that is surely not meant: a pending
    cancellation is dropped after an unknown reconciliation, an expiry
    discards a confirmed booking ([PollSystem]), a Redis cancellation
    overtakes a permit or loses an attempt ([RedisExamples]), a time window is
    rounded down ([MockAdapterTheorems]), a late creation loses its owner
    ([Projection]), a broken migration keeps the process down or
    leaves its pool open ([CompositionTheorems]), the worker ignores the SMTP timeout
    ([WorkerService]), a venue of two lines is never emailed ([Boundary]), a
    second cancellation frees a password slot whose thread still runs
    ([PasswordWork]), a shared carrier address written as an IPv6 mapped one
    is internal or not by its spelling ([AddressTheorems]), the scripted spot
    check fails once its watched date has passed ([PromptRoute]).

    ** What is not modelled

    - The web framework: routing, validation of requests, CORS of the
      middleware; handlers are functions of what the framework hands them.
    - [asyncpg], [redis], [openai], [smtplib], [argon2] and Celery: calls that
      answer or raise; connection pools and their statement timeouts.
    - Every log line; only the logging fallback is modelled.
    - The liveness of the event loop and of the broker; preemption of threads
      other than at the lock of the worker. *)

From stdpp Require Export base tactics option list strings pretty gmap sets.
From Stdlib Require Export ZArith Lia.

#[global] Open Scope Z_scope.

(** ** Record update

    [r <| f := v |>] is Python's [model_copy(update={"f": v})] and the
    assignment [self.f = v]: every other field is kept.  A record declares its
    eta expansion once; the setters are derived from it. *)

Class Eta (R : Type) := eta : R → R.

Class Setter {R T : Type} (proj : R → T) := setf : T → R → R.

Ltac solve_setter :=
  lazymatch goal with
  | |- @Setter ?R ?T ?proj =>
      let e := constr:(_ : Eta R) in
      let v := fresh "v" in
      let r := fresh "r" in
      refine (fun (v : T) (r : R) => _);
      let body := eval cbv beta in (e r) in
      let body := (let h := constr:(e) in
                   let h' := eval hnf in h in
                   eval cbv beta in (h' r)) in
      lazymatch body with
      | context C [proj r] => let b := context C [v] in exact b
      end
  end.

#[export] Hint Extern 0 (Setter _) => solve_setter : typeclass_instances.

Declare Scope record_scope.
Notation "r <| f := v |>" := (@setf _ _ f _ v r)
  (at level 12, left associativity, format "r  <| f  :=  v |>") : record_scope.
#[global] Open Scope record_scope.
Arguments setf / {R T} proj {_} _ _.
