(* ===== verification/Dict.v ===== *)
(** * Insertion-ordered dictionaries

    Every store of the backend keeps its state in Python [dict]s keyed by
    string.  Two of their properties matter to the code: a key maps to at most
    one value, and iteration follows insertion order (re-assigning an existing
    key keeps its position, deleting and re-adding moves it to the end).  The
    second decides ties in every [sorted(...)] and every bounded batch, so a
    dictionary is a list of bindings here, with stdpp's [!!], [<[ := ]>] and
    [delete] on top. *)

From S2P Require Import Prelude.

Record dict (V : Type) : Type := Dict { items : list (string * V) }.
Arguments Dict {V} _.
Arguments items {V} _.

Section alist.
Context {V : Type}.
Implicit Types (k : string) (v : V) (l : list (string * V)).

Fixpoint alist_get k l : option V :=
  match l with
  | [] => None
  | (k', v) :: l' => if decide (k = k') then Some v else alist_get k l'
  end.

Fixpoint alist_set k v l : list (string * V) :=
  match l with
  | [] => [(k, v)]
  | (k', v') :: l' =>
      if decide (k = k') then (k, v) :: l' else (k', v') :: alist_set k v l'
  end.

Fixpoint alist_pop k l : list (string * V) :=
  match l with
  | [] => []
  | (k', v') :: l' =>
      if decide (k = k') then alist_pop k l' else (k', v') :: alist_pop k l'
  end.

Lemma alist_get_set k k' v l :
  alist_get k' (alist_set k v l) = if decide (k = k') then Some v else alist_get k' l.
Proof.
  induction l as [|[k1 v1] l IH]; simpl; [by repeat case_decide; subst|].
  repeat (case_decide; simpl); subst; try done; rewrite IH; by case_decide.
Qed.

Lemma alist_get_pop k k' l :
  alist_get k' (alist_pop k l) = if decide (k = k') then None else alist_get k' l.
Proof.
  induction l as [|[k1 v1] l IH]; simpl; [by repeat case_decide; subst|].
  repeat (case_decide; simpl); subst; try done; rewrite IH; by case_decide.
Qed.

Lemma alist_set_keys k v l :
  (alist_set k v l).*1 = if decide (k ∈ l.*1) then l.*1 else l.*1 ++ [k].
Proof.
  induction l as [|[k1 v1] l IH]; [done|]. cbn.
  destruct (decide (k = k1)) as [->|Hne]; cbn.
  - rewrite decide_True by set_solver. done.
  - rewrite IH. do 2 case_decide; set_solver.
Qed.

Lemma alist_pop_keys k l : (alist_pop k l).*1 = filter (λ x, k ≠ x) (l.*1).
Proof.
  induction l as [|[k1 v1] l IH]; [done|].
  rewrite fmap_cons, filter_cons. simpl.
  repeat case_decide; rewrite ?fmap_cons; simpl; congruence.
Qed.

Lemma alist_get_elem k v l : alist_get k l = Some v → (k, v) ∈ l.
Proof.
  induction l as [|[k1 v1] l IH]; [done|]. cbn. case_decide; subst; set_solver.
Qed.

Lemma alist_elem_get k v l : NoDup l.*1 → (k, v) ∈ l → alist_get k l = Some v.
Proof.
  induction l as [|[k1 v1] l IH]; cbn; [set_solver|].
  rewrite NoDup_cons, list_elem_of_fmap, elem_of_cons.
  intros [Hni Hnd] [Heq|Hin].
  - simplify_eq. by rewrite decide_True.
  - rewrite decide_False by (intros ->; apply Hni; by exists (k1, v)). auto.
Qed.

Lemma alist_get_dom k l : is_Some (alist_get k l) ↔ k ∈ l.*1.
Proof.
  induction l as [|[k1 v1] l IH]; cbn; [split; [by intros [? ?]|set_solver]|].
  case_decide; subst; [split; [set_solver|by eexists]|].
  rewrite IH. set_solver.
Qed.
End alist.
#[export] Instance dict_empty {V} : Empty (dict V) := Dict [].
#[export] Instance dict_lookup {V} : Lookup string V (dict V) :=
  λ k d, alist_get k (items d).
#[export] Instance dict_insert {V} : Insert string V (dict V) :=
  λ k v d, Dict (alist_set k v (items d)).
#[export] Instance dict_delete {V} : Delete string (dict V) :=
  λ k d, Dict (alist_pop k (items d)).

(** [k in d], [len(d)], [d.keys()], [d.values()] *)
Definition dict_mem {V} (k : string) (d : dict V) : bool :=
  match d !! k with Some _ => true | None => false end.
Definition dict_len {V} (d : dict V) : Z := Z.of_nat (length (items d)).
Definition keys {V} (d : dict V) : list string := (items d).*1.
Definition values {V} (d : dict V) : list V := (items d).*2.

(** [d.get(k, default)] and [d.setdefault(k, default)] *)
Definition dict_get_or {V} (k : string) (x : V) (d : dict V) : V :=
  match d !! k with Some v => v | None => x end.
Definition dict_setdefault {V} (k : string) (x : V) (d : dict V) : dict V :=
  match d !! k with Some _ => d | None => <[k := x]> d end.

(** [{k: v for k, v in d.items() if P(k, v)}] *)
Definition dict_filter {V} (P : string → V → bool) (d : dict V) : dict V :=
  Dict (List.filter (λ kv, P kv.1 kv.2) (items d)).

(** A value of Python type [dict]: no key occurs twice. *)
Definition dict_wf {V} (d : dict V) : Prop := NoDup (keys d).

Section dict.
Context {V : Type}.
Implicit Types (k : string) (v : V) (d : dict V).

Lemma dict_lookup_empty k : (∅ : dict V) !! k = None.
Proof. done. Qed.

Lemma dict_lookup_insert k k' v d :
  <[k := v]> d !! k' = if decide (k = k') then Some v else d !! k'.
Proof. apply alist_get_set. Qed.

Lemma dict_lookup_insert_eq k v d : <[k := v]> d !! k = Some v.
Proof. rewrite dict_lookup_insert. by rewrite decide_True. Qed.

Lemma dict_lookup_insert_ne k k' v d : k ≠ k' → <[k := v]> d !! k' = d !! k'.
Proof. intros. rewrite dict_lookup_insert. by rewrite decide_False. Qed.

Lemma dict_lookup_delete k k' d :
  delete k d !! k' = if decide (k = k') then None else d !! k'.
Proof. apply alist_get_pop. Qed.

Lemma dict_lookup_delete_eq k d : delete k d !! k = None.
Proof. rewrite dict_lookup_delete. by rewrite decide_True. Qed.

Lemma dict_lookup_delete_ne k k' d : k ≠ k' → delete k d !! k' = d !! k'.
Proof. intros. rewrite dict_lookup_delete. by rewrite decide_False. Qed.

Lemma dict_lookup_setdefault k k' v d :
  dict_setdefault k v d !! k' =
    if decide (k = k') then Some (dict_get_or k v d) else d !! k'.
Proof.
  unfold dict_setdefault, dict_get_or. destruct (d !! k) eqn:E.
  - case_decide; by subst.
  - apply dict_lookup_insert.
Qed.

Lemma dict_mem_spec k d : dict_mem k d = true ↔ is_Some (d !! k).
Proof.
  unfold dict_mem. destruct (d !! k); split; naive_solver.
Qed.

Lemma dict_mem_false k d : dict_mem k d = false ↔ d !! k = None.
Proof. unfold dict_mem. by destruct (d !! k). Qed.

Lemma dict_wf_empty : dict_wf (∅ : dict V).
Proof. apply NoDup_nil_2. Qed.

Lemma dict_wf_insert k v d : dict_wf d → dict_wf (<[k := v]> d).
Proof.
  unfold dict_wf, keys. change (items (<[k:=v]> d)) with (alist_set k v (items d)).
  rewrite alist_set_keys. intros Hnd.
  case_decide as Hk; [done|]. apply NoDup_app.
  split_and!; [done|set_solver|apply NoDup_singleton].
Qed.

Lemma dict_wf_delete k d : dict_wf d → dict_wf (delete k d).
Proof.
  unfold dict_wf, keys. change (items (delete k d)) with (alist_pop k (items d)).
  rewrite alist_pop_keys. apply NoDup_filter.
Qed.

Lemma dict_wf_setdefault k v d : dict_wf d → dict_wf (dict_setdefault k v d).
Proof. unfold dict_setdefault. destruct (d !! k); auto using dict_wf_insert. Qed.

Lemma dict_wf_filter P d : dict_wf d → dict_wf (dict_filter P d).
Proof.
  unfold dict_wf, keys, dict_filter. cbn. destruct d as [l]. cbn.
  induction l as [|[k v] l IH]; cbn; [done|]. rewrite NoDup_cons.
  intros [Hni Hnd]. destruct (P k v); cbn; [|auto]. apply NoDup_cons. split; [|auto].
  contradict Hni. revert Hni. rewrite !list_elem_of_fmap.
  intros (kv & -> & Hin). exists kv. split; [done|].
  apply list_elem_of_In, filter_In in Hin as [Hin _]. by apply list_elem_of_In.
Qed.

Lemma dict_elem_of_items k v d : dict_wf d → (k, v) ∈ items d ↔ d !! k = Some v.
Proof.
  intros Hwf. split; [by apply alist_elem_get|apply alist_get_elem].
Qed.

Lemma dict_elem_of_keys k d : k ∈ keys d ↔ is_Some (d !! k).
Proof. unfold keys. by rewrite <- alist_get_dom. Qed.

Lemma dict_elem_of_values v d :
  dict_wf d → v ∈ values d ↔ ∃ k, d !! k = Some v.
Proof.
  intros Hwf. unfold values. rewrite list_elem_of_fmap. split.
  - intros ([k v'] & -> & Hin). exists k. by apply dict_elem_of_items.
  - intros (k & Hk). exists (k, v). split; [done|]. by apply dict_elem_of_items.
Qed.

Lemma dict_lookup_filter P k d :
  dict_wf d →
  dict_filter P d !! k =
    match d !! k with Some v => if P k v then Some v else None | None => None end.
Proof.
  intros Hwf. apply option_eq. intros v.
  rewrite <- dict_elem_of_items by by apply dict_wf_filter.
  unfold dict_filter. cbn. rewrite list_elem_of_In, filter_In, <- list_elem_of_In.
  rewrite dict_elem_of_items by done. cbn.
  destruct (d !! k) as [v'|]; [|naive_solver].
  destruct (P k v') eqn:E; split; naive_solver congruence.
Qed.

Lemma dict_len_nonneg d : 0 <= dict_len d.
Proof. unfold dict_len. lia. Qed.

Lemma dict_len_insert k v d :
  dict_len (<[k := v]> d) = if dict_mem k d then dict_len d else dict_len d + 1.
Proof.
  unfold dict_len, dict_mem, insert, lookup, dict_insert, dict_lookup. cbn.
  rewrite <- !(length_fmap fst), alist_set_keys.
  destruct (alist_get k (items d)) eqn:E.
  - rewrite decide_True; [done|]. apply alist_get_dom. by eexists.
  - rewrite decide_False, length_app; cbn; [lia|].
    rewrite <- alist_get_dom, E. by intros [? ?].
Qed.

Lemma dict_len_delete k d :
  dict_wf d → is_Some (d !! k) → dict_len (delete k d) = dict_len d - 1.
Proof.
  unfold dict_wf, dict_len, keys, delete, lookup, dict_delete, dict_lookup.
  destruct d as [l]. cbn. induction l as [|[k1 v1] l IH]; cbn; [by intros _ [? ?]|].
  rewrite NoDup_cons. intros [Hni Hnd] Hs. destruct (decide (k = k1)) as [->|].
  - cut (alist_pop k1 l = l); [intros ->; lia|]. clear -Hni.
    induction l as [|[k2 v2] l IH]; cbn; [done|].
    rewrite decide_False by set_solver. f_equal. apply IH. set_solver.
  - cbn. specialize (IH Hnd Hs). lia.
Qed.

Lemma dict_len_delete_le k d : dict_len (delete k d) <= dict_len d.
Proof.
  unfold dict_len, delete, dict_delete. cbn.
  rewrite <- !(length_fmap fst), alist_pop_keys.
  pose proof (length_filter (λ x, k ≠ x) (items d).*1). lia.
Qed.
End dict.

(** ** Dictionaries up to iteration order

    Two dictionaries with the same bindings answer every look-up alike; only
    iteration tells them apart. *)

#[export] Instance dict_equiv {V} : Equiv (dict V) := λ d1 d2, ∀ k, d1 !! k = d2 !! k.

#[export] Instance dict_equivalence {V} : Equivalence (≡@{dict V}).
Proof.
  split; [by intros d k|by intros d1 d2 H k|].
  intros d1 d2 d3 H1 H2 k. by rewrite (H1 k).
Qed.

#[export] Instance dict_insert_proper {V} k v :
  Proper ((≡) ==> (≡)) (insert k v : dict V → dict V).
Proof. intros d1 d2 H k'. by rewrite !dict_lookup_insert, (H k'). Qed.

#[export] Instance dict_delete_proper {V} k :
  Proper ((≡) ==> (≡)) (delete k : dict V → dict V).
Proof. intros d1 d2 H k'. by rewrite !dict_lookup_delete, (H k'). Qed.

#[export] Instance dict_lookup_proper {V} k :
  Proper ((≡) ==> (=)) (lookup k : dict V → option V).
Proof. intros d1 d2 H. apply H. Qed.

Create HintDb dict discriminated.
#[export] Hint Resolve dict_wf_empty dict_wf_insert dict_wf_delete dict_wf_setdefault
  dict_wf_filter : dict.
#[export] Hint Rewrite @dict_lookup_empty @dict_lookup_insert_eq @dict_lookup_delete_eq
  : dict.

(** Compute look-ups, splitting on the keys that may be equal. *)
Ltac dict_simp :=
  repeat first
    [ progress autorewrite with dict in *
    | rewrite dict_lookup_insert_ne in * by congruence
    | rewrite dict_lookup_delete_ne in * by congruence
    | progress simplify_eq/= ].

Ltac dict_case :=
  repeat first
    [ rewrite dict_lookup_insert in * | rewrite dict_lookup_delete in *
    | rewrite dict_lookup_setdefault in *
    | case_decide; subst | progress simplify_eq/= ].

