(* ===== verification/Sorting.v ===== *)
(** * Stable sorting and slices

    [sorted(l, key=...)] is stable: elements with equal keys keep their order.
    The order is observable, because every batch of the backend is a prefix of
    a sorted list.  [sorted(l, key=k, reverse=True)] is also stable, so it is
    [sort_by] with the opposite key. *)

From S2P Require Import Prelude.
From Stdlib Require Export Sorting.Sorted.

Section sort.
Context {A : Type} (key : A → Z).

Fixpoint insert_by (x : A) (l : list A) : list A :=
  match l with
  | [] => [x]
  | y :: l' => if key x <=? key y then x :: l else y :: insert_by x l'
  end.

Definition sort_by (l : list A) : list A := foldr insert_by [] l.

Definition key_le (x y : A) : Prop := key x <= key y.

Lemma insert_by_perm x l : insert_by x l ≡ₚ x :: l.
Proof.
  induction l as [|y l IH]; cbn; [done|]. case_match; [done|].
  rewrite IH. apply Permutation_swap.
Qed.

Lemma sort_by_perm l : sort_by l ≡ₚ l.
Proof. induction l as [|x l IH]; cbn; [done|]. by rewrite insert_by_perm, IH. Qed.

Lemma elem_of_sort_by x l : x ∈ sort_by l ↔ x ∈ l.
Proof. by rewrite sort_by_perm. Qed.

Lemma insert_by_sorted x l : StronglySorted key_le l → StronglySorted key_le (insert_by x l).
Proof.
  induction 1 as [|y l Hs IH Hy]; cbn; [repeat constructor|].
  destruct (Z.leb_spec (key x) (key y)) as [Hle|Hlt].
  - repeat constructor; auto. eapply Forall_impl; [exact Hy|]. unfold key_le. lia.
  - constructor; [done|]. rewrite insert_by_perm. constructor; [unfold key_le; lia|done].
Qed.

Lemma sort_by_sorted l : StronglySorted key_le (sort_by l).
Proof. induction l; cbn; [constructor|]. by apply insert_by_sorted. Qed.

Lemma insert_by_stable k x l :
  filter (λ y, key y = k) (insert_by x l) = filter (λ y, key y = k) (x :: l).
Proof.
  induction l as [|y l IH]; [done|]. cbn [insert_by].
  destruct (Z.leb_spec (key x) (key y)); [done|].
  rewrite filter_cons, IH, !filter_cons. repeat case_decide; congruence || lia.
Qed.

Lemma sort_by_stable k l :
  filter (λ y, key y = k) (sort_by l) = filter (λ y, key y = k) l.
Proof.
  induction l as [|x l IH]; [done|]. cbn [sort_by foldr].
  fold (sort_by l). by rewrite insert_by_stable, !filter_cons, IH.
Qed.

Lemma sorted_app_le l1 l2 x y :
  StronglySorted key_le (l1 ++ l2) → x ∈ l1 → y ∈ l2 → key x <= key y.
Proof.
  induction l1 as [|z l1 IH]; cbn; [set_solver|]. intros Hs Hx Hy.
  inversion Hs as [|? ? Hs' Hz]; subst. apply elem_of_cons in Hx as [->|Hx]; [|auto].
  rewrite Forall_forall in Hz. apply Hz. set_solver.
Qed.
End sort.

(** [l[:n]] *)
Definition slice_to {A} (n : Z) (l : list A) : list A :=
  take (Z.to_nat (if n <? 0 then Z.of_nat (length l) + n else n)) l.

(** [l[n:]] for [n >= 0] *)
Definition slice_from {A} (n : Z) (l : list A) : list A := drop (Z.to_nat n) l.

Lemma slice_to_prefix {A} n (l : list A) : ∃ l', l = slice_to n l ++ l'.
Proof. unfold slice_to. eexists. by rewrite take_drop. Qed.

Lemma elem_of_slice_to {A} n (l : list A) x : x ∈ slice_to n l → x ∈ l.
Proof. destruct (slice_to_prefix n l) as [l' Hl]. rewrite Hl at 2. set_solver. Qed.

Lemma slice_to_length {A} n (l : list A) : 0 <= n → Z.of_nat (length (slice_to n l)) <= n.
Proof.
  intros Hn. unfold slice_to. rewrite (proj2 (Z.ltb_ge n 0)) by done.
  rewrite length_take. lia.
Qed.

Lemma slice_to_all {A} n (l : list A) : Z.of_nat (length l) <= n → slice_to n l = l.
Proof.
  intros Hn. unfold slice_to. rewrite (proj2 (Z.ltb_ge n 0)) by lia.
  apply take_ge. lia.
Qed.

(** A batch taken from the front of a sorted list holds the smallest keys. *)
Lemma slice_sorted_min {A} (key : A → Z) n l x y :
  x ∈ slice_to n (sort_by key l) → y ∈ l → y ∉ slice_to n (sort_by key l) →
  key x <= key y.
Proof.
  intros Hx Hy Hny. destruct (slice_to_prefix n (sort_by key l)) as [l' Hl].
  apply (elem_of_sort_by key) in Hy.
  apply (sorted_app_le key (slice_to n (sort_by key l)) l'); [|done|].
  - rewrite <- Hl. apply sort_by_sorted.
  - rewrite Hl in Hy. set_solver.
Qed.

Lemma sorted_slice {A} (key : A → Z) n l :
  StronglySorted (key_le key) l → StronglySorted (key_le key) (slice_to n l).
Proof.
  unfold slice_to. generalize (Z.to_nat (if n <? 0 then Z.of_nat (length l) + n else n)).
  intros k Hs. revert k. induction Hs as [|x l Hs IH Hx]; intros [|k]; cbn; constructor; [done|].
  by apply Forall_take.
Qed.

(** A slice that is not the whole list is full. *)
Lemma slice_to_full {A} n (l : list A) :
  0 <= n → slice_to n l ≠ l → Z.of_nat (length (slice_to n l)) = n.
Proof.
  intros Hn Hne. destruct (decide (Z.of_nat (length l) <= n)).
  - by rewrite slice_to_all in Hne.
  - unfold slice_to. rewrite (proj2 (Z.ltb_ge n 0)) by done. rewrite length_take. lia.
Qed.
