(* ===== verification/Prog.v ===== *)
(** * Programs that await

    The services of the backend are coroutines: they await the repository, the
    provider, the queue, the clock, and between two awaits nothing else runs.
    A coroutine is a [prog]: a tree whose nodes are the awaited calls and whose
    continuation receives either the value of the call or the exception it
    raised.  Any call may raise, and everything else in the system may act
    between two calls, so a property proved for all answers holds for every
    interleaving.

    - [run] executes a program against a deterministic handler;
    - [pstep] is the small-step semantics with interference from the rest of
      the system between two calls;
    - [safe] is a program logic: a monitor watches the calls, [safe] says that
      every call the program can make is allowed by the monitor and that the
      postcondition holds of every way it can end. *)

From S2P Require Import Prelude.

Inductive outcome (X A : Type) : Type :=
| Ok (a : A)
| Exc (x : X).
Arguments Ok {X A} _.
Arguments Exc {X A} _.

Structure sig := Sig { op : Type; ans : op → Type; exc : Type }.

Section Prog.
Context {Σ : sig}.

Inductive prog (A : Type) : Type :=
| Ret (a : A)
| Raise (x : exc Σ)
| Call (o : op Σ) (k : outcome (exc Σ) (ans Σ o) → prog A).
Arguments Ret {A} _.
Arguments Raise {A} _.
Arguments Call {A} _ _.

#[export] Instance prog_ret : MRet prog := λ A a, Ret a.

#[export] Instance prog_bind : MBind prog := λ A B f,
  fix go (p : prog A) : prog B :=
    match p with
    | Ret a => f a
    | Raise x => Raise x
    | Call o k => Call o (λ r, go (k r))
    end.

(** [await o] *)
Definition perform (o : op Σ) : prog (ans Σ o) :=
  Call o (λ r, match r with Ok a => Ret a | Exc x => Raise x end).

(** [try: p  except ...: h]; [h x = None] when no [except] clause matches. *)
Fixpoint try_except {A} (p : prog A) (h : exc Σ → option (prog A)) : prog A :=
  match p with
  | Ret a => Ret a
  | Raise x => match h x with Some q => q | None => Raise x end
  | Call o k => Call o (λ r, try_except (k r) h)
  end.

(** The outcome of [p] as a value, for a [try] whose [else] part must not be
    protected by the handler. *)
Fixpoint attempt {A} (p : prog A) : prog (outcome (exc Σ) A) :=
  match p with
  | Ret a => Ret (Ok a)
  | Raise x => Ret (Exc x)
  | Call o k => Call o (λ r, attempt (k r))
  end.

(** [try: p  finally: q] *)
Definition try_finally {A} (p : prog A) (q : prog ()) : prog A :=
  r ← attempt p; _ ← q; match r with Ok a => Ret a | Exc x => Raise x end.

(** ** Execution against a deterministic handler *)

Section run.
Context {S : Type} (h : ∀ o : op Σ, S → outcome (exc Σ) (ans Σ o) * S).

Fixpoint run {A} (p : prog A) (s : S) : outcome (exc Σ) A * S :=
  match p with
  | Ret a => (Ok a, s)
  | Raise x => (Exc x, s)
  | Call o k => let '(r, s') := h o s in run (k r) s'
  end.

Lemma run_bind {A B} (p : prog A) (f : A → prog B) s :
  run (p ≫= f) s =
    match run p s with
    | (Ok a, s') => run (f a) s'
    | (Exc x, s') => (Exc x, s')
    end.
Proof.
  revert s. induction p as [a|x|o k IH]; intros s; [done|done|].
  simpl. destruct (h o s) as [r s']. apply IH.
Qed.

Lemma run_attempt {A} (p : prog A) s : run (attempt p) s = (Ok (run p s).1, (run p s).2).
Proof.
  revert s. induction p as [a|x|o k IH]; intros s; cbn; [done|done|].
  destruct (h o s) as [r s']. apply IH.
Qed.

Lemma run_attempt_bind {A B} (p : prog A) (f : outcome (exc Σ) A → prog B) s :
  run (attempt p ≫= f) s = run (f (run p s).1) (run p s).2.
Proof. by rewrite run_bind, run_attempt. Qed.
End run.

(** ** Runs: every call with the answer it got *)

Inductive event := Ev (o : op Σ) (r : outcome (exc Σ) (ans Σ o)).

Inductive runs {A} : prog A → list event → outcome (exc Σ) A → Prop :=
| runs_ret a : runs (Ret a) [] (Ok a)
| runs_raise x : runs (Raise x) [] (Exc x)
| runs_call o k r t out : runs (k r) t out → runs (Call o k) (Ev o r :: t) out.

Lemma runs_inv {A} (p : prog A) t out :
  runs p t out →
  match p with
  | Ret a => t = [] ∧ out = Ok a
  | Raise x => t = [] ∧ out = Exc x
  | Call o k => ∃ r t', t = Ev o r :: t' ∧ runs (k r) t' out
  end.
Proof. destruct 1; eauto. Qed.

Lemma runs_ret_inv {A} (a : A) t out : runs (Ret a) t out → t = [] ∧ out = Ok a.
Proof. exact (runs_inv (Ret a) t out). Qed.

Lemma runs_raise_inv {A} x t (out : outcome (exc Σ) A) : runs (Raise x) t out → t = [] ∧ out = Exc x.
Proof. exact (runs_inv (Raise x) t out). Qed.

Lemma runs_call_inv {A} o k t (out : outcome (exc Σ) A) :
  runs (Call o k) t out → ∃ r t', t = Ev o r :: t' ∧ runs (k r) t' out.
Proof. exact (runs_inv (Call o k) t out). Qed.

Lemma runs_perform_inv o t out : runs (perform o) t out → t = [Ev o out].
Proof.
  intros (r & t' & -> & H)%runs_call_inv.
  destruct r; [apply runs_ret_inv in H|apply runs_raise_inv in H]; by destruct H as [-> ->].
Qed.

Lemma runs_bind_inv {A B} (p : prog A) (f : A → prog B) t out :
  runs (p ≫= f) t out →
  (∃ a t1 t2, t = t1 ++ t2 ∧ runs p t1 (Ok a) ∧ runs (f a) t2 out) ∨
  (∃ x, runs p t (Exc x) ∧ out = Exc x).
Proof.
  revert t. induction p as [a|x|o k IH]; intros t H.
  - left. exists a, [], t. split_and!; [done|constructor|exact H].
  - right. exists x. apply runs_raise_inv in H as [-> ->]. split; [constructor|done].
  - apply runs_call_inv in H as (r & t' & -> & H).
    destruct (IH r t' H) as [(a & t1 & t2 & -> & H1 & H2)|(x & H1 & ->)].
    + left. exists a, (Ev o r :: t1), t2. split_and!; [done|by constructor|done].
    + right. exists x. split; [by constructor|done].
Qed.

Lemma runs_attempt_inv {A} (p : prog A) t out :
  runs (attempt p) t out → ∃ r, runs p t r ∧ out = Ok r.
Proof.
  revert t. induction p as [a|x|o k IH]; intros t H; cbn in H.
  - apply runs_ret_inv in H as [-> ->]. eauto using runs.
  - apply runs_ret_inv in H as [-> ->]. eauto using runs.
  - apply runs_call_inv in H as (r & t' & -> & H). destruct (IH r t' H) as (r' & ? & ->).
    eauto using runs.
Qed.

Lemma runs_try_inv {A} (p : prog A) h t out :
  runs (try_except p h) t out →
  (∃ a, out = Ok a ∧ runs p t (Ok a)) ∨
  (∃ x, h x = None ∧ out = Exc x ∧ runs p t (Exc x)) ∨
  (∃ x q t1 t2, h x = Some q ∧ t = t1 ++ t2 ∧ runs p t1 (Exc x) ∧ runs q t2 out).
Proof.
  revert t. induction p as [a|x|o k IH]; intros t H; cbn in H.
  - apply runs_ret_inv in H as [-> ->]. left. eauto using runs.
  - right. destruct (h x) as [q|] eqn:E.
    + right. exists x, q, [], t. split_and!; [done..|constructor|done].
    + left. apply runs_raise_inv in H as [-> ->]. eauto using runs.
  - apply runs_call_inv in H as (r & t' & -> & H).
    destruct (IH r t' H) as [(a & -> & ?)|[(x & ? & -> & ?)|(x & q & t1 & t2 & ? & -> & ? & ?)]].
    + left. eauto using runs.
    + right; left. eauto using runs.
    + right; right. exists x, q, (Ev o r :: t1), t2. split_and!; try done. by constructor.
Qed.

(** The run a deterministic handler produces. *)
Fixpoint record {S A} (h : ∀ o : op Σ, S → outcome (exc Σ) (ans Σ o) * S)
    (p : prog A) (s : S) : list event * outcome (exc Σ) A :=
  match p with
  | Ret a => ([], Ok a)
  | Raise x => ([], Exc x)
  | Call o k =>
      let '(r, s') := h o s in
      let '(t, out) := record h (k r) s' in
      (Ev o r :: t, out)
  end.

Lemma record_runs {S A} h (p : prog A) (s : S) : runs p (record h p s).1 (record h p s).2.
Proof.
  revert s. induction p as [a|x|o k IH]; intros s; cbn; [constructor..|].
  destruct (h o s) as [r s']. specialize (IH r s').
  destruct (record h (k r) s'). by constructor.
Qed.

(** Every answer of a recorded run is one of the handler. *)
Lemma record_answers {S A} (h : ∀ o : op Σ, S → outcome (exc Σ) (ans Σ o) * S) (p : prog A) (s : S) :
  Forall (λ '(Ev o r), ∃ s', r = (h o s').1) (record h p s).1.
Proof.
  revert s. induction p as [a|x|o k IH]; intros s; cbn; [constructor..|].
  destruct (h o s) as [r s'] eqn:E. specialize (IH r s').
  destruct (record h (k r) s'). constructor; [|done]. exists s. by rewrite E.
Qed.

(** ** Small steps with interference *)

Section steps.
Context {S : Type} (H : ∀ o : op Σ, S → outcome (exc Σ) (ans Σ o) → S → Prop)
        (env : S → S → Prop).

Inductive pstep {A} : prog A * S → prog A * S → Prop :=
| pstep_env p s s' : env s s' → pstep (p, s) (p, s')
| pstep_call o k s r s' : H o s r s' → pstep (Call o k, s) (k r, s').
End steps.

Definition of_outcome {A} (r : outcome (exc Σ) A) : prog A :=
  match r with Ok a => Ret a | Exc x => Raise x end.

(** An execution against a deterministic handler is one interleaving. *)
Lemma run_psteps {S A} H (env : S → S → Prop) h (p : prog A) s :
  (∀ o s, H o s (h o s).1 (h o s).2) →
  rtc (pstep H env) (p, s) (of_outcome (run h p s).1, (run h p s).2).
Proof.
  intros Hh. revert s. induction p as [a|x|o k IH]; intros s; cbn; [done..|].
  specialize (Hh o s). destruct (h o s) as [r s']. eapply rtc_l; [by constructor|]. apply IH.
Qed.

(** ** The monitor logic *)

Record monitor := Monitor {
  mstate : Type;
  mok : mstate → op Σ → Prop;                                  (* allowed calls *)
  mrely : mstate → ∀ o : op Σ, outcome (exc Σ) (ans Σ o) → Prop; (* answers expected *)
  mnext : mstate → ∀ o : op Σ, outcome (exc Σ) (ans Σ o) → mstate;
}.

Section safe.
Context (M : monitor).

Fixpoint safe {A} (σ : mstate M) (p : prog A)
    (Q : outcome (exc Σ) A → mstate M → Prop) : Prop :=
  match p with
  | Ret a => Q (Ok a) σ
  | Raise x => Q (Exc x) σ
  | Call o k =>
      mok M σ o ∧ ∀ r, mrely M σ o r → safe (mnext M σ o r) (k r) Q
  end.

Lemma safe_mono {A} σ (p : prog A) (Q Q' : _ → _ → Prop) :
  safe σ p Q → (∀ r σ', Q r σ' → Q' r σ') → safe σ p Q'.
Proof.
  revert σ. induction p as [a|x|o k IH]; intros σ Hs HQ; cbn in *; auto.
  destruct Hs as [Hok Hk]. split; [done|]. intros r Hr. eauto.
Qed.

Lemma safe_bind {A B} σ (p : prog A) (f : A → prog B) Q :
  safe σ p (λ r σ', match r with Ok a => safe σ' (f a) Q | Exc x => Q (Exc x) σ' end) →
  safe σ (p ≫= f) Q.
Proof.
  revert σ. induction p as [a|x|o k IH]; intros σ; cbn; auto.
  intros [Hok Hk]. split; [done|]. intros r Hr. apply IH; auto.
Qed.

Lemma safe_try {A} σ (p : prog A) h Q :
  safe σ p (λ r σ', match r with
                    | Ok a => Q (Ok a) σ'
                    | Exc x => match h x with
                               | Some q => safe σ' q Q
                               | None => Q (Exc x) σ'
                               end
                    end) →
  safe σ (try_except p h) Q.
Proof.
  revert σ. induction p as [a|x|o k IH]; intros σ; cbn; auto.
  - by destruct (h x).
  - intros [Hok Hk]. split; [done|]. intros r Hr. apply IH; auto.
Qed.

Lemma safe_attempt {A} σ (p : prog A) Q :
  safe σ p (λ r σ', Q (Ok r) σ') → safe σ (attempt p) Q.
Proof.
  revert σ. induction p as [a|x|o k IH]; intros σ; cbn; auto.
  intros [Hok Hk]. split; [done|]. intros r Hr. apply IH; auto.
Qed.

Lemma safe_perform σ o Q :
  mok M σ o → (∀ r, mrely M σ o r → Q r (mnext M σ o r)) → safe σ (perform o) Q.
Proof. intros Hok HQ. split; [done|]. intros [a|x] Hr; cbn; auto. Qed.

Lemma safe_call_bind {A} σ o (f : ans Σ o → prog A) Q :
  mok M σ o →
  (∀ a, mrely M σ o (Ok a) → safe (mnext M σ o (Ok a)) (f a) Q) →
  (∀ x, mrely M σ o (Exc x) → Q (Exc x) (mnext M σ o (Exc x))) →
  safe σ (perform o ≫= f) Q.
Proof. intros Hok Ha Hx. split; [done|]. intros [a|x] Hr; cbn; auto. Qed.

Lemma safe_attempt_bind {A B} σ (p : prog A) (f : outcome (exc Σ) A → prog B) Q :
  safe σ p (λ r σ', safe σ' (f r) Q) → safe σ (attempt p ≫= f) Q.
Proof. intros H. apply safe_bind, safe_attempt. exact H. Qed.

(** Soundness for [run]: a handler whose answers meet the monitor's
    expectations drives the program to an outcome in the postcondition. *)
Lemma safe_run {S A} (h : ∀ o : op Σ, S → outcome (exc Σ) (ans Σ o) * S)
    (J : mstate M → S → Prop) σ (p : prog A) Q s :
  (∀ σ o s, J σ s → mok M σ o →
     mrely M σ o (h o s).1 ∧ J (mnext M σ o (h o s).1) (h o s).2) →
  J σ s → safe σ p Q → ∃ σ', Q (run h p s).1 σ' ∧ J σ' (run h p s).2.
Proof.
  intros Hh. revert σ s. induction p as [a|x|o k IH]; intros σ s HJ Hs; cbn in *.
  - eauto.
  - eauto.
  - destruct Hs as [Hok Hk]. destruct (Hh σ o s HJ Hok) as [Hr HJ'].
    destruct (h o s) as [r s']; cbn in *. eapply IH; eauto.
Qed.

Lemma safe_total {A} σ (p : prog A) : (∀ σ o, mok M σ o) → safe σ p (λ _ _, True).
Proof. intros Hok. revert σ. induction p as [a|x|o k IH]; intros σ; cbn; auto. Qed.

(** The monitor along a run. *)
Definition mstep (σ : mstate M) (e : event) : mstate M :=
  match e with Ev o r => mnext M σ o r end.

Fixpoint relied (σ : mstate M) (t : list event) : Prop :=
  match t with
  | [] => True
  | Ev o r :: t' => mrely M σ o r ∧ relied (mnext M σ o r) t'
  end.

Fixpoint accepted (σ : mstate M) (t : list event) : Prop :=
  match t with
  | [] => True
  | Ev o r :: t' => mok M σ o ∧ accepted (mnext M σ o r) t'
  end.

Lemma safe_runs {A} σ (p : prog A) Q t out :
  safe σ p Q → runs p t out → relied σ t →
  accepted σ t ∧ Q out (fold_left mstep t σ).
Proof.
  intros Hs Hr. revert σ Hs. induction Hr as [a|x|o k r t out Hr IH]; intros σ Hs Hrel; cbn in *.
  - done.
  - done.
  - destruct Hs as [Hok Hk], Hrel as [Hr1 Hr2]. destruct (IH _ (Hk r Hr1) Hr2). done.
Qed.

Lemma accepted_app σ t1 t2 :
  accepted σ (t1 ++ t2) ↔ accepted σ t1 ∧ accepted (fold_left mstep t1 σ) t2.
Proof.
  revert σ. induction t1 as [|[o r] t1 IH]; intros σ; cbn; [tauto|]. rewrite IH. tauto.
Qed.

(** Soundness for interleaved execution: whatever the rest of the system
    does between two calls, every call made is one the monitor allows. *)
Lemma safe_pstep {S A} H (env : S → S → Prop) (J : mstate M → S → Prop)
    (p p' : prog A) σ Q s s' :
  (∀ σ o s r s', J σ s → mok M σ o → H o s r s' →
     mrely M σ o r ∧ J (mnext M σ o r) s') →
  (∀ σ s s', J σ s → env s s' → J σ s') →
  rtc (pstep H env) (p, s) (p', s') →
  J σ s → safe σ p Q → ∃ σ', J σ' s' ∧ safe σ' p' Q.
Proof.
  intros HH Henv Hst. remember (p, s) as c eqn:Hc. remember (p', s') as c' eqn:Hc'.
  revert p s σ Hc. induction Hst as [c|c1 c2 c3 Hs _ IH]; intros p s σ Hc HJ Hsafe.
  - simplify_eq. eauto.
  - subst c1. inversion Hs as [q t t' He|o k t r t' Hcall]; subst.
    + eapply IH; eauto.
    + destruct Hsafe as [Hok Hk]. destruct (HH _ _ _ _ _ HJ Hok Hcall) as [Hr HJ'].
      eapply IH; eauto.
Qed.
End safe.

(** A deterministic handler that serves the calls the monitor allows drives
    the program along one interleaving. *)
Lemma safe_run_psteps {S A} M H (env : S → S → Prop) h σ (p : prog A) Q s :
  (∀ σ o s, mok M σ o → H o s (h o s).1 (h o s).2 ∧ mrely M σ o (h o s).1) →
  safe M σ p Q → rtc (pstep H env) (p, s) (of_outcome (run h p s).1, (run h p s).2).
Proof.
  intros Hh. revert σ s. induction p as [a|x|o k IH]; intros σ s Hs; cbn in *; [done..|].
  destruct Hs as [Hok Hk]. destruct (Hh σ o s Hok) as [Ho Hr].
  destruct (h o s) as [r s']; cbn in *. eapply rtc_l; [by constructor|]. eapply IH, Hk, Hr.
Qed.

(** A monitor that remembers the whole run. *)
Definition tracing (ok : list event → op Σ → Prop) : monitor :=
  Monitor (list event) ok (λ _ _ _, True) (λ t o r, t ++ [Ev o r]).

Lemma tracing_relied ok t0 t : relied (tracing ok) t0 t.
Proof. revert t0. induction t as [|[o r] t IH]; intros t0; cbn; auto. Qed.

Lemma tracing_final ok t0 t : fold_left (mstep (tracing ok)) t t0 = t0 ++ t.
Proof.
  revert t0. induction t as [|[o r] t IH]; intros t0; cbn; [by rewrite app_nil_r|].
  by rewrite IH, <-app_assoc.
Qed.

(** Every call of every run is allowed by what came before it. *)
Lemma tracing_runs {A} ok (p : prog A) Q t out :
  safe (tracing ok) [] p Q → runs p t out →
  (∀ t1 o r t2, t = t1 ++ Ev o r :: t2 → ok t1 o) ∧ Q out t.
Proof.
  intros Hs Hr. destruct (safe_runs _ _ _ _ _ _ Hs Hr (tracing_relied ok [] t)) as [Ha Hq].
  rewrite tracing_final in Hq. split; [|done]. intros t1 o r t2 ->.
  apply accepted_app in Ha as [_ Ha]. rewrite tracing_final in Ha. apply Ha.
Qed.
End Prog.

Arguments prog : clear implicits.
Arguments Ret {Σ A} _.
Arguments Raise {Σ A} _.
Arguments Call {Σ A} _ _.
Arguments monitor : clear implicits.
Arguments mstate {Σ} _.
Arguments event : clear implicits.
Arguments Ev {Σ} _ _.

(** ** A program as a part of a larger one

    The calls of a component are calls of the system it is part of.  [inj]
    renames them, [back] reads an answer of the system as the component sees it
    (an exception of another component is a foreign one), [lift] is what the
    system sees of an exception of the component. *)
Section embed.
Context {Σ1 Σ2 : sig} (inj : op Σ1 → op Σ2).
Context (back : ∀ o, outcome (exc Σ2) (ans Σ2 (inj o)) → outcome (exc Σ1) (ans Σ1 o)).
Context (lift : exc Σ1 → exc Σ2).

Fixpoint embed {A} (p : prog Σ1 A) : prog Σ2 A :=
  match p with
  | Ret a => Ret a
  | Raise x => Raise (lift x)
  | Call o k => Call (inj o) (λ r, embed (k (back o r)))
  end.

(** The run of the whole that a run of the part is. *)
Inductive embeds : list (event Σ2) → list (event Σ1) → Prop :=
| embeds_nil : embeds [] []
| embeds_cons o r t t1 : embeds t t1 → embeds (Ev (inj o) r :: t) (Ev o (back o r) :: t1).

Definition lift_outcome {A} (out : outcome (exc Σ1) A) : outcome (exc Σ2) A :=
  match out with Ok a => Ok a | Exc x => Exc (lift x) end.

Lemma runs_embed_inv {A} (p : prog Σ1 A) t out :
  runs (embed p) t out → ∃ t1 out1, embeds t t1 ∧ runs p t1 out1 ∧ out = lift_outcome out1.
Proof.
  revert t. induction p as [a|x|o k IH]; intros t H; cbn in H.
  - apply runs_ret_inv in H as [-> ->]. exists [], (Ok a). split_and!; [constructor..|done].
  - apply runs_raise_inv in H as [-> ->]. exists [], (Exc x). split_and!; [constructor..|done].
  - apply runs_call_inv in H as (r & t' & -> & H). apply IH in H as (t1 & out1 & H1 & H2 & ->).
    exists (Ev o (back o r) :: t1), out1. split_and!; [by constructor..|done].
Qed.
End embed.

(** [for x in l: body] with a [return] from inside the loop: the body answers
    [Some r] to leave the function with [r], [None] to go on. *)
Fixpoint for_first {Σ A B} (l : list A) (body : A → prog Σ (option B)) : prog Σ (option B) :=
  match l with
  | [] => Ret None
  | x :: l' => r ← body x; match r with Some b => Ret (Some b) | None => for_first l' body end
  end.

(** [for x in l: acc = body(acc, x)] *)
Fixpoint for_fold {Σ A B} (l : list A) (acc : B) (body : B → A → prog Σ B) : prog Σ B :=
  match l with
  | [] => Ret acc
  | x :: l' => acc' ← body acc x; for_fold l' acc' body
  end.

Section loops.
Context {Σ : sig} (M : monitor Σ).

Lemma safe_for_first {A B} σ (l : list A) (body : A → prog Σ (option B)) Q
    (I : mstate M → Prop) :
  I σ →
  (∀ x σ, x ∈ l → I σ →
     safe M σ (body x) (λ r σ', match r with
                                | Ok None => I σ'
                                | r => Q r σ'
                                end)) →
  (∀ σ, I σ → Q (Ok None) σ) →
  safe M σ (for_first l body) Q.
Proof.
  revert σ. induction l as [|x l IH]; intros σ HI Hb HQ; [by apply HQ|].
  cbn. apply safe_bind. eapply safe_mono; [apply Hb; [set_solver|done]|].
  intros [[b|]|e] σ' Hr; [done| |done]. apply IH; [done| |done].
  intros y σ2 Hy. apply Hb. set_solver.
Qed.

Lemma safe_for_fold {A B} σ (l : list A) (acc : B) (body : B → A → prog Σ B) Q
    (I : B → mstate M → Prop) :
  I acc σ →
  (∀ x acc σ, x ∈ l → I acc σ →
     safe M σ (body acc x) (λ r σ', match r with Ok b => I b σ' | Exc e => Q (Exc e) σ' end)) →
  (∀ acc σ, I acc σ → Q (Ok acc) σ) →
  safe M σ (for_fold l acc body) Q.
Proof.
  revert acc σ. induction l as [|x l IH]; intros acc σ HI Hb HQ; [by apply HQ|].
  cbn. apply safe_bind. eapply safe_mono; [apply Hb; [set_solver|done]|].
  intros [b|e] σ' Hr; [|done]. apply IH; [done| |done].
  intros y acc2 σ2 Hy. apply Hb. set_solver.
Qed.
End loops.
