(* ===== verification/Calendar.v ===== *)
(** * Dates, times of day and text

    What the backend uses of Python's [datetime], [str] and regular
    expressions.  Instants are microseconds since the Unix epoch (the
    resolution of [datetime]), durations are microseconds (the resolution of
    [timedelta]); dates are proleptic Gregorian.  Text is ASCII. *)

From S2P Require Import Prelude.
From Stdlib Require Export Ascii.

(** ** Durations *)

Definition seconds (n : Z) : Z := n * 1_000_000.
Definition minutes (n : Z) : Z := seconds (60 * n).
Definition days (n : Z) : Z := seconds (86400 * n).

(** ** Dates *)

Record date := Date { year : Z; month : Z; day : Z }.

#[export] Instance date_eq_dec : EqDecision date.
Proof. solve_decision. Defined.

Definition is_leap (y : Z) : bool :=
  (y mod 4 =? 0) && (negb (y mod 100 =? 0) || (y mod 400 =? 0)).

Definition days_in_month (y m : Z) : Z :=
  if m =? 2 then (if is_leap y then 29 else 28)
  else if (m =? 4) || (m =? 6) || (m =? 9) || (m =? 11) then 30 else 31.

Definition valid_date (d : date) : bool :=
  (1 <=? year d) && (year d <=? 9999) && (1 <=? month d) && (month d <=? 12)
  && (1 <=? day d) && (day d <=? days_in_month (year d) (month d)).

Definition days_before_year (y : Z) : Z :=
  let y1 := y - 1 in y1 * 365 + y1 / 4 - y1 / 100 + y1 / 400.

Fixpoint days_before_month_nat (y : Z) (m : nat) : Z :=
  match m with
  | O => 0
  | S m' => days_before_month_nat y m' + days_in_month y (Z.of_nat (S m'))
  end.
Definition days_before_month (y m : Z) : Z := days_before_month_nat y (Z.to_nat (m - 1)).

Definition toordinal (d : date) : Z :=
  days_before_year (year d) + days_before_month (year d) (month d) + day d.

Definition max_ordinal : Z := 3652059.

(** Month and day of the [n]-th day (from 0) of year [y], searching from
    month [m] for at most [fuel] months. *)
Fixpoint month_day (fuel : nat) (y m n : Z) : Z * Z :=
  match fuel with
  | O => (m, n + 1)
  | S fuel' =>
      if n <? days_in_month y m then (m, n + 1)
      else month_day fuel' y (m + 1) (n - days_in_month y m)
  end.

Definition fromordinal (o : Z) : date :=
  let n := o - 1 in
  let n400 := n / 146097 in let n := n mod 146097 in
  let n100 := n / 36524 in let n := n mod 36524 in
  let n4 := n / 1461 in let n := n mod 1461 in
  let n1 := n / 365 in let n := n mod 365 in
  let y := n400 * 400 + n100 * 100 + n4 * 4 + n1 + 1 in
  if (n1 =? 4) || (n100 =? 4) then Date (y - 1) 12 31
  else let '(m, d) := month_day 11 y 1 n in Date y m d.

(** [date.weekday()]: Monday is 0. *)
Definition weekday (d : date) : Z := (toordinal d + 6) mod 7.

(** [d + timedelta(days=n)] *)
Definition add_days (d : date) (n : Z) : date := fromordinal (toordinal d + n).

(** ** Text *)

Definition digit_val (c : ascii) : option Z :=
  let n := Z.of_nat (nat_of_ascii c) in
  if (48 <=? n) && (n <=? 57) then Some (n - 48) else None.

Definition is_digit (c : ascii) : bool :=
  match digit_val c with Some _ => true | None => false end.

(** The value of a run of decimal digits. *)
Fixpoint digits_val (l : list ascii) (acc : Z) : option Z :=
  match l with
  | [] => Some acc
  | c :: l' => match digit_val c with Some d => digits_val l' (acc * 10 + d) | None => None end
  end.

Definition is_space (c : ascii) : bool :=
  let n := Z.of_nat (nat_of_ascii c) in
  ((9 <=? n) && (n <=? 13)) || ((28 <=? n) && (n <=? 32)).

Definition is_lower (c : ascii) : bool :=
  let n := Z.of_nat (nat_of_ascii c) in (97 <=? n) && (n <=? 122).
Definition is_upper (c : ascii) : bool :=
  let n := Z.of_nat (nat_of_ascii c) in (65 <=? n) && (n <=? 90).
Definition is_alnum (c : ascii) : bool := is_lower c || is_upper c || is_digit c.

Definition to_lower (c : ascii) : ascii :=
  if is_upper c then ascii_of_nat (nat_of_ascii c + 32) else c.

Definition chars (s : string) : list ascii := String.list_ascii_of_string s.
Definition of_chars (l : list ascii) : string := String.string_of_list_ascii l.

(** [s.lower()] and [s.casefold()] on ASCII text *)
Definition lower (s : string) : string := of_chars (map to_lower (chars s)).

Fixpoint drop_spaces (l : list ascii) : list ascii :=
  match l with
  | c :: l' => if is_space c then drop_spaces l' else l
  | [] => []
  end.

(** [s.strip()] *)
Definition strip (s : string) : string :=
  of_chars (rev (drop_spaces (rev (drop_spaces (chars s))))).

(** [sep.join(l)] *)
Fixpoint join (sep : string) (l : list string) : string :=
  match l with
  | [] => ""
  | [s] => s
  | s :: l' => s +:+ sep +:+ join sep l'
  end.

Definition strlen (s : string) : Z := Z.of_nat (String.length s).

Definition nonempty (s : string) : bool :=
  match s with EmptyString => false | _ => true end.

(** [f"{n:02d}"], [f"{n:04d}"] *)
Fixpoint zeros (n : nat) : string :=
  match n with O => "" | S n' => "0" +:+ zeros n' end%string.
Definition pad (width : nat) (n : Z) : string :=
  let s := pretty n in zeros (width - String.length s) +:+ s.

(** [isinstance]-free comparisons of the "HH:MM" strings are lexicographic. *)
Definition str_le (a b : string) : bool := String.leb a b.
Definition str_lt (a b : string) : bool := String.ltb a b.

(** [^\d{4}-\d{2}-\d{2}$] *)
Definition iso_date_ok (s : string) : bool :=
  match chars s with
  | [y1; y2; y3; y4; s1; m1; m2; s2; d1; d2] =>
      forallb is_digit [y1; y2; y3; y4; m1; m2; d1; d2]
      && Ascii.eqb s1 "-" && Ascii.eqb s2 "-"
  | _ => false
  end.

(** [date.fromisoformat], on text of that shape; [None] is [ValueError]. *)
Definition date_fromisoformat (s : string) : option date :=
  match chars s with
  | [y1; y2; y3; y4; s1; m1; m2; s2; d1; d2] =>
      if Ascii.eqb s1 "-" && Ascii.eqb s2 "-" then
        match digits_val [y1; y2; y3; y4] 0, digits_val [m1; m2] 0, digits_val [d1; d2] 0 with
        | Some y, Some m, Some d =>
            let dt := Date y m d in if valid_date dt then Some dt else None
        | _, _, _ => None
        end
      else None
  | _ => None
  end.

(** [date.isoformat()] *)
Definition isoformat (d : date) : string :=
  pad 4 (year d) +:+ "-" +:+ pad 2 (month d) +:+ "-" +:+ pad 2 (day d).

(** [^(?:[01]\d|2[0-3]):[0-5]\d$] *)
Definition hour_minute_ok (s : string) : bool :=
  match chars s with
  | [h1; h2; c; m1; m2] =>
      match digit_val h1, digit_val h2, digit_val m1, digit_val m2 with
      | Some a, Some b, Some x, Some _ =>
          ((a <=? 1) || ((a =? 2) && (b <=? 3))) && Ascii.eqb c ":" && (x <=? 5)
      | _, _, _, _ => false
      end
  | _ => false
  end.

(** ** Time zones

    [zoneinfo] data is external: a zone is given by the instant of each local
    midnight (of the day with a given ordinal) and the local date of each
    instant. *)

Record tzinfo := Tz { tz_midnight : Z → Z; tz_date : Z → Z }.

Definition epoch_ordinal : Z := 719163.

Definition utc : tzinfo :=
  Tz (λ o, days (o - epoch_ordinal)) (λ t, t / days 1 + epoch_ordinal).

Example weekday_of_a_friday : weekday (Date 2026 1 2) = 4.
Proof. reflexivity. Qed.
Example utc_new_year : tz_midnight utc (toordinal (Date 1970 1 1)) = 0.
Proof. reflexivity. Qed.
Example iso_round : (isoformat <$> date_fromisoformat "2026-03-09") = Some "2026-03-09"%string.
Proof. vm_compute. reflexivity. Qed.

Lemma length_of_chars l : String.length (of_chars l) = length l.
Proof. unfold of_chars. induction l as [|c l IH]; cbn; [done|]. by rewrite IH. Qed.
