(* ===== verification/CalendarFacts.v ===== *)
(** * The proleptic Gregorian calendar is consistent

    [toordinal] and [fromordinal] are inverse to each other: within a year by
    computation on one common and one leap year, across years by arithmetic on
    the 400-, 100-, 4- and 1-year cycles.  [isoformat] and
    [date_fromisoformat] are inverse on the dates Python can represent. *)

From S2P Require Import Prelude Calendar.

Ltac div_lia := Z.to_euclidean_division_equations; lia.

(** ** Within a year *)

Definition year_length (y : Z) : Z := if is_leap y then 366 else 365.

Lemma days_in_month_bounds y m : 28 <= days_in_month y m <= 31.
Proof. unfold days_in_month. repeat case_match; lia. Qed.

(** Only the leap rule of a year matters inside it. *)
Lemma days_in_month_leap y y' m : is_leap y = is_leap y' → days_in_month y m = days_in_month y' m.
Proof. unfold days_in_month. by intros ->. Qed.

Lemma days_before_month_leap y y' m :
  is_leap y = is_leap y' → days_before_month y m = days_before_month y' m.
Proof.
  intros H. unfold days_before_month. induction (Z.to_nat (m - 1)) as [|n IH]; [done|].
  cbn [days_before_month_nat]. by rewrite IH, (days_in_month_leap y y').
Qed.

Lemma month_day_leap y y' fuel m n :
  is_leap y = is_leap y' → month_day fuel y m n = month_day fuel y' m n.
Proof.
  intros H. revert m n. induction fuel as [|fuel IH]; intros m n; [done|]. cbn [month_day].
  by rewrite (days_in_month_leap y y'), IH.
Qed.

(** A year with the leap rule of [y]. *)
Definition typical (y : Z) : Z := if is_leap y then 4 else 1.
Lemma typical_leap y : is_leap y = is_leap (typical y).
Proof. unfold typical. by destruct (is_leap y) eqn:E. Qed.

(** [P] holds of the [n] numbers from [a]. *)
Fixpoint all_from (P : Z → bool) (a : Z) (n : nat) : bool :=
  match n with O => true | S n' => P a && all_from P (a + 1) n' end.

Lemma all_from_spec P a n : all_from P a n = true → ∀ z, a <= z < a + Z.of_nat n → P z = true.
Proof.
  revert a. induction n as [|n IH]; intros a H z Hz; [lia|].
  cbn [all_from] in H. apply andb_true_iff in H as [H1 H2].
  destruct (decide (z = a)) as [->|]; [done|]. apply (IH (a + 1)); [done|lia].
Qed.

Lemma all_from_Z P a n :
  all_from P a (Z.to_nat n) = true → ∀ z, a <= z < a + n → P z = true.
Proof. intros H z Hz. apply (all_from_spec P a (Z.to_nat n) H). lia. Qed.

Definition day_checked (y n : Z) : bool :=
  let '(m, d) := month_day 11 y 1 n in
  (1 <=? m) && (m <=? 12) && (1 <=? d) && (d <=? days_in_month y m)
  && (days_before_month y m + d =? n + 1).

Definition month_checked (y m : Z) : bool :=
  all_from (λ d, let n := days_before_month y m + d - 1 in
                 let '(m', d') := month_day 11 y 1 n in
                 (m' =? m) && (d' =? d) && (0 <=? n) && (n <? year_length y))
    1 (Z.to_nat (days_in_month y m)).

Lemma days_checked :
  all_from (day_checked 1) 0 365 = true ∧ all_from (day_checked 4) 0 366 = true ∧
  all_from (month_checked 1) 1 12 = true ∧ all_from (month_checked 4) 1 12 = true.
Proof. vm_compute. done. Qed.

Lemma month_day_real y n m d :
  0 <= n < year_length y → month_day 11 y 1 n = (m, d) →
  (1 <= m <= 12 ∧ 1 <= d <= days_in_month y m) ∧ days_before_month y m + d = n + 1.
Proof.
  intros Hn He. pose proof (typical_leap y) as Hl.
  rewrite (month_day_leap _ _ _ _ _ Hl) in He.
  rewrite (days_in_month_leap _ _ _ Hl), (days_before_month_leap _ _ _ Hl).
  assert (day_checked (typical y) n = true) as Hc.
  { destruct days_checked as (H1 & H4 & _). unfold year_length in Hn. unfold typical.
    destruct (is_leap y); [apply (all_from_spec _ _ _ H4)|apply (all_from_spec _ _ _ H1)]; lia. }
  unfold day_checked in Hc. rewrite He in Hc.
  rewrite !andb_true_iff, !Z.leb_le, Z.eqb_eq in Hc. tauto.
Qed.

Lemma month_day_inv y m d :
  1 <= m <= 12 → 1 <= d <= days_in_month y m →
  let n := days_before_month y m + d - 1 in
  month_day 11 y 1 n = (m, d) ∧ 0 <= n < year_length y.
Proof.
  intros Hm Hd. pose proof (typical_leap y) as Hl. unfold year_length.
  rewrite (days_in_month_leap _ _ _ Hl) in Hd. rewrite (days_before_month_leap _ _ _ Hl).
  cbn zeta. rewrite (month_day_leap _ _ _ _ _ Hl), Hl. fold (year_length (typical y)).
  assert (month_checked (typical y) m = true) as Hc.
  { destruct days_checked as (_ & _ & H1 & H4). unfold typical.
    destruct (is_leap y); [apply (all_from_spec _ _ _ H4)|apply (all_from_spec _ _ _ H1)]; lia. }
  pose proof (days_in_month_bounds (typical y) m).
  pose proof (all_from_spec _ _ _ Hc d ltac:(lia)) as H1. cbn beta zeta in H1.
  destruct (month_day 11 (typical y) 1 (days_before_month (typical y) m + d - 1)) as [m' d'].
  rewrite !andb_true_iff, !Z.eqb_eq, Z.leb_le, Z.ltb_lt in H1.
  destruct H1 as [[[-> ->] ?] ?]. done.
Qed.

(** ** Across years *)

Lemma euclid n p : 0 < p → ∃ q r, n = p * q + r ∧ 0 <= r < p.
Proof.
  intros Hp. exists (n / p), (n mod p). pose proof (Z.div_mod n p ltac:(lia)).
  pose proof (Z.mod_pos_bound n p Hp). lia.
Qed.

Lemma div_is p n q r : n = p * q + r → 0 <= r < p → n / p = q.
Proof. intros. symmetry. by apply (Z.div_unique_pos n p q r). Qed.
Lemma mod_is p n q r : n = p * q + r → 0 <= r < p → n mod p = r.
Proof. intros. symmetry. by apply (Z.mod_unique_pos n p q r). Qed.

(** The position of a year in its cycles. *)
Lemma year_cycles y :
  ∃ a b c e, y - 1 = 400 * a + 100 * b + 4 * c + e ∧ 0 <= b <= 3 ∧ 0 <= c <= 24 ∧ 0 <= e <= 3 ∧
    days_before_year y = 146097 * a + 36524 * b + 1461 * c + 365 * e ∧
    is_leap y = (e =? 3) && (negb (c =? 24) || (b =? 3)).
Proof.
  destruct (euclid (y - 1) 400) as (a & r & Ha & Hr); [lia|].
  destruct (euclid r 100) as (b & r' & Hb & Hr'); [lia|].
  destruct (euclid r' 4) as (c & e & Hc & He); [lia|].
  exists a, b, c, e.
  assert (y = 400 * a + 100 * b + 4 * c + e + 1) as -> by lia.
  split_and!; [lia..| |].
  - unfold days_before_year. cbn zeta.
    rewrite (div_is 4 _ (100 * a + 25 * b + c) e), (div_is 100 _ (4 * a + b) (4 * c + e)),
      (div_is 400 _ a (100 * b + 4 * c + e)); lia.
  - clear Ha. unfold is_leap.
    assert ((400 * a + 100 * b + 4 * c + e + 1) mod 4 = if e =? 3 then 0 else e + 1) as ->.
    { apply (mod_is _ _ (100 * a + 25 * b + c + if e =? 3 then 1 else 0)); destruct (Z.eqb_spec e 3); lia. }
    assert ((400 * a + 100 * b + 4 * c + e + 1) mod 100 =
      if (e =? 3) && (c =? 24) then 0 else 4 * c + e + 1) as ->.
    { apply (mod_is _ _ (4 * a + b + if (e =? 3) && (c =? 24) then 1 else 0));
        destruct (Z.eqb_spec e 3), (Z.eqb_spec c 24); cbn; lia. }
    assert ((400 * a + 100 * b + 4 * c + e + 1) mod 400 =
      if (e =? 3) && (c =? 24) && (b =? 3) then 0 else 100 * b + 4 * c + e + 1) as ->.
    { apply (mod_is _ _ (a + if (e =? 3) && (c =? 24) && (b =? 3) then 1 else 0));
        destruct (Z.eqb_spec e 3), (Z.eqb_spec c 24), (Z.eqb_spec b 3); cbn; lia. }
    destruct (Z.eqb_spec e 3), (Z.eqb_spec c 24), (Z.eqb_spec b 3); cbn; try done;
      repeat match goal with |- context [?x =? 0] => destruct (Z.eqb_spec x 0); try lia end; done.
Qed.

Lemma month_day_last y n : is_leap y = true → n = 365 → month_day 11 y 1 n = (12, 31).
Proof. intros Hl ->. rewrite (month_day_leap y 4) by done. done. Qed.

Lemma fromordinal_year y k :
  1 <= k <= year_length y →
  fromordinal (days_before_year y + k) =
    let '(m, d) := month_day 11 y 1 (k - 1) in Date y m d.
Proof.
  intros Hk. destruct (year_cycles y) as (a & b & c & e & Hy & Hb & Hc & He & -> & Hl).
  unfold year_length in Hk. unfold fromordinal. cbn zeta.
  set (n := 36524 * b + 1461 * c + 365 * e + (k - 1)).
  replace (146097 * a + 36524 * b + 1461 * c + 365 * e + k - 1) with (n + a * 146097) by lia.
  assert (0 <= n < 146097) as Hn.
  { subst n. destruct (Z.eqb_spec e 3), (Z.eqb_spec c 24), (Z.eqb_spec b 3); cbn in Hl;
      rewrite Hl in Hk; lia. }
  rewrite (div_is 146097 (n + a * 146097) a n), (mod_is 146097 (n + a * 146097) a n) by lia.
  destruct (decide (k = 366)) as [->|Hne].
  - assert (is_leap y = true) as Hleap by (destruct (is_leap y); [done|lia]).
    rewrite (month_day_last y) by (done || lia).
    rewrite Hl in Hleap. rewrite !andb_true_iff, orb_true_iff, negb_true_iff, !Z.eqb_eq, Z.eqb_neq in Hleap.
    destruct Hleap as [-> Hcb]. destruct (decide (c = 24)) as [->|Hc24].
    + destruct Hcb as [?| ->]; [done|]. assert (n = 146096) as -> by (subst n; lia).
      match goal with |- context [if ?x then _ else _] => change x with true end. cbv iota.
      f_equal. change (146096 / 36524) with 4. change (146096 mod 36524) with 0.
      change (0 / 1461) with 0. change (0 mod 1461) with 0. change (0 / 365) with 0. lia.
    + rewrite (div_is 36524 n b (1461 * c + 1460)), (mod_is 36524 n b (1461 * c + 1460)) by (subst n; lia).
      rewrite (div_is 1461 _ c 1460), (mod_is 1461 _ c 1460) by lia.
      change (1460 / 365) with 4. change (4 =? 4) with true. cbn [orb]. f_equal. lia.
  - assert (k <= 365) as Hk' by (destruct (is_leap y); lia).
    rewrite (div_is 36524 n b (1461 * c + 365 * e + (k - 1))),
      (mod_is 36524 n b (1461 * c + 365 * e + (k - 1))) by (subst n; lia).
    rewrite (div_is 1461 _ c (365 * e + (k - 1))), (mod_is 1461 _ c (365 * e + (k - 1))) by lia.
    rewrite (div_is 365 _ e (k - 1)), (mod_is 365 _ e (k - 1)) by lia.
    assert ((e =? 4) || (b =? 4) = false) as -> by (rewrite orb_false_iff, !Z.eqb_neq; lia).
    replace (a * 400 + b * 100 + c * 4 + e + 1) with y by lia. done.
Qed.

(** A day of the (unbounded) proleptic calendar. *)
Definition real_day (d : date) : Prop :=
  1 <= month d <= 12 ∧ 1 <= day d <= days_in_month (year d) (month d).

Lemma valid_date_real d : valid_date d = true ↔ 1 <= year d <= 9999 ∧ real_day d.
Proof. unfold valid_date, real_day. rewrite !andb_true_iff, !Z.leb_le. tauto. Qed.

(** ** The round trips *)

Lemma days_before_year_succ y : days_before_year (y + 1) = days_before_year y + year_length y.
Proof.
  destruct (year_cycles y) as (a & b & c & e & Hy & Hb & Hc & He & -> & Hl).
  unfold year_length. rewrite Hl. unfold days_before_year. cbn zeta.
  replace (y + 1 - 1) with (400 * a + 100 * b + 4 * c + e + 1) by lia. clear Hy Hl y.
  rewrite (div_is 4 _ (100 * a + 25 * b + c + if e =? 3 then 1 else 0) (if e =? 3 then 0 else e + 1)),
    (div_is 100 _ (4 * a + b + if (e =? 3) && (c =? 24) then 1 else 0)
       (if (e =? 3) && (c =? 24) then 0 else 4 * c + e + 1)),
    (div_is 400 _ (a + if (e =? 3) && (c =? 24) && (b =? 3) then 1 else 0)
       (if (e =? 3) && (c =? 24) && (b =? 3) then 0 else 100 * b + 4 * c + e + 1));
    destruct (Z.eqb_spec e 3), (Z.eqb_spec c 24), (Z.eqb_spec b 3); cbn [andb orb negb]; lia.
Qed.

Lemma year_of_ordinal o : ∃ y k, o = days_before_year y + k ∧ 1 <= k <= year_length y.
Proof.
  assert (∀ (n : nat) y, days_before_year y < o → o <= days_before_year y + Z.of_nat n →
    ∃ y k, o = days_before_year y + k ∧ 1 <= k <= year_length y) as H.
  { induction n as [|n IH]; intros y Hlo Hhi; [lia|].
    destruct (decide (o <= days_before_year (y + 1))) as [Hle|Hgt].
    - exists y, (o - days_before_year y). rewrite days_before_year_succ in Hle. lia.
    - apply (IH (y + 1)); [lia|]. rewrite days_before_year_succ in *.
      unfold year_length in *. destruct (is_leap y); lia. }
  assert (days_before_year (- Z.abs o) < o) as Hlo.
  { unfold days_before_year. cbn zeta. set (x := - Z.abs o - 1).
    pose proof (Z.mul_div_le x 4 eq_refl). pose proof (Z.mul_succ_div_gt x 100 eq_refl).
    pose proof (Z.mul_div_le x 400 eq_refl). lia. }
  apply (H (Z.to_nat (o - days_before_year (- Z.abs o))) (- Z.abs o)); [done|].
  rewrite Z2Nat.id; lia.
Qed.

Lemma toordinal_fromordinal o : real_day (fromordinal o) ∧ toordinal (fromordinal o) = o.
Proof.
  destruct (year_of_ordinal o) as (y & k & -> & Hk).
  rewrite fromordinal_year by done.
  destruct (month_day 11 y 1 (k - 1)) as [m d] eqn:E.
  apply month_day_real in E as [Hreal Heq]; [|lia].
  split; [done|]. unfold toordinal. cbn [year month day]. lia.
Qed.

Lemma fromordinal_toordinal d : real_day d → fromordinal (toordinal d) = d.
Proof.
  destruct d as [y m d]. intros [Hm Hd]. cbn [year month day] in *.
  destruct (month_day_inv y m d Hm Hd) as [He Hn]. unfold toordinal. cbn [year month day].
  replace (days_before_year y + days_before_month y m + d)
    with (days_before_year y + (days_before_month y m + d)) by lia.
  rewrite fromordinal_year by lia.
  by rewrite He.
Qed.

Definition date_eqb (a b : date) : bool :=
  (year a =? year b) && (month a =? month b) && (day a =? day b).

Lemma date_eqb_spec a b : date_eqb a b = true → a = b.
Proof.
  unfold date_eqb. rewrite !andb_true_iff, !Z.eqb_eq. destruct a, b; cbn. intros [[-> ->] ->]. done.
Qed.

(** ** Moving within a month *)

Lemma toordinal_in_month y m d d' :
  toordinal (Date y m d') = toordinal (Date y m d) + (d' - d).
Proof. unfold toordinal. cbn [year month day]. lia. Qed.

Lemma add_days_in_month y m d n :
  1 <= m <= 12 → 1 <= d + n <= days_in_month y m →
  add_days (Date y m d) n = Date y m (d + n).
Proof.
  intros Hm Hd. unfold add_days.
  replace (toordinal (Date y m d) + n) with (toordinal (Date y m (d + n)))
    by (rewrite (toordinal_in_month y m d); lia).
  by apply fromordinal_toordinal.
Qed.

Lemma weekday_bounds d : 0 <= weekday d < 7.
Proof. apply Z.mod_pos_bound. lia. Qed.

Lemma weekday_add d n : real_day d → weekday (add_days d n) = (weekday d + n) mod 7.
Proof.
  intros Hd. unfold weekday, add_days. rewrite (proj2 (toordinal_fromordinal _)).
  replace (toordinal d + n + 6) with (toordinal d + 6 + n) by lia.
  by rewrite Zplus_mod_idemp_l.
Qed.

(** ** Dates as text *)

Definition digit_char (d : Z) : ascii := ascii_of_nat (Z.to_nat (48 + d)).

Lemma digit_val_char c d : digit_val c = Some d → 0 <= d <= 9 ∧ c = digit_char d.
Proof.
  unfold digit_val. destruct (Z.leb_spec 48 (Z.of_nat (nat_of_ascii c))) as [Hlo|]; [|done].
  destruct (Z.leb_spec (Z.of_nat (nat_of_ascii c)) 57) as [Hhi|]; [|done].
  intros [= <-]. split; [lia|]. unfold digit_char.
  replace (Z.to_nat (48 + (Z.of_nat (nat_of_ascii c) - 48))) with (nat_of_ascii c) by lia.
  by rewrite ascii_nat_embedding.
Qed.

Definition two_digits (n : Z) : string :=
  of_chars [digit_char (n / 10); digit_char (n mod 10)].
Definition four_digits (n : Z) : string :=
  of_chars [digit_char (n / 1000); digit_char (n / 100 mod 10);
            digit_char (n / 10 mod 10); digit_char (n mod 10)].

Lemma digits_checked :
  all_from (λ n, String.eqb (pad 2 n) (two_digits n)) 0 100 = true ∧
  all_from (λ n, String.eqb (pad 4 n) (four_digits n)) 0 (Z.to_nat 10000) = true.
Proof. vm_compute. done. Qed.

Lemma pad_two n : 0 <= n < 100 → pad 2 n = two_digits n.
Proof.
  intros Hn. apply String.eqb_eq. exact (all_from_spec _ _ _ (proj1 digits_checked) n Hn).
Qed.
Lemma pad_four n : 0 <= n < 10000 → pad 4 n = four_digits n.
Proof.
  intros Hn. apply String.eqb_eq. apply (all_from_Z _ _ _ (proj2 digits_checked) n). lia.
Qed.

Lemma digits_two a b n :
  digits_val [a; b] 0 = Some n → 0 <= n < 100 ∧ two_digits n = of_chars [a; b].
Proof.
  cbn. destruct (digit_val a) as [x|] eqn:Ea; [|done]. destruct (digit_val b) as [y|] eqn:Eb; [|done].
  intros [= <-]. apply digit_val_char in Ea as [Hx ->]. apply digit_val_char in Eb as [Hy ->].
  split; [lia|]. unfold two_digits.
  by rewrite (div_is 10 _ x y), (mod_is 10 _ x y) by lia.
Qed.

Lemma digits_four a b c d n :
  digits_val [a; b; c; d] 0 = Some n → 0 <= n < 10000 ∧ four_digits n = of_chars [a; b; c; d].
Proof.
  cbn. destruct (digit_val a) as [x|] eqn:Ea; [|done]. destruct (digit_val b) as [y|] eqn:Eb; [|done].
  destruct (digit_val c) as [z|] eqn:Ec; [|done]. destruct (digit_val d) as [w|] eqn:Ed; [|done].
  intros [= <-]. apply digit_val_char in Ea as [Hx ->]. apply digit_val_char in Eb as [Hy ->].
  apply digit_val_char in Ec as [Hz ->]. apply digit_val_char in Ed as [Hw ->].
  split; [lia|]. unfold four_digits.
  rewrite (div_is 1000 _ x (100 * y + 10 * z + w)), (div_is 100 _ (10 * x + y) (10 * z + w)),
    (div_is 10 _ (100 * x + 10 * y + z) w) by lia.
  rewrite (mod_is 10 (10 * x + y) x y), (mod_is 10 (100 * x + 10 * y + z) (10 * x + y) z),
    (mod_is 10 _ (100 * x + 10 * y + z) w) by lia.
  done.
Qed.

Lemma chars_of_chars l : chars (of_chars l) = l.
Proof. apply String.list_ascii_of_string_of_list_ascii. Qed.
Lemma of_chars_chars s : of_chars (chars s) = s.
Proof. apply String.string_of_list_ascii_of_string. Qed.

(** A date string names the day it prints as. *)
Lemma isoformat_fromisoformat s d : date_fromisoformat s = Some d → isoformat d = s.
Proof.
  unfold date_fromisoformat. intros H. rewrite <- (of_chars_chars s).
  destruct (chars s) as [|y1 [|y2 [|y3 [|y4 [|s1 [|m1 [|m2 [|s2 [|d1 [|d2 [|]]]]]]]]]]]; try done.
  destruct (Ascii.eqb_spec s1 "-") as [->|]; [|done].
  destruct (Ascii.eqb_spec s2 "-") as [->|]; [|done]. cbn [andb] in H.
  destruct (digits_val [y1; y2; y3; y4] 0) as [y|] eqn:Ey; [|done].
  destruct (digits_val [m1; m2] 0) as [m|] eqn:Em; [|done].
  destruct (digits_val [d1; d2] 0) as [dd|] eqn:Ed; [|done].
  destruct (valid_date (Date y m dd)); [|done]. injection H as <-.
  apply digits_four in Ey as [Hy Ey]. apply digits_two in Em as [Hm Em]. apply digits_two in Ed as [Hd Ed].
  unfold isoformat. cbn [year month day].
  rewrite pad_four, !pad_two, Ey, Em, Ed by done. done.
Qed.

Lemma date_fromisoformat_valid s d : date_fromisoformat s = Some d → valid_date d = true.
Proof.
  unfold date_fromisoformat. intros H. repeat case_match; try done. by injection H as <-.
Qed.

Lemma digit_val_digit d : 0 <= d <= 9 → digit_val (digit_char d) = Some d.
Proof.
  intros Hd.
  assert (forallb (λ n, bool_decide (digit_val (digit_char n) = Some n)) (seqZ 0 10) = true) as H
    by (vm_compute; reflexivity).
  rewrite forallb_forall in H. specialize (H d). rewrite bool_decide_eq_true in H.
  apply H, list_elem_of_In, elem_of_seqZ. lia.
Qed.

(** Printing a representable date and reading it back. *)
Lemma fromisoformat_isoformat d : valid_date d = true → date_fromisoformat (isoformat d) = Some d.
Proof.
  intros Hv. pose proof Hv as [Hy [Hm Hd]]%valid_date_real.
  pose proof (days_in_month_bounds (year d) (month d)).
  unfold isoformat. rewrite pad_four, !pad_two by lia.
  set (dc := digit_char).
  change (date_fromisoformat (of_chars
    [dc (year d / 1000); dc (year d / 100 mod 10); dc (year d / 10 mod 10); dc (year d mod 10);
     "-"; dc (month d / 10); dc (month d mod 10); "-"; dc (day d / 10); dc (day d mod 10)]%char) = Some d).
  unfold date_fromisoformat. rewrite chars_of_chars, Ascii.eqb_refl. cbn [andb digits_val]. subst dc.
  rewrite !digit_val_digit by div_lia.
  replace (((0 * 10 + year d / 1000) * 10 + year d / 100 mod 10) * 10 + year d / 10 mod 10)
    with (year d / 10) by div_lia.
  replace (year d / 10 * 10 + year d mod 10) with (year d) by div_lia.
  replace ((0 * 10 + month d / 10) * 10 + month d mod 10) with (month d) by div_lia.
  replace ((0 * 10 + day d / 10) * 10 + day d mod 10) with (day d) by div_lia.
  destruct d as [y m dd]. cbn [year month day]. by rewrite Hv.
Qed.

Lemma isoformat_inj a b :
  isoformat a = isoformat b → valid_date a = true → valid_date b = true → a = b.
Proof.
  intros He Ha%fromisoformat_isoformat Hb%fromisoformat_isoformat. rewrite He in Ha. congruence.
Qed.
