(* ===== verification/ClockTime.v ===== *)
(** * Times of day and trimmed text

    The backend compares and steps through times of day as "HH:MM" strings.
    On valid times the lexicographic order of the strings is the order of the
    minutes, and printing and reading minutes are inverse, so the components
    may reason about minutes.  [str.strip] returns text it leaves alone. *)

From S2P Require Import Prelude Calendar CalendarFacts.

(** ** Definitions *)

(** [s.split(":")], on characters. *)
Fixpoint split_colon (l : list ascii) : list (list ascii) :=
  match l with
  | [] => [[]]
  | c :: l' =>
      if Ascii.eqb c ":" then [] :: split_colon l'
      else match split_colon l' with
           | w :: ws => (c :: w) :: ws
           | [] => [[c]]
           end
  end.

(** [int(part)], on text of decimal digits *)
Definition int_of (l : list ascii) : option Z :=
  match l with [] => None | _ => digits_val l 0 end.

(** [hours, minutes = (int(part) for part in value.split(":"))], in minutes;
    [None] is the [ValueError] of [int] or of the unpacking. *)
Definition to_minutes (value : string) : option Z :=
  match split_colon (chars value) with
  | [h; m] => match int_of h, int_of m with
              | Some h, Some m => Some (h * 60 + m)
              | _, _ => None
              end
  | _ => None
  end.

(** [f"{value // 60:02d}:{value % 60:02d}"] *)
Definition from_minutes (value : Z) : string :=
  pad 2 (value / 60) +:+ ":" +:+ pad 2 (value mod 60).

(** ** Valid times are minutes of a day *)

Definition day_minute (m : Z) : Prop := 0 <= m < 1440.

Definition clock_checked (m : Z) : bool :=
  hour_minute_ok (from_minutes m) && bool_decide (to_minutes (from_minutes m) = Some m)
  && String.eqb (strip (from_minutes m)) (from_minutes m).

Lemma clock_checked_ok : all_from clock_checked 0 (Z.to_nat 1440) = true.
Proof. vm_compute. reflexivity. Qed.

Lemma from_minutes_ok m : day_minute m → hour_minute_ok (from_minutes m) = true.
Proof.
  intros Hm. pose proof (all_from_Z _ _ _ clock_checked_ok m Hm) as H.
  unfold clock_checked in H. rewrite !andb_true_iff in H. tauto.
Qed.

Lemma strip_from_minutes m : day_minute m → strip (from_minutes m) = from_minutes m.
Proof.
  intros Hm. pose proof (all_from_Z _ _ _ clock_checked_ok m Hm) as H.
  unfold clock_checked in H. rewrite !andb_true_iff, String.eqb_eq in H. tauto.
Qed.

Lemma to_from_minutes m : day_minute m → to_minutes (from_minutes m) = Some m.
Proof.
  intros Hm. pose proof (all_from_Z _ _ _ clock_checked_ok m Hm) as H.
  unfold clock_checked in H. rewrite !andb_true_iff in H. destruct H as [[_ H] _].
  by apply (bool_decide_eq_true_1 _) in H.
Qed.

Lemma hour_minute_from s : hour_minute_ok s = true → ∃ m, day_minute m ∧ s = from_minutes m.
Proof.
  unfold hour_minute_ok. intros H. rewrite <- (of_chars_chars s).
  destruct (chars s) as [|h1 [|h2 [|c [|m1 [|m2 [|]]]]]]; try done.
  destruct (digit_val h1) as [a|] eqn:Ea; [|done]. destruct (digit_val h2) as [b|] eqn:Eb; [|done].
  destruct (digit_val m1) as [x|] eqn:Ex; [|done]. destruct (digit_val m2) as [y|] eqn:Ey; [|done].
  rewrite !andb_true_iff, orb_true_iff, andb_true_iff, !Z.leb_le, Z.eqb_eq in H.
  destruct H as [[Hh Hc] Hx]. apply Ascii.eqb_eq in Hc as ->.
  apply digit_val_char in Ea as [Ha ->]. apply digit_val_char in Eb as [Hb ->].
  apply digit_val_char in Ex as [Hx' ->]. apply digit_val_char in Ey as [Hy ->].
  exists ((10 * a + b) * 60 + (10 * x + y)). split; [unfold day_minute; lia|].
  unfold from_minutes.
  rewrite (div_is 60 _ (10 * a + b) (10 * x + y)), (mod_is 60 _ (10 * a + b) (10 * x + y)) by lia.
  rewrite !pad_two by lia. unfold two_digits.
  rewrite (div_is 10 _ a b), (mod_is 10 _ a b), (div_is 10 _ x y), (mod_is 10 _ x y) by lia. done.
Qed.

Lemma to_minutes_ok s : hour_minute_ok s = true → ∃ m, to_minutes s = Some m ∧ day_minute m.
Proof.
  intros (m & Hm & ->)%hour_minute_from. exists m. by rewrite to_from_minutes.
Qed.

Lemma to_minutes_inv s m :
  hour_minute_ok s = true → to_minutes s = Some m → day_minute m ∧ s = from_minutes m.
Proof.
  intros (m' & Hm & ->)%hour_minute_from. rewrite to_from_minutes by done. by intros [= ->].
Qed.

(** ** The order of the strings *)

Lemma digit_compare a b :
  0 <= a <= 9 → 0 <= b <= 9 → Ascii.compare (digit_char a) (digit_char b) = (a ?= b).
Proof.
  intros Ha Hb.
  assert (forallb (λ x, forallb (λ y,
      bool_decide (Ascii.compare (digit_char x) (digit_char y) = (x ?= y))) (seqZ 0 10)) (seqZ 0 10) = true)
    as H by (vm_compute; reflexivity).
  rewrite forallb_forall in H. specialize (H a).
  rewrite forallb_forall in H.
  apply (bool_decide_eq_true_1 _), H; apply list_elem_of_In, elem_of_seqZ; lia.
Qed.

(** The four digits of a time. *)
Lemma from_minutes_digits m :
  day_minute m → ∃ a b x y,
    from_minutes m = of_chars [digit_char a; digit_char b; ":"%char; digit_char x; digit_char y] ∧
    m = (10 * a + b) * 60 + (10 * x + y) ∧ 0 <= a <= 2 ∧ 0 <= b <= 9 ∧ 0 <= x <= 5 ∧ 0 <= y <= 9.
Proof.
  intros Hm. unfold day_minute in Hm.
  exists (m / 60 / 10), (m / 60 mod 10), (m mod 60 / 10), (m mod 60 mod 10).
  split_and!; try div_lia. unfold from_minutes. rewrite !pad_two by div_lia. done.
Qed.

Lemma from_minutes_compare m n :
  day_minute m → day_minute n → String.compare (from_minutes m) (from_minutes n) = (m ?= n).
Proof.
  intros Hm Hn.
  destruct (from_minutes_digits m Hm) as (a & b & x & y & -> & -> & Ha & Hb & Hx & Hy).
  destruct (from_minutes_digits n Hn) as (a' & b' & x' & y' & -> & -> & Ha' & Hb' & Hx' & Hy').
  cbn [of_chars String.string_of_list_ascii String.compare].
  rewrite !digit_compare by lia.
  change (Ascii.compare ":" ":") with Eq. cbn iota.
  symmetry.
  destruct (Z.compare_spec a a') as [->| |]; [|apply Z.compare_lt_iff; lia|apply Z.compare_gt_iff; lia].
  destruct (Z.compare_spec b b') as [->| |]; [|apply Z.compare_lt_iff; lia|apply Z.compare_gt_iff; lia].
  destruct (Z.compare_spec x x') as [->| |]; [|apply Z.compare_lt_iff; lia|apply Z.compare_gt_iff; lia].
  destruct (Z.compare_spec y y') as [->| |];
    [apply Z.compare_eq_iff; lia|apply Z.compare_lt_iff; lia|apply Z.compare_gt_iff; lia].
Qed.

Lemma str_le_minutes m n :
  day_minute m → day_minute n → str_le (from_minutes m) (from_minutes n) = (m <=? n).
Proof.
  intros Hm Hn. unfold str_le, String.leb. rewrite from_minutes_compare by done.
  unfold Z.leb. done.
Qed.

Lemma str_lt_minutes m n :
  day_minute m → day_minute n → str_lt (from_minutes m) (from_minutes n) = (m <? n).
Proof.
  intros Hm Hn. unfold str_lt, String.ltb. rewrite from_minutes_compare by done.
  unfold Z.ltb. done.
Qed.

(** ** Trimmed text *)

Lemma drop_spaces_idemp l : drop_spaces (drop_spaces l) = drop_spaces l.
Proof.
  induction l as [|c l IH]; [done|]. cbn. destruct (is_space c) eqn:E; [done|]. cbn. by rewrite E.
Qed.

Lemma drop_spaces_app l k :
  drop_spaces l ≠ [] → drop_spaces (l ++ k) = drop_spaces l ++ k.
Proof.
  induction l as [|c l IH]; [done|]. cbn. destruct (is_space c) eqn:E; [done|]. done.
Qed.

Lemma drop_spaces_suffix l : ∃ k, l = k ++ drop_spaces l ∧ forallb is_space k = true.
Proof.
  induction l as [|c l IH]; [by exists []|]. cbn. destruct (is_space c) eqn:E.
  - destruct IH as (k & He & Hk). exists (c :: k). cbn. by rewrite E, <- He.
  - by exists [].
Qed.

Lemma drop_spaces_length l : (length (drop_spaces l) <= length l)%nat.
Proof.
  destruct (drop_spaces_suffix l) as (k & He & _). rewrite He at 2. rewrite length_app. lia.
Qed.

(** Trimming the end keeps a start without spaces. *)
Lemma drop_spaces_trimmed l :
  drop_spaces l = l → drop_spaces (rev (drop_spaces (rev l))) = rev (drop_spaces (rev l)).
Proof.
  intros Hl. destruct (drop_spaces_suffix (rev l)) as (k & He & Hk).
  assert (l = rev (drop_spaces (rev l)) ++ rev k) as Hl'
    by (rewrite <- (rev_involutive l) at 1; rewrite He at 1; by rewrite rev_app_distr).
  destruct (rev (drop_spaces (rev l))) as [|c t] eqn:Et; [done|].
  rewrite Hl' in Hl. cbn in Hl |- *. destruct (is_space c) eqn:Ec; [|done].
  exfalso. pose proof (drop_spaces_length (t ++ rev k)) as Hlen. rewrite Hl in Hlen. cbn in Hlen. lia.
Qed.

Lemma strip_idemp s : strip (strip s) = strip s.
Proof.
  unfold strip. rewrite chars_of_chars. f_equal.
  rewrite (drop_spaces_trimmed (drop_spaces (chars s))) by apply drop_spaces_idemp.
  by rewrite rev_involutive, drop_spaces_idemp.
Qed.

Lemma strlen_of_chars l : strlen (of_chars l) = Z.of_nat (length l).
Proof. unfold strlen. by rewrite length_of_chars. Qed.

Lemma strlen_chars s : strlen s = Z.of_nat (length (chars s)).
Proof. rewrite <- (of_chars_chars s) at 1. apply strlen_of_chars. Qed.

Lemma strlen_app s t : strlen (s +:+ t) = strlen s + strlen t.
Proof.
  unfold strlen. induction s as [|c s IH]; [done|].
  change (String c s +:+ t) with (String c (s +:+ t)). cbn [String.length]. lia.
Qed.

Lemma strlen_nonneg s : 0 <= strlen s.
Proof. unfold strlen. lia. Qed.

Lemma strlen_strip s : strlen (strip s) <= strlen s.
Proof.
  unfold strip. rewrite strlen_of_chars, strlen_chars, length_rev.
  pose proof (drop_spaces_length (rev (drop_spaces (chars s)))).
  pose proof (drop_spaces_length (chars s)). rewrite length_rev in *. lia.
Qed.

(** Text that starts with a visible character is not stripped away. *)
Lemma strip_visible c s : is_space c = false → 1 <= strlen (strip (String c s)).
Proof.
  intros Hc. unfold strip. rewrite strlen_of_chars, length_rev.
  change (chars (String c s)) with (c :: chars s). cbn [drop_spaces]. rewrite Hc. cbn [rev].
  set (l := rev (chars s)).
  destruct (drop_spaces l) as [|x k] eqn:E.
  - destruct (drop_spaces_suffix l) as (k & He & Hk). rewrite E, app_nil_r in He. subst k.
    assert (drop_spaces (l ++ [c]) = [c]) as ->; [|cbn; lia].
    clear E. induction l as [|a l IH]; cbn in *; [by rewrite Hc|].
    apply andb_true_iff in Hk as [-> Hk]. auto.
  - rewrite drop_spaces_app by by rewrite E. rewrite E, length_app. cbn. lia.
Qed.

(** ** Concatenation *)

Lemma chars_app s t : chars (s +:+ t) = chars s ++ chars t.
Proof. induction s as [|c s IH]; [done|]. change (c :: chars (s +:+ t) = c :: chars s ++ chars t). by rewrite IH. Qed.

Lemma chars_inj s t : chars s = chars t → s = t.
Proof. intros H. rewrite <- (of_chars_chars s), <- (of_chars_chars t). by rewrite H. Qed.

Lemma string_app_cancel_l s t u : s +:+ t = s +:+ u → t = u.
Proof.
  intros H%(f_equal chars). rewrite !chars_app in H. by apply app_inv_head, chars_inj in H.
Qed.

Lemma string_app_cancel_r s t u : t +:+ s = u +:+ s → t = u.
Proof.
  intros H%(f_equal chars). rewrite !chars_app in H. by apply app_inv_tail, chars_inj in H.
Qed.
