(* ===== verification/Json.v ===== *)
(** * Canonical JSON

    [json.dumps(value, sort_keys=True, separators=(",", ":"))] of Python's
    standard library, on values of ASCII text, integers, lists and objects, as
    far as the backend hashes it.  Quoted text is self-delimiting: reading a
    quoted string back is unambiguous whatever follows, which makes the hashed
    text of a fixed shape determine its parts. *)

From S2P Require Import Prelude Calendar CalendarFacts ClockTime.

Inductive json :=
| JNull
| JInt (n : Z)
| JStr (s : string)
| JList (l : list json)
| JObj (fields : list (string * json)).

Definition quote : ascii := "034"%char.
Definition backslash : ascii := "092"%char.

Definition hex_digit (n : Z) : ascii :=
  if n <? 10 then ascii_of_nat (Z.to_nat (48 + n)) else ascii_of_nat (Z.to_nat (87 + n)).

(** [ensure_ascii]: everything outside the printable characters is escaped. *)
Definition escape_char (c : ascii) : list ascii :=
  let n := Z.of_nat (nat_of_ascii c) in
  if Ascii.eqb c quote then [backslash; quote]
  else if Ascii.eqb c backslash then [backslash; backslash]
  else if n =? 10 then [backslash; "n"%char]
  else if n =? 13 then [backslash; "r"%char]
  else if n =? 9 then [backslash; "t"%char]
  else if n =? 12 then [backslash; "f"%char]
  else if n =? 8 then [backslash; "b"%char]
  else if (32 <=? n) && (n <=? 126) then [c]
  else [backslash; "u"%char; "0"%char; "0"%char; hex_digit (n / 16); hex_digit (n mod 16)].

Definition escape (l : list ascii) : list ascii := l ≫= escape_char.

Definition quoted (s : string) : string := of_chars (quote :: escape (chars s) ++ [quote]).

(** [sorted], on strings and on fields by their key *)
Fixpoint insert_text {A} (key : A → string) (x : A) (l : list A) : list A :=
  match l with
  | [] => [x]
  | y :: l' => if str_le (key x) (key y) then x :: l else y :: insert_text key x l'
  end.
Definition sort_text {A} (key : A → string) (l : list A) : list A := foldr (insert_text key) [] l.

Definition dump_field (f : string * string) : string := quoted f.1 +:+ ":" +:+ f.2.

Fixpoint dumps (v : json) : string :=
  match v with
  | JNull => "null"
  | JInt n => pretty n
  | JStr s => quoted s
  | JList l => "[" +:+ join "," (map dumps l) +:+ "]"
  | JObj fields =>
      "{" +:+ join "," (map dump_field (sort_text fst (map (λ f, (f.1, dumps f.2)) fields))) +:+ "}"
  end.

(** ** Reading quoted text back *)

Definition hex_val (c : ascii) : Z :=
  let n := Z.of_nat (nat_of_ascii c) in if n <? 58 then n - 48 else n - 87.

Definition unescape (l : list ascii) : option (ascii * list ascii) :=
  match l with
  | [] => None
  | c :: l' =>
      if Ascii.eqb c quote then None
      else if Ascii.eqb c backslash then
        match l' with
        | e :: l'' =>
            if Ascii.eqb e "n" then Some (ascii_of_nat 10, l'')
            else if Ascii.eqb e "r" then Some (ascii_of_nat 13, l'')
            else if Ascii.eqb e "t" then Some (ascii_of_nat 9, l'')
            else if Ascii.eqb e "f" then Some (ascii_of_nat 12, l'')
            else if Ascii.eqb e "b" then Some (ascii_of_nat 8, l'')
            else if Ascii.eqb e "u" then
              match l'' with
              | _ :: _ :: a :: b :: r => Some (ascii_of_nat (Z.to_nat (hex_val a * 16 + hex_val b)), r)
              | _ => None
              end
            else Some (e, l'')
        | [] => None
        end
      else Some (c, l')
  end.

Lemma unescape_escape c r : unescape (escape_char c ++ r) = Some (c, r).
Proof. destruct c as [[] [] [] [] [] [] [] []]; reflexivity. Qed.

Lemma unescape_quote r : unescape (quote :: r) = None.
Proof. reflexivity. Qed.

Lemma escape_delimited l l' r r' :
  escape l ++ quote :: r = escape l' ++ quote :: r' → l = l' ∧ r = r'.
Proof.
  revert l'. induction l as [|c l IH]; intros [|c' l'] H; cbn in H.
  - by injection H.
  - rewrite <- app_assoc in H. apply (f_equal unescape) in H.
    by rewrite unescape_escape, unescape_quote in H.
  - rewrite <- app_assoc in H. apply (f_equal unescape) in H.
    by rewrite unescape_escape, unescape_quote in H.
  - rewrite <- !app_assoc in H. apply (f_equal unescape) in H. rewrite !unescape_escape in H.
    injection H as -> H. by apply IH in H as [-> ->].
Qed.

Lemma chars_quoted s r : chars (quoted s +:+ r) = quote :: escape (chars s) ++ quote :: chars r.
Proof.
  unfold quoted. rewrite chars_app, chars_of_chars. cbn [app]. by rewrite <- app_assoc.
Qed.

(** Quoted text, whatever follows. *)
Lemma quoted_inj s s' r r' : quoted s +:+ r = quoted s' +:+ r' → s = s' ∧ r = r'.
Proof.
  intros H%(f_equal chars). rewrite !chars_quoted in H. injection H as H.
  apply escape_delimited in H as [H1 H2]. split; by apply chars_inj.
Qed.

(** Text before a delimiter it does not contain. *)
Lemma delimited (d : ascii) (a b r r' : list ascii) :
  d ∉ a → d ∉ b → a ++ d :: r = b ++ d :: r' → a = b ∧ r = r'.
Proof.
  revert b. induction a as [|x a IH]; intros [|y b] Ha Hb H; cbn in H.
  - by injection H.
  - injection H as -> _. set_solver.
  - injection H as -> _. set_solver.
  - injection H as -> H. apply IH in H as [-> ->]; [done|set_solver..].
Qed.

(** ** Lists of quoted text *)

Definition quoted_list (l : list string) : string := "[" +:+ join "," (map quoted l) +:+ "]".

Lemma dumps_strings l : dumps (JList (map JStr l)) = quoted_list l.
Proof. cbn [dumps]. by rewrite map_map. Qed.

Lemma join_quoted_inj l l' r r' :
  join "," (map quoted l) +:+ "]" +:+ r = join "," (map quoted l') +:+ "]" +:+ r' →
  l = l' ∧ r = r'.
Proof.
  assert (∀ (k : list string) s t, join "," (map quoted (s :: k)) +:+ t
    = quoted s +:+ (match k with [] => t | _ => "," +:+ join "," (map quoted k) +:+ t end)) as Hcons.
  { intros k s t. destruct k as [|s2 k]; [done|].
    change (join "," (map quoted (s :: s2 :: k)))
      with (quoted s +:+ "," +:+ join "," (map quoted (s2 :: k))).
    apply chars_inj. by rewrite !chars_app, <- !app_assoc. }
  revert l'. induction l as [|s l IH]; intros [|s' l'].
  - intros H%string_app_cancel_l. by apply string_app_cancel_l in H.
  - rewrite Hcons. intros H. apply (f_equal chars) in H. rewrite chars_quoted in H. done.
  - rewrite Hcons. intros H. apply (f_equal chars) in H. rewrite chars_quoted in H. done.
  - rewrite !Hcons. intros [-> H]%quoted_inj.
    destruct l as [|s2 l], l' as [|s2' l']; [|discriminate H|discriminate H|].
    + by apply string_app_cancel_l in H as ->.
    + apply (string_app_cancel_l ",") in H. apply IH in H as [-> ->]. done.
Qed.

Lemma quoted_list_inj l l' r r' : quoted_list l +:+ r = quoted_list l' +:+ r' → l = l' ∧ r = r'.
Proof.
  unfold quoted_list. intros H. apply join_quoted_inj.
  apply (string_app_cancel_l "["). apply chars_inj. apply (f_equal chars) in H.
  rewrite !chars_app in H |- *. by rewrite <- !app_assoc in H.
Qed.
