(* ===== verification/Schemas.v ===== *)
(** * Orchestrator contracts ([backend/orchestrator/schemas.py])

    A pydantic model is a record together with the boolean check its
    constructor runs; [None] from a [make_*] function is the [ValidationError]. *)

From S2P Require Import Prelude Calendar.

Inductive IntentAction := BOOK_RESERVATION | SEARCH_AVAILABILITY | CREATE_WATCH.
#[export] Instance IntentAction_eq_dec : EqDecision IntentAction.
Proof. solve_decision. Defined.

Inductive VenueType := RESTAURANT | RECREATION | VT_UNKNOWN.
#[export] Instance VenueType_eq_dec : EqDecision VenueType.
Proof. solve_decision. Defined.

Inductive IntentStatus := READY | NEEDS_CLARIFICATION.
#[export] Instance IntentStatus_eq_dec : EqDecision IntentStatus.
Proof. solve_decision. Defined.

Inductive OrchestratorRoute := BOOKING_SERVICE | WATCH_SERVICE | CLARIFICATION.
#[export] Instance OrchestratorRoute_eq_dec : EqDecision OrchestratorRoute.
Proof. solve_decision. Defined.

Inductive MissingField := MF_ACTION | MF_VENUE_NAME | MF_PARTY_SIZE | MF_DATE | MF_TIME.
#[export] Instance MissingField_eq_dec : EqDecision MissingField.
Proof. solve_decision. Defined.

Definition in_range (lo hi n : Z) : bool := (lo <=? n) && (n <=? hi).
Definition len_ok (lo hi : Z) (s : string) : bool := in_range lo hi (strlen s).
Definition opt_all {A} (P : A → bool) (o : option A) : bool :=
  match o with Some x => P x | None => true end.
Definition is_none {A} (o : option A) : bool :=
  match o with None => true | Some _ => false end.
Definition is_some {A} (o : option A) : bool := negb (is_none o).

Record TimeWindow := MkTimeWindow { tw_start : string; tw_end : string }.
#[export] Instance TimeWindow_eq_dec : EqDecision TimeWindow.
Proof. solve_decision. Defined.

Definition time_window_ok (w : TimeWindow) : bool :=
  hour_minute_ok (tw_start w) && hour_minute_ok (tw_end w).

Definition special_requests_ok (l : list string) : bool :=
  (length l <=? 10)%nat && forallb (len_ok 1 200) l.

Definition MARKET : string := "Kitchener-Waterloo-Cambridge, ON".

(** Provider output before deterministic validation. *)
Record ReservationExtraction := MkExtraction {
  ex_action : option IntentAction;
  ex_venue_name : option string;
  ex_venue_type : VenueType;
  ex_party_size : option Z;
  ex_date : option string;
  ex_preferred_time : option string;
  ex_time_window : option TimeWindow;
  ex_duration_minutes : option Z;
  ex_special_requests : list string;
}.

Definition extraction_ok (e : ReservationExtraction) : bool :=
  opt_all (len_ok 1 200) (ex_venue_name e)
  && opt_all (in_range 1 100) (ex_party_size e)
  && opt_all iso_date_ok (ex_date e)
  && opt_all hour_minute_ok (ex_preferred_time e)
  && opt_all time_window_ok (ex_time_window e)
  && opt_all (in_range 15 720) (ex_duration_minutes e)
  && special_requests_ok (ex_special_requests e).

(** [ReservationExtraction(...)]: [str_strip_whitespace] strips the strings of
    the model (those of the nested window belong to [TimeWindow]). *)
Definition make_extraction (e : ReservationExtraction) : option ReservationExtraction :=
  let e' := MkExtraction (ex_action e) (strip <$> ex_venue_name e) (ex_venue_type e)
              (ex_party_size e) (strip <$> ex_date e) (strip <$> ex_preferred_time e)
              (ex_time_window e) (ex_duration_minutes e) (map strip (ex_special_requests e)) in
  if extraction_ok e' then Some e' else None.

Definition has_valid_date (e : ReservationExtraction) : bool :=
  match ex_date e with
  | None => false
  | Some d => is_some (date_fromisoformat d)
  end.

(** The validated orchestration result. *)
Record ReservationIntent := MkIntent {
  in_status : IntentStatus;
  in_route : OrchestratorRoute;
  in_action : option IntentAction;
  in_venue_name : option string;
  in_venue_type : VenueType;
  in_market : string;
  in_party_size : option Z;
  in_date : option string;
  in_preferred_time : option string;
  in_time_window : option TimeWindow;
  in_duration_minutes : option Z;
  in_special_requests : list string;
  in_missing_fields : list MissingField;
  in_clarification_question : option string;
}.

Definition intent_fields_ok (i : ReservationIntent) : bool :=
  opt_all (len_ok 1 200) (in_venue_name i)
  && bool_decide (in_market i = MARKET)
  && opt_all (in_range 1 100) (in_party_size i)
  && opt_all (λ d, iso_date_ok d && is_some (date_fromisoformat d)) (in_date i)
  && opt_all hour_minute_ok (in_preferred_time i)
  && opt_all time_window_ok (in_time_window i)
  && opt_all (in_range 15 720) (in_duration_minutes i)
  && special_requests_ok (in_special_requests i)
  && opt_all (len_ok 1 400) (in_clarification_question i).

(** [ReservationIntent.validate_state] *)
Definition intent_state_ok (i : ReservationIntent) : bool :=
  let has_time := is_some (in_preferred_time i) || is_some (in_time_window i) in
  let required_values_present :=
    is_some (in_action i) && is_some (in_venue_name i) && is_some (in_party_size i)
    && is_some (in_date i) && has_time in
  match in_status i with
  | READY =>
      required_values_present
      && negb (bool_decide (in_route i = CLARIFICATION))
      && match in_missing_fields i with [] => true | _ => false end
      && is_none (in_clarification_question i)
  | NEEDS_CLARIFICATION =>
      bool_decide (in_route i = CLARIFICATION)
      && match in_missing_fields i with [] => false | _ => true end
      && is_some (in_clarification_question i)
  end.

Definition intent_ok (i : ReservationIntent) : bool :=
  intent_fields_ok i && intent_state_ok i.

(** [ReservationIntent(...)] *)
Definition make_intent (i : ReservationIntent) : option ReservationIntent :=
  let i' := MkIntent (in_status i) (in_route i) (in_action i) (strip <$> in_venue_name i)
              (in_venue_type i) (in_market i) (in_party_size i) (strip <$> in_date i)
              (strip <$> in_preferred_time i) (in_time_window i) (in_duration_minutes i)
              (map strip (in_special_requests i)) (in_missing_fields i)
              (strip <$> in_clarification_question i) in
  if intent_ok i' then Some i' else None.

Definition is_ready (i : ReservationIntent) : bool := bool_decide (in_status i = READY).
