(* ===== verification/Reservation.v ===== *)
(** * Reservation contracts ([backend/models/reservation.py])

    Queries, slots, confirmations and the result of one prompt, with the
    checks their constructors run. *)

From S2P Require Import Prelude Calendar Schemas.

(** [^[a-z0-9][a-z0-9_-]*$], at most 40 characters *)
Definition provider_name_ok (s : string) : bool :=
  len_ok 1 40 s
  && match chars s with
     | [] => false
     | c :: l =>
         (is_lower c || is_digit c)
         && forallb (λ c, is_lower c || is_digit c || Ascii.eqb c "_" || Ascii.eqb c "-") l
     end.

Record AvailabilityQuery := MkQuery {
  q_venue_name : string;
  q_venue_type : VenueType;
  q_market : string;
  q_party_size : Z;
  q_date : string;
  q_preferred_time : option string;
  q_time_window : option TimeWindow;
  q_duration_minutes : option Z;
  q_special_requests : list string;
}.
#[export] Instance AvailabilityQuery_eq_dec : EqDecision AvailabilityQuery.
Proof. solve_decision. Defined.

(** [validate_time_preference] *)
Definition query_time_ok (q : AvailabilityQuery) : bool :=
  match q_preferred_time q, q_time_window q with
  | None, None => false
  | Some p, Some w => str_le (tw_start w) p && str_le p (tw_end w)
  | _, _ => true
  end.

Definition query_ok (q : AvailabilityQuery) : bool :=
  len_ok 1 200 (q_venue_name q)
  && bool_decide (q_market q = MARKET)
  && in_range 1 100 (q_party_size q)
  && iso_date_ok (q_date q) && is_some (date_fromisoformat (q_date q))
  && opt_all hour_minute_ok (q_preferred_time q)
  && opt_all time_window_ok (q_time_window q)
  && opt_all (in_range 15 720) (q_duration_minutes q)
  && special_requests_ok (q_special_requests q)
  && query_time_ok q.

(** [AvailabilityQuery(...)]: [str_strip_whitespace] strips every string
    first; an invalid query is a [ValidationError]. *)
Definition make_query (q : AvailabilityQuery) : option AvailabilityQuery :=
  let q' := MkQuery (strip (q_venue_name q)) (q_venue_type q) (strip (q_market q))
              (q_party_size q) (strip (q_date q)) (strip <$> q_preferred_time q)
              (q_time_window q) (q_duration_minutes q) (map strip (q_special_requests q)) in
  if query_ok q' then Some q' else None.

(** The query of an intent ([_query_from] of both services). *)
Definition query_from (i : ReservationIntent) : option AvailabilityQuery :=
  match in_venue_name i, in_party_size i, in_date i with
  | Some venue, Some party, Some d =>
      make_query (MkQuery venue (in_venue_type i) (in_market i) party d (in_preferred_time i)
                    (in_time_window i) (in_duration_minutes i) (in_special_requests i))
  | _, _, _ => None
  end.

(** [available] is the literal [True]. *)
Record AvailabilitySlot := MkSlot {
  sl_slot_id : string;
  sl_provider : string;
  sl_venue_name : string;
  sl_venue_type : VenueType;
  sl_date : string;
  sl_start_time : string;
  sl_end_time : option string;
  sl_party_size : Z;
  sl_max_party_size : Z;
}.
#[export] Instance AvailabilitySlot_eq_dec : EqDecision AvailabilitySlot.
Proof. solve_decision. Defined.

Definition slot_ok (s : AvailabilitySlot) : bool :=
  len_ok 1 200 (sl_slot_id s) && provider_name_ok (sl_provider s)
  && len_ok 1 200 (sl_venue_name s) && iso_date_ok (sl_date s)
  && hour_minute_ok (sl_start_time s) && opt_all hour_minute_ok (sl_end_time s)
  && in_range 1 100 (sl_party_size s) && in_range 1 100 (sl_max_party_size s)
  && (sl_party_size s <=? sl_max_party_size s).

Inductive BookingStatus := MOCK_CONFIRMED | CONFIRMED.
#[export] Instance BookingStatus_eq_dec : EqDecision BookingStatus.
Proof. solve_decision. Defined.

Record BookingConfirmation := MkConfirmation {
  bc_booking_id : string;
  bc_provider : string;
  bc_status : BookingStatus;
  bc_slot : AvailabilitySlot;
  bc_created_at : Z;
}.
#[export] Instance BookingConfirmation_eq_dec : EqDecision BookingConfirmation.
Proof. solve_decision. Defined.

Definition confirmation_ok (c : BookingConfirmation) : bool :=
  len_ok 1 200 (bc_booking_id c) && provider_name_ok (bc_provider c) && slot_ok (bc_slot c).

Inductive ExecutionStatus :=
| CLARIFICATION_REQUIRED | AVAILABILITY_FOUND | NO_AVAILABILITY_RESULT | MOCK_BOOKED
| WATCH_REQUIRED | WATCH_CREATED.
#[export] Instance ExecutionStatus_eq_dec : EqDecision ExecutionStatus.
Proof. solve_decision. Defined.

Record PromptExecutionResult := MkResult {
  pr_status : ExecutionStatus;
  pr_intent : ReservationIntent;
  pr_slots : list AvailabilitySlot;
  pr_booking : option BookingConfirmation;
  pr_watch_id : option string;
  pr_message : string;
}.

(** [validate_result_state] and the field bounds *)
Definition result_ok (r : PromptExecutionResult) : bool :=
  opt_all (len_ok 1 200) (pr_watch_id r) && len_ok 1 500 (pr_message r)
  && Bool.eqb (bool_decide (pr_status r = MOCK_BOOKED)) (is_some (pr_booking r))
  && negb (bool_decide (pr_status r = CLARIFICATION_REQUIRED) && is_ready (pr_intent r))
  && Bool.eqb (bool_decide (pr_status r = WATCH_CREATED)) (is_some (pr_watch_id r)).
