(* ===== verification/Watch.v ===== *)
(** * Watches ([backend/models/watch.py], [watch_runtime.py],
    [backend/db/repositories/watch_decisions.py])

    The public watch document, its internal runtime sidecar, and the typed
    decisions both repositories return. *)

From S2P Require Import Prelude Calendar Schemas Reservation.

(** ** The public document *)

Inductive WatchStatus := ACTIVE | FOUND | BOOKED | EXPIRED | CANCELLED.
#[export] Instance WatchStatus_eq_dec : EqDecision WatchStatus.
Proof. solve_decision. Defined.

Definition is_terminal (s : WatchStatus) : bool :=
  match s with ACTIVE => false | _ => true end.

(** [status.value] *)
Definition status_value (s : WatchStatus) : string :=
  match s with
  | ACTIVE => "ACTIVE" | FOUND => "FOUND" | BOOKED => "BOOKED"
  | EXPIRED => "EXPIRED" | CANCELLED => "CANCELLED"
  end.

Inductive WatchPollOutcome :=
| PO_NO_AVAILABILITY | PO_FOUND | PO_BOOKED | PO_EXPIRED | PO_ALREADY_FINISHED
| PO_UNKNOWN_WATCH.
#[export] Instance WatchPollOutcome_eq_dec : EqDecision WatchPollOutcome.
Proof. solve_decision. Defined.

Record Watch := MkWatch {
  w_watch_id : string;
  w_status : WatchStatus;
  w_query : AvailabilityQuery;
  w_auto_book : bool;
  w_created_at : Z;
  w_updated_at : Z;
  w_expires_at : Z;
  w_attempts : Z;
  w_max_attempts : Z;
  w_last_checked_at : option Z;
  w_next_check_at : option Z;
  w_found_slots : list AvailabilitySlot;
  w_booking : option BookingConfirmation;
  w_last_error : option string;
}.
#[export] Instance Watch_eta : Eta Watch := λ w,
  MkWatch (w_watch_id w) (w_status w) (w_query w) (w_auto_book w) (w_created_at w)
    (w_updated_at w) (w_expires_at w) (w_attempts w) (w_max_attempts w)
    (w_last_checked_at w) (w_next_check_at w) (w_found_slots w) (w_booking w)
    (w_last_error w).
#[export] Instance Watch_eq_dec : EqDecision Watch.
Proof. solve_decision. Defined.

Definition watch_terminal (w : Watch) : bool := is_terminal (w_status w).

(** [Watch.validate_state] *)
Definition watch_state_ok (w : Watch) : bool :=
  negb (bool_decide (w_status w = BOOKED) && is_none (w_booking w))
  && negb (bool_decide (w_status w = FOUND)
           && match w_found_slots w with [] => true | _ => false end)
  && negb (watch_terminal w && is_some (w_next_check_at w))
  && (w_attempts w <=? w_max_attempts w).

(** The field bounds of [Watch]. *)
Definition watch_fields_ok (w : Watch) : bool :=
  len_ok 1 200 (w_watch_id w) && (0 <=? w_attempts w) && (1 <=? w_max_attempts w)
  && (length (w_found_slots w) <=? 32)%nat && opt_all (len_ok 1 500) (w_last_error w).

Definition watch_ok (w : Watch) : bool := watch_fields_ok w && watch_state_ok w.

(** [Watch.is_exhausted] *)
Definition is_exhausted (w : Watch) (now : Z) : bool :=
  (w_max_attempts w <=? w_attempts w) || (w_expires_at w <=? now).

Record WatchPollResult := MkPollResult {
  po_outcome : WatchPollOutcome;
  po_watch : option Watch;
  po_retry : option Z;
}.

(** [WatchPollResult.validate_scheduling] and [retry_in_seconds >= 0] *)
Definition poll_result_ok (r : WatchPollResult) : bool :=
  opt_all (Z.leb 0) (po_retry r)
  && Bool.eqb (bool_decide (po_outcome r = PO_NO_AVAILABILITY)) (is_some (po_retry r))
  && Bool.eqb (bool_decide (po_outcome r = PO_UNKNOWN_WATCH)) (is_none (po_watch r)).

(** [default_expiry]: midnight after the reservation date, at least one
    minute of lifetime; [None] when the date does not parse or has no
    successor. *)
Definition default_expiry (q : AvailabilityQuery) (created_at : Z) (tz : tzinfo) : option Z :=
  match date_fromisoformat (q_date q) with
  | Some d =>
      let next := toordinal d + 1 in
      if next <=? max_ordinal
      then Some (Z.max (tz_midnight tz next) (created_at + minutes 1))
      else None
  | None => None
  end.

(** ** The runtime sidecar *)

Definition _MAX_COUNT : Z := 1_000_000_000.
Definition _MAX_REQUIRED_ATTEMPTS : Z := 10_000_000_000.

Inductive RuntimePhase := POLLING | BOOKING.
#[export] Instance RuntimePhase_eq_dec : EqDecision RuntimePhase.
Proof. solve_decision. Defined.

Definition window_id_for (watch_id : string) (cadence_sequence : Z) : string :=
  watch_id +:+ ":" +:+ pretty cadence_sequence.

Record WatchRuntime := MkRuntime {
  rt_revision : Z;
  rt_required_attempts : Z;
  rt_supports_deadline : bool;
  rt_consecutive_outages : Z;
  rt_cadence_sequence : Z;
  rt_window_id : option string;
  rt_scheduled_for : option Z;
  rt_phase : option RuntimePhase;
  rt_cancel_requested : bool;
  rt_terminal_delete_at : option Z;
}.
#[export] Instance WatchRuntime_eta : Eta WatchRuntime := λ r,
  MkRuntime (rt_revision r) (rt_required_attempts r) (rt_supports_deadline r)
    (rt_consecutive_outages r) (rt_cadence_sequence r) (rt_window_id r)
    (rt_scheduled_for r) (rt_phase r) (rt_cancel_requested r) (rt_terminal_delete_at r).
#[export] Instance WatchRuntime_eq_dec : EqDecision WatchRuntime.
Proof. solve_decision. Defined.

(** The field bounds of [WatchRuntime]. *)
Definition runtime_ok (r : WatchRuntime) : bool :=
  in_range 0 _MAX_COUNT (rt_revision r)
  && in_range 1 _MAX_REQUIRED_ATTEMPTS (rt_required_attempts r)
  && in_range 0 _MAX_COUNT (rt_consecutive_outages r)
  && in_range 0 _MAX_COUNT (rt_cadence_sequence r)
  && opt_all (λ s, strlen s <=? 256) (rt_window_id r).

Definition initial_runtime (w : Watch) (required_attempts : Z) (supports_deadline : bool)
    (phase : option RuntimePhase) : WatchRuntime :=
  MkRuntime 0 required_attempts supports_deadline 0 0
    (Some (window_id_for (w_watch_id w) 0)) (w_next_check_at w) phase false None.

(** [-(-n // d)] *)
Definition ceil_div (n d : Z) : Z := - ((- n) / d).

(** [_forward_required]; the delay is already in microseconds. *)
Definition _forward_required (w : Watch) (earliest_delay now : Z) : Z :=
  let earliest_us := Z.max 1 earliest_delay in
  let remaining_us := Z.max 0 (w_expires_at w - now) in
  ceil_div remaining_us earliest_us + 1.

Definition migrate_legacy_watch (w : Watch) (earliest_delay now : Z) : WatchRuntime :=
  let remaining_required_total := w_attempts w + _forward_required w earliest_delay now in
  let supports_deadline := remaining_required_total <=? w_max_attempts w in
  if watch_terminal w then
    MkRuntime 0 remaining_required_total supports_deadline 0 0 None None None false None
  else
    MkRuntime 0 remaining_required_total supports_deadline 0 0
      (Some (window_id_for (w_watch_id w) 0))
      (Some (match w_next_check_at w with Some t => t | None => now end))
      None false None.

(** ** Decisions *)

Inductive CreateStatus := CREATED | ALREADY_EXISTS.
Record CreateResult := MkCreateResult {
  cr_status : CreateStatus;
  cr_watch : option Watch;
  cr_runtime : option WatchRuntime;
}.

Inductive ClaimStatus := OWNED | BUSY | EARLY | STALE | TERMINAL | UNKNOWN.
#[export] Instance ClaimStatus_eq_dec : EqDecision ClaimStatus.
Proof. solve_decision. Defined.

(** Proof of ownership of one cadence window during one lease. *)
Record WindowClaim := MkClaim {
  cl_watch : Watch;
  cl_runtime : WatchRuntime;
  cl_owner_id : string;
  cl_window_id : string;
  cl_token : Z;
  cl_lease_expires_at : Z;
}.
#[export] Instance WindowClaim_eq_dec : EqDecision WindowClaim.
Proof. solve_decision. Defined.

Definition cl_watch_id (c : WindowClaim) : string := w_watch_id (cl_watch c).

Record ClaimResult := MkClaimResult { clr_status : ClaimStatus; clr_claim : option WindowClaim }.

Inductive BookingPermitStatus := GRANTED | BP_CANCELLED | BP_FENCED.
#[export] Instance BookingPermitStatus_eq_dec : EqDecision BookingPermitStatus.
Proof. solve_decision. Defined.
Record BookingPermit := MkPermit { bp_status : BookingPermitStatus; bp_permit_id : option string }.

Inductive CommitStatus := COMMITTED | CS_FENCED | CS_TERMINAL | CS_UNKNOWN.
#[export] Instance CommitStatus_eq_dec : EqDecision CommitStatus.
Proof. solve_decision. Defined.
Record CommitResult := MkCommitResult {
  cmr_status : CommitStatus;
  cmr_watch : option Watch;
  cmr_event_id : option string;
}.

Inductive TransitionStatus := APPLIED | NOOP | NOT_ELIGIBLE | TS_FENCED | TS_UNKNOWN.
#[export] Instance TransitionStatus_eq_dec : EqDecision TransitionStatus.
Proof. solve_decision. Defined.
Record TransitionResult := MkTransition {
  tr_status : TransitionStatus;
  tr_watch : option Watch;
  tr_event_id : option string;
  tr_revision : Z;
}.

Record ScheduleMarker := MkMarker {
  mk_watch_id : string;
  mk_window_id : string;
  mk_scheduled_for : Z;
}.
#[export] Instance ScheduleMarker_eq_dec : EqDecision ScheduleMarker.
Proof. solve_decision. Defined.

Inductive DispatchStatus := CLAIMED | DS_BUSY | DS_STALE.
#[export] Instance DispatchStatus_eq_dec : EqDecision DispatchStatus.
Proof. solve_decision. Defined.
Record DispatchClaim := MkDispatchClaim {
  dc_watch_id : string;
  dc_window_id : string;
  dc_scheduled_for : Z;
  dc_owner_id : string;
  dc_generation : Z;
  dc_lease_expires_at : Z;
}.
#[export] Instance DispatchClaim_eq_dec : EqDecision DispatchClaim.
Proof. solve_decision. Defined.
Record DispatchResult := MkDispatchResult { dr_status : DispatchStatus; dr_claim : option DispatchClaim }.

Record RecoveryCandidate := MkCandidate {
  rc_watch_id : string;
  rc_watch : option Watch;
  rc_runtime : option WatchRuntime;
  rc_has_marker : bool;
  rc_has_live_claim : bool;
}.

Record CleanupResult := MkCleanupResult { cu_removed : Z; cu_remaining : bool }.

(** ** Lemmas *)

Lemma window_id_for_inj id m n : window_id_for id m = window_id_for id n → m = n.
Proof.
  unfold window_id_for. intros H. do 2 apply (inj (String.append _)) in H.
  by apply (inj pretty) in H.
Qed.

Lemma window_id_for_succ id n : window_id_for id (n + 1) ≠ window_id_for id n.
Proof. intros H%window_id_for_inj. lia. Qed.

Lemma ceil_div_spec n d : 0 < d → (ceil_div n d - 1) * d < n <= ceil_div n d * d.
Proof.
  intros Hd. unfold ceil_div. pose proof (Z.div_mod (- n) d). pose proof (Z.mod_pos_bound (- n) d).
  nia.
Qed.

Lemma ceil_div_nonneg n d : 0 <= n → 0 < d → 0 <= ceil_div n d.
Proof. intros Hn Hd. pose proof (ceil_div_spec n d Hd). nia. Qed.

Lemma watch_terminal_false w : watch_terminal w = false ↔ w_status w = ACTIVE.
Proof. unfold watch_terminal. by destruct (w_status w). Qed.

Lemma is_exhausted_false w now :
  is_exhausted w now = false ↔ w_attempts w < w_max_attempts w ∧ now < w_expires_at w.
Proof. unfold is_exhausted. rewrite orb_false_iff, !Z.leb_gt. lia. Qed.

Lemma watch_ok_spec w :
  watch_ok w = true ↔
    len_ok 1 200 (w_watch_id w) = true ∧ 0 <= w_attempts w <= w_max_attempts w ∧
    1 <= w_max_attempts w ∧ (length (w_found_slots w) <= 32)%nat ∧
    opt_all (len_ok 1 500) (w_last_error w) = true ∧
    (w_status w = BOOKED → is_Some (w_booking w)) ∧
    (w_status w = FOUND → w_found_slots w ≠ []) ∧
    (watch_terminal w = true → w_next_check_at w = None).
Proof.
  unfold watch_ok, watch_fields_ok, watch_state_ok.
  rewrite !andb_true_iff, !negb_true_iff, !andb_false_iff, !Z.leb_le, Nat.leb_le.
  destruct (w_booking w), (w_found_slots w), (w_next_check_at w), (watch_terminal w),
    (w_status w); cbn; rewrite ?bool_decide_eq_false; naive_solver (lia || done).
Qed.
