(* ===== verification/Policy.v ===== *)
(** * Poll pacing and attempt budgets
    ([backend/workers/scheduler.py], [backend/services/watch_policy.py])

    Durations are microseconds.  The jitter drawn by [random.uniform] is an
    argument; rounding it to the microsecond grid of [timedelta] commutes with
    every [min], [max] and comparison below, because the constants compared
    with are on the grid. *)

From S2P Require Import Prelude Calendar Schemas Reservation Watch.

(** ** [PollSchedule] *)

Definition MIN_DELAY_SECONDS : Z := seconds 1.

Record PollSchedule := MkSchedule { ps_interval : Z; ps_jitter : Z }.

(** [__post_init__]: [None] is [ValueError]. *)
Definition make_schedule (interval jitter : Z) : option PollSchedule :=
  if interval <=? 0 then None
  else if jitter <? 0 then None
  else if interval <=? jitter then None
  else Some (MkSchedule interval jitter).

Definition schedule_ok (s : PollSchedule) : Prop :=
  0 < ps_interval s ∧ 0 <= ps_jitter s < ps_interval s.

Definition next_delay (s : PollSchedule) (offset : Z) : Z :=
  Z.max MIN_DELAY_SECONDS (ps_interval s + offset).

Definition earliest_delay (s : PollSchedule) : Z :=
  Z.max MIN_DELAY_SECONDS (ps_interval s - ps_jitter s).

Definition latest_delay (s : PollSchedule) : Z := ps_interval s + ps_jitter s.

(** ** [AvailabilityPolicy] *)

Inductive PolicyLimit := CALENDAR | SAFETY_CEILING.

Record AvailabilityPolicy := MkPolicy {
  ap_required_attempts : Z;
  ap_effective_attempts : Z;
  ap_supports_deadline : bool;
  ap_limiting_reason : PolicyLimit;
}.

Definition is_attempt_limited (p : AvailabilityPolicy) : bool := negb (ap_supports_deadline p).

Definition monitoring_policy_header (p : AvailabilityPolicy) : string :=
  if ap_supports_deadline p then "deadline" else "attempt-limited".

Definition _earliest_delay_microseconds (s : PollSchedule) : Z := Z.max 1 (earliest_delay s).

(** [AvailabilityPolicyFactory.derive] on aware instants; [None] is the
    [ValueError] of a ceiling below one. *)
Definition derive (s : PollSchedule) (now expires_at safety_ceiling : Z)
    : option AvailabilityPolicy :=
  if safety_ceiling <? 1 then None
  else
    let earliest_us := _earliest_delay_microseconds s in
    let remaining_us := Z.max 0 (expires_at - now) in
    let interval_count := ceil_div remaining_us earliest_us in
    let required := interval_count + 1 in
    let effective := Z.min required safety_ceiling in
    let supports_deadline := effective =? required in
    Some (MkPolicy required effective supports_deadline
            (if supports_deadline then CALENDAR else SAFETY_CEILING)).

(** ** Lemmas *)

Lemma make_schedule_ok interval jitter s :
  make_schedule interval jitter = Some s ↔
  s = MkSchedule interval jitter ∧ schedule_ok s.
Proof.
  unfold make_schedule, schedule_ok. split.
  - intros H. repeat (case_match; [done|]). simplify_eq/=. split; [done|]. cbn. lia.
  - intros [-> Hok]. cbn in *. repeat (case_match; [lia|]). done.
Qed.

Lemma earliest_delay_pos s : 0 < earliest_delay s.
Proof. unfold earliest_delay, MIN_DELAY_SECONDS, seconds. lia. Qed.

Lemma derive_is_some s now e c p :
  derive s now e c = Some p →
  1 <= c ∧ 1 <= ap_effective_attempts p ∧
  ap_effective_attempts p = Z.min (ap_required_attempts p) c.
Proof.
  unfold derive. case_match eqn:Hc; [done|]. intros [= <-]. cbn.
  pose proof (ceil_div_nonneg (Z.max 0 (e - now)) (_earliest_delay_microseconds s)).
  unfold _earliest_delay_microseconds in *. lia.
Qed.

(** [checks] are the instants of successive availability checks. *)
Definition spaced (gap : Z) (checks : list Z) : Prop :=
  ∀ i t t', checks !! i = Some t → checks !! S i = Some t' → t + gap <= t'.

Lemma spaced_nth gap l i t0 t :
  spaced gap l → l !! 0%nat = Some t0 → l !! i = Some t → t0 + Z.of_nat i * gap <= t.
Proof.
  intros Hs H0. revert t. induction i as [|i IH]; intros t Hi.
  - simplify_eq. lia.
  - destruct (lookup_lt_is_Some_2 l i) as [t' Ht'].
    { apply lookup_lt_Some in Hi. lia. }
    specialize (IH _ Ht'). specialize (Hs _ _ _ Ht' Hi). lia.
Qed.

Lemma spaced_length gap lo hi l :
  0 < gap → spaced gap l → Forall (λ t, lo <= t < hi) l →
  Z.of_nat (length l) <= ceil_div (Z.max 0 (hi - lo)) gap.
Proof.
  intros Hg Hs Hl. destruct (decide (l = [])) as [->|Hne].
  { cbn. apply ceil_div_nonneg; lia. }
  destruct l as [|t0 l']; [done|]. set (l := t0 :: l') in *.
  destruct (lookup_lt_is_Some_2 l (pred (length l))) as [t Ht]; [cbn; lia|].
  pose proof (spaced_nth gap l _ t0 t Hs eq_refl Ht) as Hlast.
  rewrite Forall_lookup in Hl. pose proof (Hl _ _ Ht). pose proof (Hl 0%nat t0 eq_refl).
  pose proof (ceil_div_spec (Z.max 0 (hi - lo)) gap Hg).
  rewrite Z.max_r in * by lia. cbn [pred length] in *. subst l. cbn [length pred] in *. nia.
Qed.

(** ** Properties *)

(** A deadline-capable watch is granted enough availability checks
    for every cadence the schedule can produce: any sequence of checks spaced
    by at least the earliest delay between creation and the deadline is
    strictly shorter than the granted budget, so the calendar, never the
    ceiling, ends the watch; and a watch is declared attempt-limited exactly
    when the ceiling is below what the schedule may need. *)
Theorem derive_covers_lifetime s now expires_at ceiling p checks :
  derive s now expires_at ceiling = Some p →
  ap_supports_deadline p = true →
  spaced (earliest_delay s) checks →
  Forall (λ t, now <= t < expires_at) checks →
  Z.of_nat (length checks) < ap_effective_attempts p.
Proof.
  unfold derive. case_match eqn:Hc; [done|]. intros [= <-]. cbn.
  intros Hs Hsp Hl.
  pose proof (earliest_delay_pos s).
  pose proof (spaced_length (earliest_delay s) now expires_at checks ltac:(lia) Hsp Hl).
  unfold _earliest_delay_microseconds in *.
  rewrite (Z.max_r 1 (earliest_delay s)) in * by lia. apply Z.eqb_eq in Hs. lia.
Qed.

Lemma derive_covers_lifetime_witness :
  ∃ p, derive (MkSchedule (seconds 180) (seconds 30)) 0 (seconds 1000) 25000 = Some p ∧
       Z.of_nat (length [0; seconds 150; seconds 320]) < ap_effective_attempts p.
Proof.
  eexists. split; [vm_compute; reflexivity|].
  apply (derive_covers_lifetime (MkSchedule (seconds 180) (seconds 30)) 0 (seconds 1000) 25000).
  - vm_compute. reflexivity.
  - vm_compute. reflexivity.
  - intros [|[|[|i]]] t t' H1 H2; vm_compute in H1, H2; simplify_eq; vm_compute; discriminate.
  - repeat constructor; vm_compute; done.
Defined.

(** [describe_policy] re-derives a policy from the stored
    document, using the granted budget as the ceiling: it always reproduces
    the policy computed at creation. *)
Theorem derive_idempotent s now expires_at ceiling p :
  derive s now expires_at ceiling = Some p →
  derive s now expires_at (ap_effective_attempts p) = Some p.
Proof.
  intros H. pose proof (derive_is_some _ _ _ _ _ H) as (Hc & He & Heq).
  revert H He Heq. unfold derive. rewrite (proj2 (Z.ltb_ge ceiling 1)) by lia.
  intros [= <-]. cbn. intros He _. rewrite (proj2 (Z.ltb_ge _ 1)) by lia.
  by rewrite Z.min_assoc, Z.min_id.
Qed.

Lemma derive_idempotent_witness :
  ∃ p, derive (MkSchedule (seconds 180) (seconds 30)) 0 (days 30) 10 = Some p ∧
       derive (MkSchedule (seconds 180) (seconds 30)) 0 (days 30) 10 = Some p ∧
       derive (MkSchedule (seconds 180) (seconds 30)) 0 (days 30) (ap_effective_attempts p) = Some p.
Proof.
  eexists. split; [vm_compute; reflexivity|]. split; [vm_compute; reflexivity|].
  apply (derive_idempotent _ _ _ 10). vm_compute. reflexivity.
Defined.

(** Migrating a document that predates the sidecar computes the
    same number of forward checks as the creation-time policy, keeps a
    terminal record without a window, gives an active one its first window
    and its persisted due time, and calls it deadline-capable exactly when the
    persisted ceiling still covers the checks needed from here. *)
Theorem migrate_legacy_watch_spec s w now c p :
  derive s now (w_expires_at w) c = Some p →
  let r := migrate_legacy_watch w (earliest_delay s) now in
  rt_required_attempts r = w_attempts w + ap_required_attempts p ∧
  (rt_supports_deadline r = true ↔ w_attempts w + ap_required_attempts p <= w_max_attempts w) ∧
  (watch_terminal w = true → rt_window_id r = None ∧ rt_scheduled_for r = None) ∧
  (watch_terminal w = false →
     rt_window_id r = Some (window_id_for (w_watch_id w) 0) ∧
     rt_scheduled_for r = Some (default now (w_next_check_at w))) ∧
  rt_revision r = 0 ∧ rt_phase r = None ∧ rt_cancel_requested r = false.
Proof.
  unfold derive. case_match; [done|]. intros [= <-]. cbn.
  unfold _earliest_delay_microseconds.
  fold (_forward_required w (earliest_delay s) now).
  unfold migrate_legacy_watch.
  destruct (watch_terminal w), (w_next_check_at w); cbn;
    rewrite Z.leb_le; split_and!; intros; try done; split_and?; done.
Qed.

Definition example_query : AvailabilityQuery :=
  MkQuery "Ethel's Lounge" Schemas.RESTAURANT Schemas.MARKET 2 "2026-07-03"
    (Some "19:00"%string) None None [].

Definition example_watch : Watch :=
  MkWatch "watch_1" ACTIVE example_query false 0 0 (days 2) 3 200 None (Some (seconds 90)) []
    None None.

Lemma migrate_legacy_watch_spec_witness :
  let r := migrate_legacy_watch example_watch
             (earliest_delay (MkSchedule (seconds 180) (seconds 30))) (seconds 60) in
  rt_required_attempts r = 1156 ∧ rt_supports_deadline r = false.
Proof.
  pose proof (migrate_legacy_watch_spec (MkSchedule (seconds 180) (seconds 30))
                example_watch (seconds 60) 200 _ eq_refl) as (H1 & H2 & _).
  split; [exact H1|]. apply not_true_iff_false. intros H. apply H2 in H.
  vm_compute in H. by apply H.
Defined.
