(* ===== verification/Backoff.v ===== *)
(** * Outage backoff ([WatchService._exponent_limit], [_saturating_outages],
    [_outage_delay] of [backend/services/watch_service.py])

    An outage consumes no attempt; it paces the retry by a capped exponential
    delay.  [while value < maximum: value *= 2] is iterated on fuel, and the
    fuel given is shown to be enough. *)

From S2P Require Import Prelude Calendar Watch Policy.

Fixpoint exponent_loop (fuel : nat) (value maximum limit : Z) : option Z :=
  if value <? maximum then
    match fuel with
    | O => None
    | S fuel' => exponent_loop fuel' (value * 2) maximum (limit + 1)
    end
  else Some limit.

(** Doublings needed from an interval of at least one unit. *)
Definition exponent_fuel (maximum : Z) : nat := Z.to_nat (Z.log2_up maximum).

(** [_exponent_limit] *)
Definition _exponent_limit (interval maximum : Z) : Z :=
  match exponent_loop (exponent_fuel maximum) interval maximum 0 with
  | Some k => k
  | None => 0
  end.

Definition _saturating_outages (interval maximum value : Z) : Z :=
  Z.min value (_exponent_limit interval maximum + 1).

(** The un-jittered delay of the [outages]-th outage in a row. *)
Definition outage_base (interval maximum outages : Z) : Z :=
  if _exponent_limit interval maximum <=? outages - 1 then maximum
  else interval * 2 ^ (outages - 1).

(** [_outage_delay], given the jitter drawn. *)
Definition _outage_delay (s : PollSchedule) (maximum outages now expires_at offset : Z)
    : option Z :=
  let base := outage_base (ps_interval s) maximum outages in
  let jittered := base + offset in
  let jittered := Z.min (Z.max jittered MIN_DELAY_SECONDS) maximum in
  let remaining := expires_at - now in
  if remaining <? MIN_DELAY_SECONDS then None
  else Some (Z.min jittered remaining).

(** ** Lemmas *)

Lemma exponent_loop_spec fuel value maximum limit :
  0 < value → maximum <= value * 2 ^ Z.of_nat fuel →
  ∃ k, exponent_loop fuel value maximum limit = Some (limit + k) ∧ 0 <= k ∧
       maximum <= value * 2 ^ k ∧ ∀ j, 0 <= j < k → value * 2 ^ j < maximum.
Proof.
  revert value limit. induction fuel as [|fuel IH]; intros value limit Hv Hm.
  - cbn in *. exists 0. rewrite (proj2 (Z.ltb_ge value maximum)) by lia.
    split_and!; [f_equal|..]; lia.
  - cbn [exponent_loop]. destruct (Z.ltb_spec value maximum) as [Hlt|Hge].
    + destruct (IH (value * 2) (limit + 1)) as (k & Hk & Hk0 & Hkm & Hmin); [lia| |].
      { rewrite Nat2Z.inj_succ, Z.pow_succ_r in Hm by lia. lia. }
      exists (k + 1). rewrite Hk. split_and!; [f_equal; lia|lia| |].
      * rewrite Z.pow_add_r by lia. lia.
      * intros j Hj. destruct (decide (j = 0)) as [->|]; [lia|].
        specialize (Hmin (j - 1) ltac:(lia)).
        replace j with (1 + (j - 1)) by lia. rewrite Z.pow_add_r by lia. lia.
    + exists 0. split_and!; [f_equal|..]; lia.
Qed.

Lemma exponent_fuel_enough interval maximum :
  0 < interval → maximum <= interval * 2 ^ Z.of_nat (exponent_fuel maximum).
Proof.
  intros Hi. unfold exponent_fuel. rewrite Z2Nat.id by apply Z.log2_up_nonneg.
  destruct (decide (1 < maximum)) as [Hm|Hm].
  - pose proof (Z.log2_up_spec maximum Hm). nia.
  - rewrite Z.log2_up_eqn0 by lia. lia.
Qed.

(** The doubling loop always terminates within the fuel and
    [_exponent_limit] is the smallest [k] with [interval * 2**k >= maximum]. *)
Theorem exponent_limit_spec interval maximum :
  0 < interval →
  exponent_loop (exponent_fuel maximum) interval maximum 0
    = Some (_exponent_limit interval maximum) ∧
  0 <= _exponent_limit interval maximum ∧
  maximum <= interval * 2 ^ _exponent_limit interval maximum ∧
  ∀ j, 0 <= j < _exponent_limit interval maximum → interval * 2 ^ j < maximum.
Proof.
  intros Hi.
  destruct (exponent_loop_spec (exponent_fuel maximum) interval maximum 0)
    as (k & Hk & H0 & Hm & Hmin); [done|by apply exponent_fuel_enough|].
  unfold _exponent_limit. rewrite Hk. by split_and!.
Qed.

Lemma exponent_limit_spec_witness :
  _exponent_limit (seconds 180) (seconds 3600) = 5 ∧
  0 <= _exponent_limit (seconds 180) (seconds 3600).
Proof.
  split; [vm_compute; reflexivity|].
  apply (exponent_limit_spec (seconds 180) (seconds 3600)). vm_compute. reflexivity.
Defined.

Lemma exponent_limit_bounds interval maximum :
  0 < interval →
  0 <= _exponent_limit interval maximum ∧
  maximum <= interval * 2 ^ _exponent_limit interval maximum ∧
  ∀ j, 0 <= j < _exponent_limit interval maximum → interval * 2 ^ j < maximum.
Proof.
  intros Hi.
  destruct (exponent_loop_spec (exponent_fuel maximum) interval maximum 0)
    as (k & Hk & H0 & Hm & Hmin); [done|by apply exponent_fuel_enough|].
  unfold _exponent_limit. rewrite Hk. by split_and!.
Qed.

Lemma exponent_limit_nonneg interval maximum : 0 <= _exponent_limit interval maximum.
Proof.
  assert (∀ fuel value limit k, 0 <= limit →
    exponent_loop fuel value maximum limit = Some k → 0 <= k) as H.
  { induction fuel as [|fuel IH]; intros value limit k Hl Hk; cbn in Hk; case_match; simplify_eq;
      try lia. apply IH in Hk; lia. }
  unfold _exponent_limit. destruct (exponent_loop _ _ _ _) eqn:E; [by eapply H, E|lia].
Qed.

Lemma saturating_outages_nonneg interval maximum n :
  0 <= n → 0 <= _saturating_outages interval maximum n.
Proof. pose proof (exponent_limit_nonneg interval maximum). unfold _saturating_outages. lia. Qed.

Lemma outage_base_bounds interval maximum outages :
  0 < interval → interval <= maximum → 1 <= outages →
  interval <= outage_base interval maximum outages <= maximum.
Proof.
  intros Hi Hm Ho. destruct (exponent_limit_bounds interval maximum Hi) as (H0 & Hle & Hmin).
  unfold outage_base. destruct (Z.leb_spec (_exponent_limit interval maximum) (outages - 1)).
  - lia.
  - specialize (Hmin (outages - 1) ltac:(lia)).
    pose proof (Z.pow_pos_nonneg 2 (outages - 1) ltac:(lia) ltac:(lia)). nia.
Qed.

Lemma outage_delay_some s maximum outages now expires_at offset d :
  MIN_DELAY_SECONDS <= maximum →
  _outage_delay s maximum outages now expires_at offset = Some d →
  MIN_DELAY_SECONDS <= d <= maximum ∧ now + d <= expires_at.
Proof. intros Hm. unfold _outage_delay. case_match; intros [= <-]. lia. Qed.

(** ** Properties *)

(** A scheduled outage retry always respects the anti-hot-poll
    floor, never exceeds the configured maximum nor the remaining lifetime,
    and is refused exactly when less than the floor of lifetime remains. *)
Theorem outage_delay_bounds s maximum outages now expires_at offset :
  MIN_DELAY_SECONDS <= maximum →
  match _outage_delay s maximum outages now expires_at offset with
  | Some d => MIN_DELAY_SECONDS <= d <= maximum ∧ now + d <= expires_at
  | None => expires_at - now < MIN_DELAY_SECONDS
  end.
Proof.
  intros Hm. unfold _outage_delay. case_match eqn:E; case_match; simplify_eq; lia.
Qed.

Lemma outage_delay_bounds_witness :
  ∃ d, _outage_delay (MkSchedule (seconds 180) (seconds 30)) (seconds 3600) 3 0 (days 1)
         (seconds 7) = Some d ∧ MIN_DELAY_SECONDS <= d <= seconds 3600.
Proof.
  pose proof (outage_delay_bounds (MkSchedule (seconds 180) (seconds 30)) (seconds 3600) 3 0
                (days 1) (seconds 7) ltac:(vm_compute; discriminate)) as H.
  exists (seconds 727). split; [vm_compute; reflexivity|]. apply H.
Defined.

(** Storing the outage counter capped one past the exponent
    limit changes no delay: the delay of any further outage computed from the
    capped counter is the delay of the true number of consecutive outages. *)
Theorem saturating_outages_exact s maximum n now expires_at offset :
  0 < ps_interval s → 1 <= n →
  let interval := ps_interval s in
  _outage_delay s maximum (_saturating_outages interval maximum n) now expires_at offset
    = _outage_delay s maximum n now expires_at offset ∧
  _saturating_outages interval maximum (_saturating_outages interval maximum n + 1)
    = _saturating_outages interval maximum (n + 1).
Proof.
  intros Hi Hn. cbn zeta. set (interval := ps_interval s) in *.
  destruct (exponent_limit_bounds interval maximum Hi) as (H0 & _ & _).
  split; [|unfold _saturating_outages; lia].
  unfold _outage_delay. fold interval.
  assert (outage_base interval maximum (_saturating_outages interval maximum n)
          = outage_base interval maximum n) as ->; [|done].
  unfold outage_base, _saturating_outages.
  destruct (Z.leb_spec (_exponent_limit interval maximum) (n - 1)).
  - by rewrite (proj2 (Z.leb_le _ _)) by lia.
  - rewrite Z.min_l by lia. by rewrite (proj2 (Z.leb_gt _ _)) by lia.
Qed.

Lemma saturating_outages_exact_witness :
  _saturating_outages (seconds 180) (seconds 3600) 40 = 6 ∧
  _outage_delay (MkSchedule (seconds 180) (seconds 30)) (seconds 3600)
    (_saturating_outages (seconds 180) (seconds 3600) 40) 0 (days 1) 5
  = _outage_delay (MkSchedule (seconds 180) (seconds 30)) (seconds 3600) 40 0 (days 1) 5.
Proof.
  split; [vm_compute; reflexivity|].
  apply (saturating_outages_exact (MkSchedule (seconds 180) (seconds 30)) (seconds 3600) 40);
    vm_compute; done.
Defined.

(** Until the cap, each further consecutive outage doubles the
    un-jittered delay; the delay never decreases with the number of outages. *)
Theorem outage_base_doubles interval maximum n :
  0 < interval → interval <= maximum → 1 <= n →
  outage_base interval maximum (n + 1) = Z.min maximum (2 * outage_base interval maximum n).
Proof.
  intros Hi Hm Hn. destruct (exponent_limit_bounds interval maximum Hi) as (H0 & Hle & Hmin).
  pose proof (outage_base_bounds interval maximum n Hi Hm Hn) as Hb. revert Hb.
  unfold outage_base. replace (n + 1 - 1) with (Z.succ (n - 1)) by lia.
  rewrite Z.pow_succ_r by lia. set (L := _exponent_limit interval maximum) in *.
  destruct (Z.leb_spec L (n - 1)), (Z.leb_spec L (Z.succ (n - 1))); try lia.
  - intros _. assert (L = Z.succ (n - 1)) as HL by lia.
    rewrite HL, Z.pow_succ_r in Hle by lia. lia.
  - intros _. specialize (Hmin (Z.succ (n - 1)) ltac:(lia)).
    rewrite Z.pow_succ_r in Hmin by lia. lia.
Qed.

Lemma outage_base_doubles_witness :
  outage_base (seconds 180) (seconds 3600) 5 = seconds 2880 ∧
  outage_base (seconds 180) (seconds 3600) (5 + 1) = Z.min (seconds 3600) (2 * outage_base (seconds 180) (seconds 3600) 5).
Proof.
  split; [vm_compute; reflexivity|]. apply outage_base_doubles; vm_compute; done.
Defined.
