(* ===== verification/WatchSpec.v ===== *)
(** * The contract of a watch repository

    What both stores of [backend/db/repositories/watches.py] promise about ONE
    watch, stated on a [view]: the values the store holds under the keys of
    that watch.  Each operation has a relation between the view before, the
    answer and the view after; [WatchRepository] is the interface of a store
    and [LawfulRepository] says that it meets the contract, one watch at a
    time.  Services are verified against this interface. *)

From S2P Require Import Prelude Calendar Schemas Reservation Watch.

(** [_ClaimLease] *)
Record ClaimLease := MkClaimLease {
  cls_window_id : string;
  cls_owner_id : string;
  cls_token : Z;
  cls_expires_at : Z;
}.

(** [_TERMINAL_EVENT_STATUSES] *)
Definition is_event_status (s : WatchStatus) : bool :=
  match s with FOUND | BOOKED | EXPIRED => true | _ => false end.

Record view := MkView {
  v_watch : option Watch;
  v_runtime : option WatchRuntime;
  v_fence : option Z;
  v_claim : option ClaimLease;
  v_marker : option ScheduleMarker;
  v_delete_at : option Z;
}.
#[export] Instance view_eta : Eta view := λ v,
  MkView (v_watch v) (v_runtime v) (v_fence v) (v_claim v) (v_marker v) (v_delete_at v).

Definition empty_view : view := MkView None None None None None None.

(** A document written before the sidecar existed. *)
Definition legacy_view (w : Watch) : view := MkView (Some w) None None None None None.

Definition fence_of (v : view) : Z := default 0 (v_fence v).

(** The durable schedule marker a runtime calls for. *)
Definition marker_of (watch_id : string) (r : WatchRuntime) : option ScheduleMarker :=
  match rt_window_id r, rt_scheduled_for r with
  | Some win, Some due => Some (MkMarker watch_id win due)
  | _, _ => None
  end.

(** The claim still holds the lease it was issued, on the revision it saw. *)
Definition view_owns (c : WindowClaim) (now : Z) (v : view) : bool :=
  match v_runtime v, v_claim v with
  | Some r, Some h =>
      (rt_revision r =? rt_revision (cl_runtime c)) && (cls_token h =? cl_token c)
      && bool_decide (cls_owner_id h = cl_owner_id c) && (now <? cls_expires_at h)
  | _, _ => false
  end.

(** The runtime of a watch ended by cancellation or expiry. *)
Definition ended_runtime (deadline : Z) (r : WatchRuntime) : WatchRuntime :=
  r <| rt_revision := rt_revision r + 1 |> <| rt_window_id := None |>
    <| rt_scheduled_for := None |> <| rt_phase := None |>
    <| rt_cancel_requested := false |> <| rt_terminal_delete_at := Some deadline |>.

Definition next_revision (r : option WatchRuntime) : Z :=
  match r with Some r => rt_revision r + 1 | None => 0 end.

Definition ended_view (w : Watch) (deadline : Z) (v : view) : view :=
  MkView (Some w) (ended_runtime deadline <$> v_runtime v) (v_fence v) None None (Some deadline).

Definition ended_watch (st : WatchStatus) (now : Z) (w : Watch) : Watch :=
  w <| w_status := st |> <| w_next_check_at := None |> <| w_updated_at := now |>.

Section contract.
Context (sha1hex : string → string) (retention : Z).

Definition terminal_event_id (watch_id : string) (st : WatchStatus) (revision : Z) : string :=
  sha1hex (watch_id +:+ ":" +:+ status_value st +:+ ":" +:+ pretty revision).

Definition event_for (watch_id : string) (st : WatchStatus) (revision : Z) : option string :=
  if is_event_status st then Some (terminal_event_id watch_id st revision) else None.

Inductive create_post (id : string) (w : Watch) (r : WatchRuntime) (v : view)
    : CreateResult → view → Prop :=
| create_exists w0 : v_watch v = Some w0 →
    create_post id w r v (MkCreateResult ALREADY_EXISTS (Some w0) (v_runtime v)) v
| create_new : v_watch v = None →
    create_post id w r v (MkCreateResult CREATED (Some w) (Some r))
      (MkView (Some w) (Some r) (Some 0) (v_claim v) (marker_of id r) (v_delete_at v)).

Inductive claim_post (win owner : string) (lease : Z) (ignore_schedule : bool) (now : Z)
    (v : view) : ClaimResult → view → Prop :=
| claim_unknown : v_watch v = None ∨ v_runtime v = None →
    claim_post win owner lease ignore_schedule now v (MkClaimResult UNKNOWN None) v
| claim_terminal w : v_watch v = Some w → watch_terminal w = true →
    claim_post win owner lease ignore_schedule now v (MkClaimResult TERMINAL None) v
| claim_stale r : v_runtime v = Some r → rt_window_id r ≠ Some win →
    claim_post win owner lease ignore_schedule now v (MkClaimResult STALE None) v
| claim_early r due : v_runtime v = Some r → rt_scheduled_for r = Some due →
    ignore_schedule = false → now < due →
    claim_post win owner lease ignore_schedule now v (MkClaimResult EARLY None) v
| claim_busy h : v_claim v = Some h → now < cls_expires_at h →
    claim_post win owner lease ignore_schedule now v (MkClaimResult BUSY None) v
| claim_owned w r exp :
    v_watch v = Some w → watch_terminal w = false → v_runtime v = Some r →
    rt_window_id r = Some win →
    (ignore_schedule = false → ∀ due, rt_scheduled_for r = Some due → due <= now) →
    (∀ h, v_claim v = Some h → cls_window_id h = win → cls_expires_at h <= now) →
    exp <= now + lease →
    claim_post win owner lease ignore_schedule now v
      (MkClaimResult OWNED (Some (MkClaim w r owner win (fence_of v + 1) exp)))
      (v <| v_fence := Some (fence_of v + 1) |>
         <| v_claim := Some (MkClaimLease win owner (fence_of v + 1) exp) |>).

Inductive begin_post (c : WindowClaim) (now : Z) (v : view) : BookingPermit → view → Prop :=
| begin_fenced :
    (∀ w, v_watch v = Some w → watch_terminal w = false → view_owns c now v = false) →
    begin_post c now v (MkPermit BP_FENCED None) v
| begin_cancelled r : v_runtime v = Some r → rt_cancel_requested r = true →
    view_owns c now v = true →
    begin_post c now v (MkPermit BP_CANCELLED None) v
| begin_granted w r : v_watch v = Some w → watch_terminal w = false →
    v_runtime v = Some r → rt_cancel_requested r = false → view_owns c now v = true →
    begin_post c now v
      (MkPermit GRANTED (Some (cl_watch_id c +:+ ":" +:+ pretty (cl_token c))))
      (v <| v_runtime := Some (r <| rt_phase := Some BOOKING |>) |>).

(** [now] is read when ownership is judged, [now'] when retention is. *)
Inductive commit_post (id : string) (c : WindowClaim) (w' : Watch) (r' : WatchRuntime)
    (now now' : Z) (v : view) : CommitResult → view → Prop :=
| commit_unknown : v_watch v = None ∨ v_runtime v = None →
    commit_post id c w' r' now now' v (MkCommitResult CS_UNKNOWN None None) v
| commit_terminal w ow : v_watch v = Some w → watch_terminal w = true →
    commit_post id c w' r' now now' v (MkCommitResult CS_TERMINAL ow None) v
| commit_fenced : view_owns c now v = false →
    commit_post id c w' r' now now' v (MkCommitResult CS_FENCED None None) v
| commit_ended w r : v_watch v = Some w → watch_terminal w = false → v_runtime v = Some r →
    view_owns c now v = true → watch_terminal w' = true →
    commit_post id c w' r' now now' v
      (MkCommitResult COMMITTED (Some w') (event_for id (w_status w') (rt_revision r + 1)))
      (MkView (Some w')
         (Some (r' <| rt_revision := rt_revision r + 1 |> <| rt_phase := None |>
                   <| rt_terminal_delete_at := Some (now' + retention) |>))
         (v_fence v) None None (Some (now' + retention)))
| commit_next w r : v_watch v = Some w → watch_terminal w = false → v_runtime v = Some r →
    view_owns c now v = true → watch_terminal w' = false →
    commit_post id c w' r' now now' v (MkCommitResult COMMITTED (Some w') None)
      (MkView (Some w')
         (Some (r' <| rt_revision := rt_revision r + 1 |> <| rt_phase := None |>))
         (v_fence v) None (marker_of id r') (v_delete_at v)).

Inductive cancel_post (now : Z) (v : view) : TransitionResult → view → Prop :=
| cancel_unknown : v_watch v = None →
    cancel_post now v (MkTransition TS_UNKNOWN None None (-1)) v
| cancel_noop w : v_watch v = Some w → watch_terminal w = true →
    cancel_post now v (MkTransition NOOP (Some w) None (-1)) v
| cancel_pending w r : v_watch v = Some w → watch_terminal w = false →
    v_runtime v = Some r → rt_phase r = Some BOOKING →
    cancel_post now v (MkTransition NOT_ELIGIBLE (Some w) None (-1))
      (v <| v_runtime := Some (r <| rt_cancel_requested := true |>) |>)
| cancel_applied w : v_watch v = Some w → watch_terminal w = false →
    (∀ r, v_runtime v = Some r → rt_phase r ≠ Some BOOKING) →
    cancel_post now v
      (MkTransition APPLIED (Some (ended_watch CANCELLED now w)) None
         (next_revision (v_runtime v)))
      (ended_view (ended_watch CANCELLED now w) (now + retention) v).

Inductive expire_post (id : string) (expected : option Z) (force : bool) (now : Z) (v : view)
    : TransitionResult → view → Prop :=
| expire_unknown : v_watch v = None →
    expire_post id expected force now v (MkTransition TS_UNKNOWN None None (-1)) v
| expire_noop w : v_watch v = Some w → watch_terminal w = true →
    expire_post id expected force now v (MkTransition NOOP (Some w) None (-1)) v
| expire_fenced n r : expected = Some n → v_runtime v = Some r → rt_revision r ≠ n →
    expire_post id expected force now v (MkTransition TS_FENCED None None (-1)) v
| expire_not_eligible w : v_watch v = Some w → watch_terminal w = false →
    force = false → is_exhausted w now = false →
    expire_post id expected force now v (MkTransition NOT_ELIGIBLE (Some w) None (-1)) v
| expire_applied w : v_watch v = Some w → watch_terminal w = false →
    force = true ∨ is_exhausted w now = true →
    (∀ n r, expected = Some n → v_runtime v = Some r → rt_revision r = n) →
    expire_post id expected force now v
      (MkTransition APPLIED (Some (ended_watch EXPIRED now w))
         (event_for id EXPIRED (next_revision (v_runtime v))) (next_revision (v_runtime v)))
      (ended_view (ended_watch EXPIRED now w) (now + retention) v).

Inductive release_post (c : WindowClaim) (v : view) : bool → view → Prop :=
| release_done h : v_claim v = Some h → cls_token h = cl_token c →
    cls_owner_id h = cl_owner_id c → release_post c v true (v <| v_claim := None |>)
| release_not_owner :
    (∀ h, v_claim v = Some h → ¬ (cls_token h = cl_token c ∧ cls_owner_id h = cl_owner_id c)) →
    release_post c v false v.

Inductive synthesize_post (id : string) (r : WatchRuntime) (now : Z) (v : view)
    : bool → view → Prop :=
| synthesize_refused :
    (∀ w, v_watch v = Some w → watch_terminal w = false →
      (∃ h, v_claim v = Some h ∧ now < cls_expires_at h) ∨ is_Some (v_marker v)
      ∨ marker_of id r = None) →
    synthesize_post id r now v false v
| synthesize_unmarked w : v_watch v = Some w → watch_terminal w = false →
    v_marker v = None → marker_of id r = None →
    synthesize_post id r now v false
      (v <| v_runtime := Some r |> <| v_fence := Some (fence_of v) |>)
| synthesize_done w m : v_watch v = Some w → watch_terminal w = false →
    (∀ h, v_claim v = Some h → cls_expires_at h <= now) → v_marker v = None →
    marker_of id r = Some m →
    synthesize_post id r now v true
      (v <| v_runtime := Some r |> <| v_fence := Some (fence_of v) |>
         <| v_marker := Some m |>).

(** One watch under [cleanup_due]: kept, dropped from the cleanup index, or
    removed because it is terminal and its deadline has passed. *)
Inductive cleanup_post (now : Z) (v : view) : view → Prop :=
| cleanup_kept : cleanup_post now v v
| cleanup_stale d : v_delete_at v = Some d → d <= now →
    (∀ w, v_watch v = Some w → watch_terminal w = false) →
    cleanup_post now v (v <| v_delete_at := None |>)
| cleanup_removed w d : v_watch v = Some w → watch_terminal w = true →
    v_delete_at v = Some d → d <= now → cleanup_post now v empty_view.
End contract.

(** ** The interface *)

Class WatchRepository (Repo : Type) := {
  repo_view : string → Repo → view;
  get : string → Repo → option Watch;
  get_runtime : string → Repo → option WatchRuntime;
  create_with_schedule : Watch → WatchRuntime → Repo → CreateResult * Repo;
  claim_window : string → string → string → Z → bool → Z → Repo → ClaimResult * Repo;
  begin_booking : WindowClaim → Z → Repo → BookingPermit * Repo;
  commit_window : WindowClaim → Watch → WatchRuntime → Z → Z → Repo → CommitResult * Repo;
  cancel_if_active : string → Z → Repo → TransitionResult * Repo;
  expire_if_eligible : string → option Z → bool → Z → Repo → TransitionResult * Repo;
  release_claim : WindowClaim → Repo → bool * Repo;
  cleanup_due : Z → Z → Repo → CleanupResult * Repo;
  prune_index_member : string → bool → Repo → Repo;
  synthesize_marker : string → WatchRuntime → Z → Repo → bool * Repo;
  delete_watch : string → Repo → bool * Repo;
}.

(** ** Commands

    One command per operation that changes a store, with the clock readings
    the operation makes. *)

Inductive cmd :=
| CCreate (w : Watch) (r : WatchRuntime)
| CClaim (id win owner : string) (lease : Z) (ignore_schedule : bool) (now : Z)
| CBegin (c : WindowClaim) (now : Z)
| CCommit (c : WindowClaim) (w : Watch) (r : WatchRuntime) (now now' : Z)
| CCancel (id : string) (now : Z)
| CExpire (id : string) (expected : option Z) (force : bool) (now : Z)
| CRelease (c : WindowClaim)
| CCleanup (now n : Z)
| CSynthesize (id : string) (r : WatchRuntime) (now : Z)
| CPrune (id : string) (from_all : bool)
| CDelete (id : string).

(** What a command did, as its caller can tell from the answer. *)
Inductive entry :=
| Created
| Issued (c : WindowClaim)
| Granted (c : WindowClaim)
| Done (rev : Z) (st : WatchStatus) (by_claim : option WindowClaim) (event_id : option string).

Definition exec {Repo} `{WatchRepository Repo} (c : cmd) (s : Repo)
    : list (string * entry) * Repo :=
  match c with
  | CCreate w r =>
      let '(res, s') := create_with_schedule w r s in
      (match cr_status res with CREATED => [(w_watch_id w, Created)] | ALREADY_EXISTS => [] end, s')
  | CClaim id win owner lease ign now =>
      let '(res, s') := claim_window id win owner lease ign now s in
      (match clr_claim res with Some c => [(id, Issued c)] | None => [] end, s')
  | CBegin c now =>
      let '(res, s') := begin_booking c now s in
      (match bp_status res with GRANTED => [(cl_watch_id c, Granted c)] | _ => [] end, s')
  | CCommit c w r now now' =>
      let '(res, s') := commit_window c w r now now' s in
      (match cmr_status res with
       | COMMITTED => [(cl_watch_id c, Done (rt_revision (cl_runtime c) + 1) (w_status w) (Some c)
                                         (cmr_event_id res))]
       | _ => []
       end, s')
  | CCancel id now =>
      let '(res, s') := cancel_if_active id now s in
      (match tr_status res with
       | APPLIED => [(id, Done (tr_revision res) CANCELLED None (tr_event_id res))]
       | _ => []
       end, s')
  | CExpire id expected force now =>
      let '(res, s') := expire_if_eligible id expected force now s in
      (match tr_status res with
       | APPLIED => [(id, Done (tr_revision res) EXPIRED None (tr_event_id res))]
       | _ => []
       end, s')
  | CRelease c => ([], (release_claim c s).2)
  | CCleanup now n => ([], (cleanup_due now n s).2)
  | CSynthesize id r now => ([], (synthesize_marker id r now s).2)
  | CPrune id all => ([], prune_index_member id all s)
  | CDelete id => ([], (delete_watch id s).2)
  end.

(** [f] acts on the keys of one watch only, as [P] says. *)
Definition acts_on {Repo} `{WatchRepository Repo} {A} (id : string) (s : Repo) (P : view → A → view → Prop)
    (res : A * Repo) : Prop :=
  P (repo_view id s) res.1 (repo_view id res.2) ∧
  ∀ id', id' ≠ id → repo_view id' res.2 = repo_view id' s.

Class LawfulRepository (sha1hex : string → string) (retention : Z) (Repo : Type)
    `{WatchRepository Repo} (good : Repo → Prop) := {
  law_get id s : good s → get id s = v_watch (repo_view id s);
  law_get_runtime id s : good s → get_runtime id s = v_runtime (repo_view id s);
  law_create w r s : good s →
    acts_on (w_watch_id w) s (create_post (w_watch_id w) w r) (create_with_schedule w r s);
  law_claim id win owner lease ign now s : good s →
    acts_on id s (claim_post win owner lease ign now) (claim_window id win owner lease ign now s);
  law_begin c now s : good s →
    acts_on (cl_watch_id c) s (begin_post c now) (begin_booking c now s);
  law_commit c w r now now' s : good s →
    acts_on (cl_watch_id c) s
      (commit_post sha1hex retention (cl_watch_id c) c w r now now')
      (commit_window c w r now now' s);
  law_cancel id now s : good s →
    acts_on id s (cancel_post retention now) (cancel_if_active id now s);
  law_expire id expected force now s : good s →
    acts_on id s (expire_post sha1hex retention id expected force now)
      (expire_if_eligible id expected force now s);
  law_release c s : good s → acts_on (cl_watch_id c) s (release_post c) (release_claim c s);
  law_cleanup now n s : good s →
    ∀ id, cleanup_post now (repo_view id s) (repo_view id (cleanup_due now n s).2);
  law_synthesize id r now s : good s →
    acts_on id s (synthesize_post id r now) (synthesize_marker id r now s);
  law_prune id (all : bool) s : good s →
    acts_on id s (λ v _ v', v' = if all then empty_view else v) (tt, prune_index_member id all s);
  law_delete id s : good s →
    acts_on id s (λ v b v', b = is_some (v_watch v) ∧ v' = empty_view) (delete_watch id s);
  law_good c s : good s → good (exec c s).2;
}.
