(* ===== verification/WatchLog.v ===== *)
(** * Histories of a watch repository

    A [trace] is any interleaving of repository commands, by any number of
    workers, with arbitrary clock readings.  It records which claims were
    issued, which booking permits were granted and which transitions were
    applied.  [log_ok] says what a history of one watch can look like; every
    lawful repository produces only such histories ([trace_inv]). *)

From S2P Require Import Prelude Calendar Schemas Reservation Watch WatchSpec.

#[export] Instance entry_eq_dec : EqDecision entry.
Proof. solve_decision. Defined.

Definition log := list (string * entry).

Definition log_of (id : string) (L : log) : list entry :=
  omap (λ p, if decide (p.1 = id) then Some p.2 else None) L.

Definition token_of (c : WindowClaim) : Z := cl_token c.
Definition rev_of (c : WindowClaim) : Z := rt_revision (cl_runtime c).

(** Nothing after a terminal transition, tokens and revisions only grow, only
    the newest claim is used, and a cancellation or expiry command finds no
    permit unresolved unless it is an expiry. *)
Definition open_log (l : list entry) : Prop :=
Created ∈ l ∧ ∀ rev st by_claim ev, Done rev st by_claim ev ∈ l → is_terminal st = false.

Definition revs_below (n : Z) (l : list entry) : Prop :=
  ∀ rev st by_claim ev, Done rev st by_claim ev ∈ l → rev <= n.

Definition newest (c : WindowClaim) (l : list entry) : Prop :=
  Issued c ∈ l ∧ ∀ c', Issued c' ∈ l → c' = c ∨ token_of c' < token_of c.

Definition permits_resolved (l : list entry) : Prop :=
  ∀ c, Granted c ∈ l → ∃ rev st by_claim ev, Done rev st by_claim ev ∈ l ∧ rev_of c < rev.

Section log_ok.
Context (sha1hex : string → string) (id : string).

Definition entry_ok (e : entry) (l : list entry) : Prop :=
  match e with
  | Created => l = []
  | Issued c =>
      open_log l ∧ cl_watch_id c = id ∧ revs_below (rev_of c) l ∧
      ∀ c', Issued c' ∈ l → token_of c' < token_of c
  | Granted c => open_log l ∧ newest c l ∧ revs_below (rev_of c) l
  | Done rev st by_claim ev =>
      open_log l ∧ revs_below (rev - 1) l ∧ (∀ c, Issued c ∈ l → rev_of c < rev) ∧
      ev = event_for sha1hex id st rev ∧
      match by_claim with
      | Some c => newest c l ∧ rev = rev_of c + 1
      | None =>
          is_terminal st = true ∧ st ≠ FOUND ∧ st ≠ BOOKED ∧
          (st = CANCELLED → permits_resolved l)
      end
  end.

Fixpoint log_ok (l : list entry) : Prop :=
  match l with
  | [] => True
  | e :: l' => entry_ok e l' ∧ log_ok l'
  end.

Lemma log_ok_split l1 e l2 : log_ok (l1 ++ e :: l2) → entry_ok e l2.
Proof. induction l1 as [|x l1 IH]; cbn; naive_solver. Qed.

Record vinv (v : view) (l : list entry) : Prop := {
  vi_log : log_ok l;
  vi_fresh : Created ∉ l → l = [];
  vi_absent : v_watch v = None → v = empty_view;
  vi_key w : v_watch v = Some w → w_watch_id w = id ∧ Created ∈ l;
  vi_terminal w : v_watch v = Some w → watch_terminal w = true →
    v_claim v = None ∧ v_marker v = None ∧ is_Some (v_delete_at v);
  vi_deadline r d : v_runtime v = Some r → v_delete_at v = Some d →
    rt_terminal_delete_at r = Some d;
  vi_active w : v_watch v = Some w → watch_terminal w = false →
    v_delete_at v = None ∧ v_marker v = v_runtime v ≫= marker_of id ∧ open_log l;
  vi_claim h : v_claim v = Some h →
    is_Some (v_runtime v) ∧ cls_token h = fence_of v;
  vi_issued c w : v_watch v = Some w → Issued c ∈ l →
    token_of c <= fence_of v ∧ ∃ r, v_runtime v = Some r ∧ rev_of c <= rt_revision r;
  vi_revs r : v_runtime v = Some r → revs_below (rt_revision r) l;
  vi_norev : v_runtime v = None → ∀ w, v_watch v = Some w → watch_terminal w = false → l = [Created];
  vi_tokens c c' : Issued c ∈ l → Issued c' ∈ l → token_of c = token_of c' → c = c';
  vi_permits r c : v_runtime v = Some r → Granted c ∈ l →
    rt_phase r = Some BOOKING ∨
    ∃ rev st by_claim ev, Done rev st by_claim ev ∈ l ∧ rev_of c < rev;
}.

Lemma vinv_empty : vinv empty_view [].
Proof. split; cbn; set_solver. Qed.

Lemma vinv_legacy w : w_watch_id w = id → watch_terminal w = false →
  vinv (legacy_view w) [Created].
Proof.
  intros Hid Hw. split; cbn; try done; try set_solver.
  - naive_solver congruence.
  - intros w' [= ->] _. split_and!; [done..|]. split; [set_solver|].
    intros ???? Hin. set_solver.
Qed.

Lemma granted_issued l c : log_ok l → Granted c ∈ l → Issued c ∈ l.
Proof.
  induction l as [|e l IH]; cbn; [set_solver|]. intros [He Hl].
  rewrite !elem_of_cons. intros [<-|Hin]; [|auto].
  destruct He as (_ & [Hn _] & _). auto.
Qed.

Lemma vinv_created w r v l :
  vinv v l → v_watch v = None → watch_terminal w = false → w_watch_id w = id →
  rt_revision r = 0 → Created ∉ l →
  vinv (MkView (Some w) (Some r) (Some 0) (v_claim v) (marker_of id r) (v_delete_at v))
    [Created].
Proof.
  intros Hv Hnone Hw Hid Hrev Hl. rewrite (vi_absent _ _ Hv Hnone).
  split; cbn; try done; try set_solver.
  - naive_solver congruence.
  - intros w' [= <-] _. split_and!; [done..|]. split; [set_solver|].
    intros ???? Hin. set_solver.
  - intros r' [= <-] ???? Hin. set_solver.
Qed.

Lemma open_log_cons e l :
  open_log l →
  (∀ rev st by_claim ev, e = Done rev st by_claim ev → is_terminal st = false) →
  open_log (e :: l).
Proof.
  intros [Hc Hd] He. split; [set_solver|].
  intros rev st bc ev Hin. apply elem_of_cons in Hin as [Hin|Hin]; eauto.
Qed.

Lemma revs_below_cons n e l :
  revs_below n l →
  (∀ rev st by_claim ev, e = Done rev st by_claim ev → rev <= n) →
  revs_below n (e :: l).
Proof.
  intros Hd He rev st bc ev Hin. apply elem_of_cons in Hin as [Hin|Hin]; eauto.
Qed.

Lemma revs_below_le n m l : revs_below n l → n <= m → revs_below m l.
Proof. intros Hd Hle rev st bc ev Hin. specialize (Hd _ _ _ _ Hin). lia. Qed.

Lemma vinv_issued w r win owner exp v l :
  vinv v l → v_watch v = Some w → watch_terminal w = false → v_runtime v = Some r →
  vinv (v <| v_fence := Some (fence_of v + 1) |>
          <| v_claim := Some (MkClaimLease win owner (fence_of v + 1) exp) |>)
    (Issued (MkClaim w r owner win (fence_of v + 1) exp) :: l).
Proof.
  intros Hv Hw Hact Hr. destruct (vi_active _ _ Hv _ Hw Hact) as (Hd & Hm & Hopen).
  destruct (vi_key _ _ Hv _ Hw) as [Hid Hc].
  assert (∀ c, Issued c ∈ l → token_of c <= fence_of v ∧ rev_of c <= rt_revision r) as Hiss.
  { intros c Hc'. destruct (vi_issued _ _ Hv _ _ Hw Hc') as (? & r' & ? & ?). naive_solver. }
  split; cbn.
  - split; [|by apply Hv]. split_and!; [done|done|by apply (vi_revs _ _ Hv)|].
    intros c' Hc'. destruct (Hiss _ Hc'). unfold token_of in *. cbn. lia.
  - set_solver.
  - congruence.
  - intros w' Hw'. split; [by eapply vi_key|set_solver].
  - congruence.
  - apply Hv.
  - intros w' Hw' Hact'. split_and!; [done..|]. by apply open_log_cons.
  - intros h [= <-]. split; [by eexists|done].
  - intros c w' Hw' [[= ->]|Hin]%elem_of_cons; cbn.
    + split; [unfold token_of; cbn; lia|]. exists r. split; [done|]. unfold rev_of. cbn. lia.
    + destruct (Hiss _ Hin). split; [cbn; lia|]. eauto.
  - intros r' Hr'. apply revs_below_cons; [by apply (vi_revs _ _ Hv)|done].
  - congruence.
  - intros c c' [[= ->]|H1]%elem_of_cons [[= ->]|H2]%elem_of_cons Ht; [done|..].
    + destruct (Hiss _ H2). unfold token_of in *. cbn in *. lia.
    + destruct (Hiss _ H1). unfold token_of in *. cbn in *. lia.
    + by apply (vi_tokens _ _ Hv).
  - intros r' c Hr' [?|Hin]%elem_of_cons; [done|].
    destruct (vi_permits _ _ Hv _ _ Hr' Hin) as [?|(?&?&?&?&?&?)]; [by left|].
    right. do 4 eexists. split; [by apply list_elem_of_further|done].
Qed.

Lemma owns_newest w c now v l :
  vinv v l → v_watch v = Some w → Issued c ∈ l → view_owns c now v = true →
  newest c l ∧ ∃ r, v_runtime v = Some r ∧ rev_of c = rt_revision r.
Proof.
  intros Hv Hw Hc. unfold view_owns. destruct (v_runtime v) as [r|] eqn:Hr; [|done].
  destruct (v_claim v) as [h|] eqn:Hh; [|done]. rewrite !andb_true_iff, !Z.eqb_eq.
  intros [[[Hrev Htok] _] _]. destruct (vi_claim _ _ Hv _ Hh) as [_ Hf].
  split; [|by exists r]. split; [done|]. intros c' Hc'.
  destruct (decide (token_of c' = token_of c)) as [Heq|Hne].
  - left. by apply (vi_tokens _ _ Hv).
  - right. destruct (vi_issued _ _ Hv _ _ Hw Hc'). unfold token_of in *. lia.
Qed.

(** A runtime rewritten in place: same revision, same marker. *)
Lemma vinv_runtime r r' v l :
  vinv v l → v_runtime v = Some r →
  rt_revision r' = rt_revision r → marker_of id r' = marker_of id r →
  rt_terminal_delete_at r' = rt_terminal_delete_at r →
  (rt_phase r = Some BOOKING → rt_phase r' = Some BOOKING) →
  vinv (v <| v_runtime := Some r' |>) l.
Proof.
  intros Hv Hr Hrev Hm Hd Hp. split; cbn.
  - apply Hv.
  - apply Hv.
  - intros Hw. rewrite (vi_absent _ _ Hv Hw) in Hr. done.
  - apply Hv.
  - apply Hv.
  - intros r2 d [= <-] Hd2. rewrite Hd. by apply (vi_deadline _ _ Hv).
  - intros w Hw Hact. destruct (vi_active _ _ Hv w Hw Hact) as (? & Hm' & ?).
    rewrite Hr in Hm'. cbn in Hm'. by rewrite Hm.
  - intros h Hh. destruct (vi_claim _ _ Hv h Hh). split; [by eexists|done].
  - intros c w Hw Hc. destruct (vi_issued _ _ Hv c w Hw Hc) as (? & r2 & ? & ?).
    split; [done|]. exists r'. split; [done|]. rewrite Hrev. naive_solver.
  - intros r2 [= <-]. rewrite Hrev. by apply (vi_revs _ _ Hv).
  - done.
  - apply Hv.
  - intros r2 c [= <-] Hc. destruct (vi_permits _ _ Hv r c Hr Hc); eauto.
Qed.

Lemma vinv_granted w c now v l :
  vinv v l → v_watch v = Some w → watch_terminal w = false → Issued c ∈ l →
  view_owns c now v = true →
  (∀ r, v_runtime v = Some r → rt_phase r = Some BOOKING) →
  vinv v (Granted c :: l).
Proof.
  intros Hv Hw Hact Hc Hown Hp.
  destruct (owns_newest _ _ _ _ _ Hv Hw Hc Hown) as (Hnew & r & Hr & Hrev).
  destruct (vi_active _ _ Hv _ Hw Hact) as (Hd & Hm & Hopen).
  assert (∀ c', Issued c' ∈ Granted c :: l → Issued c' ∈ l) as Hiss by set_solver.
  split.
  - split; [|by apply Hv]. split_and!; [done|done|]. rewrite Hrev. by apply (vi_revs _ _ Hv).
  - intros Hnc. destruct Hopen. set_solver.
  - apply Hv.
  - intros w' Hw'. destruct (vi_key _ _ Hv _ Hw'). set_solver.
  - apply Hv.
  - apply Hv.
  - intros w' Hw' Hact'. split_and!; [done..|]. by apply open_log_cons.
  - apply Hv.
  - intros c' w' Hw' Hc'. apply (vi_issued _ _ Hv _ _ Hw'). auto.
  - intros r' Hr'. apply revs_below_cons; [by apply (vi_revs _ _ Hv)|done].
  - congruence.
  - intros c1 c2 H1 H2. apply (vi_tokens _ _ Hv); auto.
  - intros r' c' Hr' _. left. auto.
Qed.

(** A transition: the watch is replaced and its revision consumed. *)
Lemma vinv_done w w' rev by_claim ev v v' l :
  vinv v l → v_watch v = Some w → watch_terminal w = false →
  entry_ok (Done rev (w_status w') by_claim ev) l →
  v_watch v' = Some w' → w_watch_id w' = id →
  v_fence v' = v_fence v → v_claim v' = None →
  match v_runtime v with
  | Some r => rt_revision r < rev ∧
      ∃ r', v_runtime v' = Some r' ∧ rt_revision r' = rev ∧ rt_phase r' = None ∧
            (watch_terminal w' = true → rt_terminal_delete_at r' = v_delete_at v') ∧
            (watch_terminal w' = false → v_marker v' = marker_of id r')
  | None => v_runtime v' = None ∧ watch_terminal w' = true
  end →
  (watch_terminal w' = true → v_marker v' = None ∧ is_Some (v_delete_at v')) →
  (watch_terminal w' = false → v_delete_at v' = None) →
  vinv v' (Done rev (w_status w') by_claim ev :: l).
Proof.
  intros Hv Hw Hact He Hw' Hid Hf Hcl Hrt Ht Hn.
  destruct (vi_active _ _ Hv _ Hw Hact) as (Hd & Hm & Hopen).
  assert (∀ c, Issued c ∈ Done rev (w_status w') by_claim ev :: l → Issued c ∈ l)
    as Hiss by set_solver.
  split.
  - split; [done|apply Hv].
  - intros Hnc. destruct Hopen. set_solver.
  - congruence.
  - intros w2 Hw2. assert (w2 = w') as -> by congruence. destruct Hopen. set_solver.
  - intros w2 Hw2 Ht2. assert (w2 = w') as -> by congruence. destruct (Ht Ht2). done.
  - intros r d Hr Hd'. destruct (v_runtime v) as [r0|]; [|naive_solver congruence].
    destruct Hrt as (_ & r' & Hr' & _ & _ & Hdd & _). assert (r' = r) as -> by congruence.
    destruct (watch_terminal w') eqn:E; [rewrite Hdd; done|]. rewrite Hn in Hd'; done.
  - intros w2 Hw2 Hact2. assert (w2 = w') as -> by congruence.
    destruct (v_runtime v) as [r0|]; [|naive_solver congruence].
    destruct Hrt as (_ & r' & Hr' & _ & _ & _ & Hmm). rewrite Hr'. split_and!; [auto..|].
    apply open_log_cons; [done|]. intros ???? [= <- <- <- <-]. done.
  - congruence.
  - intros c w2 Hw2 Hc%Hiss. destruct (vi_issued _ _ Hv _ _ Hw Hc) as (Hle & r0 & Hr0 & Hrev).
    rewrite Hr0 in Hrt. destruct Hrt as (Hlt & r' & Hr' & Hr'' & _).
    unfold fence_of in *. rewrite Hf. split; [done|]. exists r'. split; [done|lia].
  - intros r Hr. destruct (v_runtime v) as [r0|] eqn:Hr0; [|naive_solver congruence].
    destruct Hrt as (Hlt & r' & Hr' & Hr'' & _). assert (r' = r) as -> by congruence.
    apply revs_below_cons; [|intros ???? [= <- <- <- <-]; lia].
    eapply revs_below_le; [by apply (vi_revs _ _ Hv)|lia].
  - intros Hr w2 Hw2. assert (w2 = w') as -> by congruence.
    destruct (v_runtime v); naive_solver congruence.
  - intros c1 c2 H1 H2. apply (vi_tokens _ _ Hv); auto.
  - intros r c Hr Hg%elem_of_cons. destruct Hg as [?|Hg]; [done|]. right.
    assert (Issued c ∈ l) as Hc by (eapply granted_issued; [apply Hv|done]).
    destruct (vi_issued _ _ Hv _ _ Hw Hc) as (_ & r0 & Hr0 & Hrev).
    rewrite Hr0 in Hrt. destruct Hrt as (Hlt & _).
    do 4 eexists. split; [apply list_elem_of_here|lia].
Qed.

Lemma vinv_released v l : vinv v l → vinv (v <| v_claim := None |>) l.
Proof.
  intros Hv. split; cbn; try by apply Hv.
  - intros Hw. by rewrite (vi_absent _ _ Hv Hw).
  - intros w Hw Ht. destruct (vi_terminal _ _ Hv w Hw Ht) as (? & ? & ?). done.
  - done.
Qed.

Lemma vinv_removed v l : vinv v l → vinv empty_view l.
Proof. intros Hv. split; cbn; try done; apply Hv. Qed.

(** What a repaired runtime may change. *)
Definition repairs (r : WatchRuntime) (v : view) : Prop :=
  match v_runtime v with
  | Some r0 => rt_revision r = rt_revision r0 ∧ rt_phase r = rt_phase r0
  | None => rt_revision r = 0
  end.

Lemma vinv_synthesized w r v l :
  vinv v l → v_watch v = Some w → watch_terminal w = false → repairs r v →
  vinv (v <| v_runtime := Some r |> <| v_fence := Some (fence_of v) |>
          <| v_marker := marker_of id r |>) l.
Proof.
  intros Hv Hw Hact Hrep. destruct (vi_active _ _ Hv _ Hw Hact) as (Hd & Hm & Hopen).
  split; cbn; try by apply Hv.
  - congruence.
  - naive_solver congruence.
  - congruence.
  - naive_solver.
  - intros h Hh. destruct (vi_claim _ _ Hv h Hh) as [? ->]. split; [by eexists|done].
  - intros c w' Hw' Hc. destruct (vi_issued _ _ Hv _ _ Hw Hc) as (? & r0 & Hr0 & ?).
    split; [done|]. exists r. unfold repairs in Hrep. rewrite Hr0 in Hrep.
    split; [done|]. destruct Hrep. lia.
  - intros r' [= <-]. unfold repairs in Hrep. destruct (v_runtime v) as [r0|] eqn:Hr0.
    + destruct Hrep as [-> _]. by apply (vi_revs _ _ Hv).
    + rewrite (vi_norev _ _ Hv Hr0 w Hw Hact). intros ???? Hin. set_solver.
  - done.
  - intros r' c [= <-] Hc. unfold repairs in Hrep. destruct (v_runtime v) as [r0|] eqn:Hr0.
    + destruct (vi_permits _ _ Hv _ _ Hr0 Hc); [left; naive_solver congruence|by right].
    + rewrite (vi_norev _ _ Hv Hr0 w Hw Hact) in Hc. set_solver.
Qed.

(** ** Each operation of the contract keeps the invariant *)

Lemma vinv_create_post w r v res v' l :
  vinv v l → create_post id w r v res v' → watch_terminal w = false → w_watch_id w = id →
  rt_revision r = 0 → Created ∉ l →
  vinv v' (match cr_status res with CREATED => [Created] | ALREADY_EXISTS => [] end ++ l).
Proof.
  intros Hv [w0 Hw|Hnone] Hact Hid Hrev Hl; cbn; [done|].
  rewrite (vi_fresh _ _ Hv Hl). by eapply vinv_created.
Qed.

Lemma vinv_claim_post win owner lease ign now v res v' l :
  vinv v l → claim_post win owner lease ign now v res v' →
  vinv v' (match clr_claim res with Some c => [Issued c] | None => [] end ++ l).
Proof. intros Hv []; cbn; try done. by apply vinv_issued. Qed.

Lemma vinv_begin_post c now v res v' l :
  vinv v l → begin_post c now v res v' → Issued c ∈ l →
  vinv v' (match bp_status res with GRANTED => [Granted c] | _ => [] end ++ l).
Proof.
  intros Hv [| |w r Hw Hact Hr Hcan Hown] Hc; cbn; try done.
  apply (vinv_granted w c now); cbn; try done.
  - by apply (vinv_runtime r).
  - revert Hown. unfold view_owns. by rewrite Hr.
  - by intros r' [= <-].
Qed.

Lemma vinv_commit_post retention c w' r' now now' v res v' l :
  vinv v l → commit_post sha1hex retention id c w' r' now now' v res v' →
  Issued c ∈ l → w_watch_id w' = id →
  vinv v' (match cmr_status res with
           | COMMITTED => [Done (rev_of c + 1) (w_status w') (Some c) (cmr_event_id res)]
           | _ => []
           end ++ l).
Proof.
  intros Hv Hpost Hc Hid.
  destruct Hpost as [| | |w r Hw Hact Hr Hown Ht|w r Hw Hact Hr Hown Ht]; cbn; try done;
    destruct (owns_newest _ _ _ _ _ Hv Hw Hc Hown) as (Hnew & r0 & Hr0 & Hrev);
    assert (r0 = r) as -> by congruence;
    destruct (vi_active _ _ Hv _ Hw Hact) as (Hd & Hm & Hopen);
    assert (∀ c0, Issued c0 ∈ l → rev_of c0 < rev_of c + 1)
      by (intros c0 Hc0; destruct (vi_issued _ _ Hv _ _ Hw Hc0) as (_ & r0 & ? & ?);
          assert (r0 = r) as -> by congruence; lia);
    apply (vinv_done w w' _ _ _ v); cbn; try done.
  - split_and!; [done| |done|by rewrite Hrev|done..].
    eapply revs_below_le; [by apply (vi_revs _ _ Hv)|lia].
  - rewrite Hr. split; [lia|]. eexists. split; [done|]. cbn. split_and!; [lia|done..|congruence].
  - congruence.
  - split_and!; [done| |done| |done..].
    + eapply revs_below_le; [by apply (vi_revs _ _ Hv)|lia].
    + unfold event_for. unfold watch_terminal in Ht. by destruct (w_status w').
  - rewrite Hr. split; [lia|]. eexists. split; [done|]. cbn. split_and!; [lia|done..|congruence|].
    done.
  - congruence.
Qed.

Lemma vinv_ended st now deadline w v l :
  vinv v l → v_watch v = Some w → watch_terminal w = false → is_terminal st = true →
  st ≠ FOUND → st ≠ BOOKED → (st = CANCELLED → permits_resolved l) →
  vinv (ended_view (ended_watch st now w) deadline v)
    (Done (next_revision (v_runtime v)) st None
       (event_for sha1hex id st (next_revision (v_runtime v))) :: l).
Proof.
  intros Hv Hw Hact Ht Hf Hb Hp.
  destruct (vi_active _ _ Hv _ Hw Hact) as (Hd & Hm & Hopen).
  destruct (vi_key _ _ Hv _ Hw) as [Hid _].
  assert (watch_terminal (ended_watch st now w) = true) as Ht' by done.
  apply (vinv_done w (ended_watch st now w) _ _ _ v); cbn; try done.
  - split_and!; [done| | |done..]; destruct (v_runtime v) as [r|] eqn:Hr; cbn.
    + eapply revs_below_le; [by apply (vi_revs _ _ Hv)|lia].
    + rewrite (vi_norev _ _ Hv Hr w Hw Hact). intros ???? Hin. set_solver.
    + intros c Hc. destruct (vi_issued _ _ Hv _ _ Hw Hc) as (_ & r0 & ? & ?).
      assert (r0 = r) as -> by congruence. lia.
    + rewrite (vi_norev _ _ Hv Hr w Hw Hact). set_solver.
  - destruct (v_runtime v) as [r|] eqn:Hr; cbn; [|done]. split; [lia|].
    eexists. split; [done|]. cbn. split_and!; try done.
  - congruence.
Qed.

Lemma vinv_cancel_post retention now v res v' l :
  vinv v l → cancel_post retention now v res v' →
  vinv v' (match tr_status res with
           | APPLIED => [Done (tr_revision res) CANCELLED None (tr_event_id res)]
           | _ => []
           end ++ l).
Proof.
  intros Hv [| |w r Hw Hact Hr Hp|w Hw Hact Hp]; cbn; try done.
  - by apply (vinv_runtime r).
  - apply (vinv_ended CANCELLED); try done. intros _ c Hg.
    destruct (v_runtime v) as [r|] eqn:Hr.
    + destruct (vi_permits _ _ Hv _ _ Hr Hg) as [Hbad|?]; [by destruct (Hp r)|done].
    + rewrite (vi_norev _ _ Hv Hr w Hw Hact) in Hg. set_solver.
Qed.

Lemma vinv_expire_post retention expected force now v res v' l :
  vinv v l → expire_post sha1hex retention id expected force now v res v' →
  vinv v' (match tr_status res with
           | APPLIED => [Done (tr_revision res) EXPIRED None (tr_event_id res)]
           | _ => []
           end ++ l).
Proof. intros Hv []; cbn; try done. by apply (vinv_ended EXPIRED). Qed.

Lemma vinv_release_post c v res v' l : vinv v l → release_post c v res v' → vinv v' l.
Proof. intros Hv []; [by apply vinv_released|done]. Qed.

Lemma vinv_synthesize_post r now v res v' l :
  vinv v l → synthesize_post id r now v res v' → repairs r v → vinv v' l.
Proof.
  intros Hv [|w Hw Hact Hm Hmm|w m Hw Hact Hc Hm Hmm] Hrep; [done|..];
    pose proof (vinv_synthesized w r v l Hv Hw Hact Hrep) as Hs; rewrite Hmm in Hs; [|done].
  rewrite <- Hm in Hs. by destruct v.
Qed.

Lemma vinv_cleanup_post now v v' l : vinv v l → cleanup_post now v v' → vinv v' l.
Proof.
  intros Hv [|d Hd Hle Hn|]; [done| |by eapply vinv_removed].
  destruct (v_watch v) as [w|] eqn:Hw; [|rewrite (vi_absent _ _ Hv Hw) in Hd; done].
  destruct (vi_active _ _ Hv _ Hw (Hn _ eq_refl)) as (? & _). congruence.
Qed.
End log_ok.

(** ** What a history tells *)

Section history.
Context {sha1hex : string → string} {id : string}.
Implicit Types (l : list entry) (c : WindowClaim).

(** A commit applies to exactly the state its claim saw: the claim was
    issued before, and no transition happened in between. *)
Lemma history_commit l1 rev st c ev l2 :
  log_ok sha1hex id (l1 ++ Done rev st (Some c) ev :: l2) →
  ∃ l3 l4, l2 = l3 ++ Issued c :: l4 ∧ rev = rev_of c + 1 ∧
    ∀ rev' st' by' ev', Done rev' st' by' ev' ∉ l3.
Proof.
  intros Hok. pose proof (log_ok_split _ _ _ _ _ Hok) as (_ & Hb & _ & _ & [Hi _] & ->).
  destruct (list_elem_of_split _ _ Hi) as (l3 & l4 & ->). exists l3, l4.
  split_and!; [done..|]. intros rev' st' by' ev' Hin.
  destruct (list_elem_of_split _ _ Hin) as (a & b & ->).
  specialize (Hb rev' st' by' ev' ltac:(set_solver)).
  replace (l1 ++ Done (rev_of c + 1) st (Some c) ev :: (a ++ Done rev' st' by' ev' :: b) ++ Issued c :: l4)
    with ((l1 ++ Done (rev_of c + 1) st (Some c) ev :: a) ++ Done rev' st' by' ev' :: b ++ Issued c :: l4)
    in Hok by (rewrite <- ?app_assoc; cbn; by rewrite <- ?app_assoc).
  apply log_ok_split in Hok as (_ & _ & Hlt & _).
  specialize (Hlt c ltac:(set_solver)). lia.
Qed.

(** Nothing follows a terminal transition. *)
Lemma history_terminal l1 rev st by_claim ev l2 :
  log_ok sha1hex id (l1 ++ Done rev st by_claim ev :: l2) → is_terminal st = true → l1 = [].
Proof.
  intros Hok Ht. destruct (decide (l1 = [])) as [|Hne]; [done|exfalso].
  destruct (exists_last Hne) as (l & e & ->). rewrite <- app_assoc in Hok. cbn in Hok.
  apply log_ok_split in Hok.
  assert (¬ open_log (Done rev st by_claim ev :: l2)) as Hopen.
  { intros [_ Ho]. specialize (Ho rev st by_claim ev ltac:(set_solver)). congruence. }
  destruct e; cbn in Hok; [done|tauto..].
Qed.

(** Revisions are consumed in order. *)
Lemma history_revs l1 rev st by_claim ev l2 rev' st' by' ev' :
  log_ok sha1hex id (l1 ++ Done rev st by_claim ev :: l2) →
  Done rev' st' by' ev' ∈ l2 → rev' < rev.
Proof.
  intros Hok Hin. apply log_ok_split in Hok as (_ & Hb & _).
  specialize (Hb _ _ _ _ Hin). lia.
Qed.

Lemma history_once l1 rev st c ev l2 rev' st' ev' :
  log_ok sha1hex id (l1 ++ Done rev st (Some c) ev :: l2) →
  Done rev' st' (Some c) ev' ∉ l2.
Proof.
  intros Hok Hin. pose proof (history_revs _ _ _ _ _ _ _ _ _ _ Hok Hin).
  pose proof (log_ok_split _ _ _ _ _ Hok) as (_ & _ & _ & _ & _ & ->).
  destruct (list_elem_of_split _ _ Hin) as (a & b & ->).
  replace (l1 ++ Done (rev_of c + 1) st (Some c) ev :: a ++ Done rev' st' (Some c) ev' :: b)
    with ((l1 ++ Done (rev_of c + 1) st (Some c) ev :: a) ++ Done rev' st' (Some c) ev' :: b)
    in Hok by (rewrite <- app_assoc; done).
  apply log_ok_split in Hok as (_ & _ & _ & _ & _ & ->). lia.
Qed.

(** A cancellation is applied only when no booking permit is outstanding. *)
Lemma history_cancel l1 rev ev l2 c :
  log_ok sha1hex id (l1 ++ Done rev CANCELLED None ev :: l2) → Granted c ∈ l2 →
  ∃ rev' st' by' ev', Done rev' st' by' ev' ∈ l2 ∧ rev_of c < rev'.
Proof. intros Hok Hg. apply log_ok_split in Hok as (_ & _ & _ & _ & _ & _ & _ & Hp). by apply Hp. Qed.
End history.

(** ** Traces of a lawful repository *)

Section trace.
Context {sha1hex : string → string} {retention : Z}
        `{Hlaw : LawfulRepository sha1hex retention Repo good}.

(** What callers promise: fresh ids, claims that were issued, a committed
    document that keeps its id, a repaired runtime that keeps its revision. *)
Definition allowed (c : cmd) (s : Repo) (L : log) : Prop :=
  match c with
  | CCreate w r =>
      watch_terminal w = false ∧ rt_revision r = 0 ∧ Created ∉ log_of (w_watch_id w) L
  | CBegin c _ => Issued c ∈ log_of (cl_watch_id c) L
  | CCommit c w _ _ _ => Issued c ∈ log_of (cl_watch_id c) L ∧ w_watch_id w = cl_watch_id c
  | CSynthesize id r _ => repairs r (repo_view id s)
  | _ => True
  end.

Definition initial (s : Repo) (L : log) : Prop :=
  ∀ id, (repo_view id s = empty_view ∧ log_of id L = []) ∨
        ∃ w, repo_view id s = legacy_view w ∧ watch_terminal w = false ∧
             w_watch_id w = id ∧ log_of id L = [Created].

Inductive trace : Repo → log → Prop :=
| trace_init s L : good s → initial s L → trace s L
| trace_step s L c : trace s L → allowed c s L → trace (exec c s).2 ((exec c s).1 ++ L).

Definition inv (s : Repo) (L : log) : Prop :=
  good s ∧ ∀ id, vinv sha1hex id (repo_view id s) (log_of id L).

Lemma log_of_app id L1 L2 : log_of id (L1 ++ L2) = log_of id L1 ++ log_of id L2.
Proof. apply omap_app. Qed.

Lemma log_of_own id es : log_of id (map (pair id) es) = es.
Proof. induction es as [|e es IH]; cbn; [done|].
  rewrite decide_True by done. f_equal. exact IH.
Qed.

Lemma log_of_other id id' es : id' ≠ id → log_of id' (map (pair id) es) = [].
Proof.
  intros Hne. induction es as [|e es IH]; cbn; [done|]. rewrite decide_False by done. exact IH.
Qed.

Lemma acts_inv {A} id0 s (P : view → A → view → Prop) res es L :
  acts_on id0 s P res →
  (∀ id, vinv sha1hex id (repo_view id s) (log_of id L)) →
  (P (repo_view id0 s) res.1 (repo_view id0 res.2) →
   vinv sha1hex id0 (repo_view id0 s) (log_of id0 L) →
   vinv sha1hex id0 (repo_view id0 res.2) (es ++ log_of id0 L)) →
  ∀ id, vinv sha1hex id (repo_view id res.2) (log_of id (map (pair id0) es ++ L)).
Proof.
  intros [HP Hframe] Hinv Hstep id. rewrite log_of_app.
  destruct (decide (id = id0)) as [->|Hne].
  - rewrite log_of_own. auto.
  - by rewrite log_of_other, Hframe by done.
Qed.

Lemma inv_init s L : good s → initial s L → inv s L.
Proof.
  intros Hg Hi. split; [done|]. intros id.
  destruct (Hi id) as [[-> ->]|(w & -> & Hw & Hid & ->)];
    [apply vinv_empty|by apply vinv_legacy].
Qed.

Lemma inv_step s L c : inv s L → allowed c s L → inv (exec c s).2 ((exec c s).1 ++ L).
Proof.
  intros [Hg Hv] Ha. split; [by apply law_good|]. destruct c; cbn in *.
  - pose proof (acts_inv _ s _ _
      (match cr_status (create_with_schedule w r s).1 with
       | CREATED => [Created] | ALREADY_EXISTS => [] end) L (law_create w r s Hg) Hv) as Hl.
    destruct (create_with_schedule w r s) as [res s']. cbn in *.
    destruct (cr_status res) eqn:E; apply Hl; intros Hp Hi;
      pose proof (vinv_create_post _ _ _ _ _ _ _ _ Hi Hp) as Hn; rewrite E in Hn; naive_solver.
  - pose proof (acts_inv _ s _ _
      (match clr_claim (claim_window id win owner lease ignore_schedule now s).1 with
       | Some c => [Issued c] | None => [] end) L
      (law_claim id win owner lease ignore_schedule now s Hg) Hv) as Hl.
    destruct (claim_window id win owner lease ignore_schedule now s) as [res s']. cbn in *.
    destruct (clr_claim res) eqn:E; apply Hl; intros Hp Hi;
      pose proof (vinv_claim_post _ _ _ _ _ _ _ _ _ _ _ Hi Hp) as Hn; rewrite E in Hn; done.
  - pose proof (acts_inv _ s _ _
      (match bp_status (begin_booking c now s).1 with GRANTED => [Granted c] | _ => [] end)
      L (law_begin c now s Hg) Hv) as Hl.
    destruct (begin_booking c now s) as [res s']. cbn in *.
    destruct (bp_status res) eqn:E; apply Hl; intros Hp Hi;
      pose proof (vinv_begin_post _ _ _ _ _ _ _ _ Hi Hp) as Hn; rewrite E in Hn; auto.
  - pose proof (acts_inv _ s _ _
      (match cmr_status (commit_window c w r now now' s).1 with
       | COMMITTED => [Done (rev_of c + 1) (w_status w) (Some c)
                         (cmr_event_id (commit_window c w r now now' s).1)]
       | _ => []
       end) L (law_commit c w r now now' s Hg) Hv) as Hl.
    destruct (commit_window c w r now now' s) as [res s']. cbn in *. destruct Ha as [Ha1 Ha2].
    destruct (cmr_status res) eqn:E; apply Hl; intros Hp Hi;
      pose proof (vinv_commit_post _ _ _ _ _ _ _ _ _ _ _ _ Hi Hp Ha1 Ha2) as Hn;
      rewrite E in Hn; exact Hn.
  - pose proof (acts_inv _ s _ _
      (match tr_status (cancel_if_active id now s).1 with
       | APPLIED => [Done (tr_revision (cancel_if_active id now s).1) CANCELLED None
                       (tr_event_id (cancel_if_active id now s).1)]
       | _ => []
       end) L (law_cancel id now s Hg) Hv) as Hl.
    destruct (cancel_if_active id now s) as [res s']. cbn in *.
    destruct (tr_status res) eqn:E; apply Hl; intros Hp Hi;
      pose proof (vinv_cancel_post _ _ _ _ _ _ _ _ Hi Hp) as Hn; rewrite E in Hn; exact Hn.
  - pose proof (acts_inv _ s _ _
      (match tr_status (expire_if_eligible id expected force now s).1 with
       | APPLIED => [Done (tr_revision (expire_if_eligible id expected force now s).1) EXPIRED
                       None (tr_event_id (expire_if_eligible id expected force now s).1)]
       | _ => []
       end) L (law_expire id expected force now s Hg) Hv) as Hl.
    destruct (expire_if_eligible id expected force now s) as [res s']. cbn in *.
    destruct (tr_status res) eqn:E; apply Hl; intros Hp Hi;
      pose proof (vinv_expire_post _ _ _ _ _ _ _ _ _ _ Hi Hp) as Hn; rewrite E in Hn; exact Hn.
  - apply (acts_inv _ s _ _ [] L (law_release c s Hg) Hv).
    intros Hp Hi. by eapply vinv_release_post.
  - intros id. eapply vinv_cleanup_post; [done|by apply law_cleanup].
  - apply (acts_inv _ s _ _ [] L (law_synthesize id r now s Hg) Hv).
    intros Hp Hi. by eapply vinv_synthesize_post.
  - apply (acts_inv _ s _ (tt, _) [] L (law_prune id from_all s Hg) Hv).
    cbn. intros -> ?. destruct from_all; [by eapply vinv_removed|done].
  - apply (acts_inv _ s _ _ [] L (law_delete id s Hg) Hv).
    cbn. intros [_ ->] ?. by eapply vinv_removed.
Qed.

(** Traces can be run: a list of commands whose promises are checked. *)
Fixpoint run_cmds (cs : list cmd) (s : Repo) (L : log) : Repo * log :=
  match cs with
  | [] => (s, L)
  | c :: cs' => run_cmds cs' (exec c s).2 ((exec c s).1 ++ L)
  end.

#[export] Instance allowed_dec c s L : Decision (allowed c s L).
Proof.
  destruct c; cbn; unfold repairs; try apply _. destruct (v_runtime _); apply _.
Defined.

Fixpoint all_allowed (cs : list cmd) (s : Repo) (L : log) : bool :=
  match cs with
  | [] => true
  | c :: cs' =>
      bool_decide (allowed c s L) && all_allowed cs' (exec c s).2 ((exec c s).1 ++ L)
  end.

Lemma trace_run cs s L :
  trace s L → all_allowed cs s L = true → trace (run_cmds cs s L).1 (run_cmds cs s L).2.
Proof.
  revert s L. induction cs as [|c cs IH]; intros s L Ht Ha; cbn in *; [done|].
  apply andb_true_iff in Ha as [Hc%bool_decide_eq_true Ha]. apply IH; [|done].
  by apply trace_step.
Qed.

Lemma trace_inv s L : trace s L → inv s L.
Proof. induction 1; [by apply inv_init|by apply inv_step]. Qed.
End trace.
