(* ===== verification/WatchStore.v ===== *)
(** * The in-memory watch repository
    ([InMemoryWatchRepository], [backend/db/repositories/watches.py])

    Every operation is one critical section under [self._lock], so it is one
    function of the state.  The injected clock is an argument wherever the
    code reads it; [commit_window] reads it twice.  [retention] is
    [self._retention], [sha1hex] is [hashlib.sha1(...).hexdigest()]. *)

From S2P Require Import Prelude Dict Sorting Calendar Schemas Reservation Watch WatchSpec WatchLog.

(** [_DispatchLease] *)
Record DispatchLease := MkDispatchLease {
  dls_window_id : string;
  dls_owner_id : string;
  dls_generation : Z;
  dls_expires_at : Z;
}.

Record store := MkStore {
  st_watches : dict Watch;
  st_runtimes : dict WatchRuntime;
  st_fence : dict Z;
  st_claims : dict ClaimLease;
  st_dispatch_fence : dict Z;
  st_dispatch_leases : dict DispatchLease;
  st_markers : dict ScheduleMarker;
  st_terminal_delete_at : dict Z;
  st_events : list string;
}.
#[export] Instance store_eta : Eta store := λ s,
  MkStore (st_watches s) (st_runtimes s) (st_fence s) (st_claims s) (st_dispatch_fence s)
    (st_dispatch_leases s) (st_markers s) (st_terminal_delete_at s) (st_events s).

Definition empty_store : store := MkStore ∅ ∅ ∅ ∅ ∅ ∅ ∅ ∅ [].

Module InMemory.
Section ops.
Context (sha1hex : string → string) (retention : Z).

(** ** The document surface *)

Definition save (w : Watch) (s : store) : Watch * store :=
  (w, s <| st_watches := <[w_watch_id w := w]> (st_watches s) |>).

Definition get (watch_id : string) (s : store) : option Watch := st_watches s !! watch_id.

Definition list_all (s : store) : list Watch :=
  sort_by (λ w, - w_created_at w) (values (st_watches s)).

Definition list_active (s : store) : list Watch :=
  List.filter (λ w, bool_decide (w_status w = ACTIVE)) (list_all s).

(** Drop every key of one watch. *)
Definition forget (watch_id : string) (s : store) : store :=
  s <| st_watches := delete watch_id (st_watches s) |>
    <| st_runtimes := delete watch_id (st_runtimes s) |>
    <| st_fence := delete watch_id (st_fence s) |>
    <| st_claims := delete watch_id (st_claims s) |>
    <| st_dispatch_fence := delete watch_id (st_dispatch_fence s) |>
    <| st_dispatch_leases := delete watch_id (st_dispatch_leases s) |>
    <| st_markers := delete watch_id (st_markers s) |>
    <| st_terminal_delete_at := delete watch_id (st_terminal_delete_at s) |>.

Definition delete_watch (watch_id : string) (s : store) : bool * store :=
  (dict_mem watch_id (st_watches s), forget watch_id s).

(** ** Internals *)

Definition _set_marker (watch_id : string) (r : WatchRuntime) (s : store) : store :=
  match rt_window_id r, rt_scheduled_for r with
  | Some win, Some due =>
      s <| st_markers := <[watch_id := MkMarker watch_id win due]> (st_markers s) |>
  | _, _ => s <| st_markers := delete watch_id (st_markers s) |>
  end.

Definition _owns (claim : WindowClaim) (current : WatchRuntime) (now : Z) (s : store) : bool :=
  if negb (rt_revision current =? rt_revision (cl_runtime claim)) then false
  else match st_claims s !! cl_watch_id claim with
       | None => false
       | Some held =>
           (cls_token held =? cl_token claim)
           && bool_decide (cls_owner_id held = cl_owner_id claim)
           && (now <? cls_expires_at held)
       end.

Definition _apply_terminal (watch_id : string) (terminal_watch : Watch)
    (runtime : option WatchRuntime) (now : Z) (s : store) : Z * store :=
  let revision := match runtime with Some r => rt_revision r + 1 | None => 0 end in
  let deadline := now + retention in
  let s := s <| st_watches := <[watch_id := terminal_watch]> (st_watches s) |> in
  let s := match runtime with
           | Some r =>
               s <| st_runtimes := <[watch_id :=
                    r <| rt_revision := revision |> <| rt_window_id := None |>
                      <| rt_scheduled_for := None |> <| rt_phase := None |>
                      <| rt_cancel_requested := false |>
                      <| rt_terminal_delete_at := Some deadline |>]> (st_runtimes s) |>
           | None => s
           end in
  let s := s <| st_claims := delete watch_id (st_claims s) |>
             <| st_dispatch_leases := delete watch_id (st_dispatch_leases s) |>
             <| st_markers := delete watch_id (st_markers s) |>
             <| st_terminal_delete_at := <[watch_id := deadline]> (st_terminal_delete_at s) |> in
  (revision, s).

(** [self._events] is a set: adding a member twice changes nothing. *)
Definition _issue_event (watch_id : string) (status : WatchStatus) (revision : Z) (s : store)
    : option string * store :=
  if negb (is_event_status status) then (None, s)
  else let event_id := terminal_event_id sha1hex watch_id status revision in
       (Some event_id,
        s <| st_events := if decide (event_id ∈ st_events s) then st_events s
                          else st_events s ++ [event_id] |>).

(** ** The state machine *)

Definition get_runtime (watch_id : string) (s : store) : option WatchRuntime :=
  st_runtimes s !! watch_id.

Definition schedule_marker (watch_id : string) (s : store) : option ScheduleMarker :=
  st_markers s !! watch_id.

Definition due_schedule_markers (now horizon limit : Z) (s : store) : list ScheduleMarker :=
  let cutoff := now + horizon in
  let due := List.filter (λ m, mk_scheduled_for m <=? cutoff) (values (st_markers s)) in
  slice_to limit (sort_by mk_scheduled_for due).

Definition create_with_schedule (watch : Watch) (runtime : WatchRuntime) (s : store)
    : CreateResult * store :=
  let id := w_watch_id watch in
  match st_watches s !! id with
  | Some stored => (MkCreateResult ALREADY_EXISTS (Some stored) (st_runtimes s !! id), s)
  | None =>
      let s := s <| st_watches := <[id := watch]> (st_watches s) |>
                 <| st_runtimes := <[id := runtime]> (st_runtimes s) |>
                 <| st_fence := <[id := 0]> (st_fence s) |> in
      let s := _set_marker id runtime s in
      (MkCreateResult CREATED (Some watch) (Some runtime), s)
  end.

Definition claim_window (watch_id window_id owner_id : string) (lease : Z)
    (ignore_schedule : bool) (now : Z) (s : store) : ClaimResult * store :=
  match st_watches s !! watch_id, st_runtimes s !! watch_id with
  | Some watch, Some runtime =>
      if watch_terminal watch then (MkClaimResult TERMINAL None, s)
      else if negb (bool_decide (rt_window_id runtime = Some window_id))
      then (MkClaimResult STALE None, s)
      else if negb ignore_schedule
              && match rt_scheduled_for runtime with Some due => now <? due | None => false end
      then (MkClaimResult EARLY None, s)
      else if match st_claims s !! watch_id with
              | Some held => bool_decide (cls_window_id held = window_id)
                             && (now <? cls_expires_at held)
              | None => false
              end
      then (MkClaimResult BUSY None, s)
      else
        let token := dict_get_or watch_id 0 (st_fence s) + 1 in
        let s := s <| st_fence := <[watch_id := token]> (st_fence s) |> in
        let lease_expires := now + lease in
        let s := s <| st_claims :=
                   <[watch_id := MkClaimLease window_id owner_id token lease_expires]>
                     (st_claims s) |> in
        (MkClaimResult OWNED
           (Some (MkClaim watch runtime owner_id window_id token lease_expires)), s)
  | _, _ => (MkClaimResult UNKNOWN None, s)
  end.

Definition begin_booking (claim : WindowClaim) (now : Z) (s : store) : BookingPermit * store :=
  let watch_id := cl_watch_id claim in
  match st_watches s !! watch_id, st_runtimes s !! watch_id with
  | Some watch, Some runtime =>
      if watch_terminal watch then (MkPermit BP_FENCED None, s)
      else if negb (_owns claim runtime now s) then (MkPermit BP_FENCED None, s)
      else if rt_cancel_requested runtime then (MkPermit BP_CANCELLED None, s)
      else
        (MkPermit GRANTED (Some (watch_id +:+ ":" +:+ pretty (cl_token claim))),
         s <| st_runtimes :=
           <[watch_id := runtime <| rt_phase := Some BOOKING |>]> (st_runtimes s) |>)
  | _, _ => (MkPermit BP_FENCED None, s)
  end.

Definition commit_window (claim : WindowClaim) (new_watch : Watch) (new_runtime : WatchRuntime)
    (now now' : Z) (s : store) : CommitResult * store :=
  let watch_id := cl_watch_id claim in
  match st_watches s !! watch_id, st_runtimes s !! watch_id with
  | Some watch, Some runtime =>
      if watch_terminal watch then (MkCommitResult CS_TERMINAL (Some watch) None, s)
      else if negb (_owns claim runtime now s) then (MkCommitResult CS_FENCED None None, s)
      else
        let revision := rt_revision runtime + 1 in
        let stored_runtime :=
          new_runtime <| rt_revision := revision |> <| rt_phase := None |> in
        let stored_runtime :=
          if watch_terminal new_watch
          then stored_runtime <| rt_terminal_delete_at := Some (now' + retention) |>
          else stored_runtime in
        let s := s <| st_watches := <[watch_id := new_watch]> (st_watches s) |>
                   <| st_runtimes := <[watch_id := stored_runtime]> (st_runtimes s) |>
                   <| st_claims := delete watch_id (st_claims s) |> in
        if watch_terminal new_watch then
          let s := s <| st_markers := delete watch_id (st_markers s) |>
                     <| st_dispatch_leases := delete watch_id (st_dispatch_leases s) |>
                     <| st_terminal_delete_at :=
                          <[watch_id := now' + retention]> (st_terminal_delete_at s) |> in
          let '(event_id, s) := _issue_event watch_id (w_status new_watch) revision s in
          (MkCommitResult COMMITTED (Some new_watch) event_id, s)
        else
          (MkCommitResult COMMITTED (Some new_watch) None, _set_marker watch_id stored_runtime s)
  | _, _ => (MkCommitResult CS_UNKNOWN None None, s)
  end.

Definition cancel_if_active (watch_id : string) (now : Z) (s : store)
    : TransitionResult * store :=
  match st_watches s !! watch_id with
  | None => (MkTransition TS_UNKNOWN None None (-1), s)
  | Some watch =>
      if watch_terminal watch then (MkTransition NOOP (Some watch) None (-1), s)
      else
        let runtime := st_runtimes s !! watch_id in
        let cancelled :=
          watch <| w_status := CANCELLED |> <| w_next_check_at := None |>
                <| w_updated_at := now |> in
        let apply :=
          let '(revision, s) := _apply_terminal watch_id cancelled runtime now s in
          (MkTransition APPLIED (Some cancelled) None revision, s) in
        match runtime with
        | Some r =>
            if bool_decide (rt_phase r = Some BOOKING) then
              (MkTransition NOT_ELIGIBLE (Some watch) None (-1),
               s <| st_runtimes :=
                 <[watch_id := r <| rt_cancel_requested := true |>]> (st_runtimes s) |>)
            else apply
        | None => apply
        end
  end.

Definition expire_if_eligible (watch_id : string) (expected_revision : option Z) (force : bool)
    (now : Z) (s : store) : TransitionResult * store :=
  match st_watches s !! watch_id with
  | None => (MkTransition TS_UNKNOWN None None (-1), s)
  | Some watch =>
      if watch_terminal watch then (MkTransition NOOP (Some watch) None (-1), s)
      else
        let runtime := st_runtimes s !! watch_id in
        if match expected_revision, runtime with
           | Some n, Some r => negb (rt_revision r =? n)
           | _, _ => false
           end
        then (MkTransition TS_FENCED None None (-1), s)
        else if negb force && negb (is_exhausted watch now)
        then (MkTransition NOT_ELIGIBLE (Some watch) None (-1), s)
        else
          let expired :=
            watch <| w_status := EXPIRED |> <| w_next_check_at := None |>
                  <| w_updated_at := now |> in
          let '(revision, s) := _apply_terminal watch_id expired runtime now s in
          let '(event_id, s) := _issue_event watch_id EXPIRED revision s in
          (MkTransition APPLIED (Some expired) event_id revision, s)
  end.

Definition release_claim (claim : WindowClaim) (s : store) : bool * store :=
  match st_claims s !! cl_watch_id claim with
  | Some held =>
      if (cls_token held =? cl_token claim)
         && bool_decide (cls_owner_id held = cl_owner_id claim)
      then (true, s <| st_claims := delete (cl_watch_id claim) (st_claims s) |>)
      else (false, s)
  | None => (false, s)
  end.

Definition cleanup_one (acc : Z * store) (watch_id : string) : Z * store :=
  let '(removed, s) := acc in
  let keep := match st_watches s !! watch_id with
              | None => true
              | Some watch => negb (watch_terminal watch)
              end in
  if keep then
    (removed, s <| st_terminal_delete_at := delete watch_id (st_terminal_delete_at s) |>)
  else (removed + 1, forget watch_id s).

Definition cleanup_batch (now batch_size : Z) (s : store) : list string :=
  let due := List.filter (λ id, match st_terminal_delete_at s !! id with
                                | Some deadline => deadline <=? now
                                | None => false
                                end) (keys (st_terminal_delete_at s)) in
  slice_to batch_size (sort_by (λ id, dict_get_or id 0 (st_terminal_delete_at s)) due).

Definition cleanup_due (now batch_size : Z) (s : store) : CleanupResult * store :=
  let '(removed, s) := fold_left cleanup_one (cleanup_batch now batch_size s) (0, s) in
  let remaining := existsb (λ deadline, deadline <=? now) (values (st_terminal_delete_at s)) in
  (MkCleanupResult removed remaining, s).

(** ** Recovery *)

Definition list_recovery_candidates (now : Z) (s : store) : list RecoveryCandidate :=
  omap (λ '(watch_id, watch),
    if negb (bool_decide (w_status watch = ACTIVE)) then None
    else Some (MkCandidate watch_id (Some watch) (st_runtimes s !! watch_id)
                 (dict_mem watch_id (st_markers s))
                 (match st_claims s !! watch_id with
                  | Some held => now <? cls_expires_at held
                  | None => false
                  end)))
    (items (st_watches s)).

Definition prune_index_member (watch_id : string) (from_all : bool) (s : store) : store :=
  if from_all then
    s <| st_watches := delete watch_id (st_watches s) |>
      <| st_runtimes := delete watch_id (st_runtimes s) |>
      <| st_fence := delete watch_id (st_fence s) |>
      <| st_claims := delete watch_id (st_claims s) |>
      <| st_markers := delete watch_id (st_markers s) |>
      <| st_terminal_delete_at := delete watch_id (st_terminal_delete_at s) |>
  else s.

Definition synthesize_marker (watch_id : string) (runtime : WatchRuntime) (now : Z) (s : store)
    : bool * store :=
  match st_watches s !! watch_id with
  | None => (false, s)
  | Some watch =>
      if watch_terminal watch then (false, s)
      else if match st_claims s !! watch_id with
              | Some held => now <? cls_expires_at held
              | None => false
              end
      then (false, s)
      else if dict_mem watch_id (st_markers s) then (false, s)
      else
        let s := s <| st_runtimes := <[watch_id := runtime]> (st_runtimes s) |>
                   <| st_fence := dict_setdefault watch_id 0 (st_fence s) |> in
        let s := _set_marker watch_id runtime s in
        (dict_mem watch_id (st_markers s), s)
  end.

(** ** Dispatch leases *)

Definition _owns_dispatch (claim : DispatchClaim) (held : DispatchLease) : bool :=
  (dls_generation held =? dc_generation claim)
  && bool_decide (dls_owner_id held = dc_owner_id claim).

Definition claim_dispatch (marker : ScheduleMarker) (owner_id : string) (lease now : Z)
    (s : store) : DispatchResult * store :=
  let id := mk_watch_id marker in
  match st_watches s !! id, st_markers s !! id with
  | Some watch, Some current =>
      if watch_terminal watch
         || negb (bool_decide (mk_window_id current = mk_window_id marker))
      then (MkDispatchResult DS_STALE None, s)
      else if match st_dispatch_leases s !! id with
              | Some held => bool_decide (dls_window_id held = mk_window_id marker)
                             && (now <? dls_expires_at held)
              | None => false
              end
      then (MkDispatchResult DS_BUSY None, s)
      else
        let generation := dict_get_or id 0 (st_dispatch_fence s) + 1 in
        let s := s <| st_dispatch_fence := <[id := generation]> (st_dispatch_fence s) |> in
        let expires := now + lease in
        let s := s <| st_dispatch_leases :=
                   <[id := MkDispatchLease (mk_window_id marker) owner_id generation expires]>
                     (st_dispatch_leases s) |> in
        (MkDispatchResult CLAIMED
           (Some (MkDispatchClaim id (mk_window_id marker) (mk_scheduled_for current)
                    owner_id generation expires)), s)
  | _, _ => (MkDispatchResult DS_STALE None, s)
  end.

Definition mark_dispatched (claim : DispatchClaim) (redispatch_after : Z) (s : store)
    : bool * store :=
  match st_dispatch_leases s !! dc_watch_id claim with
  | Some held =>
      if _owns_dispatch claim held then
        (true, s <| st_dispatch_leases :=
           <[dc_watch_id claim := MkDispatchLease (dls_window_id held) (dls_owner_id held)
                                    (dls_generation held) redispatch_after]>
             (st_dispatch_leases s) |>)
      else (false, s)
  | None => (false, s)
  end.

Definition release_dispatch (claim : DispatchClaim) (s : store) : bool * store :=
  match st_dispatch_leases s !! dc_watch_id claim with
  | Some held =>
      if _owns_dispatch claim held then
        (true, s <| st_dispatch_leases :=
                 delete (dc_watch_id claim) (st_dispatch_leases s) |>)
      else (false, s)
  | None => (false, s)
  end.
End ops.
End InMemory.
