(* ===== verification/WatchStoreCorrect.v ===== *)
(** * The in-memory repository meets its contract

    [InMemory] keeps eight dictionaries; [view_of] reads the entries of one
    watch.  Each operation implements the contract of [WatchSpec] on that
    watch and touches no other, so every theorem about histories holds of it. *)

From S2P Require Import Prelude Dict Sorting Calendar Schemas Reservation.
From S2P Require Import Watch WatchSpec WatchLog WatchStore Policy.

Definition view_of (id : string) (s : store) : view :=
  MkView (st_watches s !! id) (st_runtimes s !! id) (st_fence s !! id) (st_claims s !! id)
    (st_markers s !! id) (st_terminal_delete_at s !! id).

(** The dictionaries that are iterated are dictionaries. *)
#[local] Arguments cl_watch_id : simpl never.

Definition good_store (s : store) : Prop :=
  dict_wf (st_watches s) ∧ dict_wf (st_markers s) ∧ dict_wf (st_terminal_delete_at s).

Section repository.
Context (sha1hex : string → string) (retention : Z).

Definition InMemoryWatchRepository : WatchRepository store := {|
  repo_view := view_of;
  get := InMemory.get;
  get_runtime := InMemory.get_runtime;
  create_with_schedule := InMemory.create_with_schedule;
  claim_window := InMemory.claim_window;
  begin_booking := InMemory.begin_booking;
  commit_window := InMemory.commit_window sha1hex retention;
  cancel_if_active := InMemory.cancel_if_active retention;
  expire_if_eligible := InMemory.expire_if_eligible sha1hex retention;
  release_claim := InMemory.release_claim;
  cleanup_due := InMemory.cleanup_due;
  prune_index_member := InMemory.prune_index_member;
  synthesize_marker := InMemory.synthesize_marker;
  delete_watch := InMemory.delete_watch;
|}.
End repository.

(** ** Views of updated stores *)

Ltac view_simp :=
  repeat first
    [ rewrite dict_lookup_insert_eq | rewrite dict_lookup_delete_eq
    | rewrite dict_lookup_insert_ne by congruence
    | rewrite dict_lookup_delete_ne by congruence
    | rewrite dict_lookup_setdefault ].

(** The view after an operation, the last argument of the goal, is [x]. *)
Ltac view_is x :=
  match goal with |- ?P ?v => replace v with x by (unfold view_of; cbn; by view_simp) end.

Ltac view_frame := intros id' Hne; unfold view_of; cbn; view_simp; reflexivity.

Lemma view_of_eta id s : view_of id s = MkView (v_watch (view_of id s)) (v_runtime (view_of id s))
  (v_fence (view_of id s)) (v_claim (view_of id s)) (v_marker (view_of id s))
  (v_delete_at (view_of id s)).
Proof. done. Qed.

Lemma dict_get_or_fence id s : dict_get_or id 0 (st_fence s) = fence_of (view_of id s).
Proof. unfold dict_get_or, fence_of, view_of. cbn. by destruct (st_fence s !! id). Qed.

Lemma view_set_marker id r s :
  view_of id (InMemory._set_marker id r s) = view_of id s <| v_marker := marker_of id r |>.
Proof.
  unfold InMemory._set_marker, marker_of.
  destruct (rt_window_id r), (rt_scheduled_for r); unfold view_of; cbn; by view_simp.
Qed.

Lemma view_set_marker_ne id id' r s :
  id' ≠ id → view_of id' (InMemory._set_marker id r s) = view_of id' s.
Proof.
  intros Hne. unfold InMemory._set_marker.
  destruct (rt_window_id r), (rt_scheduled_for r); unfold view_of; cbn; by view_simp.
Qed.

Lemma view_issue_event sha1hex id w st rev s :
  view_of id (InMemory._issue_event sha1hex w st rev s).2 = view_of id s.
Proof. unfold InMemory._issue_event. by destruct (is_event_status st). Qed.

Lemma issue_event_for sha1hex w st rev s :
  (InMemory._issue_event sha1hex w st rev s).1 = event_for sha1hex w st rev.
Proof. unfold InMemory._issue_event, event_for. by destruct (is_event_status st). Qed.

Lemma view_issue_eq sha1hex w st rev s ev s' :
  InMemory._issue_event sha1hex w st rev s = (ev, s') →
  ev = event_for sha1hex w st rev ∧ ∀ id, view_of id s' = view_of id s.
Proof.
  intros E. split.
  - by rewrite <- (issue_event_for sha1hex w st rev s), E.
  - intros id. by rewrite <- (view_issue_event sha1hex id w st rev s), E.
Qed.

Lemma owns_view c r now s :
  st_runtimes s !! cl_watch_id c = Some r →
  InMemory._owns c r now s = view_owns c now (view_of (cl_watch_id c) s).
Proof.
  intros Hr. unfold InMemory._owns, view_owns, view_of. cbn. rewrite Hr.
  destruct (rt_revision r =? rt_revision (cl_runtime c)); cbn;
    by destruct (st_claims s !! cl_watch_id c).
Qed.

Lemma view_apply_terminal retention id w now s :
  InMemory._apply_terminal retention id w (st_runtimes s !! id) now s
  = (next_revision (st_runtimes s !! id),
     (InMemory._apply_terminal retention id w (st_runtimes s !! id) now s).2) ∧
  view_of id (InMemory._apply_terminal retention id w (st_runtimes s !! id) now s).2
  = ended_view w (now + retention) (view_of id s) ∧
  ∀ id', id' ≠ id →
    view_of id' (InMemory._apply_terminal retention id w (st_runtimes s !! id) now s).2
    = view_of id' s.
Proof.
  unfold InMemory._apply_terminal, ended_view, view_of.
  destruct (st_runtimes s !! id) as [r|] eqn:Hr; cbn; view_simp; rewrite ?Hr;
    (split_and!; [done|done|]); intros id' Hne; by view_simp.
Qed.

(** ** The laws *)

Section laws.
Context (sha1hex : string → string) (retention : Z).
Implicit Types (s : store) (id : string).
#[local] Instance repository : WatchRepository store :=
  InMemoryWatchRepository sha1hex retention.
#[local] Abbreviation acts := (acts_on (H := InMemoryWatchRepository sha1hex retention)).

Lemma inmem_create w r s :
  acts (w_watch_id w) s (create_post (w_watch_id w) w r) (InMemory.create_with_schedule w r s).
Proof.
  unfold acts_on, InMemory.create_with_schedule. cbn.
  destruct (st_watches s !! w_watch_id w) as [w0|] eqn:E; cbn.
  - split; [|done]. by apply (create_exists _ _ _ (view_of _ s)).
  - split; [|intros id' Hne; rewrite view_set_marker_ne by done; unfold view_of; cbn; by view_simp].
    rewrite view_set_marker.
    view_is
      (MkView (Some w) (Some r) (Some 0) (v_claim (view_of (w_watch_id w) s))
         (marker_of (w_watch_id w) r) (v_delete_at (view_of (w_watch_id w) s))).
    by apply create_new.
Qed.

Lemma inmem_claim id win owner lease ign now s :
  acts id s (claim_post win owner lease ign now)
    (InMemory.claim_window id win owner lease ign now s).
Proof.
  unfold acts_on, InMemory.claim_window. cbn.
  destruct (st_watches s !! id) as [w|] eqn:Ew; [|split; [apply claim_unknown; by left|done]].
  destruct (st_runtimes s !! id) as [r|] eqn:Er; [|split; [apply claim_unknown; by right|done]].
  destruct (watch_terminal w) eqn:Et; [split; [by apply (claim_terminal _ _ _ _ _ _ w)|done]|].
  case_bool_decide as Hwin; cbn; [|split; [by apply (claim_stale _ _ _ _ _ _ r)|done]].
  destruct (negb ign && _) eqn:Eearly.
  { apply andb_true_iff in Eearly as [Hi Hd].
    destruct (rt_scheduled_for r) as [due|] eqn:Ed; [|done]. apply negb_true_iff in Hi.
    split; [|done]. apply (claim_early _ _ _ _ _ _ r due); try done. by apply Z.ltb_lt. }
  destruct (match st_claims s !! id with Some _ => _ | None => _ end) eqn:Ebusy.
  { destruct (st_claims s !! id) as [h|] eqn:Eh; [|done].
    apply andb_true_iff in Ebusy as [_ Hl].
    split; [|done]. apply (claim_busy _ _ _ _ _ _ h); [done|]. by apply Z.ltb_lt. }
  split; [|view_frame]. rewrite dict_get_or_fence. cbn.
  view_is
    (view_of id s <| v_fence := Some (fence_of (view_of id s) + 1) |>
      <| v_claim := Some (MkClaimLease win owner (fence_of (view_of id s) + 1) (now + lease)) |>).
  apply claim_owned; try done.
  - intros -> due Hdue. rewrite Hdue in Eearly. cbn in Eearly. by apply Z.ltb_ge.
  - intros h Hh Hw. cbn in Hh. rewrite Hh, bool_decide_true in Ebusy by done. by apply Z.ltb_ge.
Qed.

Lemma inmem_begin c now s : acts (cl_watch_id c) s (begin_post c now) (InMemory.begin_booking c now s).
Proof.
  unfold acts_on, InMemory.begin_booking. cbn [repo_view InMemoryWatchRepository].
  destruct (st_watches s !! cl_watch_id c) as [w|] eqn:Ew;
    [|split; [apply begin_fenced; cbn; congruence|done]].
  destruct (st_runtimes s !! cl_watch_id c) as [r|] eqn:Er.
  2:{ split; [|done]. apply begin_fenced. intros _ _ _. unfold view_owns. cbn. by rewrite Er. }
  destruct (watch_terminal w) eqn:Et.
  { split; [|done]. apply begin_fenced. cbn. congruence. }
  rewrite (owns_view _ _ _ _ Er).
  destruct (view_owns c now (view_of (cl_watch_id c) s)) eqn:Eo; cbn [negb].
  2:{ split; [|done]. by apply begin_fenced. }
  destruct (rt_cancel_requested r) eqn:Ec.
  { split; [|done]. by apply (begin_cancelled _ _ _ r). }
  split; [|view_frame]. cbn [fst snd].
  view_is (view_of (cl_watch_id c) s <| v_runtime := Some (r <| rt_phase := Some BOOKING |>) |>).
  by apply (begin_granted _ _ _ w).
Qed.

Lemma inmem_commit c w r now now' s :
  acts (cl_watch_id c) s (commit_post sha1hex retention (cl_watch_id c) c w r now now')
    (InMemory.commit_window sha1hex retention c w r now now' s).
Proof.
  unfold acts_on, InMemory.commit_window. cbn. set (id := cl_watch_id c) in *.
  destruct (st_watches s !! id) as [w0|] eqn:Ew; [|split; [apply commit_unknown; by left|done]].
  destruct (st_runtimes s !! id) as [r0|] eqn:Er; [|split; [apply commit_unknown; by right|done]].
  destruct (watch_terminal w0) eqn:Et; [split; [by apply (commit_terminal _ _ _ _ _ _ _ _ _ w0)|done]|].
  rewrite (owns_view _ _ _ _ Er). fold id.
  destruct (view_owns c now (view_of id s)) eqn:Eo; cbn; [|split; [by apply commit_fenced|done]].
  destruct (watch_terminal w) eqn:Etw.
  - destruct (InMemory._issue_event _ _ _ _ _) as [ev s'] eqn:Eev. cbn.
    apply view_issue_eq in Eev as [-> Hs'].
    split.
    + rewrite Hs'. unfold view_of at 2. cbn. view_simp.
      by apply (commit_ended _ _ id c w r now now' (view_of id s) w0 r0).
    + intros id' Hne. rewrite Hs'. revert id' Hne. view_frame.
  - cbn. split.
    + rewrite view_set_marker. unfold view_of at 2. cbn. view_simp.
      by apply (commit_next _ _ id c w r now now' (view_of id s) w0 r0).
    + intros id' Hne. rewrite view_set_marker_ne by done. revert id' Hne. view_frame.
Qed.

Lemma inmem_cancel id now s :
  acts id s (cancel_post retention now) (InMemory.cancel_if_active retention id now s).
Proof.
  unfold acts_on, InMemory.cancel_if_active. cbn [repo_view InMemoryWatchRepository].
  destruct (st_watches s !! id) as [w|] eqn:Ew; [|split; [by apply cancel_unknown|done]].
  destruct (watch_terminal w) eqn:Et; [split; [by apply cancel_noop|done]|].
  destruct (view_apply_terminal retention id (ended_watch CANCELLED now w) now s)
    as (Ha & Hv & Hf). unfold ended_watch in Ha, Hv, Hf.
  destruct (st_runtimes s !! id) as [r|] eqn:Er; [case_bool_decide as Hp|].
  - split; [|view_frame]. cbn [fst snd].
    view_is (view_of id s <| v_runtime := Some (r <| rt_cancel_requested := true |>) |>).
    by apply (cancel_pending _ _ _ w r).
  - rewrite Ha. cbn [fst snd]. split; [|done]. rewrite Hv.
    replace (next_revision (Some r)) with (next_revision (v_runtime (view_of id s)))
      by (unfold view_of; cbn; by rewrite Er).
    apply (cancel_applied _ _ (view_of id s) w); [done..|]. cbn. naive_solver.
  - rewrite Ha. cbn [fst snd]. split; [|done]. rewrite Hv.
    replace (next_revision None) with (next_revision (v_runtime (view_of id s)))
      by (unfold view_of; cbn; by rewrite Er).
    apply (cancel_applied _ _ (view_of id s) w); [done..|]. cbn. naive_solver.
Qed.

Lemma inmem_expire id expected force now s :
  acts id s (expire_post sha1hex retention id expected force now)
    (InMemory.expire_if_eligible sha1hex retention id expected force now s).
Proof.
  unfold acts_on, InMemory.expire_if_eligible. cbn [repo_view InMemoryWatchRepository].
  destruct (st_watches s !! id) as [w|] eqn:Ew; [|split; [by apply expire_unknown|done]].
  destruct (watch_terminal w) eqn:Et; [split; [by apply expire_noop|done]|].
  destruct (match expected with Some _ => _ | None => _ end) eqn:Ef.
  { destruct expected as [n|]; [|done]. destruct (st_runtimes s !! id) as [r|] eqn:Er; [|done].
    split; [|done]. apply (expire_fenced _ _ _ _ _ _ _ n r); [done..|].
    apply negb_true_iff, Z.eqb_neq in Ef. done. }
  destruct (negb force && negb (is_exhausted w now)) eqn:Ee.
  { apply andb_true_iff in Ee as [?%negb_true_iff ?%negb_true_iff].
    split; [by apply expire_not_eligible|done]. }
  destruct (view_apply_terminal retention id (ended_watch EXPIRED now w) now s)
    as (Ha & Hv & Hf). unfold ended_watch in Ha, Hv, Hf. rewrite Ha.
  destruct (InMemory._issue_event _ _ _ _ _) as [ev s'] eqn:Eev.
  apply view_issue_eq in Eev as [-> Hs']. cbn [fst snd].
  split; [|intros id' Hne; by rewrite Hs', Hf]. rewrite Hs', Hv.
  apply (expire_applied _ _ _ _ _ _ (view_of id s) w); [done..| |].
  - apply andb_false_iff in Ee as [?%negb_false_iff|?%negb_false_iff]; auto.
  - intros n r -> Hr. cbn in Hr. rewrite Hr in Ef. by apply negb_false_iff, Z.eqb_eq in Ef.
Qed.

Lemma inmem_release c s : acts (cl_watch_id c) s (release_post c) (InMemory.release_claim c s).
Proof.
  unfold acts_on, InMemory.release_claim. cbn [repo_view InMemoryWatchRepository].
  destruct (st_claims s !! cl_watch_id c) as [h|] eqn:Eh.
  2:{ split; [|done]. apply release_not_owner. cbn. congruence. }
  destruct ((cls_token h =? cl_token c) && _) eqn:Eo.
  - apply andb_true_iff in Eo as [?%Z.eqb_eq ?%bool_decide_eq_true].
    split; [|view_frame]. cbn [fst snd].
    view_is (view_of (cl_watch_id c) s <| v_claim := None |>). by apply (release_done _ _ h).
  - split; [|done]. apply release_not_owner. cbn. intros h' Hh' [E1 E2].
    assert (h' = h) as -> by congruence.
    by rewrite (proj2 (Z.eqb_eq _ _) E1), bool_decide_true in Eo.
Qed.

Lemma inmem_synthesize id r now s :
  acts id s (synthesize_post id r now) (InMemory.synthesize_marker id r now s).
Proof.
  unfold acts_on, InMemory.synthesize_marker. cbn [repo_view InMemoryWatchRepository].
  destruct (st_watches s !! id) as [w|] eqn:Ew.
  2:{ split; [|done]. apply synthesize_refused. cbn. congruence. }
  destruct (watch_terminal w) eqn:Et.
  { split; [|done]. apply synthesize_refused. cbn. congruence. }
  destruct (match st_claims s !! id with Some _ => _ | None => _ end) eqn:Ec.
  { split; [|done]. apply synthesize_refused. intros _ _ _. left.
    destruct (st_claims s !! id) as [h|] eqn:Eh; [|done]. exists h.
    split; [done|]. by apply Z.ltb_lt. }
  destruct (dict_mem id (st_markers s)) eqn:Em.
  { split; [|done]. apply synthesize_refused. intros _ _ _. right. left.
    by apply dict_mem_spec. }
  apply dict_mem_false in Em. set (s1 := s <| st_runtimes := _ |> <| st_fence := _ |>).
  assert (view_of id s1 = view_of id s <| v_runtime := Some r |>
            <| v_fence := Some (fence_of (view_of id s)) |>) as Hs1.
  { unfold s1, view_of. cbn. view_simp. rewrite decide_True by done.
    by rewrite dict_get_or_fence. }
  assert (∀ id', id' ≠ id → view_of id' s1 = view_of id' s) as Hf1.
  { intros id' Hne. unfold s1, view_of. cbn. view_simp. by rewrite decide_False by congruence. }
  cbn [fst snd]. split; [|intros id' Hne; by rewrite view_set_marker_ne, Hf1].
  rewrite view_set_marker, Hs1. unfold dict_mem.
  assert (st_markers (InMemory._set_marker id r s1) !! id = marker_of id r) as ->.
  { pose proof (view_set_marker id r s1) as E. by apply (f_equal v_marker) in E. }
  destruct (marker_of id r) as [m|] eqn:Emk.
  - apply (synthesize_done _ _ _ _ w m); try done. intros h Hh. cbn in Hh. rewrite Hh in Ec.
    by apply Z.ltb_ge.
  - replace (_ <| v_marker := None |>) with (view_of id s <| v_runtime := Some r |>
            <| v_fence := Some (fence_of (view_of id s)) |>)
      by (unfold view_of; cbn; by rewrite Em).
    by apply (synthesize_unmarked _ _ _ _ w).
Qed.

Lemma view_forget id s : view_of id (InMemory.forget id s) = empty_view.
Proof. unfold InMemory.forget, view_of. cbn. by view_simp. Qed.

Lemma view_forget_ne id id' s : id' ≠ id → view_of id' (InMemory.forget id s) = view_of id' s.
Proof. intros Hne. unfold InMemory.forget, view_of. cbn. by view_simp. Qed.

Lemma cleanup_one_ne id n x s :
  id ≠ x → view_of id (InMemory.cleanup_one (n, s) x).2 = view_of id s.
Proof.
  intros Hne. unfold InMemory.cleanup_one.
  destruct (match st_watches s !! x with Some _ => _ | None => _ end); cbn [snd].
  - unfold view_of. cbn. by view_simp.
  - by apply view_forget_ne.
Qed.

Lemma cleanup_one_post now n x d s :
  st_terminal_delete_at s !! x = Some d → d <= now →
  cleanup_post now (view_of x s) (view_of x (InMemory.cleanup_one (n, s) x).2).
Proof.
  intros Hd Hle. unfold InMemory.cleanup_one.
  destruct (st_watches s !! x) as [w|] eqn:Ew; [destruct (watch_terminal w) eqn:Et|]; cbn [negb snd].
  - rewrite view_forget. by apply (cleanup_removed _ _ w d).
  - view_is (view_of x s <| v_delete_at := None |>). apply (cleanup_stale _ _ d); try done.
    cbn. congruence.
  - view_is (view_of x s <| v_delete_at := None |>). apply (cleanup_stale _ _ d); try done.
    cbn. congruence.
Qed.

Lemma cleanup_fold_frame l n s id :
  id ∉ l → view_of id (fold_left InMemory.cleanup_one l (n, s)).2 = view_of id s.
Proof.
  revert n s. induction l as [|x l IH]; intros n s Hni; [done|]. cbn [fold_left].
  rewrite not_elem_of_cons in Hni. destruct Hni as [Hne Hni].
  rewrite <- (cleanup_one_ne id n x s) by done.
  destruct (InMemory.cleanup_one (n, s) x) as [n1 s1]. auto.
Qed.

Lemma cleanup_fold now l n s id :
  NoDup l → (∀ x, x ∈ l → ∃ d, st_terminal_delete_at s !! x = Some d ∧ d <= now) →
  cleanup_post now (view_of id s) (view_of id (fold_left InMemory.cleanup_one l (n, s)).2).
Proof.
  revert n s. induction l as [|x l IH]; intros n s Hnd Hl; [apply cleanup_kept|]. cbn [fold_left].
  apply NoDup_cons in Hnd as [Hni Hnd].
  destruct (Hl x ltac:(set_solver)) as (d & Hd & Hle).
  pose proof (cleanup_one_post now n x d s Hd Hle) as Hx.
  pose proof (λ y, cleanup_one_ne y n x s) as Hne.
  destruct (InMemory.cleanup_one (n, s) x) as [n1 s1]. cbn [snd] in *.
  destruct (decide (id = x)) as [->|Hid]; [by rewrite cleanup_fold_frame|].
  rewrite <- (Hne id Hid). apply IH; [done|]. intros y Hy.
  assert (y ≠ x) as Hyx by (intros ->; done).
  specialize (Hne y Hyx). apply (f_equal v_delete_at) in Hne. cbn in Hne. rewrite Hne.
  apply Hl. set_solver.
Qed.

Lemma cleanup_batch_spec now n s id :
  id ∈ InMemory.cleanup_batch now n s →
  ∃ d, st_terminal_delete_at s !! id = Some d ∧ d <= now.
Proof.
  unfold InMemory.cleanup_batch. intros Hin%elem_of_slice_to%elem_of_sort_by.
  apply list_elem_of_In, filter_In in Hin as [_ Hd].
  destruct (st_terminal_delete_at s !! id) as [d|]; [|done].
  exists d. split; [done|]. by apply Z.leb_le.
Qed.

Lemma cleanup_batch_nodup now n s : good_store s → NoDup (InMemory.cleanup_batch now n s).
Proof.
  intros (_ & _ & Hwf). unfold InMemory.cleanup_batch.
  match goal with |- NoDup (slice_to n (sort_by ?k ?l)) =>
    destruct (slice_to_prefix n (sort_by k l)) as [l' Hl];
    assert (NoDup (sort_by k l)) as Hnd
  end.
  { rewrite sort_by_perm. apply NoDup_ListNoDup, List.NoDup_filter, NoDup_ListNoDup, Hwf. }
  rewrite Hl in Hnd. by apply NoDup_app in Hnd as [? _].
Qed.

Lemma inmem_cleanup now n s : good_store s → ∀ id,
  cleanup_post now (view_of id s) (view_of id (InMemory.cleanup_due now n s).2).
Proof.
  intros Hg id. unfold InMemory.cleanup_due.
  pose proof (cleanup_fold now (InMemory.cleanup_batch now n s) 0 s id
                (cleanup_batch_nodup now n s Hg) (cleanup_batch_spec now n s)) as H.
  by destruct (fold_left _ _ _).
Qed.

Lemma inmem_prune id (all : bool) s :
  acts id s (λ v _ v', v' = if all then empty_view else v)
    (tt, InMemory.prune_index_member id all s).
Proof.
  unfold acts_on, InMemory.prune_index_member. cbn. destruct all; [|done].
  split; [|view_frame]. unfold view_of. cbn. by view_simp.
Qed.

Lemma inmem_delete id s :
  acts id s (λ v b v', b = is_some (v_watch v) ∧ v' = empty_view) (InMemory.delete_watch id s).
Proof.
  unfold acts_on, InMemory.delete_watch. cbn [fst snd repo_view InMemoryWatchRepository].
  split; [|intros id' Hne; by apply view_forget_ne]. split; [|apply view_forget].
  unfold dict_mem, view_of. cbn. by destruct (st_watches s !! id).
Qed.

(** ** The iterated dictionaries stay dictionaries *)

Lemma good_forget id s : good_store s → good_store (InMemory.forget id s).
Proof. intros (?&?&?). split_and!; cbn; auto with dict. Qed.

Lemma good_set_marker id r s : good_store s → good_store (InMemory._set_marker id r s).
Proof.
  intros (?&?&?). unfold InMemory._set_marker.
  destruct (rt_window_id r), (rt_scheduled_for r); split_and!; cbn; auto with dict.
Qed.

Lemma good_issue_event w st rev s :
  good_store s → good_store (InMemory._issue_event sha1hex w st rev s).2.
Proof. unfold InMemory._issue_event. by destruct (is_event_status st). Qed.

Lemma good_apply_terminal id w o now s :
  good_store s → good_store (InMemory._apply_terminal retention id w o now s).2.
Proof.
  intros (?&?&?). unfold InMemory._apply_terminal.
  destruct o; split_and!; cbn; auto with dict.
Qed.

Lemma good_cleanup l n s :
  good_store s → good_store (fold_left InMemory.cleanup_one l (n, s)).2.
Proof.
  revert n s. induction l as [|x l IH]; intros n s Hg; [done|]. cbn [fold_left].
  unfold InMemory.cleanup_one at 2.
  destruct (match st_watches s !! x with Some _ => _ | None => _ end); apply IH.
  - destruct Hg as (?&?&?). split_and!; cbn; auto with dict.
  - by apply good_forget.
Qed.

Lemma inmem_good c s : good_store s → good_store (exec c s).2.
Proof.
  intros Hg. pose proof Hg as (?&?&?). destruct c; cbn;
    try match goal with |- good_store (let '(_, _) := ?X in _).2 =>
          enough (good_store X.2) by by destruct X
        end.
  - unfold InMemory.create_with_schedule. case_match; [done|]. cbn. apply good_set_marker.
    split_and!; cbn; auto with dict.
  - unfold InMemory.claim_window. repeat case_match; done.
  - unfold InMemory.begin_booking. repeat case_match; done.
  - unfold InMemory.commit_window. repeat (case_match; try done).
    + match goal with H : InMemory._issue_event _ _ _ _ ?s0 = _ |- _ =>
        apply (f_equal snd) in H; cbn in H; subst end.
      apply good_issue_event. split_and!; cbn; auto with dict.
    + cbn. apply good_set_marker. split_and!; cbn; auto with dict.
  - unfold InMemory.cancel_if_active.
    repeat (case_match; try done);
      match goal with H : InMemory._apply_terminal _ _ ?w ?o _ _ = _ |- _ =>
        pose proof (good_apply_terminal id w o now s Hg) as Ht; rewrite H in Ht end; done.
  - unfold InMemory.expire_if_eligible.
    repeat (case_match; try done);
      match goal with H : InMemory._apply_terminal _ _ ?w ?o _ _ = _ |- _ =>
        pose proof (good_apply_terminal id w o now s Hg) as Ht; rewrite H in Ht end;
      match goal with H : InMemory._issue_event _ _ _ _ ?s0 = _ |- _ =>
        apply (f_equal snd) in H; cbn in H; subst end; exact Ht || exact (good_issue_event _ _ _ _ Ht).
  - unfold InMemory.release_claim. repeat case_match; done.
  - unfold InMemory.cleanup_due.
    pose proof (good_cleanup (InMemory.cleanup_batch now n s) 0 s Hg). by destruct (fold_left _ _ _).
  - unfold InMemory.synthesize_marker. repeat (case_match; try done); by apply good_set_marker.
  - unfold InMemory.prune_index_member. case_match; [|done]. split_and!; cbn; auto with dict.
  - by apply good_forget.
Qed.

#[export] Instance InMemory_lawful : LawfulRepository sha1hex retention store good_store.
Proof.
  split; cbn; intros; [done..| | | | | | | | | | | |].
  - apply inmem_create.
  - apply inmem_claim.
  - apply inmem_begin.
  - apply inmem_commit.
  - apply inmem_cancel.
  - apply inmem_expire.
  - apply inmem_release.
  - by apply inmem_cleanup.
  - apply inmem_synthesize.
  - apply inmem_prune.
  - apply inmem_delete.
  - by apply inmem_good.
Qed.
End laws.
