(* ===== verification/WatchStoreTheorems.v ===== *)
(** * Properties of the in-memory watch repository *)

From S2P Require Import Prelude Dict Sorting Calendar Schemas Reservation Watch.
From S2P Require Import WatchSpec WatchLog WatchStore WatchStoreCorrect Policy.

Section histories.
Context (sha1hex : string → string) (retention : Z).
#[local] Instance inmem_repository : WatchRepository store :=
  InMemoryWatchRepository sha1hex retention.
Implicit Types (s : store) (L : log).

(** What the store looks like at any point of any history. *)
Definition store_history s L : Prop := trace (good := good_store) s L.

Lemma history_inv s L id :
  store_history s L → vinv sha1hex id (view_of id s) (log_of id L).
Proof. intros Ht. by apply (trace_inv (Hlaw := InMemory_lawful sha1hex retention)) in Ht as [_ Hv]. Qed.

(** A committed poll applies to exactly the state its claim
    saw: the claim was issued earlier, no transition of that watch happened
    between the claim and the commit, and the claim commits only once. *)
Theorem commit_no_lost_update s L id l1 rev st c ev l2 :
  store_history s L →
  log_of id L = l1 ++ Done rev st (Some c) ev :: l2 →
  (∃ l3 l4, l2 = l3 ++ Issued c :: l4 ∧ rev = rev_of c + 1 ∧
     ∀ rev' st' by' ev', Done rev' st' by' ev' ∉ l3) ∧
  (∀ rev' st' ev', Done rev' st' (Some c) ev' ∉ l1 ++ l2).
Proof.
  intros Ht Hl. pose proof (vi_log _ _ _ _ (history_inv s L id Ht)) as Hok. rewrite Hl in Hok.
  split; [by eapply history_commit|]. intros rev' st' ev' [Hin|Hin]%elem_of_app.
  - destruct (list_elem_of_split _ _ Hin) as (a & b & ->). rewrite <- app_assoc in Hok.
    cbn in Hok. apply (history_once _ _ _ _ _ _ rev st ev Hok). set_solver.
  - by apply (history_once _ _ _ _ _ _ rev' st' ev' Hok).
Qed.

(** C16 (terminal). A terminal transition is the last thing that ever happens
    to a watch: no later claim, permit or transition exists, so at most one
    terminal event id is ever issued for it. *)
Theorem terminal_is_final s L id l1 rev st by_claim ev l2 :
  store_history s L →
  log_of id L = l1 ++ Done rev st by_claim ev :: l2 → is_terminal st = true →
  l1 = [] ∧ ev = event_for sha1hex id st rev ∧
  ∀ rev' st' by' ev', Done rev' st' by' (Some ev') ∉ l2.
Proof.
  intros Ht Hl Hst. pose proof (vi_log _ _ _ _ (history_inv s L id Ht)) as Hok. rewrite Hl in Hok.
  assert (l1 = []) as -> by by eapply history_terminal. destruct Hok as [He Hok].
  destruct He as (Hopen & _ & _ & -> & _). split_and!; [done..|].
  intros rev' st' by' ev' Hin. destruct Hopen as [_ Ho]. specialize (Ho _ _ _ _ Hin).
  destruct (list_elem_of_split _ _ Hin) as (a & b & ->).
  apply log_ok_split in Hok as (_ & _ & _ & Hev & _). unfold event_for in Hev.
  by destruct st'.
Qed.

(** At any moment at most one of all the claims ever
    issued on a watch passes the ownership check, whatever each process reads
    off its clock. *)
Theorem single_owner s L id c1 c2 r now1 now2 :
  store_history s L →
  Issued c1 ∈ log_of id L → Issued c2 ∈ log_of id L →
  st_runtimes s !! id = Some r → is_Some (st_watches s !! id) →
  InMemory._owns c1 r now1 s = true → InMemory._owns c2 r now2 s = true → c1 = c2.
Proof.
  intros Ht H1 H2 Hr [w Hw]. pose proof (history_inv s L id Ht) as Hv.
  assert (∀ c now, Issued c ∈ log_of id L → InMemory._owns c r now s = true →
            newest c (log_of id L)) as Hown.
  { intros c now Hc Ho.
    assert (cl_watch_id c = id) as Hid.
    { destruct (list_elem_of_split _ _ Hc) as (a & b & Hl). pose proof (vi_log _ _ _ _ Hv) as Hok.
      rewrite Hl in Hok. by apply log_ok_split in Hok as (_ & ? & _). }
    subst id. rewrite (owns_view _ _ _ _ Hr) in Ho.
    eapply (owns_newest sha1hex _ w c now); eauto. }
  intros Ho1 Ho2. destruct (Hown _ _ H1 Ho1) as [_ N1], (Hown _ _ H2 Ho2) as [_ N2].
  destruct (N1 _ H2), (N2 _ H1); congruence || lia.
Qed.

(** C17 (cancel). A cancellation is applied only when no booking permit is
    outstanding: every permit granted before it was resolved by a later
    commit; and after it no permit is granted and nothing is committed. *)
Theorem cancel_excludes_permits s L id l1 rev ev l2 :
  store_history s L →
  log_of id L = l1 ++ Done rev CANCELLED None ev :: l2 →
  l1 = [] ∧ ev = None ∧
  ∀ c, Granted c ∈ l2 → ∃ rev' st' by' ev', Done rev' st' by' ev' ∈ l2 ∧ rev_of c < rev'.
Proof.
  intros Ht Hl. pose proof (vi_log _ _ _ _ (history_inv s L id Ht)) as Hok. rewrite Hl in Hok.
  split_and!.
  - by eapply history_terminal.
  - by apply log_ok_split in Hok as (_ & _ & _ & -> & _).
  - intros c Hc. by eapply history_cancel.
Qed.

(** C18 (store invariant). At any moment: a document is stored under its own
    id; a terminal watch has no claim and no schedule marker, and carries the
    retention deadline of its runtime; an active watch has no deadline, and
    its durable marker is exactly the window its runtime announces. *)
Theorem store_invariant s L id w :
  store_history s L → st_watches s !! id = Some w →
  w_watch_id w = id ∧
  (watch_terminal w = true →
     st_claims s !! id = None ∧ st_markers s !! id = None ∧
     ∃ d, st_terminal_delete_at s !! id = Some d ∧
          ∀ r, st_runtimes s !! id = Some r → rt_terminal_delete_at r = Some d) ∧
  (watch_terminal w = false →
     st_terminal_delete_at s !! id = None ∧
     st_markers s !! id = st_runtimes s !! id ≫= marker_of id).
Proof.
  intros Ht Hw. pose proof (history_inv s L id Ht) as Hv.
  split_and!.
  - by apply (vi_key _ _ _ _ Hv).
  - intros Htw. destruct (vi_terminal _ _ _ _ Hv w Hw Htw) as (? & ? & d & Hd).
    split_and!; [done..|]. exists d. split; [done|]. intros r Hr.
    by apply (vi_deadline _ _ _ _ Hv).
  - intros Htw. by destruct (vi_active _ _ _ _ Hv w Hw Htw) as (? & ? & _).
Qed.
End histories.

(** ** A concrete history

    Two polls of one watch: a miss that schedules the next window, then a
    permit and a booking-free terminal result; and a cancelled variant. *)

Definition demo_sha (s : string) : string := "sha1:" +:+ s.
Definition demo_retention : Z := days 7.
#[local] Instance demo_repository : WatchRepository store :=
  InMemoryWatchRepository demo_sha demo_retention.

Definition demo_watch : Watch := example_watch <| w_attempts := 0 |>.
Definition demo_runtime : WatchRuntime := initial_runtime demo_watch 10 true None.
Definition demo_claim_1 : WindowClaim :=
  MkClaim demo_watch demo_runtime "worker-a" "watch_1:0" 1 (seconds 210).
Definition demo_watch_1 : Watch :=
  demo_watch <| w_attempts := 1 |> <| w_next_check_at := Some (seconds 270) |>.
Definition demo_runtime_1 : WatchRuntime :=
  demo_runtime <| rt_cadence_sequence := 1 |> <| rt_window_id := Some "watch_1:1"%string |>
    <| rt_scheduled_for := Some (seconds 270) |>.
Definition demo_claim_2 : WindowClaim :=
  MkClaim demo_watch_1 (demo_runtime_1 <| rt_revision := 1 |>) "worker-b" "watch_1:1" 2 (seconds 390).
Definition demo_expired : Watch := ended_watch EXPIRED (seconds 280) demo_watch_1.

Definition demo_polls : list cmd :=
  [CCreate demo_watch demo_runtime;
   CClaim "watch_1" "watch_1:0" "worker-a" (seconds 120) false (seconds 90);
   CBegin demo_claim_1 (seconds 91);
   CCommit demo_claim_1 demo_watch_1 demo_runtime_1 (seconds 95) (seconds 95);
   CClaim "watch_1" "watch_1:1" "worker-b" (seconds 120) false (seconds 270)].

Definition demo_finish : list cmd :=
  demo_polls ++
  [CCommit demo_claim_2 demo_expired
     (demo_runtime_1 <| rt_window_id := None |> <| rt_scheduled_for := None |>)
     (seconds 280) (seconds 280)].

Definition demo_cancel : list cmd := demo_polls ++ [CCancel "watch_1" (seconds 275)].

Definition demo_state (cs : list cmd) : store * log := run_cmds cs empty_store [].

Lemma demo_history cs :
  all_allowed cs empty_store [] = true →
  store_history demo_sha demo_retention (demo_state cs).1 (demo_state cs).2.
Proof.
  intros Ha. unfold store_history, demo_state. apply trace_run; [|done].
  apply trace_init; [split_and!; apply dict_wf_empty|]. intros id. by left.
Qed.

Lemma demo_polls_history :
  store_history demo_sha demo_retention (demo_state demo_polls).1 (demo_state demo_polls).2.
Proof. apply demo_history. vm_compute. reflexivity. Qed.

Lemma demo_polls_log :
  log_of "watch_1" (demo_state demo_polls).2
    = [Issued demo_claim_2] ++ Done 1 ACTIVE (Some demo_claim_1) None ::
      [Granted demo_claim_1; Issued demo_claim_1; Created].
Proof. vm_compute. reflexivity. Qed.

Lemma demo_finish_history :
  store_history demo_sha demo_retention (demo_state demo_finish).1 (demo_state demo_finish).2.
Proof. apply demo_history. vm_compute. reflexivity. Qed.

Lemma demo_finish_log :
  log_of "watch_1" (demo_state demo_finish).2
    = [] ++ Done 2 EXPIRED (Some demo_claim_2) (Some "sha1:watch_1:EXPIRED:2"%string) ::
      [Issued demo_claim_2; Done 1 ACTIVE (Some demo_claim_1) None; Granted demo_claim_1;
       Issued demo_claim_1; Created].
Proof. vm_compute. reflexivity. Qed.

Lemma demo_cancel_history :
  store_history demo_sha demo_retention (demo_state demo_cancel).1 (demo_state demo_cancel).2.
Proof. apply demo_history. vm_compute. reflexivity. Qed.

Lemma demo_cancel_log :
  log_of "watch_1" (demo_state demo_cancel).2
    = [] ++ Done 2 CANCELLED None None ::
      [Issued demo_claim_2; Done 1 ACTIVE (Some demo_claim_1) None; Granted demo_claim_1;
       Issued demo_claim_1; Created].
Proof. vm_compute. reflexivity. Qed.

Lemma demo_polls_store :
  st_runtimes (demo_state demo_polls).1 !! "watch_1"%string
    = Some (demo_runtime_1 <| rt_revision := 1 |>) ∧
  st_watches (demo_state demo_polls).1 !! "watch_1"%string = Some demo_watch_1 ∧
  InMemory._owns demo_claim_2 (demo_runtime_1 <| rt_revision := 1 |>) (seconds 300)
    (demo_state demo_polls).1 = true.
Proof. vm_compute. done. Qed.

Lemma commit_no_lost_update_witness :
  log_of "watch_1" (demo_state demo_polls).2
    = [Issued demo_claim_2] ++ Done 1 ACTIVE (Some demo_claim_1) None ::
      [Granted demo_claim_1; Issued demo_claim_1; Created] ∧
  ∀ rev' st' ev', Done rev' st' (Some demo_claim_1) ev' ∉
    [Issued demo_claim_2] ++ [Granted demo_claim_1; Issued demo_claim_1; Created].
Proof.
  split; [exact demo_polls_log|].
  apply (commit_no_lost_update demo_sha demo_retention (demo_state demo_polls).1
           (demo_state demo_polls).2 "watch_1" [Issued demo_claim_2] 1 ACTIVE demo_claim_1 None).
  - exact demo_polls_history.
  - exact demo_polls_log.
Defined.

Lemma terminal_is_final_witness :
  Some "sha1:watch_1:EXPIRED:2"%string = event_for demo_sha "watch_1" EXPIRED 2 ∧
  ∀ rev' st' by' ev', Done rev' st' by' (Some ev') ∉
    [Issued demo_claim_2; Done 1 ACTIVE (Some demo_claim_1) None; Granted demo_claim_1;
     Issued demo_claim_1; Created].
Proof.
  apply (terminal_is_final demo_sha demo_retention (demo_state demo_finish).1
            (demo_state demo_finish).2 "watch_1" [] 2 EXPIRED (Some demo_claim_2)
            (Some "sha1:watch_1:EXPIRED:2"%string)).
  - exact demo_finish_history.
  - exact demo_finish_log.
  - reflexivity.
Defined.

Lemma single_owner_witness : demo_claim_2 = demo_claim_2.
Proof.
  apply (single_owner demo_sha demo_retention (demo_state demo_polls).1 (demo_state demo_polls).2
           "watch_1" _ _ (demo_runtime_1 <| rt_revision := 1 |>) (seconds 300) (seconds 300)).
  - exact demo_polls_history.
  - rewrite demo_polls_log. apply list_elem_of_here.
  - rewrite demo_polls_log. apply list_elem_of_here.
  - apply demo_polls_store.
  - exists demo_watch_1. apply demo_polls_store.
  - apply demo_polls_store.
  - apply demo_polls_store.
Defined.

Lemma cancel_excludes_permits_witness :
  ∃ rev' st' by' ev',
    Done rev' st' by' ev' ∈
      [Issued demo_claim_2; Done 1 ACTIVE (Some demo_claim_1) None; Granted demo_claim_1;
       Issued demo_claim_1; Created] ∧ rev_of demo_claim_1 < rev'.
Proof.
  apply (cancel_excludes_permits demo_sha demo_retention (demo_state demo_cancel).1
            (demo_state demo_cancel).2 "watch_1" [] 2 None).
  - exact demo_cancel_history.
  - exact demo_cancel_log.
  - do 2 apply list_elem_of_further. apply list_elem_of_here.
Defined.

Lemma store_invariant_witness : w_watch_id demo_watch_1 = "watch_1"%string.
Proof.
  apply (store_invariant demo_sha demo_retention (demo_state demo_polls).1 (demo_state demo_polls).2).
  - exact demo_polls_history.
  - apply demo_polls_store.
Defined.

(** ** Single operations *)

Section operations.
Context (sha1hex : string → string) (retention : Z).
Implicit Types (s : store).

(** C19 (recovery). A crash never strands a watch: once its window is due and
    every earlier lease has run out, the next delivery is granted the claim,
    and its commit is accepted as long as its own lease lives. *)
Theorem expired_lease_is_reclaimed s id w r win owner lease now :
  st_watches s !! id = Some w → w_watch_id w = id → watch_terminal w = false →
  st_runtimes s !! id = Some r → rt_window_id r = Some win →
  (∀ due, rt_scheduled_for r = Some due → due <= now) →
  (∀ h, st_claims s !! id = Some h → cls_expires_at h <= now) →
  ∃ c s1, InMemory.claim_window id win owner lease false now s = (MkClaimResult OWNED (Some c), s1) ∧
    cl_watch c = w ∧ cl_runtime c = r ∧
    ∀ w' r' now1 now2, now1 < now + lease →
      cmr_status (InMemory.commit_window sha1hex retention c w' r' now1 now2 s1).1 = COMMITTED ∧
      st_watches (InMemory.commit_window sha1hex retention c w' r' now1 now2 s1).2 !! id = Some w'.
Proof.
  intros Hw Hid Hact Hr Hwin Hdue Hcl. unfold InMemory.claim_window.
  rewrite Hw, Hr, Hact, Hwin, bool_decide_true by done. cbn [negb andb].
  assert (match rt_scheduled_for r with Some due => now <? due | None => false end = false) as ->.
  { destruct (rt_scheduled_for r) as [due|]; [|done]. apply Z.ltb_ge. auto. }
  assert (match st_claims s !! id with
          | Some held => bool_decide (cls_window_id held = win) && (now <? cls_expires_at held)
          | None => false end = false) as ->.
  { destruct (st_claims s !! id) as [h|]; [|done]. apply andb_false_iff. right.
    apply Z.ltb_ge. auto. }
  do 2 eexists. split; [reflexivity|]. split_and!; [done..|]. intros w' r' now1 now2 Hlt.
  unfold InMemory.commit_window, InMemory._owns, cl_watch_id. cbn. rewrite Hid, Hw, Hr, Hact.
  rewrite dict_lookup_insert_eq, !Z.eqb_refl, bool_decide_true by done. cbn.
  rewrite ?Z.eqb_refl, (proj2 (Z.ltb_lt _ _)) by done. cbn.
  destruct (watch_terminal w'); [destruct (InMemory._issue_event _ _ _ _ _) eqn:E|]; cbn.
  - apply view_issue_eq in E as [_ E]. specialize (E id). apply (f_equal v_watch) in E.
    cbn in E. rewrite E. by rewrite dict_lookup_insert_eq.
  - unfold InMemory._set_marker. repeat case_match; cbn; by rewrite dict_lookup_insert_eq.
Qed.

(** A commit is applied exactly when the watch is stored
    and active and the claim owns it; in every other case the store is left
    as it was, and the answer tells which guard refused. *)
Theorem commit_window_decision c w' r' now now' s :
  let '(res, s') := InMemory.commit_window sha1hex retention c w' r' now now' s in
  let id := cl_watch_id c in
  match st_watches s !! id, st_runtimes s !! id with
  | Some w, Some r =>
      if watch_terminal w then cmr_status res = CS_TERMINAL ∧ cmr_watch res = Some w ∧ s' = s
      else if InMemory._owns c r now s then
        cmr_status res = COMMITTED ∧ cmr_watch res = Some w' ∧
        st_watches s' !! id = Some w' ∧ st_claims s' !! id = None ∧
        (rt_revision <$> st_runtimes s' !! id) = Some (rt_revision r + 1) ∧
        ((st_runtimes s' !! id) ≫= rt_phase) = None ∧
        cmr_event_id res = (if watch_terminal w' then event_for sha1hex id (w_status w')
                                                        (rt_revision r + 1) else None)
      else cmr_status res = CS_FENCED ∧ s' = s
  | _, _ => cmr_status res = CS_UNKNOWN ∧ s' = s
  end.
Proof.
  unfold InMemory.commit_window. destruct (st_watches s !! cl_watch_id c) as [w|]; [|done].
  destruct (st_runtimes s !! cl_watch_id c) as [r|]; [|done].
  destruct (watch_terminal w); [done|].
  destruct (InMemory._owns c r now s); [|done]. cbn [negb].
  destruct (watch_terminal w') eqn:Et.
  - destruct (InMemory._issue_event _ _ _ _ _) as [ev s1] eqn:E.
    apply view_issue_eq in E as [-> E]. specialize (E (cl_watch_id c)).
    pose proof (f_equal v_watch E) as E1. pose proof (f_equal v_runtime E) as E2.
    pose proof (f_equal v_claim E) as E3. cbn in *.
    rewrite E1, E2, E3, !dict_lookup_insert_eq, dict_lookup_delete_eq. done.
  - pose proof (view_set_marker (cl_watch_id c)) as E. cbn.
    match goal with |- context [InMemory._set_marker ?i ?r ?s0] => specialize (E r s0) end.
    pose proof (f_equal v_watch E) as E1. pose proof (f_equal v_runtime E) as E2.
    pose proof (f_equal v_claim E) as E3. cbn in *.
    rewrite E1, E2, E3, !dict_lookup_insert_eq, dict_lookup_delete_eq. done.
Qed.

(** ** Retention *)

Lemma cleanup_fold_deadlines l n s id :
  st_terminal_delete_at (fold_left InMemory.cleanup_one l (n, s)).2 !! id =
    if decide (id ∈ l) then None else st_terminal_delete_at s !! id.
Proof.
  revert n s. induction l as [|x l IH]; intros n s; [by rewrite decide_False by set_solver|].
  cbn [fold_left]. destruct (InMemory.cleanup_one (n, s) x) as [n1 s1] eqn:E.
  assert (st_terminal_delete_at s1 = delete x (st_terminal_delete_at s)) as Hs1.
  { unfold InMemory.cleanup_one in E. case_match; simplify_eq/=; done. }
  rewrite IH, Hs1. destruct (decide (id = x)) as [->|Hne].
  - rewrite dict_lookup_delete_eq, (decide_True (P := x ∈ x :: l)) by apply list_elem_of_here.
    by case_decide.
  - rewrite dict_lookup_delete_ne by done. apply decide_ext. rewrite elem_of_cons. naive_solver.
Qed.

Lemma cleanup_fold_count l n s :
  n <= (fold_left InMemory.cleanup_one l (n, s)).1 <= n + Z.of_nat (length l).
Proof.
  revert n s. induction l as [|x l IH]; intros n s; [cbn; lia|].
  cbn [fold_left]. destruct (InMemory.cleanup_one (n, s) x) as [n1 s1] eqn:E.
  assert (n <= n1 <= n + 1) by (unfold InMemory.cleanup_one in E; case_match; simplify_eq/=; lia).
  specialize (IH n1 s1). cbn [length]. lia.
Qed.

Lemma cleanup_fold_good l n s :
  good_store s → good_store (fold_left InMemory.cleanup_one l (n, s)).2.
Proof. apply good_cleanup. Qed.

(** One cleanup pass removes at most [batch_size] watches, each
    of them terminal and past its retention deadline, earliest deadlines
    first, and changes no other watch; it reports work left exactly when a
    due entry remains, and a batch that covers the due entries leaves none. *)
Theorem cleanup_due_spec now n s :
  good_store s → 0 <= n →
  let '(res, s') := InMemory.cleanup_due now n s in
  0 <= cu_removed res <= n ∧
  (∀ id, st_watches s' !! id = st_watches s !! id ∨
     ∃ w d, st_watches s !! id = Some w ∧ watch_terminal w = true ∧
            st_terminal_delete_at s !! id = Some d ∧ d <= now ∧ st_watches s' !! id = None) ∧
  (cu_remaining res = true ↔ ∃ id d, st_terminal_delete_at s' !! id = Some d ∧ d <= now) ∧
  (∀ id d id' d', st_terminal_delete_at s !! id = Some d → st_terminal_delete_at s' !! id = None →
     st_terminal_delete_at s' !! id' = Some d' → d' <= now → d <= d') ∧
  (dict_len (st_terminal_delete_at s) <= n → cu_remaining res = false).
Proof.
  intros Hg Hn. pose proof (inmem_cleanup sha1hex now n s Hg) as Hpost. unfold InMemory.cleanup_due in *.
  set (batch := InMemory.cleanup_batch now n s) in *.
  pose proof (cleanup_fold_deadlines batch 0 s) as Hdl.
  pose proof (cleanup_fold_count batch 0 s) as Hcnt.
  pose proof (cleanup_fold_good batch 0 s Hg) as (_ & _ & Hwf).
  assert (∀ id d, st_terminal_delete_at s !! id = Some d → d <= now → id ∉ batch →
            ∀ x dx, x ∈ batch → st_terminal_delete_at s !! x = Some dx → dx <= d) as Hmin.
  { intros id d Hd Hle Hni x dx Hx Hdx. unfold batch, InMemory.cleanup_batch in *.
    eapply (slice_sorted_min _ n _ x id) in Hx; [|clear Hx|done].
    - unfold dict_get_or in Hx. by rewrite Hd, Hdx in Hx.
    - apply list_elem_of_In, filter_In. split; [|rewrite Hd; by apply Z.leb_le].
      apply list_elem_of_In, dict_elem_of_keys. by eexists. }
  assert (dict_len (st_terminal_delete_at s) <= n →
    ∀ id d, st_terminal_delete_at s !! id = Some d → d <= now → id ∈ batch) as Hall.
  { intros Hlen id d Hd Hle. unfold batch, InMemory.cleanup_batch.
    rewrite slice_to_all.
    - apply elem_of_sort_by, list_elem_of_In, filter_In.
      split; [|rewrite Hd; by apply Z.leb_le]. apply list_elem_of_In, dict_elem_of_keys. by eexists.
    - rewrite sort_by_perm. pose proof (filter_length_le (λ id0 : string,
          match st_terminal_delete_at s !! id0 with Some deadline => deadline <=? now | None => false end)
          (keys (st_terminal_delete_at s))) as Hf.
      unfold dict_len, keys in *. rewrite length_fmap in Hf. lia. }
  assert (Z.of_nat (length batch) <= n) as Hlb by by apply slice_to_length.
  destruct (fold_left InMemory.cleanup_one batch (0, s)) as [k s'] eqn:E. cbn in *.
  assert (existsb (λ d, d <=? now) (values (st_terminal_delete_at s')) = true ↔
          ∃ id d, st_terminal_delete_at s' !! id = Some d ∧ d <= now) as Hrem.
  { rewrite existsb_exists. split.
    - intros (d & Hin & Hle). apply list_elem_of_In, dict_elem_of_values in Hin as [id Hid]; [|done].
      exists id, d. split; [done|]. by apply Z.leb_le.
    - intros (id & d & Hid & Hle). exists d. split; [|by apply Z.leb_le].
      apply list_elem_of_In, dict_elem_of_values; [done|]. by exists id. }
  split_and!; [lia|lia| |exact Hrem| |].
  - intros id. specialize (Hpost id). remember (view_of id s) as v eqn:Ev.
    remember (view_of id s') as v' eqn:Ev'.
    assert (st_watches s !! id = v_watch v) as -> by by subst.
    assert (st_watches s' !! id = v_watch v') as -> by by subst.
    assert (st_terminal_delete_at s !! id = v_delete_at v) as -> by by subst.
    destruct Hpost as [|d|w d]; [by left|by left|]. right. exists w, d. done.
  - intros id d id' d' Hd Hd2 Hd' Hle. rewrite Hdl in Hd2, Hd'.
    destruct (decide (id' ∈ batch)) as [|Hni']; [done|].
    destruct (decide (id ∈ batch)) as [Hin|]; [|congruence].
    by apply (Hmin id' d' Hd' Hle Hni' id d).
  - intros Hlen. apply not_true_iff_false. rewrite Hrem. intros (id & d & Hd & Hle).
    rewrite Hdl in Hd. case_decide as Hni; [done|]. apply Hni. by eapply Hall.
Qed.

(** A sweep returns stored markers that fall due within the
    horizon, soonest first, at most [limit] of them; a due marker it leaves
    out is no sooner than any it returns, and is left out only when the limit
    is reached. *)
Theorem due_schedule_markers_spec now horizon limit s :
  good_store s → 0 <= limit →
  let out := InMemory.due_schedule_markers now horizon limit s in
  StronglySorted (key_le mk_scheduled_for) out ∧
  Z.of_nat (length out) <= limit ∧
  (∀ m, m ∈ out → mk_scheduled_for m <= now + horizon ∧ ∃ id, st_markers s !! id = Some m) ∧
  (∀ id m, st_markers s !! id = Some m → mk_scheduled_for m <= now + horizon → m ∉ out →
     Z.of_nat (length out) = limit ∧ ∀ m', m' ∈ out → mk_scheduled_for m' <= mk_scheduled_for m).
Proof.
  intros (_ & Hwf & _) Hl. unfold InMemory.due_schedule_markers.
  set (due := List.filter _ _).
  assert (∀ m, m ∈ due ↔ mk_scheduled_for m <= now + horizon ∧ ∃ id, st_markers s !! id = Some m)
    as Hdue.
  { intros m. unfold due. rewrite list_elem_of_In, filter_In, <- list_elem_of_In.
    rewrite dict_elem_of_values by done. rewrite Z.leb_le. tauto. }
  split_and!.
  - apply sorted_slice, sort_by_sorted.
  - by apply slice_to_length.
  - intros m Hm%elem_of_slice_to%elem_of_sort_by. by apply Hdue.
  - intros id m Hm Hle Hni. split.
    + apply slice_to_full; [done|]. intros Hall. apply Hni. rewrite Hall.
      apply elem_of_sort_by, Hdue. eauto.
    + intros m' Hm'. eapply slice_sorted_min; [exact Hm'| |exact Hni].
      apply Hdue. eauto.
Qed.

(** [list_all] returns every stored watch exactly once, newest
    first, and [list_active] exactly the active ones in the same order. *)
Theorem list_all_spec s :
  InMemory.list_all s ≡ₚ values (st_watches s) ∧
  StronglySorted (λ w w', w_created_at w' <= w_created_at w) (InMemory.list_all s) ∧
  InMemory.list_active s = filter (λ w, w_status w = ACTIVE) (InMemory.list_all s).
Proof.
  split_and!.
  - apply sort_by_perm.
  - pose proof (sort_by_sorted (λ w, - w_created_at w) (values (st_watches s))) as H.
    unfold InMemory.list_all. induction H as [|w l Hs IH Hw]; constructor; [done|].
    eapply Forall_impl; [exact Hw|]. unfold key_le. cbn. lia.
  - unfold InMemory.list_active. induction (InMemory.list_all s) as [|w l IH]; [done|].
    rewrite filter_cons. cbn [List.filter]. case_bool_decide; case_decide; congruence.
Qed.

(** Publishing is single-flight: after a dispatch lease is
    granted, every other claim for the same window is refused until the lease
    runs out, is released by its owner, or, once the publication is recorded,
    until the redispatch time; and a later lease has a higher generation, so
    the old owner can neither record nor release it. *)
Theorem dispatch_single_flight m owner lease now s c s1 :
  InMemory.claim_dispatch m owner lease now s = (MkDispatchResult CLAIMED (Some c), s1) →
  (∀ owner' lease' now', now' < now + lease →
     InMemory.claim_dispatch m owner' lease' now' s1 = (MkDispatchResult DS_BUSY None, s1)) ∧
  (∀ t owner' lease' now', now' < t →
     (InMemory.mark_dispatched c t s1).1 = true ∧
     (InMemory.claim_dispatch m owner' lease' now' (InMemory.mark_dispatched c t s1).2).1
       = MkDispatchResult DS_BUSY None) ∧
  (∀ owner' lease' now' c' s2,
     InMemory.claim_dispatch m owner' lease' now' s1 = (MkDispatchResult CLAIMED (Some c'), s2) →
     dc_generation c < dc_generation c' ∧
     InMemory.release_dispatch c s2 = (false, s2) ∧
     (∀ t, InMemory.mark_dispatched c t s2 = (false, s2)) ∧
     (InMemory.release_dispatch c' s2).1 = true).
Proof.
  unfold InMemory.claim_dispatch at 1.
  destruct (st_watches s !! mk_watch_id m) as [w|] eqn:Ew; [|done].
  destruct (st_markers s !! mk_watch_id m) as [cur|] eqn:Em; [|done].
  destruct (watch_terminal w || _) eqn:Est; [done|].
  destruct (match st_dispatch_leases s !! _ with Some _ => _ | None => _ end) eqn:Eb; [done|].
  intros [= <- <-]. split_and!.
  - intros owner' lease' now' Hlt. unfold InMemory.claim_dispatch. cbn.
    rewrite Ew, Em, Est, dict_lookup_insert_eq. cbn.
    by rewrite bool_decide_true, (proj2 (Z.ltb_lt _ _)) by done.
  - intros t owner' lease' now' Hlt. unfold InMemory.mark_dispatched, InMemory._owns_dispatch. cbn.
    rewrite dict_lookup_insert_eq. cbn. rewrite Z.eqb_refl, bool_decide_true by done. cbn.
    split; [done|]. unfold InMemory.claim_dispatch. cbn. rewrite Ew, Em, Est, dict_lookup_insert_eq.
    cbn. by rewrite bool_decide_true, (proj2 (Z.ltb_lt _ _)) by done.
  - intros owner' lease' now' c' s2. unfold InMemory.claim_dispatch. cbn.
    rewrite Ew, Em, Est, dict_lookup_insert_eq. cbn. destruct (bool_decide _ && _); [done|].
    intros [= <- <-]. cbn. unfold dict_get_or. rewrite dict_lookup_insert_eq.
    unfold InMemory.release_dispatch, InMemory.mark_dispatched, InMemory._owns_dispatch. cbn.
    rewrite !dict_lookup_insert_eq. cbn. rewrite (proj2 (Z.eqb_neq _ _)) by lia. cbn.
    rewrite Z.eqb_refl, bool_decide_true by done. cbn. split_and!; [lia|done..].
Qed.
End operations.

(** ** Witnesses *)

Lemma expired_lease_is_reclaimed_witness :
  ∃ c s1, InMemory.claim_window "watch_1" "watch_1:1" "worker-c" (seconds 120) false (seconds 400)
            (demo_state demo_polls).1 = (MkClaimResult OWNED (Some c), s1).
Proof.
  destruct (expired_lease_is_reclaimed demo_sha demo_retention (demo_state demo_polls).1 "watch_1"
              demo_watch_1 (demo_runtime_1 <| rt_revision := 1 |>) "watch_1:1" "worker-c"
              (seconds 120) (seconds 400)) as (c & s1 & Hc & _).
  - apply demo_polls_store.
  - reflexivity.
  - reflexivity.
  - apply demo_polls_store.
  - reflexivity.
  - intros due [= <-]. vm_compute. discriminate.
  - intros h Hh. vm_compute in Hh. injection Hh as <-. vm_compute. discriminate.
  - exists c, s1. exact Hc.
Defined.

Lemma demo_good cs : all_allowed cs empty_store [] = true → good_store (demo_state cs).1.
Proof.
  intros Ha%demo_history. by apply (trace_inv (Hlaw := InMemory_lawful _ _)) in Ha as [? _].
Qed.

Lemma demo_finish_good : good_store (demo_state demo_finish).1.
Proof. apply demo_good. vm_compute. reflexivity. Qed.

Lemma demo_polls_good : good_store (demo_state demo_polls).1.
Proof. apply demo_good. vm_compute. reflexivity. Qed.

Lemma cleanup_due_spec_witness :
  let '(res, s') := InMemory.cleanup_due (days 8) 10 (demo_state demo_finish).1 in
  0 <= cu_removed res <= 10.
Proof.
  pose proof (cleanup_due_spec demo_sha (days 8) 10 (demo_state demo_finish).1 demo_finish_good
                ltac:(lia)) as H.
  destruct (InMemory.cleanup_due (days 8) 10 (demo_state demo_finish).1) as [res s'].
  exact (proj1 H).
Defined.

Lemma due_schedule_markers_spec_witness :
  Z.of_nat (length (InMemory.due_schedule_markers (seconds 250) (seconds 30) 5
                      (demo_state demo_polls).1)) <= 5.
Proof.
  apply (due_schedule_markers_spec (seconds 250) (seconds 30) 5 (demo_state demo_polls).1
           demo_polls_good). lia.
Defined.

Definition demo_marker : ScheduleMarker := MkMarker "watch_1" "watch_1:1" (seconds 270).

Lemma demo_dispatch :
  InMemory.claim_dispatch demo_marker "d" (seconds 30) (seconds 260) (demo_state demo_polls).1
  = (MkDispatchResult CLAIMED
       (Some (MkDispatchClaim "watch_1" "watch_1:1" (seconds 270) "d" 1 (seconds 290))),
     (InMemory.claim_dispatch demo_marker "d" (seconds 30) (seconds 260)
        (demo_state demo_polls).1).2).
Proof. vm_compute. reflexivity. Qed.

Lemma dispatch_single_flight_witness :
  seconds 260 + seconds 30 = seconds 290 ∧
  ∀ owner' lease' now', now' < seconds 260 + seconds 30 →
    InMemory.claim_dispatch demo_marker owner' lease' now'
      (InMemory.claim_dispatch demo_marker "d" (seconds 30) (seconds 260)
         (demo_state demo_polls).1).2
    = (MkDispatchResult DS_BUSY None,
       (InMemory.claim_dispatch demo_marker "d" (seconds 30) (seconds 260)
         (demo_state demo_polls).1).2).
Proof.
  split; [reflexivity|]. exact (proj1 (dispatch_single_flight _ _ _ _ _ _ _ demo_dispatch)).
Defined.
