(* ===== verification/Effects.v ===== *)
(** * The calls the services await

    One constructor per awaited call of the watch service, the dispatcher and
    the recovery coordinator: the clock, the random source, the repository, the
    provider adapter, the queue, the notifier, the history projection.  Every
    call may raise; the exceptions are those the code tells apart.

    [asyncio.timeout] and [asyncio.wait_for] make a call inside them raise
    [TimeoutError]; cancelling the task makes one raise [CancelledError], which
    is not an [Exception].  Both are answers of the call here. *)

From S2P Require Import Prelude Calendar Schemas Reservation Watch Prog.

Inductive exn :=
| AdapterError (message : string)
| SlotNotFoundError (message : string)
| SlotUnavailableError (message : string)
| TimeoutError
| CancelledError
| ValueError
| PastReservationDateError
| WatchOwnershipUnavailableError
| KeyError
| OtherError (name : string).

(** [except AdapterError] also catches its two subclasses. *)
Definition adapter_error (x : exn) : option string :=
  match x with
  | AdapterError m | SlotNotFoundError m | SlotUnavailableError m => Some m
  | _ => None
  end.

Definition slot_race (x : exn) : bool :=
  match x with SlotNotFoundError _ | SlotUnavailableError _ => true | _ => false end.

(** [except Exception]: everything but a cancellation. *)
Definition is_exception (x : exn) : bool :=
  match x with CancelledError => false | _ => true end.

Inductive WatchEvent := EV_AVAILABILITY_FOUND | EV_BOOKED | EV_EXPIRED.
#[export] Instance WatchEvent_eq_dec : EqDecision WatchEvent.
Proof. solve_decision. Defined.

Inductive ReconciliationStatus := RC_CONFIRMED | RC_DEFINITIVELY_ABSENT | RC_UNKNOWN.
#[export] Instance ReconciliationStatus_eq_dec : EqDecision ReconciliationStatus.
Proof. solve_decision. Defined.
Record ReconciliationResult := MkReconciliation {
  rr_status : ReconciliationStatus;
  rr_confirmation : option BookingConfirmation;
}.

Inductive call :=
| Now
| Uniform (jitter : Z)
| Uuid
(* the watch repository *)
| RepoGet (id : string)
| RepoGetRuntime (id : string)
| RepoListAll
| RepoListActive
| RepoSave (w : Watch)
| RepoCreate (w : Watch) (r : WatchRuntime)
| RepoClaim (id win owner : string) (lease : Z) (ignore_schedule : bool)
| RepoBegin (c : WindowClaim)
| RepoCommit (c : WindowClaim) (w : Watch) (r : WatchRuntime)
| RepoCancel (id : string)
| RepoExpire (id : string) (expected : option Z) (force : bool)
| RepoRelease (c : WindowClaim)
| RepoDueMarkers (now horizon limit : Z)
| RepoClaimDispatch (m : ScheduleMarker) (owner : string) (lease : Z)
| RepoMarkDispatched (c : DispatchClaim) (redispatch_after : Z)
| RepoReleaseDispatch (c : DispatchClaim)
| RepoCleanup (now batch : Z)
| RepoCandidates
| RepoPrune (id : string) (from_all : bool)
| RepoSynthesize (id : string) (r : WatchRuntime)
| RepoAcquireLeadership (owner : string) (lease : Z)
| RepoRenewLeadership (owner : string) (lease : Z)
| RepoReleaseLeadership (owner : string)
(* the provider *)
| ProviderSearch (q : AvailabilityQuery)
| ProviderGetBooking (key : string)
| ProviderBook (slot_id key : string)
| ProviderReconcile (key : string)
| MockCleanup (now batch : Z)
(* the queue, the notifier, the projection *)
| Enqueue (id : string) (win : option string) (delay : Z) (due : option Z) (task_id : option string)
| Notify (w : Watch) (e : WatchEvent)
| RecordHistory (w : Watch) (owner user : option string) (revision : Z).

Definition answer (c : call) : Type :=
  match c with
  | Now | Uniform _ => Z
  | Uuid => string
  | RepoGet _ => option Watch
  | RepoGetRuntime _ => option WatchRuntime
  | RepoListAll | RepoListActive => list Watch
  | RepoSave _ => Watch
  | RepoCreate _ _ => CreateResult
  | RepoClaim _ _ _ _ _ => ClaimResult
  | RepoBegin _ => BookingPermit
  | RepoCommit _ _ _ => CommitResult
  | RepoCancel _ | RepoExpire _ _ _ => TransitionResult
  | RepoRelease _ | RepoMarkDispatched _ _ | RepoReleaseDispatch _ | RepoSynthesize _ _
  | RepoAcquireLeadership _ _ | RepoRenewLeadership _ _ | RepoReleaseLeadership _ => bool
  | RepoDueMarkers _ _ _ => list ScheduleMarker
  | RepoClaimDispatch _ _ _ => DispatchResult
  | RepoCleanup _ _ => CleanupResult
  | RepoCandidates => list RecoveryCandidate
  | RepoPrune _ _ | MockCleanup _ _ | Enqueue _ _ _ _ _ | Notify _ _ | RecordHistory _ _ _ _ => ()
  | ProviderSearch _ => list AvailabilitySlot
  | ProviderGetBooking _ => option BookingConfirmation
  | ProviderBook _ _ => BookingConfirmation
  | ProviderReconcile _ => ReconciliationResult
  end.

Canonical Structure calls : sig := Sig call answer exn.

Abbreviation M := (prog calls).

(** [await c] *)
Definition await (c : call) : M (answer c) := perform (Σ := calls) c.

Definition raise {A} (x : exn) : M A := Raise x.

(** [x if x is not None else raise ValueError] *)
Definition or_value_error {A} (o : option A) : M A :=
  match o with Some a => Ret a | None => raise ValueError end.

(** [try: p  except Exception: log] *)
Definition best_effort (p : M ()) : M () :=
  try_except p (λ x, if is_exception x then Some (Ret ()) else None).

(** Validating constructors. *)
Definition make_watch (w : Watch) : M Watch :=
  if watch_ok w then Ret w else raise ValueError.
Definition make_runtime (r : WatchRuntime) : M WatchRuntime :=
  if runtime_ok r then Ret r else raise ValueError.
Definition make_poll_result (o : WatchPollOutcome) (w : option Watch) (retry : option Z)
    : M WatchPollResult :=
  let r := MkPollResult o w retry in
  if poll_result_ok r then Ret r else raise ValueError.

(** [ReservationAdapter.reconcile_booking], of a provider that does not say
    otherwise *)
Definition default_reconcile_booking (key : string) : M ReconciliationResult :=
  booking ← await (ProviderGetBooking key);
  match booking with
  | Some c => Ret (MkReconciliation RC_CONFIRMED (Some c))
  | None => Ret (MkReconciliation RC_UNKNOWN None)
  end.

(** ** Reasoning about a call *)

Section awaiting.
Context (Mo : monitor calls).

Lemma safe_await {A} σ c (f : answer c → M A) Q :
  mok Mo σ c →
  (∀ a, mrely Mo σ c (Ok a) → safe Mo (mnext Mo σ c (Ok a)) (f a) Q) →
  (∀ x, mrely Mo σ c (Exc x) → Q (Exc x) (mnext Mo σ c (Exc x))) →
  safe Mo σ (await c ≫= f) Q.
Proof. apply (safe_call_bind Mo σ c). Qed.

Lemma safe_await_last σ c Q :
  mok Mo σ c → (∀ r, mrely Mo σ c r → Q r (mnext Mo σ c r)) → safe Mo σ (await c) Q.
Proof. apply (safe_perform Mo σ c). Qed.

Lemma safe_result σ o w retry Q :
  poll_result_ok (MkPollResult o w retry) = true →
  Q (Ok (MkPollResult o w retry)) σ → safe Mo σ (make_poll_result o w retry) Q.
Proof. intros Hok HQ. unfold make_poll_result. rewrite Hok. exact HQ. Qed.

(** [try: await c  except Exception: pass], then [f]. *)
Lemma safe_best_effort {A} σ c (k : outcome exn (answer c) → M ()) (f : () → M A) Q :
  (∀ r, k r = match r with Ok _ => Ret () | Exc x => Raise x end) →
  mok Mo σ c →
  (∀ a, mrely Mo σ c (Ok a) → safe Mo (mnext Mo σ c (Ok a)) (f ()) Q) →
  (∀ x, mrely Mo σ c (Exc x) → is_exception x = true → safe Mo (mnext Mo σ c (Exc x)) (f ()) Q) →
  (∀ x, mrely Mo σ c (Exc x) → is_exception x = false → Q (Exc x) (mnext Mo σ c (Exc x))) →
  safe Mo σ (best_effort (Call (Σ := calls) c k) ≫= f) Q.
Proof.
  intros Hk Hok Ha Hx Hc. split; [done|]. intros r Hr. cbn. rewrite Hk.
  destruct r as [a|x]; cbn; [by apply Ha|].
  destruct (is_exception x) eqn:E; cbn; auto.
Qed.
End awaiting.

(** ** The run of a call *)

Lemma run_await {S A} (h : ∀ c, S → outcome exn (answer c) * S) c (f : answer c → M A) s :
  run (Σ := calls) h (await c ≫= f) s =
    match h c s with
    | (Ok a, s') => run (Σ := calls) h (f a) s'
    | (Exc x, s') => (Exc x, s')
    end.
Proof. cbn. by destruct (h c s) as [[a|x] s']. Qed.

Abbreviation call_event := (event calls).

Lemma runs_await_bind {A} c (f : answer c → M A) t out :
  runs (await c ≫= f) t out →
  (∃ a t', t = Ev (Σ := calls) c (Ok a) :: t' ∧ runs (f a) t' out) ∨
  (∃ x, t = [Ev (Σ := calls) c (Exc x)] ∧ out = Exc x).
Proof.
  intros ([a|x] & t' & -> & H)%(runs_call_inv (Σ := calls)); [left; by exists a, t'|right].
  apply (runs_raise_inv (Σ := calls)) in H as [-> ->]. by exists x.
Qed.

Lemma runs_await_attempt {A} c (f : outcome exn (answer c) → M A) t out :
  runs (attempt (await c) ≫= f) t out →
  ∃ r t', t = Ev (Σ := calls) c r :: t' ∧ runs (f r) t' out.
Proof.
  intros (r & t' & -> & H)%(runs_call_inv (Σ := calls)). exists r, t'. split; [done|].
  by destruct r.
Qed.

(** The default reconciliation is conservative: it confirms what the provider
    knows and never calls a booking absent. *)
Lemma default_reconciliation key t r :
  runs (default_reconcile_booking key) t (Ok r) →
  rr_status r ≠ RC_DEFINITIVELY_ABSENT ∧
  t = [Ev (Σ := calls) (ProviderGetBooking key) (Ok (rr_confirmation r))] ∧
  (rr_status r = RC_CONFIRMED ↔ rr_confirmation r ≠ None).
Proof.
  unfold default_reconcile_booking. intros [([c|] & t' & -> & H)|(x & _ & [=])]%runs_await_bind;
    apply (runs_ret_inv (Σ := calls)) in H as [-> [= ->]]; by split_and!.
Qed.
