(* ===== verification/WatchService.v ===== *)
(** * The watch service ([backend/services/watch_service.py])

    Every method is a program over the calls of [Effects].  The [async with
    asyncio.timeout] block of [_run_claimed] is the program
    [_provider_sequence]: any call inside may answer [TimeoutError]. The shield
    of [_commit_window] means that a [CancelledError] answered by the commit
    leaves the commit applied or refused, never half done. *)

From S2P Require Import Prelude Calendar Sorting Schemas Reservation Watch Policy Backoff Prog Effects.

Definition MAX_RECORDED_SLOTS : Z := 16.
Definition _POLL_LEASE_SECONDS : Z := seconds 120.
Definition _RECONCILE_ATTEMPTS : nat := 3.

(** What [__init__] stores. [sv_history] says whether a projection is wired. *)
Record WatchService := MkService {
  sv_schedule : PollSchedule;
  sv_max_attempts : Z;
  sv_backoff_max : Z;
  sv_reservation_timezone : option tzinfo;
  sv_clock_timezone : tzinfo;
  sv_history : bool;
}.

(** [__init__]: the backoff maximum is at least the poll interval. *)
Definition make_service (schedule : PollSchedule) (max_attempts backoff_max : Z)
    (timezone : option tzinfo) (clock_timezone : tzinfo) (history : bool) : WatchService :=
  MkService schedule max_attempts (Z.max backoff_max (ps_interval schedule)) timezone
    clock_timezone history.

Inductive Sequence :=
| SQ_MISS
| SQ_FOUND (slots : list AvailabilitySlot)
| SQ_BOOKED (c : option BookingConfirmation)
| SQ_BOOKED_REPLAY (c : option BookingConfirmation)
| SQ_CANCELLED
| SQ_NOOP.

(** [_EVENT_FOR.get(status)] and [_OUTCOME_FOR[status]] ([None] is [KeyError]) *)
Definition _EVENT_FOR (s : WatchStatus) : option WatchEvent :=
  match s with
  | FOUND => Some EV_AVAILABILITY_FOUND
  | BOOKED => Some EV_BOOKED
  | EXPIRED => Some EV_EXPIRED
  | _ => None
  end.
Definition _OUTCOME_FOR (s : WatchStatus) : option WatchPollOutcome :=
  match s with
  | FOUND => Some PO_FOUND
  | BOOKED => Some PO_BOOKED
  | EXPIRED => Some PO_EXPIRED
  | _ => None
  end.

Definition provider_failed : string := "The reservation provider failed".
Definition provider_timed_out : string := "The reservation provider timed out".

(** [str(exc)[:500] or "The reservation provider failed"] *)
Definition error_text (message : string) : string :=
  let s := of_chars (take 500 (chars message)) in
  if nonempty s then s else provider_failed.

Definition _idempotency_key (w : Watch) : string := "watch:" +:+ w_watch_id w.

(** ** Terminal watch builders *)

Definition _found_watch (w : Watch) (slots : list AvailabilitySlot) (now : Z) : Watch :=
  w <| w_status := FOUND |> <| w_found_slots := slice_to MAX_RECORDED_SLOTS slots |>
    <| w_next_check_at := None |> <| w_updated_at := now |>
    <| w_attempts := Z.min (w_attempts w + 1) (w_max_attempts w) |>
    <| w_last_checked_at := Some now |> <| w_last_error := None |>.

Definition _booked_watch (w : Watch) (now : Z) (c : BookingConfirmation) (attempted : bool)
    : Watch :=
  let b := w <| w_status := BOOKED |> <| w_found_slots := [bc_slot c] |>
             <| w_booking := Some c |> <| w_next_check_at := None |> <| w_updated_at := now |> in
  if attempted then
    b <| w_attempts := Z.min (w_attempts w + 1) (w_max_attempts w) |>
      <| w_last_checked_at := Some now |> <| w_last_error := None |>
  else b.

Definition _cancelled_watch (w : Watch) (now : Z) : Watch :=
  w <| w_status := CANCELLED |> <| w_next_check_at := None |> <| w_updated_at := now |>.

Definition _expired_watch (w : Watch) (now : Z) (attempted : bool) : Watch :=
  let e := w <| w_status := EXPIRED |> <| w_next_check_at := None |> <| w_updated_at := now |> in
  if attempted then e <| w_last_checked_at := Some now |> else e.

Section service.
Context (sv : WatchService).

(** ** Passive observers *)

Definition _record_history (w : Watch) (owner user : option string) (revision : Z) : M () :=
  if sv_history sv then best_effort (await (RecordHistory w owner user revision)) else Ret ().

Definition _notify (w : Watch) (e : WatchEvent) : M () := best_effort (await (Notify w e)).

Definition _dispatch (id : string) (win : option string) (delay due : Z) : M () :=
  best_effort (await (Enqueue id win delay (Some due) None)).

Definition _noop (w : option Watch) : M WatchPollResult :=
  match w with
  | None => make_poll_result PO_UNKNOWN_WATCH None None
  | Some w => make_poll_result PO_ALREADY_FINISHED (Some w) None
  end.

(** ** Creation *)

Definition _query_from (i : ReservationIntent) : M AvailabilityQuery :=
  or_value_error (query_from i).

Definition create (query : AvailabilityQuery) (auto_book : bool)
    (owner_client_id user_id : option string) : M Watch :=
  now ← await Now;
  let timezone := default (sv_clock_timezone sv) (sv_reservation_timezone sv) in
  d ← or_value_error (date_fromisoformat (q_date query));
  if toordinal d <? tz_date timezone now then raise PastReservationDateError else
  expires_at ← or_value_error (default_expiry query now timezone);
  policy ← or_value_error (derive (sv_schedule sv) now expires_at (sv_max_attempts sv));
  hex ← await Uuid;
  watch ← make_watch
    (MkWatch ("watch_" +:+ hex) ACTIVE query auto_book now now expires_at 0
       (ap_effective_attempts policy) None (Some now) [] None None);
  runtime ← make_runtime
    (initial_runtime watch (ap_required_attempts policy) (ap_supports_deadline policy) None);
  _ ← match user_id with
      | Some _ =>
          if negb (sv_history sv) then raise WatchOwnershipUnavailableError
          else try_except (await (RecordHistory watch owner_client_id user_id 0))
                 (λ x, if is_exception x then Some (raise WatchOwnershipUnavailableError)
                       else None)
      | None => Ret ()
      end;
  result ← await (RepoCreate watch runtime);
  let stored := default watch (cr_watch result) in
  _ ← match user_id with
      | None => _record_history stored owner_client_id None 0
      | Some _ => Ret ()
      end;
  _ ← _dispatch (w_watch_id stored) (rt_window_id runtime) 0 now;
  Ret stored.

Definition create_from_intent (i : ReservationIntent) (auto_book : bool)
    (owner_client_id user_id : option string) : M Watch :=
  if negb (is_ready i) then raise ValueError else
  query ← _query_from i;
  create query auto_book owner_client_id user_id.

Definition describe_policy (w : Watch) : option AvailabilityPolicy :=
  derive (sv_schedule sv) (w_created_at w) (w_expires_at w) (w_max_attempts w).

Definition get (id : string) : M (option Watch) := await (RepoGet id).

Definition list_watches (active_only : bool) : M (list Watch) :=
  if active_only then await RepoListActive else await RepoListAll.

Definition cancel (id : string) : M (option Watch) :=
  result ← await (RepoCancel id);
  match tr_status result with
  | TS_UNKNOWN => Ret None
  | st =>
      _ ← match st, tr_watch result with
          | APPLIED, Some w => _record_history w None None (tr_revision result)
          | _, _ => Ret ()
          end;
      Ret (tr_watch result)
  end.

Definition expire (id : string) : M TransitionResult :=
  result ← await (RepoExpire id None false);
  match tr_status result, tr_watch result with
  | APPLIED, Some w =>
      _ ← _record_history w None None (tr_revision result);
      _ ← match tr_event_id result with
          | Some _ => _notify w EV_EXPIRED
          | None => Ret ()
          end;
      Ret result
  | _, _ => Ret result
  end.

(** ** Committing *)

Definition _commit_window (c : WindowClaim) (w : Watch) (r : WatchRuntime) : M CommitResult :=
  result ← await (RepoCommit c w r);
  _ ← match cmr_status result with
      | COMMITTED =>
          _record_history (default w (cmr_watch result)) None None
            (rt_revision (cl_runtime c) + 1)
      | _ => Ret ()
      end;
  Ret result.

(** The runtime of a finished watch. *)
Definition terminal_runtime (c : WindowClaim) : WatchRuntime :=
  cl_runtime c <| rt_window_id := None |> <| rt_scheduled_for := None |>
    <| rt_phase := None |> <| rt_cancel_requested := false |> <| rt_consecutive_outages := 0 |>.

Definition _commit_terminal (c : WindowClaim) (new_watch : Watch) : M WatchPollResult :=
  result ← _commit_window c new_watch (terminal_runtime c);
  match cmr_status result with
  | COMMITTED =>
      let committed := default new_watch (cmr_watch result) in
      if bool_decide (w_status committed = CANCELLED) then
        make_poll_result PO_ALREADY_FINISHED (Some committed) None
      else
        _ ← match cmr_event_id result, _EVENT_FOR (w_status committed) with
            | Some _, Some e => _notify committed e
            | _, _ => Ret ()
            end;
        match _OUTCOME_FOR (w_status committed) with
        | Some o => make_poll_result o (Some committed) None
        | None => raise KeyError
        end
  | _ => w ← await (RepoGet (w_watch_id new_watch)); _noop w
  end.

(** The shared tail of a commit that schedules the next window. *)
Definition commit_successor (c : WindowClaim) (w : Watch) (successor : Watch)
    (successor_runtime : WatchRuntime) (delay scheduled : Z) : M WatchPollResult :=
  result ← _commit_window c successor successor_runtime;
  match cmr_status result with
  | COMMITTED =>
      let committed := default successor (cmr_watch result) in
      _ ← _dispatch (w_watch_id committed) (rt_window_id successor_runtime) delay scheduled;
      make_poll_result PO_NO_AVAILABILITY (Some committed) (Some delay)
  | _ => w' ← await (RepoGet (w_watch_id w)); _noop w'
  end.

(** The runtime of the next window. *)
Definition next_window (c : WindowClaim) (w : Watch) (scheduled outages : Z) : WatchRuntime :=
  let cadence := rt_cadence_sequence (cl_runtime c) + 1 in
  cl_runtime c <| rt_cadence_sequence := cadence |>
    <| rt_window_id := Some (window_id_for (w_watch_id w) cadence) |>
    <| rt_scheduled_for := Some scheduled |> <| rt_phase := None |>
    <| rt_cancel_requested := false |> <| rt_consecutive_outages := outages |>.

Definition _commit_outage (c : WindowClaim) (w : Watch) (now : Z) (error : string)
    : M WatchPollResult :=
  let interval := ps_interval (sv_schedule sv) in
  let outages := _saturating_outages interval (sv_backoff_max sv)
                   (rt_consecutive_outages (cl_runtime c) + 1) in
  offset ← await (Uniform (ps_jitter (sv_schedule sv)));
  match _outage_delay (sv_schedule sv) (sv_backoff_max sv) outages now (w_expires_at w) offset with
  | None => _commit_terminal c (_expired_watch w now false)
  | Some delay =>
      let scheduled := now + delay in
      let outage_watch :=
        w <| w_last_checked_at := Some now |> <| w_updated_at := now |>
          <| w_last_error := Some error |> <| w_next_check_at := Some scheduled |> in
      commit_successor c w outage_watch (next_window c w scheduled outages) delay scheduled
  end.

Definition _commit_miss (c : WindowClaim) (w : Watch) (now : Z) (error : option string)
    : M WatchPollResult :=
  let attempts := Z.min (w_attempts w + 1) (w_max_attempts w) in
  let attempted :=
    w <| w_attempts := attempts |> <| w_last_checked_at := Some now |>
      <| w_updated_at := now |> <| w_last_error := error |> in
  let remaining := w_expires_at w - now in
  offset ← await (Uniform (ps_jitter (sv_schedule sv)));
  let delay := Z.min (next_delay (sv_schedule sv) offset) remaining in
  if (w_max_attempts w <=? attempts) || (delay <? MIN_DELAY_SECONDS) then
    _commit_terminal c (_expired_watch attempted now true)
  else
    let scheduled := now + delay in
    commit_successor c w (attempted <| w_next_check_at := Some scheduled |>)
      (next_window c w scheduled 0) delay scheduled.

(** ** The provider sequence *)

Definition _cancel_requested (id : string) : M bool :=
  r ← await (RepoGetRuntime id);
  Ret (match r with Some r => rt_cancel_requested r | None => false end).

Definition _book (w : Watch) (slots : list AvailabilitySlot) : M (option BookingConfirmation) :=
  for_first slots (λ slot,
    try_except
      (c ← await (ProviderBook (sl_slot_id slot) (_idempotency_key w)); Ret (Some c))
      (λ x, if slot_race x then Some (Ret None) else None)).

Definition _resolve_ambiguous (w : Watch) (error : exn) : M Sequence :=
  r ← for_first (replicate _RECONCILE_ATTEMPTS ()) (λ _,
    outcome ← await (ProviderReconcile (_idempotency_key w));
    match rr_status outcome with
    | RC_CONFIRMED => Ret (Some (SQ_BOOKED (rr_confirmation outcome)))
    | RC_DEFINITIVELY_ABSENT =>
        requested ← _cancel_requested (w_watch_id w);
        if (requested : bool) then Ret (Some SQ_CANCELLED) else raise error
    | RC_UNKNOWN => Ret None
    end);
  match r with Some s => Ret s | None => raise error end.

Definition _auto_book_sequence (c : WindowClaim) (w : Watch) (slots : list AvailabilitySlot)
    : M Sequence :=
  permit ← await (RepoBegin c);
  match bp_status permit with
  | BP_CANCELLED => Ret SQ_CANCELLED
  | BP_FENCED => Ret SQ_NOOP
  | GRANTED =>
      outcome ← attempt (_book w slots);
      match outcome with
      | Exc x =>
          match adapter_error x with
          | Some _ => _resolve_ambiguous w x
          | None => raise x
          end
      | Ok (Some confirmation) => Ret (SQ_BOOKED (Some confirmation))
      | Ok None =>
          requested ← _cancel_requested (w_watch_id w);
          Ret (if (requested : bool) then SQ_CANCELLED else SQ_MISS)
      end
  end.

Definition _provider_sequence (c : WindowClaim) (w : Watch) : M Sequence :=
  existing ← (if w_auto_book w then await (ProviderGetBooking (_idempotency_key w)) else Ret None);
  match existing with
  | Some e => Ret (SQ_BOOKED_REPLAY (Some e))
  | None =>
      slots ← await (ProviderSearch (w_query w));
      match slots with
      | [] => Ret SQ_MISS
      | _ => if w_auto_book w then _auto_book_sequence c w slots else Ret (SQ_FOUND slots)
      end
  end.

(** ** Polling *)

Definition _commit_booked (c : WindowClaim) (w : Watch) (now : Z)
    (confirmation : option BookingConfirmation) (attempted : bool) : M WatchPollResult :=
  match confirmation with
  | Some b => _commit_terminal c (_booked_watch w now b attempted)
  | None => raise (OtherError "AttributeError")
  end.

Definition _run_claimed (c : WindowClaim) : M WatchPollResult :=
  now ← await Now;
  let w := cl_watch c in
  if (w_expires_at w <=? now) || (w_max_attempts w <=? w_attempts w) then
    _commit_terminal c (_expired_watch w now false)
  else
    outcome ← attempt (_provider_sequence c w);
    match outcome with
    | Exc TimeoutError => _commit_outage c w now provider_timed_out
    | Exc x =>
        if slot_race x then _commit_miss c w now None
        else match adapter_error x with
             | Some message => _commit_outage c w now (error_text message)
             | None => raise x
             end
    | Ok SQ_MISS => _commit_miss c w now None
    | Ok (SQ_FOUND slots) => _commit_terminal c (_found_watch w slots now)
    | Ok (SQ_BOOKED b) => _commit_booked c w now b true
    | Ok (SQ_BOOKED_REPLAY b) => _commit_booked c w now b false
    | Ok SQ_CANCELLED => _commit_terminal c (_cancelled_watch w now)
    | Ok SQ_NOOP =>
        _ ← await (RepoRelease c);
        w' ← await (RepoGet (w_watch_id w));
        _noop w'
    end.

Definition poll_window (id win : string) (owner_id : option string) (enforce_due : bool)
    : M WatchPollResult :=
  owner ← match owner_id with
          | Some o => if nonempty o then Ret o else await Uuid
          | None => await Uuid
          end;
  claim_result ← await (RepoClaim id win owner _POLL_LEASE_SECONDS (negb enforce_due));
  match clr_status claim_result with
  | UNKNOWN => make_poll_result PO_UNKNOWN_WATCH None None
  | OWNED =>
      match clr_claim claim_result with
      | Some c => _run_claimed c
      | None => raise (OtherError "AssertionError")
      end
  | _ => w ← await (RepoGet id); _noop w
  end.

(** ** The legacy path, for a record without a current window *)

Definition _search (w : Watch) : M (list AvailabilitySlot * option string) :=
  try_except
    (slots ← await (ProviderSearch (w_query w)); Ret (slots, None))
    (λ x, match adapter_error x with
          | Some message => Some (Ret ([], Some (error_text message)))
          | None => None
          end).

Definition _legacy_expire (w : Watch) (now : Z) : M WatchPollResult :=
  expired ← await (RepoSave (w <| w_status := EXPIRED |> <| w_next_check_at := None |>
                               <| w_updated_at := now |>));
  _ ← _record_history expired None None (-1);
  _ ← _notify expired EV_EXPIRED;
  make_poll_result PO_EXPIRED (Some expired) None.

Definition _legacy_reschedule (w : Watch) (now : Z) : M WatchPollResult :=
  let remaining := w_expires_at w - now in
  if remaining <=? 0 then _legacy_expire w now else
  offset ← await (Uniform (ps_jitter (sv_schedule sv)));
  let delay := Z.min (next_delay (sv_schedule sv) offset) remaining in
  pending ← await (RepoSave (w <| w_next_check_at := Some (now + delay) |>
                               <| w_updated_at := now |>));
  _ ← await (Enqueue (w_watch_id w) None delay None None);
  _ ← _record_history pending None None (-1);
  make_poll_result PO_NO_AVAILABILITY (Some pending) (Some delay).

Definition _legacy_retry_auto_book (w : Watch) (now : Z) (error : string) : M WatchPollResult :=
  let retrying := w <| w_last_error := Some error |> in
  if is_exhausted retrying now then _legacy_expire retrying now
  else _legacy_reschedule retrying now.

Definition legacy_booked (w : Watch) (now : Z) (b : BookingConfirmation) : M WatchPollResult :=
  booked ← await (RepoSave (w <| w_status := BOOKED |> <| w_found_slots := [bc_slot b] |>
                              <| w_booking := Some b |> <| w_next_check_at := None |>
                              <| w_updated_at := now |>));
  _ ← _record_history booked None None (-1);
  _ ← _notify booked EV_BOOKED;
  make_poll_result PO_BOOKED (Some booked) None.

Definition slots_disappeared : string := "Available slots disappeared before they could be booked".

Definition _legacy_fulfill (w : Watch) (slots : list AvailabilitySlot) (now : Z)
    : M WatchPollResult :=
  if w_auto_book w then
    outcome ← attempt (_book w slots);
    match outcome with
    | Exc x =>
        match adapter_error x with
        | Some message => _legacy_retry_auto_book w now (error_text message)
        | None => raise x
        end
    | Ok None => _legacy_retry_auto_book w now slots_disappeared
    | Ok (Some b) => legacy_booked w now b
    end
  else
    found ← await (RepoSave (w <| w_status := FOUND |>
                               <| w_found_slots := slice_to MAX_RECORDED_SLOTS slots |>
                               <| w_next_check_at := None |> <| w_updated_at := now |>));
    _ ← _record_history found None None (-1);
    _ ← _notify found EV_AVAILABILITY_FOUND;
    make_poll_result PO_FOUND (Some found) None.

Definition _legacy_replayed_booking (w : Watch) (now : Z) : M (option WatchPollResult) :=
  if negb (w_auto_book w) then Ret None else
  existing ← await (ProviderGetBooking (_idempotency_key w));
  match existing with
  | None => Ret None
  | Some b => r ← legacy_booked w now b; Ret (Some r)
  end.

Definition _legacy_poll_once (w : Watch) : M WatchPollResult :=
  now ← await Now;
  if is_exhausted w now then _legacy_expire w now else
  replayed ← _legacy_replayed_booking w now;
  match replayed with
  | Some r => Ret r
  | None =>
      '(slots, error) ← _search w;
      let attempted :=
        w <| w_attempts := Z.min (w_attempts w + 1) (w_max_attempts w) |>
          <| w_last_checked_at := Some now |> <| w_updated_at := now |>
          <| w_last_error := error |> in
      match slots with
      | _ :: _ => _legacy_fulfill attempted slots now
      | [] => if is_exhausted attempted now then _legacy_expire attempted now
              else _legacy_reschedule attempted now
      end
  end.

Definition poll_once (id : string) : M WatchPollResult :=
  runtime ← await (RepoGetRuntime id);
  match runtime ≫= rt_window_id with
  | Some win => poll_window id win None false
  | None =>
      watch ← await (RepoGet id);
      match watch with
      | None => make_poll_result PO_UNKNOWN_WATCH None None
      | Some w =>
          if watch_terminal w then make_poll_result PO_ALREADY_FINISHED (Some w) None
          else _legacy_poll_once w
      end
  end.
End service.
