(* ===== verification/WatchServiceTheorems.v ===== *)
(** * Creating watches

    What [WatchService.create] hands to the repository, and what it has done
    before, for every way its calls can answer. *)

From S2P Require Import Prelude Calendar Sorting Schemas Reservation Watch Policy Backoff Prog Effects.
From S2P Require Import WatchSpec WatchService.

Section create.
Context (sv : WatchService) (query : AvailabilityQuery) (auto_book : bool).
Context (owner_client_id user_id : option string).

(** The new watch and its sidecar, from the clock and the policy. *)
Definition new_watch (now : Z) (w : Watch) (r : WatchRuntime) : Prop :=
  let timezone := default (sv_clock_timezone sv) (sv_reservation_timezone sv) in
  w_query w = query ∧ w_auto_book w = auto_book ∧ w_status w = ACTIVE ∧ w_attempts w = 0 ∧
  w_created_at w = now ∧ w_next_check_at w = Some now ∧
  default_expiry query now timezone = Some (w_expires_at w) ∧
  (∃ d, date_fromisoformat (q_date query) = Some d ∧ tz_date timezone now <= toordinal d) ∧
  watch_ok w = true ∧ runtime_ok r = true ∧
  ∃ policy, derive (sv_schedule sv) now (w_expires_at w) (sv_max_attempts sv) = Some policy ∧
    w_max_attempts w = ap_effective_attempts policy ∧
    r = initial_runtime w (ap_required_attempts policy) (ap_supports_deadline policy) None.

(** Before the repository is written: the clock was read, the watch is well
    formed, and the ownership of an account watch is recorded. *)
Definition create_ok (t : list call_event) (o : call) : Prop :=
  match o with
  | RepoCreate w r =>
      (∃ now, new_watch now w r ∧ Ev (Σ := calls) Now (Ok now) ∈ t) ∧
      (∃ hex, w_watch_id w = "watch_" +:+ hex ∧ Ev (Σ := calls) Uuid (Ok hex) ∈ t) ∧
      (user_id ≠ None → Ev (Σ := calls) (RecordHistory w owner_client_id user_id 0) (Ok ()) ∈ t)
  | Enqueue id win _ due _ =>
      ∃ w r res, Ev (Σ := calls) (RepoCreate w r) (Ok res) ∈ t ∧
        id = w_watch_id (default w (cr_watch res)) ∧ win = rt_window_id r ∧ due = w_next_check_at w
  | _ => True
  end.

Definition created (t : list call_event) (w : Watch) : Prop :=
  ∃ w0 r res, Ev (Σ := calls) (RepoCreate w0 r) (Ok res) ∈ t ∧ w = default w0 (cr_watch res).

Definition no_create (t : list call_event) : Prop :=
  ∀ w r a, Ev (Σ := calls) (RepoCreate w r) a ∉ t.

Definition create_post (out : outcome exn Watch) (t : list call_event) : Prop :=
  match out with
  | Ok w => created t w
  | Exc (PastReservationDateError | WatchOwnershipUnavailableError | ValueError) =>
      no_create t ∨ ∃ c x, Ev (Σ := calls) c (Exc x) ∈ t ∧ out = Exc x
  | Exc x => ∃ c, Ev (Σ := calls) c (Exc x) ∈ t
  end.

#[local] Abbreviation safe_create := (safe (tracing (Σ := calls) create_ok)).

Lemma create_post_exc c x t :
  Ev (Σ := calls) c (Exc x) ∈ t → create_post (Exc x) t.
Proof. intros Hin. destruct x; cbn; eauto 10. Qed.

Lemma safe_or_value_error {A B} t (o : option A) (f : A → M B) Q :
  (∀ a, o = Some a → safe_create t (f a) Q) → Q (Exc ValueError) t →
  safe_create t (or_value_error o ≫= f) Q.
Proof. intros Hf Hq. destruct o; cbn; auto. Qed.

Lemma safe_make {A B} t (ok : A → bool) (a : A) (f : A → M B) Q :
  (ok a = true → safe_create t (f a) Q) → Q (Exc ValueError) t →
  safe_create t ((if ok a then Ret a else raise ValueError) ≫= f) Q.
Proof. intros Hf Hq. destruct (ok a); cbn; auto. Qed.

Lemma create_post_last t c x : create_post (Exc x) (t ++ [Ev (Σ := calls) c (Exc x)]).
Proof. apply (create_post_exc c). set_solver. Qed.

(** The part after the repository accepted the watch. *)
Lemma safe_after_create t w r res now :
  Ev (Σ := calls) (RepoCreate w r) (Ok res) ∈ t → w_next_check_at w = Some now →
  safe_create t
    (let stored := default w (cr_watch res) in
     _ ← match user_id with
         | None => _record_history sv stored owner_client_id None 0
         | Some _ => Ret ()
         end;
     _ ← _dispatch (w_watch_id stored) (rt_window_id r) 0 now;
     Ret stored) create_post.
Proof.
  intros Hin Hn. cbn zeta. set (stored := default w (cr_watch res)).
  assert (∀ t', Ev (Σ := calls) (RepoCreate w r) (Ok res) ∈ t' →
    safe_create t' (_ ← _dispatch (w_watch_id stored) (rt_window_id r) 0 now; Ret stored) create_post)
    as Hd.
  { intros t' Hin'.
    assert (∀ e, create_post (Ok stored) (t' ++ [e])) as Hpost
      by (intros e; exists w, r, res; split; [set_solver|done]).
    unfold _dispatch.
    apply (safe_best_effort _ _ (Enqueue (w_watch_id stored) (rt_window_id r) 0 (Some now) None)).
    - by intros [[]|].
    - by exists w, r, res.
    - intros a _. apply Hpost.
    - intros x _ _. apply Hpost.
    - intros x _ _. apply create_post_last. }
  destruct user_id; [by apply Hd|]. unfold _record_history. destruct (sv_history sv); [|by apply Hd].
  apply (safe_best_effort _ _ (RecordHistory stored owner_client_id None 0)); [by intros [[]|]|done|..].
  - intros a _. apply Hd. set_solver.
  - intros x _ _. apply Hd. set_solver.
  - intros x _ _. apply create_post_last.
Qed.

(** Nothing created yet. *)
Lemma no_create_snoc t c r :
  no_create t → (∀ w rt, c ≠ RepoCreate w rt) → no_create (t ++ [Ev (Σ := calls) c r]).
Proof.
  intros Ht Hc w rt a [Hin|Hin]%elem_of_app; [by eapply Ht|].
  apply list_elem_of_singleton in Hin. injection Hin as Heq _. by eapply Hc.
Qed.

Lemma safe_create_spec :
  safe_create [] (create sv query auto_book owner_client_id user_id) create_post.
Proof.
  unfold create.
  apply (safe_await (tracing create_ok) [] Now); [done| |intros x _; apply (create_post_last [])].
  intros now _. cbn [mnext tracing app].
  set (t := [Ev (Σ := calls) Now (Ok now)]).
  assert (no_create t) as Hno by (apply (no_create_snoc []); [intros ??? []%not_elem_of_nil|done]).
  apply safe_or_value_error; [|by left]. intros d Hd.
  destruct (Z.ltb_spec (toordinal d) (tz_date (default (sv_clock_timezone sv) (sv_reservation_timezone sv)) now))
    as [|Hdate]; [by left|].
  apply safe_or_value_error; [|by left]. intros expires He.
  apply safe_or_value_error; [|by left]. intros policy Hpol.
  apply (safe_await (tracing create_ok) _ Uuid); [done| |intros x _; apply create_post_last].
  intros hex _. cbn [mnext tracing].
  assert (no_create (t ++ [Ev (Σ := calls) Uuid (Ok hex)])) as Hno1 by by apply no_create_snoc.
  set (t1 := t ++ [Ev (Σ := calls) Uuid (Ok hex)]) in *.
  apply (safe_make _ watch_ok); [|by left]. intros Hw.
  apply (safe_make _ runtime_ok); [|by left]. intros Hr.
  match goal with |- context [RepoCreate ?w ?r] => set (w0 := w) in *; set (r0 := r) in * end.
  assert (new_watch now w0 r0) as Hnew.
  { unfold new_watch. subst w0 r0. cbn. split_and!; try done; eauto. }
  assert (∀ t2, (∀ e, e ∈ t1 → e ∈ t2) → no_create t2 →
    (user_id ≠ None → Ev (Σ := calls) (RecordHistory w0 owner_client_id user_id 0) (Ok ()) ∈ t2) →
    safe_create t2
      (result ← await (RepoCreate w0 r0);
       let stored := default w0 (cr_watch result) in
       _ ← match user_id with
           | None => _record_history sv stored owner_client_id None 0
           | Some _ => Ret ()
           end;
       _ ← _dispatch (w_watch_id stored) (rt_window_id r0) 0 now;
       Ret stored) create_post) as Hcreate.
  { intros t2 Hsub Hno2 Hown. apply (safe_await (tracing create_ok) _ (RepoCreate w0 r0)).
    - split; [exists now; split; [done|apply Hsub; subst t1 t; set_solver]|].
      split; [exists hex; split; [done|apply Hsub; subst t1; set_solver]|done].
    - intros res _. apply safe_after_create; [set_solver|done].
    - intros x _. apply create_post_last. }
  destruct user_id as [u|] eqn:Hu; [|by apply Hcreate].
  destruct (sv_history sv); [|by left].
  apply (safe_bind (tracing create_ok)), (safe_try (tracing create_ok)).
  apply (safe_await_last (tracing create_ok) _ (RecordHistory w0 owner_client_id (Some u) 0)); [done|].
  intros [[]|x] _; cbn [mnext tracing].
  - apply Hcreate; [set_solver|by apply no_create_snoc|set_solver].
  - destruct (is_exception x); [|apply create_post_last].
    left. by apply (no_create_snoc t1 (RecordHistory w0 owner_client_id (Some u) 0)).
Qed.
End create.

(** A new watch reaches the repository only well formed: its date
    is not in the past where the reservation happens, its deadline is the one
    of its query, its budget is the one the pacing policy derives, and its
    first window is due at once; an account watch only after its ownership was
    durably recorded. A poll is enqueued only for a watch the repository
    accepted, and a rejected request has created nothing. *)
Theorem create_spec sv query auto_book owner_client_id user_id t out
    (Hrun : runs (Σ := calls) (create sv query auto_book owner_client_id user_id) t out) :
  (∀ t1 o r t2, t = t1 ++ Ev (Σ := calls) o r :: t2 →
     create_ok sv query auto_book owner_client_id user_id t1 o) ∧
  create_post out t.
Proof. by eapply tracing_runs, Hrun; apply safe_create_spec. Qed.

(** ** A concrete creation: an account watch on July 1st for July 3rd. *)

Definition create_service : WatchService :=
  make_service (MkSchedule (seconds 60) (seconds 15)) 500 (minutes 15) None utc true.

Definition create_now : Z := days (toordinal (Date 2026 7 1) - epoch_ordinal).

Definition create_answer (o : call) : outcome exn (answer o) :=
  match o with
  | Now => Ok create_now
  | Uuid => Ok "0f3a"%string
  | RepoCreate w r => Ok (MkCreateResult CREATED (Some w) (Some r))
  | RecordHistory _ _ _ _ => Ok ()
  | Enqueue _ _ _ _ _ => Exc (OtherError "OperationalError")
  | _ => Exc (OtherError "infrastructure")
  end.

Definition create_record : list call_event * outcome exn Watch :=
  record (Σ := calls) (λ o (s : ()), (create_answer o, s))
    (create create_service example_query true (Some "client-1"%string) (Some "user-1"%string)) ().

(** The broker is down; the watch exists all the same. *)
Lemma create_record_outcome :
  match create_record.2 with
  | Ok w => w_watch_id w = "watch_0f3a"%string ∧ w_expires_at w = create_now + days 3 ∧
            w_max_attempts w = 500
  | Exc _ => False
  end ∧ length create_record.1 = 5%nat.
Proof. vm_compute. done. Qed.

Lemma create_spec_witness :
  length create_record.1 = 5%nat ∧
  ∀ t1 o r t2, create_record.1 = t1 ++ Ev (Σ := calls) o r :: t2 →
    create_ok create_service example_query true (Some "client-1"%string) (Some "user-1"%string) t1 o.
Proof.
  split; [apply create_record_outcome|].
  exact (proj1 (create_spec _ _ _ _ _ _ _ (record_runs (Σ := calls)
    (λ o (s : ()), (create_answer o, s))
    (create create_service example_query true (Some "client-1"%string) (Some "user-1"%string)) ()))).
Defined.
