(* ===== verification/PollProtocol.v ===== *)
(** * The polling protocol

    A monitor watches every call one poll makes, from the claim to the last
    notification.  [poll_stage] is what the poll may rely on and what it still
    may do; the transitions are driven by the answers, which are arbitrary up
    to [poll_rely].  [safe] (see [Prog]) makes every statement hold for every
    interleaving with the rest of the system. *)

From S2P Require Import Prelude Calendar Sorting Schemas Reservation Watch Policy Backoff Prog Effects.
From S2P Require Import WatchService.

Section protocol.
Context (sv : WatchService) (id win : string).

Inductive poll_stage :=
| Idle                                                    (* nothing claimed yet *)
| Owned (c : WindowClaim) (now : option Z) (slots : option (list AvailabilitySlot))
| Permitted (c : WindowClaim) (now : Z) (slots : list AvailabilitySlot)
| Ambiguous (c : WindowClaim) (now : Z)                   (* a booking call failed *)
| Reserved (c : WindowClaim) (now : Z) (b : BookingConfirmation)
| Closed (c : WindowClaim) (now : Z) (w : Watch) (r : WatchRuntime) (ev : option string)
    (announced : bool)                                    (* its commit was accepted *)
| Finished (seen : option Watch).                         (* it only looks the watch up *)

Definition poll_key : string := "watch:" +:+ id.

(** The instant a claimed poll works with. *)
Definition stage_now (σ : poll_stage) : option Z :=
  match σ with
  | Owned _ now _ => now
  | Permitted _ now _ | Ambiguous _ now | Reserved _ now _ | Closed _ now _ _ _ _ => Some now
  | Idle | Finished _ => None
  end.

(** The document and runtime a poll may commit. *)
Definition commit_ok (c : WindowClaim) (now : Z) (w : Watch) (r : WatchRuntime) : Prop :=
  let w0 := cl_watch c in
  w_watch_id w = id ∧ watch_ok w = true ∧
  w_query w = w_query w0 ∧ w_expires_at w = w_expires_at w0 ∧
  w_max_attempts w = w_max_attempts w0 ∧
  w_attempts w0 <= w_attempts w <= w_attempts w0 + 1 ∧
  rt_phase r = None ∧ rt_cancel_requested r = false ∧
  rt_required_attempts r = rt_required_attempts (cl_runtime c) ∧
  0 <= rt_consecutive_outages r ∧
  if watch_terminal w then rt_window_id r = None ∧ rt_scheduled_for r = None
  else
    rt_window_id r = Some (window_id_for id (rt_cadence_sequence (cl_runtime c) + 1)) ∧
    rt_cadence_sequence r = rt_cadence_sequence (cl_runtime c) + 1 ∧
    ∃ t, w_next_check_at w = Some t ∧ rt_scheduled_for r = Some t ∧
         now + seconds 1 <= t <= w_expires_at w.

Definition poll_ok (σ : poll_stage) (o : call) : Prop :=
  match o, σ with
  | Uuid, Idle => True
  | RepoClaim i w _ lease _, Idle => i = id ∧ w = win ∧ lease = _POLL_LEASE_SECONDS
  | Now, Owned _ None None => True
  | ProviderGetBooking k, Owned c (Some _) None => k = poll_key ∧ w_auto_book (cl_watch c) = true
  | ProviderSearch q, Owned c (Some _) None => q = w_query (cl_watch c)
  | RepoBegin c', Owned c (Some _) (Some l) =>
      c' = c ∧ l ≠ [] ∧ w_auto_book (cl_watch c) = true
  | RepoRelease c', Owned c (Some _) _ => c' = c
  | Uniform j, (Owned _ (Some _) _ | Permitted _ _ _ | Ambiguous _ _) =>
      j = ps_jitter (sv_schedule sv)
  | RepoCommit c' w r, (Owned c (Some now) _ | Permitted c now _ | Ambiguous c now) =>
      c' = c ∧ commit_ok c now w r ∧ w_status w ≠ BOOKED
  | RepoCommit c' w r, Reserved c now b =>
      c' = c ∧ commit_ok c now w r ∧ w_status w = BOOKED ∧ w_booking w = Some b
  | ProviderBook sid k, Permitted _ _ l => k = poll_key ∧ ∃ s, s ∈ l ∧ sl_slot_id s = sid
  | ProviderReconcile k, Ambiguous _ _ => k = poll_key
  | RepoGetRuntime i, (Permitted _ _ _ | Ambiguous _ _) => i = id
  | RecordHistory w' None None rev, Closed c _ w _ _ _ =>
      w' = w ∧ rev = rt_revision (cl_runtime c) + 1
  | Notify w' e, Closed _ _ w _ (Some _) false => w' = w ∧ _EVENT_FOR (w_status w) = Some e
  | Enqueue i wi _ due tid, Closed _ _ w r _ false =>
      i = id ∧ watch_terminal w = false ∧ wi = rt_window_id r ∧ due = w_next_check_at w ∧ tid = None
  | RepoGet i, Finished _ => i = id
  | _, _ => False
  end.

Definition poll_next (σ : poll_stage) (o : call) : outcome exn (answer o) → poll_stage :=
  match o with
  | RepoClaim _ _ _ _ _ => λ r,
      match r with
      | Ok a => match clr_claim a with Some c => Owned c None None | None => Finished None end
      | Exc _ => Finished None
      end
  | Now => λ r, match σ, r with
                | Owned c _ s, Ok t => Owned c (Some t) s
                | _, _ => σ
                end
  | ProviderGetBooking _ => λ r,
      match σ, r with Owned c (Some now) _, Ok (Some b) => Reserved c now b | _, _ => σ end
  | ProviderSearch _ => λ r,
      match σ, r with Owned c now _, Ok l => Owned c now (Some l) | _, _ => σ end
  | RepoBegin _ => λ r,
      match σ, r with
      | Owned c (Some now) (Some l), Ok p =>
          match bp_status p with GRANTED => Permitted c now l | _ => σ end
      | _, _ => σ
      end
  | ProviderBook _ _ => λ r,
      match σ, r with
      | Permitted c now _, Ok b => Reserved c now b
      | Permitted c now l, Exc x => if slot_race x then σ else Ambiguous c now
      | _, _ => σ
      end
  | ProviderReconcile _ => λ r,
      match σ, r with
      | Ambiguous c now, Ok a =>
          match rr_status a, rr_confirmation a with
          | RC_CONFIRMED, Some b => Reserved c now b
          | _, _ => σ
          end
      | _, _ => σ
      end
  | RepoCommit c w r => λ a,
      match a, stage_now σ with
      | Ok res, Some now => match cmr_status res with
                            | COMMITTED => Closed c now w r (cmr_event_id res) false
                            | _ => Finished None
                            end
      | _, _ => Finished None
      end
  | RepoRelease _ => λ _, Finished None
  | RepoGet _ => λ r, match σ, r with Finished _, Ok w => Finished w | _, _ => σ end
  | Notify _ _ | Enqueue _ _ _ _ _ => λ _,
      match σ with Closed c now w r ev _ => Closed c now w r ev true | _ => σ end
  | _ => λ _, σ
  end.

(** Failures of the infrastructure, as opposed to mistakes of the service. *)
Definition infra (x : exn) : Prop := x = CancelledError ∨ x = OtherError "infrastructure".

Definition claim_answer_ok (a : ClaimResult) : Prop :=
  match clr_status a with
  | OWNED => ∃ c, clr_claim a = Some c ∧ cl_watch_id c = id ∧
      watch_ok (cl_watch c) = true ∧ watch_terminal (cl_watch c) = false ∧
      0 <= rt_consecutive_outages (cl_runtime c)
  | _ => clr_claim a = None
  end.

(** What is assumed of the answers: a claim carries the watch it is for, a
    commit answers with the document it stored, a confirmed reconciliation
    carries its confirmation, jitter is within its bounds; provider calls fail
    with adapter errors or time out, every other call with [infra] failures. *)
Definition poll_rely (o : call) : outcome exn (answer o) → Prop :=
  match o with
  | RepoClaim _ _ _ _ _ => λ r, match r with Ok a => claim_answer_ok a | Exc x => infra x end
  | RepoCommit _ w _ => λ r, match r with
                             | Ok a => cmr_status a = COMMITTED →
                                       cmr_watch a = None ∨ cmr_watch a = Some w
                             | Exc x => infra x
                             end
  | ProviderReconcile _ => λ r,
      match r with
      | Ok a => rr_status a = RC_CONFIRMED → is_Some (rr_confirmation a)
      | Exc x => infra x ∨ x = TimeoutError ∨ is_Some (adapter_error x)
      end
  | ProviderGetBooking _ | ProviderSearch _ | ProviderBook _ _ => λ r,
      match r with Ok _ => True | Exc x => infra x ∨ x = TimeoutError ∨ is_Some (adapter_error x) end
  | RepoBegin _ | RepoGetRuntime _ => λ r,
      match r with Ok _ => True | Exc x => infra x ∨ x = TimeoutError end
  | _ => λ r, match r with Ok _ => True | Exc x => infra x end
  end.

Definition poll_monitor : monitor calls :=
  Monitor (Σ := calls) poll_stage poll_ok (λ _, poll_rely) poll_next.

(** What a poll has to report of the document it committed. *)
Definition report_of (st : WatchStatus) : WatchPollOutcome :=
  match st with
  | ACTIVE => PO_NO_AVAILABILITY
  | FOUND => PO_FOUND
  | BOOKED => PO_BOOKED
  | EXPIRED => PO_EXPIRED
  | CANCELLED => PO_ALREADY_FINISHED
  end.

(** A report of the accepted commit of [w], made at [now]: the outcome is that
    of the document, and a rescheduled one comes with the time to its next
    check. *)
Definition reports_commit (now : Z) (w : Watch) (res : WatchPollResult) : Prop :=
  po_watch res = Some w ∧ po_outcome res = report_of (w_status w) ∧
  match po_retry res with
  | Some d => w_status w = ACTIVE ∧ w_next_check_at w = Some (now + d)
  | None => w_status w ≠ ACTIVE
  end.

(** A report that nothing was done, with the document the poll looked up. *)
Definition reports_nothing (seen : option Watch) (res : WatchPollResult) : Prop :=
  po_watch res = seen ∧ po_retry res = None ∧
  po_outcome res = match seen with
                   | Some _ => PO_ALREADY_FINISHED
                   | None => PO_UNKNOWN_WATCH
                   end.

(** What a poll answers, against what it did. *)
Definition poll_post (r : outcome exn WatchPollResult) (σ : poll_stage) : Prop :=
  match r with
  | Exc x => infra x ∧ match σ with Reserved _ _ _ => False | _ => True end
  | Ok res =>
      poll_result_ok res = true ∧
      match σ with
      | Closed _ now w _ _ _ => reports_commit now w res
      | Finished seen => reports_nothing seen res
      | _ => False
      end
  end.

(** ** The service follows the protocol *)

Hypothesis Hmax : MIN_DELAY_SECONDS <= sv_backoff_max sv.

#[local] Abbreviation safe_poll := (safe poll_monitor).

Lemma infra_exception x : infra x → is_exception x = false ∨ x = OtherError "infrastructure".
Proof. intros [->| ->]; auto. Qed.

Lemma safe_record_history {A} c now w r ev b (f : () → M A) Q :
  safe_poll (Closed c now w r ev b) (f ()) Q →
  (∀ x, infra x → Q (Exc x) (Closed c now w r ev b)) →
  safe_poll (Closed c now w r ev b)
    (_record_history sv w None None (rt_revision (cl_runtime c) + 1) ≫= f) Q.
Proof.
  intros Hf Hx. unfold _record_history. destruct (sv_history sv); [|exact Hf].
  split; [by cbn; auto|]. intros [[]|x] Hr; cbn; [exact Hf|].
  destruct (is_exception x); cbn; [exact Hf|auto].
Qed.

Lemma safe_notify {A} c now w r ev e (f : () → M A) Q :
  _EVENT_FOR (w_status w) = Some e →
  safe_poll (Closed c now w r (Some ev) true) (f ()) Q →
  (∀ x, infra x → Q (Exc x) (Closed c now w r (Some ev) true)) →
  safe_poll (Closed c now w r (Some ev) false) (_notify w e ≫= f) Q.
Proof.
  intros He Hf Hx. split; [by cbn; auto|]. intros [[]|x] Hr; cbn; [exact Hf|].
  destruct (is_exception x); cbn; [exact Hf|auto].
Qed.

Lemma safe_dispatch {A} c now w r ev delay due (f : () → M A) Q :
  watch_terminal w = false → w_watch_id w = id → w_next_check_at w = Some due →
  safe_poll (Closed c now w r ev true) (f ()) Q →
  (∀ x, infra x → Q (Exc x) (Closed c now w r ev true)) →
  safe_poll (Closed c now w r ev false) (_dispatch (w_watch_id w) (rt_window_id r) delay due ≫= f) Q.
Proof.
  intros Hw Hid Hn Hf Hx. split; [by cbn; auto|]. intros [[]|x] Hr; cbn; [exact Hf|].
  destruct (is_exception x); cbn; [exact Hf|auto].
Qed.

Lemma safe_noop w : safe_poll (Finished w) (_noop w) poll_post.
Proof. by destruct w. Qed.

Lemma safe_get_noop i seen :
  i = id → safe_poll (Finished seen) (w ← await (RepoGet i); _noop w) poll_post.
Proof.
  intros Hi. apply safe_await; [done| |by intros].
  intros a _. apply safe_noop.
Qed.

(** One commit from stage [σ]. *)
Lemma safe_commit_window {A} σ c now w r (f : CommitResult → M A) Q :
  poll_ok σ (RepoCommit c w r) → stage_now σ = Some now →
  (∀ res, cmr_status res = COMMITTED → cmr_watch res = None ∨ cmr_watch res = Some w →
     safe_poll (Closed c now w r (cmr_event_id res) false) (f res) Q) →
  (∀ res, cmr_status res ≠ COMMITTED → safe_poll (Finished None) (f res) Q) →
  (∀ x σ', infra x → (∀ c' n b, σ' ≠ Reserved c' n b) → Q (Exc x) σ') →
  safe_poll σ (_commit_window sv c w r ≫= f) Q.
Proof.
  intros Hok Hnow Hc Hn Hx. apply safe_bind. unfold _commit_window.
  apply safe_await; [done| |intros x Hr; by apply Hx].
  intros res Hr. cbn in Hr. cbn [mnext poll_monitor poll_next]. rewrite Hnow.
  destruct (cmr_status res) eqn:E; cbn; try (apply Hn; congruence).
  specialize (Hr eq_refl).
  assert (default w (cmr_watch res) = w) as -> by (destruct Hr as [-> | ->]; done).
  apply safe_record_history; [apply Hc; auto|by intros; apply Hx].
Qed.

Lemma poll_post_terminal c now w r ev b o :
  watch_terminal w = true → _OUTCOME_FOR (w_status w) = Some o →
  poll_post (Ok (MkPollResult o (Some w) None)) (Closed c now w r ev b).
Proof.
  intros Ht Ho. unfold watch_terminal in Ht.
  destruct (w_status w) eqn:E; try done; injection Ho as <-; unfold poll_post, reports_commit; cbn; by rewrite E.
Qed.

Lemma safe_commit_terminal σ c now w :
  watch_terminal w = true → w_watch_id w = id →
  poll_ok σ (RepoCommit c w (terminal_runtime c)) → stage_now σ = Some now →
  safe_poll σ (_commit_terminal sv c w) poll_post.
Proof.
  intros Ht Hid Hok Hnow. unfold _commit_terminal. apply safe_commit_window with (now := now); [done..| | |].
  - intros res Hs Hw. rewrite Hs.
    assert (default w (cmr_watch res) = w) as -> by (destruct Hw as [-> | ->]; done).
    case_bool_decide as Hcan.
    { apply safe_result; [done|]. unfold poll_post, reports_commit. cbn. by rewrite Hcan. }
    assert (∃ e o, _EVENT_FOR (w_status w) = Some e ∧ _OUTCOME_FOR (w_status w) = Some o)
      as (e & o & He & Ho).
    { unfold watch_terminal in Ht. destruct (w_status w); eauto; done. }
    rewrite He, Ho.
    assert (poll_result_ok (MkPollResult o (Some w) None) = true) as Hres.
    { unfold watch_terminal in Ht. by destruct (w_status w); simplify_eq/=. }
    destruct (cmr_event_id res) as [ev|].
    + apply safe_notify; [done| |by intros x Hx].
      apply safe_result; [done|]. by apply poll_post_terminal.
    + apply safe_result; [done|]. by apply poll_post_terminal.
  - intros res Hs. destruct (cmr_status res); [done| | |];
      by apply safe_get_noop.
  - intros x σ' Hx Hnr. split; [done|]. destruct σ' as [| | | |c0 n0 b0| |]; try done. by apply (Hnr c0 n0 b0).
Qed.

(** *** Documents the service builds *)

(** A claim of this poll: its watch is valid, active and this one. *)
Definition claim_ok (c : WindowClaim) : Prop :=
  w_watch_id (cl_watch c) = id ∧ watch_ok (cl_watch c) = true ∧
  watch_terminal (cl_watch c) = false ∧ 0 <= rt_consecutive_outages (cl_runtime c).

(** The stages in which a poll holds its claim and has not reserved. *)
Inductive polling : poll_stage → WindowClaim → Z → Prop :=
| polling_owned c now l : polling (Owned c (Some now) l) c now
| polling_permitted c now l : polling (Permitted c now l) c now
| polling_ambiguous c now : polling (Ambiguous c now) c now.

Lemma polling_commit σ c now w r :
  polling σ c now → commit_ok c now w r → w_status w ≠ BOOKED → poll_ok σ (RepoCommit c w r).
Proof. by destruct 1; cbn. Qed.

Lemma polling_now σ c now : polling σ c now → stage_now σ = Some now.
Proof. by destruct 1. Qed.

Lemma polling_uniform σ c now : polling σ c now → poll_ok σ (Uniform (ps_jitter (sv_schedule sv))).
Proof. by destruct 1; cbn. Qed.

Lemma claim_active c : claim_ok c → w_status (cl_watch c) = ACTIVE.
Proof. intros (_ & _ & Ha & _). by apply watch_terminal_false. Qed.

Lemma error_text_ok m : len_ok 1 500 (error_text m) = true.
Proof.
  unfold error_text. destruct (nonempty _) eqn:E; [|done].
  unfold len_ok, in_range, strlen. apply andb_true_iff. rewrite !Z.leb_le. split.
  - destruct (of_chars _); [done|cbn; lia].
  - rewrite length_of_chars, length_take. lia.
Qed.

Ltac solve_commit_ok :=
  let Hc := fresh in
  intros Hc; destruct Hc as (? & Hw & ? & ?); pose proof Hw as Hw'; apply watch_ok_spec in Hw';
  destruct_and! Hw'; unfold commit_ok; cbn; split_and!; try done; try lia;
  try (apply watch_ok_spec; cbn; split_and!; try done; lia).

Lemma expired_commit_ok c now attempted :
  claim_ok c →
  commit_ok c now (_expired_watch (cl_watch c) now attempted) (terminal_runtime c).
Proof. destruct attempted; solve_commit_ok. Qed.

Lemma cancelled_commit_ok c now :
  claim_ok c → commit_ok c now (_cancelled_watch (cl_watch c) now) (terminal_runtime c).
Proof. solve_commit_ok. Qed.

Lemma booked_commit_ok c now b attempted :
  claim_ok c →
  commit_ok c now (_booked_watch (cl_watch c) now b attempted) (terminal_runtime c).
Proof. destruct attempted; solve_commit_ok. Qed.

Lemma found_commit_ok c now slots :
  slots ≠ [] → claim_ok c →
  commit_ok c now (_found_watch (cl_watch c) slots now) (terminal_runtime c).
Proof.
  intros Hs.
  assert (length (slice_to MAX_RECORDED_SLOTS slots) <= 32)%nat.
  { pose proof (slice_to_length MAX_RECORDED_SLOTS slots). unfold MAX_RECORDED_SLOTS in *. lia. }
  assert (slice_to MAX_RECORDED_SLOTS slots ≠ []) by by destruct slots.
  solve_commit_ok.
Qed.

(** The watch after one more availability check. *)
Definition attempted_watch (w : Watch) (now : Z) (error : option string) : Watch :=
  w <| w_attempts := Z.min (w_attempts w + 1) (w_max_attempts w) |>
    <| w_last_checked_at := Some now |> <| w_updated_at := now |> <| w_last_error := error |>.

Lemma miss_expired_commit_ok c now :
  claim_ok c →
  commit_ok c now (_expired_watch (attempted_watch (cl_watch c) now None) now true)
    (terminal_runtime c).
Proof. solve_commit_ok. Qed.

Lemma successor_commit_ok c now w t outages :
  claim_ok c → w_watch_id w = id → watch_ok w = true → watch_terminal w = false →
  w_query w = w_query (cl_watch c) → w_expires_at w = w_expires_at (cl_watch c) →
  w_max_attempts w = w_max_attempts (cl_watch c) →
  w_attempts (cl_watch c) <= w_attempts w <= w_attempts (cl_watch c) + 1 →
  w_next_check_at w = Some t → now + seconds 1 <= t <= w_expires_at w →
  0 <= outages →
  commit_ok c now w (next_window c (cl_watch c) t outages).
Proof.
  intros (Hid & _) ?? Ha ???? Hn ??. unfold commit_ok. rewrite Ha. cbn. rewrite Hid.
  split_and!; try done; try lia. exists t. split_and!; done || lia.
Qed.

(** *** Commits, from any stage that still polls *)

Lemma safe_terminal σ c now w :
  polling σ c now → watch_terminal w = true → w_status w ≠ BOOKED →
  commit_ok c now w (terminal_runtime c) →
  safe_poll σ (_commit_terminal sv c w) poll_post.
Proof.
  intros Hp Ht Hb Hok. eapply safe_commit_terminal; [done|apply Hok| |by eapply polling_now].
  by eapply polling_commit.
Qed.

Lemma safe_commit_successor σ c now w delay outages :
  polling σ c now → claim_ok c → 0 <= delay → w_status w = ACTIVE →
  w_next_check_at w = Some (now + delay) →
  commit_ok c now w (next_window c (cl_watch c) (now + delay) outages) →
  safe_poll σ
    (commit_successor sv c (cl_watch c) w (next_window c (cl_watch c) (now + delay) outages)
       delay (now + delay)) poll_post.
Proof.
  intros Hp Hc Hd Ha Hn Hok. unfold commit_successor. apply safe_commit_window with (now := now).
  - eapply polling_commit; [done..|congruence].
  - by eapply polling_now.
  - intros res Hs Hw. rewrite Hs.
    assert (default w (cmr_watch res) = w) as -> by (destruct Hw as [-> | ->]; done).
    apply safe_dispatch; [by apply watch_terminal_false|apply Hok|done| |by intros].
    apply safe_result.
    + unfold poll_result_ok. cbn. by rewrite (proj2 (Z.leb_le _ _)).
    + unfold poll_post, poll_result_ok, reports_commit. cbn. rewrite Ha.
      by rewrite (proj2 (Z.leb_le _ _)).
  - intros res Hs. destruct (cmr_status res); [done| | |];
      (apply safe_get_noop; apply Hc).
  - intros x σ' Hx Hnr. split; [done|]. destruct σ' as [| | | |c0 n0 b0| |]; try done. by apply (Hnr c0 n0 b0).
Qed.

Lemma safe_commit_outage σ c now error :
  polling σ c now → claim_ok c → len_ok 1 500 error = true →
  safe_poll σ (_commit_outage sv c (cl_watch c) now error) poll_post.
Proof.
  intros Hp Hc He. unfold _commit_outage. apply safe_await.
  - by eapply polling_uniform.
  - intros offset _. cbn [mnext poll_monitor poll_next].
    destruct (_outage_delay _ _ _ _ _ _) as [d|] eqn:Hd.
    + apply outage_delay_some in Hd; [|done]. apply safe_commit_successor; try done.
      * unfold MIN_DELAY_SECONDS, seconds in *. lia.
      * by apply claim_active.
      * destruct Hc as (Hid & Hw & Ha & Ho). pose proof Hw as Hw'.
        apply watch_ok_spec in Hw'. destruct_and! Hw'. unfold MIN_DELAY_SECONDS in *.
        apply successor_commit_ok; cbn; try done; try lia.
        2: apply saturating_outages_nonneg; lia.
        apply watch_ok_spec; cbn. split_and!; try done; try lia. unfold watch_terminal in *. cbn. congruence.
    + eapply safe_terminal; try done. by apply expired_commit_ok.
  - intros x Hx. split; [exact Hx|]. by destruct Hp.
Qed.

Lemma safe_commit_miss σ c now :
  polling σ c now → claim_ok c →
  safe_poll σ (_commit_miss sv c (cl_watch c) now None) poll_post.
Proof.
  intros Hp Hc. unfold _commit_miss. apply safe_await.
  - by eapply polling_uniform.
  - intros offset _. cbn [mnext poll_monitor poll_next].
    destruct (_ || _) eqn:E.
    + eapply safe_terminal; try done. by apply miss_expired_commit_ok.
    + apply orb_false_iff in E as [E1%Z.leb_gt E2%Z.ltb_ge].
      set (d := Z.min (next_delay (sv_schedule sv) offset) (w_expires_at (cl_watch c) - now)) in *.
      apply safe_commit_successor; try done.
      * unfold MIN_DELAY_SECONDS, seconds in *. lia.
      * by apply claim_active.
      * destruct Hc as (Hid & Hw & Ha & Ho). pose proof Hw as Hw'.
        apply watch_ok_spec in Hw'. destruct_and! Hw'. unfold MIN_DELAY_SECONDS in *.
        apply successor_commit_ok; cbn; try done; try lia.
        apply watch_ok_spec; cbn. split_and!; try done; try lia. unfold watch_terminal in *. cbn. congruence.
  - intros x Hx. split; [exact Hx|]. by destruct Hp.
Qed.

(** *** The provider sequence *)

Definition provider_failure (x : exn) : Prop :=
  infra x ∨ x = TimeoutError ∨ is_Some (adapter_error x).

Definition sequence_post (c : WindowClaim) (now : Z) (r : outcome exn Sequence) (σ : poll_stage)
    : Prop :=
  match r with
  | Ok (SQ_MISS | SQ_CANCELLED) => polling σ c now
  | Ok (SQ_FOUND l) => polling σ c now ∧ l ≠ []
  | Ok (SQ_BOOKED b | SQ_BOOKED_REPLAY b) => ∃ b', b = Some b' ∧ σ = Reserved c now b'
  | Ok SQ_NOOP => ∃ l, σ = Owned c (Some now) l
  | Exc x => polling σ c now ∧ provider_failure x
  end.

Lemma safe_book c now slots :
  claim_ok c →
  safe_poll (Permitted c now slots) (_book (cl_watch c) slots) (λ r σ,
    match r with
    | Ok (Some b) => σ = Reserved c now b
    | Ok None => σ = Permitted c now slots
    | Exc x => σ = Ambiguous c now ∧ provider_failure x
    end).
Proof.
  intros (Hid & _). unfold _book.
  apply safe_for_first with (I := λ σ, σ = Permitted c now slots); [done| |by intros σ ->].
  intros s σ Hs ->. apply safe_try. apply safe_await.
  - cbn. unfold _idempotency_key, poll_key. rewrite Hid. split; [done|]. by exists s.
  - intros b _. done.
  - intros x Hx. cbn in Hx |- *. destruct (slot_race x); cbn; [done|]. by split.
Qed.

Lemma safe_cancel_requested σ c now (f : bool → M Sequence) :
  (∀ l, σ ≠ Owned c (Some now) l) → polling σ c now →
  (∀ b, safe_poll σ (f b) (sequence_post c now)) →
  w_watch_id (cl_watch c) = id →
  safe_poll σ (_cancel_requested (w_watch_id (cl_watch c)) ≫= f) (sequence_post c now).
Proof.
  intros Hn Hp Hf Hid. apply safe_bind. unfold _cancel_requested. apply safe_await.
  - destruct Hp; cbn; [by destruct (Hn l)|done..].
  - intros r _. apply Hf.
  - intros x Hx. cbn in Hx |- *. split; [done|]. destruct Hx; unfold provider_failure; auto.
Qed.

Lemma safe_resolve_ambiguous c now x :
  claim_ok c → is_Some (adapter_error x) →
  safe_poll (Ambiguous c now) (_resolve_ambiguous (cl_watch c) x) (sequence_post c now).
Proof.
  intros (Hid & _) Hx. unfold _resolve_ambiguous. apply safe_bind.
  assert (provider_failure x) as Hpx by (right; by right).
  apply safe_for_first with (I := λ σ, σ = Ambiguous c now); [done| |].
  - intros [] σ _ ->. apply safe_await.
    + cbn. unfold _idempotency_key, poll_key. by rewrite Hid.
    + intros a Ha. cbn in Ha. cbn [mnext poll_monitor poll_next].
      destruct (rr_status a) eqn:Es.
      * destruct (Ha eq_refl) as [b Hb]. rewrite Hb. cbn. eauto.
      * apply safe_bind. unfold _cancel_requested. apply safe_await; cbn; [done| |].
        -- intros r _. destruct (match r with Some r0 => rt_cancel_requested r0 | None => false end);
             cbn; [constructor|]. split; [constructor|done].
        -- intros y Hy. split; [constructor|]. destruct Hy; unfold provider_failure; auto.
      * done.
    + intros y Hy. cbn in Hy |- *. split; [constructor|done].
  - intros σ ->. cbn. split; [constructor|done].
Qed.

Lemma safe_auto_book_sequence c now slots :
  claim_ok c → slots ≠ [] → w_auto_book (cl_watch c) = true →
  safe_poll (Owned c (Some now) (Some slots)) (_auto_book_sequence c (cl_watch c) slots)
    (sequence_post c now).
Proof.
  intros Hc Hs Hauto. unfold _auto_book_sequence. apply safe_await; [done| |].
  - intros p _. cbn [mnext poll_monitor poll_next]. destruct (bp_status p).
    + apply safe_attempt_bind. eapply safe_mono; [by apply safe_book|].
      intros [[b|]|x] σ' Hr; cbn in Hr.
      * subst σ'. cbn. eauto.
      * subst σ'. apply safe_cancel_requested; [done|constructor| |apply Hc].
        intros [|]; cbn; constructor.
      * destruct Hr as [-> Hx]. destruct (adapter_error x) as [m|] eqn:E.
        -- apply safe_resolve_ambiguous; [done|by rewrite E].
        -- cbn. split; [constructor|done].
    + cbn. constructor.
    + cbn. eauto.
  - intros x Hx. cbn in Hx |- *. split; [constructor|]. destruct Hx; unfold provider_failure; auto.
Qed.

Lemma safe_provider_sequence c now :
  claim_ok c →
  safe_poll (Owned c (Some now) None) (_provider_sequence c (cl_watch c)) (sequence_post c now).
Proof.
  intros Hc. unfold _provider_sequence.
  assert (safe_poll (Owned c (Some now) None)
    (slots ← await (ProviderSearch (w_query (cl_watch c)));
     match slots with
     | [] => Ret SQ_MISS
     | _ => if w_auto_book (cl_watch c) then _auto_book_sequence c (cl_watch c) slots
            else Ret (SQ_FOUND slots)
     end) (sequence_post c now)) as Hsearch.
  { apply safe_await; [done| |].
    - intros slots _. cbn [mnext poll_monitor poll_next]. destruct slots as [|s l]; [constructor|].
      destruct (w_auto_book (cl_watch c)) eqn:Ea; [by apply safe_auto_book_sequence|].
      split; [constructor|done].
    - intros x Hx. split; [constructor|exact Hx]. }
  destruct (w_auto_book (cl_watch c)) eqn:Ea; [|exact Hsearch].
  apply safe_await.
  - cbn. unfold _idempotency_key, poll_key. destruct Hc as [-> _]. done.
  - intros [b|] _; cbn [mnext poll_monitor poll_next]; [cbn; eauto|exact Hsearch].
  - intros x Hx. split; [constructor|exact Hx].
Qed.

(** *** The whole poll *)

Lemma safe_commit_booked c now b attempted :
  claim_ok c →
  safe_poll (Reserved c now b) (_commit_booked sv c (cl_watch c) now (Some b) attempted) poll_post.
Proof.
  intros Hc. apply safe_commit_terminal with (now := now); [by destruct attempted| | |done].
  - destruct attempted; apply Hc.
  - split; [done|]. split; [by apply booked_commit_ok|]. by destruct attempted.
Qed.

Lemma safe_run_claimed c :
  claim_ok c → safe_poll (Owned c None None) (_run_claimed sv c) poll_post.
Proof.
  intros Hc. unfold _run_claimed. apply safe_await; [done| |by intros].
  intros now _. cbn [mnext poll_monitor poll_next].
  destruct (_ || _).
  { eapply safe_terminal; [constructor|done|done|]. by apply expired_commit_ok. }
  apply safe_attempt_bind. eapply safe_mono; [by apply safe_provider_sequence|].
  intros [q|x] σ Hr.
  - destruct q as [|l|b|b| |]; cbn in Hr.
    + by apply safe_commit_miss with (now := now).
    + destruct Hr as [Hp Hl]. eapply safe_terminal; [done|done|done|]. by apply found_commit_ok.
    + destruct Hr as (b' & -> & ->). by apply safe_commit_booked.
    + destruct Hr as (b' & -> & ->). by apply safe_commit_booked.
    + eapply safe_terminal; [done|done|done|]. by apply cancelled_commit_ok.
    + destruct Hr as [l ->]. apply safe_await; [done| |by intros].
      intros b _. apply safe_get_noop, Hc.
  - destruct Hr as [Hp Hx].
    assert (safe_poll σ
      (if slot_race x then _commit_miss sv c (cl_watch c) now None
       else match adapter_error x with
            | Some message => _commit_outage sv c (cl_watch c) now (error_text message)
            | None => raise x
            end) poll_post ∨ x = TimeoutError) as Hcase.
    { destruct Hx as [Hi|[->|[m Hm]]]; [left|by right|left].
      - destruct Hi as [-> | ->]; (split; [unfold infra; by auto|by destruct Hp]).
      - destruct (slot_race x); [by apply safe_commit_miss with (now := now)|].
        rewrite Hm. apply safe_commit_outage; [done..|apply error_text_ok]. }
    destruct Hcase as [Hcase| ->]; [|by apply safe_commit_outage].
    destruct x; try exact Hcase. by apply safe_commit_outage.
Qed.

Lemma safe_poll_window owner enforce :
  safe_poll Idle (poll_window sv id win owner enforce) poll_post.
Proof.
  unfold poll_window. apply safe_bind.
  set (rest := λ o : string, claim_result ← await (RepoClaim id win o _POLL_LEASE_SECONDS (negb enforce));
    match clr_status claim_result with
    | UNKNOWN => make_poll_result PO_UNKNOWN_WATCH None None
    | OWNED => match clr_claim claim_result with
               | Some c => _run_claimed sv c
               | None => raise (OtherError "AssertionError")
               end
    | _ => w ← await (RepoGet id); _noop w
    end).
  assert (∀ o, safe_poll Idle (rest o) poll_post) as Hrest.
  { intros o. apply safe_await; [done| |by intros].
    intros a Ha. cbn in Ha. cbn [mnext poll_monitor poll_next].
    unfold claim_answer_ok in Ha. destruct (clr_status a); try rewrite Ha.
    - destruct Ha as (c & Hc & Hid & Hw & Hact & Ho). rewrite Hc.
      apply safe_run_claimed. by split_and!.
    - by apply safe_get_noop.
    - by apply safe_get_noop.
    - by apply safe_get_noop.
    - by apply safe_get_noop.
    - by apply safe_result. }
  assert (safe_poll Idle (await Uuid) (λ r σ',
    match r with Ok o => safe_poll σ' (rest o) poll_post | Exc x => poll_post (Exc x) σ' end)) as Hu.
  { apply safe_await_last; [done|]. intros [o|x] Hr; [apply Hrest|by split]. }
  destruct owner as [o|]; [destruct (nonempty o); [apply Hrest|exact Hu]|exact Hu].
Qed.
End protocol.
