(* ===== verification/PollTheorems.v ===== *)
(** * What one poll does

    Consequences of the polling protocol, stated on runs: the sequence of calls
    one [poll_window] makes with the answers it gets.  Between any two calls
    the rest of the system may do anything, so nothing is assumed of the
    answers but [poll_rely]. *)

From S2P Require Import Prelude Calendar Sorting Schemas Reservation Watch Policy Backoff Prog Effects.
From S2P Require Import WatchService PollProtocol.

(** ** Reading a run *)

Definition ev_claim (e : event calls) : option WindowClaim :=
  match e with
  | Ev o r =>
      match o return outcome exn (answer o) → _ with
      | RepoClaim _ _ _ _ _ => λ r, match r with Ok a => clr_claim a | _ => None end
      | _ => λ _, None
      end r
  end.

(** The claim for which a booking permit was granted. *)
Definition ev_permit (e : event calls) : option WindowClaim :=
  match e with
  | Ev o r =>
      match o return outcome exn (answer o) → _ with
      | RepoBegin c => λ r, match r with
                            | Ok a => match bp_status a with GRANTED => Some c | _ => None end
                            | _ => None
                            end
      | _ => λ _, None
      end r
  end.

(** The slot and idempotency key of an irreversible booking call. *)
Definition ev_book (e : event calls) : option (string * string) :=
  match e with Ev (ProviderBook sid k) _ => Some (sid, k) | _ => None end.

(** A confirmation the provider gave: booked now, booked by an earlier
    delivery, or reconciled. *)
Definition ev_reserved (e : event calls) : option BookingConfirmation :=
  match e with
  | Ev o r =>
      match o return outcome exn (answer o) → _ with
      | ProviderBook _ _ => λ r, match r with Ok b => Some b | _ => None end
      | ProviderGetBooking _ => λ r, match r with Ok b => b | _ => None end
      | ProviderReconcile _ => λ r,
          match r with
          | Ok a => match rr_status a with RC_CONFIRMED => rr_confirmation a | _ => None end
          | _ => None
          end
      | _ => λ _, None
      end r
  end.

Definition ev_search (e : event calls) : option (list AvailabilitySlot) :=
  match e with
  | Ev o r =>
      match o return outcome exn (answer o) → option (list AvailabilitySlot) with
      | ProviderSearch _ => λ r, match r with Ok l => Some l | _ => None end
      | _ => λ _, None
      end r
  end.

Definition ev_commit (e : event calls) : option (WindowClaim * Watch * WatchRuntime) :=
  match e with Ev (RepoCommit c w r) _ => Some (c, w, r) | _ => None end.

Definition ev_committed (e : event calls) : option (Watch * option string) :=
  match e with
  | Ev o r =>
      match o return outcome exn (answer o) → _ with
      | RepoCommit _ w _ => λ r,
          match r with
          | Ok a => match cmr_status a with COMMITTED => Some (w, cmr_event_id a) | _ => None end
          | _ => None
          end
      | _ => λ _, None
      end r
  end.

(** A reading of the clock. *)
Definition ev_now (e : event calls) : option Z :=
  match e with
  | Ev o r =>
      match o return outcome exn (answer o) → option Z with
      | Now => λ r, match r with Ok t => Some t | _ => None end
      | _ => λ _, None
      end r
  end.

(** The document a look-up returned. *)
Definition ev_seen (e : event calls) : option Watch :=
  match e with
  | Ev o r =>
      match o return outcome exn (answer o) → option Watch with
      | RepoGet _ => λ r, match r with Ok w => w | _ => None end
      | _ => λ _, None
      end r
  end.

(** A notification or a queue publication. *)
Definition ev_announce (e : event calls) : option (Watch * WatchEvent + option string * option Z) :=
  match e with
  | Ev (Notify w v) _ => Some (inl (w, v))
  | Ev (Enqueue _ win _ due _) _ => Some (inr (win, due))
  | _ => None
  end.

Section poll.
Context (sv : WatchService) (id win : string).

#[local] Abbreviation monitor := (poll_monitor sv id win).

(** A complete run of one poll, every answer as [poll_rely] allows. *)
Definition poll_run (owner : option string) (enforce : bool) (t : list (event calls))
    (out : outcome exn WatchPollResult) : Prop :=
  runs (poll_window sv id win owner enforce) t out ∧ relied monitor Idle t.

(** How often a run did something, and whether it did it with [x]. *)
Definition count {A} (f : event calls → option A) (t : list (event calls)) : nat :=
  length (omap f t).

Definition some_in {A} (f : event calls → option A) (t : list (event calls)) (x : A) : Prop :=
  ∃ e, e ∈ t ∧ f e = Some x.

(** The readings of the clock in a run that has not given up. *)
Definition read (t : list (event calls)) (now : option Z) : Prop :=
  omap ev_now t = match now with Some n => [n] | None => [] end.

(** What a stage remembers of the run. *)
Definition stage_inv (t : list (event calls)) (σ : poll_stage) : Prop :=
  match σ with
  | Idle =>
      read t None ∧
      count ev_reserved t = 0%nat ∧ count ev_commit t = 0%nat ∧ count ev_announce t = 0%nat
  | Owned c now slots =>
      some_in ev_claim t c ∧ read t now ∧
      match slots with Some l => some_in ev_search t l | None => True end ∧
      count ev_reserved t = 0%nat ∧ count ev_commit t = 0%nat ∧ count ev_announce t = 0%nat
  | Permitted c now l =>
      some_in ev_claim t c ∧ some_in ev_permit t c ∧ some_in ev_search t l ∧ read t (Some now) ∧
      count ev_reserved t = 0%nat ∧ count ev_commit t = 0%nat ∧ count ev_announce t = 0%nat
  | Ambiguous c now =>
      some_in ev_claim t c ∧ some_in ev_permit t c ∧ read t (Some now) ∧
      count ev_reserved t = 0%nat ∧ count ev_commit t = 0%nat ∧ count ev_announce t = 0%nat
  | Reserved c now b =>
      some_in ev_claim t c ∧ some_in ev_reserved t b ∧ read t (Some now) ∧
      count ev_reserved t = 1%nat ∧ count ev_commit t = 0%nat ∧ count ev_announce t = 0%nat
  | Closed c now w r ev ann =>
      some_in ev_committed t (w, ev) ∧ read t (Some now) ∧ (count ev_reserved t <= 1)%nat ∧
      count ev_commit t = 1%nat ∧ count ev_announce t = Nat.b2n ann
  | Finished seen =>
      match seen with Some w => some_in ev_seen t w | None => True end ∧
      count ev_committed t = 0%nat ∧
      (count ev_reserved t <= count ev_commit t <= 1)%nat ∧ count ev_announce t = 0%nat
  end.

Lemma count_snoc {A} (f : event calls → option A) t e :
  count f (t ++ [e]) = (count f t + match f e with Some _ => 1 | None => 0 end)%nat.
Proof. unfold count. rewrite omap_app, length_app. cbn. by destruct (f e). Qed.

Lemma committed_commit t : (count ev_committed t <= count ev_commit t)%nat.
Proof.
  unfold count. induction t as [|[o r] t IH]; [done|].
  destruct o; try exact IH. destruct r as [a|x]; cbn; [destruct (cmr_status a); cbn|]; lia.
Qed.

Lemma read_snoc t now e :
  read t now → ev_now e = None → read (t ++ [e]) now.
Proof. unfold read. intros Hr He. rewrite omap_app, Hr. cbn. by rewrite He, app_nil_r. Qed.

Lemma read_first t n :
  read t None → read (t ++ [Ev Now (Ok n)]) (Some n).
Proof. unfold read. intros Hr. by rewrite omap_app, Hr. Qed.

Lemma some_in_snoc {A} (f : event calls → option A) t e x :
  some_in f t x → some_in f (t ++ [e]) x.
Proof. intros (e' & Hin & He). exists e'. set_solver. Qed.

Lemma some_in_here {A} (f : event calls → option A) t e x :
  f e = Some x → some_in f (t ++ [e]) x.
Proof. intros He. exists e. set_solver. Qed.

Ltac solve_stage :=
  match goal with
  | |- match ?seen with Some _ => _ | None => True end => destruct seen; [solve_stage|exact I]
  | |- some_in _ _ _ =>
      first [by apply some_in_snoc | apply some_in_here; cbn; repeat case_match; congruence]
  | |- read _ _ => first [by apply read_snoc | by apply read_first]
  | |- context [count _ (?t ++ _)] =>
      pose proof (committed_commit t);
      rewrite ?count_snoc; cbn; repeat case_match; simplify_eq; lia
  end.

Lemma stage_inv_step t σ o r :
  stage_inv t σ → poll_ok sv id win σ o → stage_inv (t ++ [Ev o r]) (poll_next σ o r).
Proof.
  intros Hi Hok. destruct o, σ; try done; cbn in Hok, Hi |- *;
    repeat match goal with
      | H : context [match ?x with _ => _ end] |- _ => destruct x; try done
      | |- context [match ?x with _ => _ end] => destruct x eqn:?; try done
      end; cbn in *; destruct_and?; simplify_eq; split_and?; first [exact I|solve_stage].
Qed.

Lemma stage_inv_run t1 t2 σ :
  stage_inv t1 σ → accepted monitor σ t2 →
  stage_inv (t1 ++ t2) (fold_left (mstep monitor) t2 σ).
Proof.
  revert t1 σ. induction t2 as [|[o r] t2 IH]; intros t1 σ Hi Ha; cbn in *.
  - by rewrite app_nil_r.
  - destruct Ha as [Hok Ha]. rewrite cons_middle, (assoc_L app). apply IH; [|done].
    by apply stage_inv_step.
Qed.

(** The stage in the middle of a run, and what it remembers. *)
Lemma poll_run_at owner enforce t1 o r t2 out :
  MIN_DELAY_SECONDS <= sv_backoff_max sv →
  poll_run owner enforce (t1 ++ Ev o r :: t2) out →
  ∃ σ, stage_inv t1 σ ∧ poll_ok sv id win σ o ∧ accepted monitor (poll_next σ o r) t2 ∧
       poll_post out (fold_left (mstep monitor) t2 (poll_next σ o r)).
Proof.
  intros Hmax [Hrun Hrel].
  destruct (safe_runs _ _ _ _ _ _ (safe_poll_window sv id win Hmax owner enforce) Hrun Hrel)
    as [Hacc Hpost].
  apply accepted_app in Hacc as [H1 H2]. rewrite fold_left_app in Hpost.
  eexists. split; [|split; [apply H2|split; [apply H2|exact Hpost]]].
  apply (stage_inv_run [] t1 Idle); [done|done].
Qed.

Lemma poll_run_end owner enforce t out :
  MIN_DELAY_SECONDS <= sv_backoff_max sv →
  poll_run owner enforce t out →
  ∃ σ, stage_inv t σ ∧ poll_post out σ.
Proof.
  intros Hmax [Hrun Hrel].
  destruct (safe_runs _ _ _ _ _ _ (safe_poll_window sv id win Hmax owner enforce) Hrun Hrel)
    as [Hacc Hpost].
  eexists. split; [|exact Hpost].
  apply (stage_inv_run [] t Idle); [done|done].
Qed.

(** A provider that confirmed is followed by the commit of that confirmation. *)
Lemma reserved_next σ t out :
  (∃ c now b, σ = Reserved c now b) → accepted monitor σ t →
  poll_post out (fold_left (mstep monitor) t σ) →
  ∃ c w r a t', t = Ev (RepoCommit c w r) a :: t' ∧ w_status w = BOOKED ∧
    ∀ c' now b, σ = Reserved c' now b → w_booking w = Some b.
Proof.
  intros (c & now & b & ->) Hacc Hpost. destruct t as [|[o a] t]; cbn in *.
  - by destruct out; destruct Hpost.
  - destruct Hacc as [Hok _]. destruct o; try done; [|by destruct owner, user].
    destruct Hok as (_ & _ & Hb & Hbk).
    do 5 eexists. split; [done|]. split; [done|]. by intros ??? [= <- <- <-].
Qed.
End poll.

(** ** A run

    An auto-booking watch finds a slot, gets its permit and books it. *)

Definition example_service : WatchService :=
  make_service (MkSchedule (seconds 60) (seconds 15)) 500 (minutes 15) None utc true.
Definition example_slot : AvailabilitySlot :=
  MkSlot "slot_1" "mock" "Aurora" RESTAURANT "2026-03-09" "19:00" None 2 4.
Definition example_booking : BookingConfirmation :=
  MkConfirmation "booking_1" "mock" MOCK_CONFIRMED example_slot (seconds 91).
Definition example_claim : WindowClaim :=
  let w := example_watch <| w_auto_book := true |> in
  MkClaim w (initial_runtime w 10 true None) "worker-a" "watch_1:0" 1 (seconds 210).

Definition example_answer (o : call) : outcome exn (answer o) :=
  match o with
  | Now => Ok (seconds 90)
  | RepoClaim _ _ _ _ _ => Ok (MkClaimResult OWNED (Some example_claim))
  | ProviderGetBooking _ => Ok None
  | ProviderSearch _ => Ok [example_slot]
  | RepoBegin _ => Ok (MkPermit GRANTED (Some "watch_1:1"%string))
  | ProviderBook _ _ => Ok example_booking
  | RepoCommit _ w _ => Ok (MkCommitResult COMMITTED (Some w) (Some "event_1"%string))
  | RecordHistory _ _ _ _ | Notify _ _ => Ok ()
  | _ => Exc (OtherError "infrastructure")
  end.

Definition example_record :=
  record (λ o (s : ()), (example_answer o, s))
    (poll_window example_service "watch_1" "watch_1:0" (Some "worker-a"%string) true) ().
Definition example_trace : list (event calls) := example_record.1.
Definition example_commit : Watch := _booked_watch (cl_watch example_claim) (seconds 90) example_booking true.

Lemma example_outcome :
  example_record.2 = Ok (MkPollResult PO_BOOKED (Some example_commit) None).
Proof. vm_compute. reflexivity. Qed.

Lemma example_calls :
  example_trace =
    take 5 example_trace ++
    [Ev (ProviderBook "slot_1" "watch:watch_1") (Ok example_booking);
     Ev (RepoCommit example_claim example_commit (terminal_runtime example_claim))
        (Ok (MkCommitResult COMMITTED (Some example_commit) (Some "event_1"%string)))] ++
    drop 7 example_trace.
Proof. vm_compute. reflexivity. Qed.

Lemma example_commit_call :
  example_trace =
    (take 5 example_trace ++ [Ev (ProviderBook "slot_1" "watch:watch_1") (Ok example_booking)]) ++
    Ev (RepoCommit example_claim example_commit (terminal_runtime example_claim))
       (Ok (MkCommitResult COMMITTED (Some example_commit) (Some "event_1"%string))) ::
    drop 7 example_trace.
Proof. vm_compute. reflexivity. Qed.

Lemma example_poll_run :
  poll_run example_service "watch_1" "watch_1:0" (Some "worker-a"%string) true
    example_trace (Ok (MkPollResult PO_BOOKED (Some example_commit) None)).
Proof.
  split.
  { exact (eq_ind example_record.2 (λ o, runs _ example_trace o) (record_runs _ _ _) _
             example_outcome). }
  vm_compute. split_and!; try done; [|by right]. eexists. split_and!; done.
Qed.

(** The same watch when the search finds nothing: it is rescheduled. *)
Definition missed_answer (o : call) : outcome exn (answer o) :=
  match o with
  | ProviderSearch _ => Ok []
  | Uniform _ => Ok 0
  | Enqueue _ _ _ _ _ => Ok ()
  | o => example_answer o
  end.

Definition missed_record :=
  record (λ o (s : ()), (missed_answer o, s))
    (poll_window example_service "watch_1" "watch_1:0" (Some "worker-a"%string) true) ().
Definition missed_trace : list (event calls) := missed_record.1.
Definition missed_watch : Watch :=
  attempted_watch (cl_watch example_claim) (seconds 90) None
    <| w_next_check_at := Some (seconds 150) |>.
Definition missed_runtime : WatchRuntime :=
  next_window example_claim (cl_watch example_claim) (seconds 150) 0.

Lemma missed_commit_call :
  missed_trace =
    take 5 missed_trace ++
    Ev (RepoCommit example_claim missed_watch missed_runtime)
       (Ok (MkCommitResult COMMITTED (Some missed_watch) (Some "event_1"%string))) ::
    drop 6 missed_trace.
Proof. vm_compute. reflexivity. Qed.

Lemma missed_poll_run :
  poll_run example_service "watch_1" "watch_1:0" (Some "worker-a"%string) true
    missed_trace missed_record.2.
Proof.
  split; [apply record_runs|].
  vm_compute. split_and!; try done; [|by right]. eexists. split_and!; done.
Qed.

Lemma example_max : MIN_DELAY_SECONDS <= sv_backoff_max example_service.
Proof. by vm_compute. Qed.

(** ** Properties of a poll *)

(** C1 (permission). A poll makes the irreversible provider call only for a slot that its own
    search returned, on an auto-booking watch it has claimed, after the
    repository granted it a booking permit on that very claim, always with the
    idempotency key of the watch, and never once the provider has confirmed
    or a commit was attempted: whatever the other workers and the user do
    between its calls. *)
Theorem booking_is_permitted sv id win owner enforce t1 slot_id key r t2 out
    (Hmax : MIN_DELAY_SECONDS <= sv_backoff_max sv)
    (Hrun : poll_run sv id win owner enforce (t1 ++ Ev (ProviderBook slot_id key) r :: t2) out) :
  key = "watch:" +:+ id ∧
  (∃ c, some_in ev_claim t1 c ∧ some_in ev_permit t1 c) ∧
  (∃ slots s, some_in ev_search t1 slots ∧ s ∈ slots ∧ sl_slot_id s = slot_id) ∧
  count ev_reserved t1 = 0%nat ∧ count ev_commit t1 = 0%nat.
Proof.
  destruct (poll_run_at _ _ _ _ _ _ _ _ _ _ Hmax Hrun) as (σ & Hi & Hok & _).
  destruct σ; try done. cbn in Hi, Hok.
  destruct Hok as [-> (s & Hs & Hid)]; destruct_and! Hi. split_and!; try done; eauto 10.
Qed.

(** C2 (confirmation). Once the provider has confirmed a reservation to a poll - a fresh
    booking, the booking of an earlier delivery, or a reconciled ambiguous one
    - the very next call of that poll commits the watch as booked with exactly
    that confirmation: no failure, cancellation request, or deadline comes in
    between. *)
Theorem confirmation_is_committed sv id win owner enforce t1 e b t2 out
    (Hmax : MIN_DELAY_SECONDS <= sv_backoff_max sv)
    (Hrun : poll_run sv id win owner enforce (t1 ++ e :: t2) out)
    (Hb : ev_reserved e = Some b) :
  ∃ c w r a t', t2 = Ev (RepoCommit c w r) a :: t' ∧
    w_status w = BOOKED ∧ w_booking w = Some b.
Proof.
  destruct e as [o r]. destruct (poll_run_at _ _ _ _ _ _ _ _ _ _ Hmax Hrun) as (σ & Hi & Hok & Ha & Hp).
  assert (∃ c now, poll_next σ o r = Reserved c now b) as (c & now & Hs).
  { destruct o, σ; try done; cbn in Hok, Hb |- *; repeat case_match; simplify_eq; eauto; naive_solver. }
  rewrite Hs in Ha, Hp.
  destruct (reserved_next sv id win (Reserved c now b) _ _ ltac:(eauto) Ha Hp) as (c' & w & r' & a & t' & -> & Hw & Hbk).
  do 5 eexists. split; [done|]. split; [done|]. by eapply Hbk.
Qed.

(** A poll commits at most once, announces at most once - one notification
    or one queue entry -, and announces nothing unless its commit was
    accepted. *)
Theorem poll_commits_once sv id win owner enforce t out
    (Hmax : MIN_DELAY_SECONDS <= sv_backoff_max sv)
    (Hrun : poll_run sv id win owner enforce t out) :
  (count ev_reserved t <= 1)%nat ∧ (count ev_commit t <= 1)%nat ∧
  (count ev_announce t <= 1)%nat ∧
  (count ev_announce t <> 0%nat → ∃ w ev, some_in ev_committed t (w, ev)).
Proof.
  destruct (poll_run_end _ _ _ _ _ _ _ Hmax Hrun) as (σ & Hi & _).
  destruct σ; cbn in Hi; destruct_and!; split_and!; try lia; try (intros ?; lia).
  - destruct announced; cbn in *; lia.
  - eauto.
Qed.

(** C7 (commits). Every document a poll hands to the repository is a valid watch with the
    identity, query and deadline of the watch it claimed and at most one more
    attempt; a finished one has no next window and a rescheduled one has the
    next cadence window, at least a second after the instant the poll read from
    the clock - its only reading - and not after the deadline; a booked one
    carries a confirmation the provider gave. *)
Theorem poll_commit_is_valid sv id win owner enforce t1 c w rt r t2 out
    (Hmax : MIN_DELAY_SECONDS <= sv_backoff_max sv)
    (Hrun : poll_run sv id win owner enforce (t1 ++ Ev (RepoCommit c w rt) r :: t2) out) :
  some_in ev_claim t1 c ∧ (∃ now, omap ev_now t1 = [now] ∧ commit_ok id c now w rt) ∧
  (w_status w = BOOKED → ∃ b, some_in ev_reserved t1 b ∧ w_booking w = Some b).
Proof.
  destruct (poll_run_at _ _ _ _ _ _ _ _ _ _ Hmax Hrun) as (σ & Hi & Hok & _).
  unfold stage_inv, read in Hi.
  destruct σ as [|c' [now|] sl|c' now sl|c' now|c' now b| |]; try done; cbn in Hi, Hok;
    destruct_and!; simplify_eq; split_and!; eauto; congruence.
Qed.

(** C8 (reports). What a poll reports is what it did: an exception that escapes is a
    cancellation of the task or a failure of the infrastructure, never a
    provider failure or a validation error, and never after a confirmation
    that was not offered to the repository.  A result is well formed and is one
    of two reports.  Either the one commit of the poll was accepted: the result
    carries the committed document, the outcome is the one of its status, and
    the time to the next check, given for an active watch alone, is counted
    from the poll's reading of the clock to the committed check.  Or nothing
    was committed: the result says that the watch is already finished, with the
    document that was looked up, or unknown. *)
Theorem poll_reports_what_it_did sv id win owner enforce t out
    (Hmax : MIN_DELAY_SECONDS <= sv_backoff_max sv)
    (Hrun : poll_run sv id win owner enforce t out) :
  match out with
  | Exc x => infra x ∧ (count ev_reserved t <> 0%nat → count ev_commit t = 1%nat)
  | Ok res =>
      poll_result_ok res = true ∧
      ((∃ w ev now, some_in ev_committed t (w, ev) ∧ count ev_commit t = 1%nat ∧
          omap ev_now t = [now] ∧ reports_commit now w res) ∨
       (count ev_committed t = 0%nat ∧
          ∃ seen, reports_nothing seen res ∧ ∀ w, seen = Some w → some_in ev_seen t w))
  end.
Proof.
  destruct (poll_run_end _ _ _ _ _ _ _ Hmax Hrun) as (σ & Hi & Hp). destruct out as [res|x].
  - destruct σ as [| | | | |c now w r ev ann|seen]; destruct Hp as [Hok Hp]; try done;
      (split; [done|]).
    + left. exists w, ev, now. cbn in Hi. by destruct_and! Hi.
    + right. destruct Hi as (Hs & Hc & _). split; [done|]. exists seen. split; [done|].
      by intros w ->.
  - destruct Hp as [Hx Hs]. split; [done|]. destruct σ; cbn in Hi; destruct_and!; try lia; done.
Qed.

Lemma booking_is_permitted_witness :
  count ev_permit example_trace = 1%nat ∧ (count ev_reserved (take 5 example_trace) = 0)%nat.
Proof.
  pose proof example_poll_run as Hrun. rewrite example_calls in Hrun.
  split; [by vm_compute|].
  apply (booking_is_permitted _ _ _ _ _ _ _ _ _ _ _ example_max Hrun).
Defined.

Lemma confirmation_is_committed_witness :
  ∃ c w r a t', [Ev (RepoCommit example_claim example_commit (terminal_runtime example_claim))
        (Ok (MkCommitResult COMMITTED (Some example_commit) (Some "event_1"%string)))] ++
    drop 7 example_trace = Ev (RepoCommit c w r) a :: t' ∧
    w_status w = BOOKED ∧ w_booking w = Some example_booking.
Proof.
  pose proof example_poll_run as Hrun. rewrite example_calls in Hrun.
  exact (confirmation_is_committed _ _ _ _ _ _ _ _ _ _ example_max Hrun eq_refl).
Defined.

Lemma poll_commits_once_witness :
  count ev_commit example_trace = 1%nat ∧ ∃ w ev, some_in ev_committed example_trace (w, ev).
Proof.
  split; [by vm_compute|].
  apply (poll_commits_once _ _ _ _ _ _ _ example_max example_poll_run). by vm_compute.
Defined.

Lemma poll_commit_is_valid_witness :
  (∃ b, some_in ev_reserved
         (take 5 example_trace ++ [Ev (ProviderBook "slot_1" "watch:watch_1") (Ok example_booking)]) b ∧
       w_booking example_commit = Some b) ∧
  ∃ now t, omap ev_now (take 5 missed_trace) = [now] ∧
    w_next_check_at missed_watch = Some t ∧ now + seconds 1 <= t <= w_expires_at missed_watch.
Proof.
  split.
  - pose proof example_poll_run as Hrun. rewrite example_commit_call in Hrun.
    by apply (poll_commit_is_valid _ _ _ _ _ _ _ _ _ _ _ _ example_max Hrun).
  - pose proof missed_poll_run as Hrun. rewrite missed_commit_call in Hrun.
    destruct (poll_commit_is_valid _ _ _ _ _ _ _ _ _ _ _ _ example_max Hrun)
      as (_ & (now & Hn & Hok) & _).
    unfold commit_ok in Hok. destruct_and! Hok. cbn in *. naive_solver.
Defined.

Lemma poll_reports_what_it_did_witness :
  count ev_committed example_trace = 1%nat ∧
  ∃ w ev now, some_in ev_committed example_trace (w, ev) ∧ omap ev_now example_trace = [now] ∧
    reports_commit now w (MkPollResult PO_BOOKED (Some example_commit) None).
Proof.
  split; [by vm_compute|].
  destruct (poll_reports_what_it_did _ _ _ _ _ _ _ example_max example_poll_run)
    as [_ [(w & ev & now & Hc & _ & Hn & Hr)|[Hc _]]]; [eauto 10|by vm_compute in Hc].
Defined.
