(* ===== verification/PollSystem.v ===== *)
(** * Polling against a repository

    [PollProtocol] says what a poll does for any answers that meet
    [poll_rely].  Here the repository calls of the poll are answered by a
    lawful repository, between two calls any other client may execute any
    command, and the answer of a repository call may be lost before or after
    it took effect.  The repository meets the expectations of the poll, and
    the poll keeps the promises ([allowed]) on which the history theorems of
    the repository rest. *)

From S2P Require Import Prelude Calendar Sorting Schemas Reservation Watch Policy Backoff Prog.
From S2P Require Import Effects WatchService PollProtocol PollTheorems.
From S2P Require Import WatchSpec WatchLog Dict WatchStore WatchStoreCorrect.




Section system.
Context {sha1hex : string → string} {retention : Z}
        `{Hlaw : LawfulRepository sha1hex retention Repo good}.
Context (sv : WatchService) (id win : string).
Implicit Types (s : Repo) (L : log).


(** ** The world of a poll *)

(** The state: the repository and what happened to it. *)
Definition world : Type := Repo * log.

Definition do_cmd (c : cmd) (sl : world) : world :=
  ((exec c sl.1).2, (exec c sl.1).1 ++ sl.2).

Definition do_opt (c : option cmd) (sl : world) : world :=
  match c with Some c => do_cmd c sl | None => sl end.

(** The answer of a repository call and the command it is; [None] for a call
    that does not go to the repository. *)
Definition repo_answer (o : call) (now now' : Z) s : option (answer o * option cmd) :=
  match o with
  | RepoGet i => Some (get i s, None)
  | RepoGetRuntime i => Some (get_runtime i s, None)
  | RepoClaim i w ow lease ign =>
      Some ((claim_window i w ow lease ign now s).1, Some (CClaim i w ow lease ign now))
  | RepoBegin c => Some ((begin_booking c now s).1, Some (CBegin c now))
  | RepoCommit c w r => Some ((commit_window c w r now now' s).1, Some (CCommit c w r now now'))
  | RepoRelease c => Some ((release_claim c s).1, Some (CRelease c))
  | _ => None
  end.



(** ** Every command keeps the documents valid *)



(** ** What the poll knows about the history *)







(** ** The poll and the repository meet each other's expectations *)







(** A deterministic world: every repository call is answered at [now]. *)
Definition world_handler (ext : ∀ o, outcome exn (answer o)) (now : Z) (o : call) (sl : world)
    : outcome exn (answer o) * world :=
  match repo_answer o now now sl.1 with
  | Some (a, c) => (Ok a, do_opt c sl)
  | None => (ext o, sl)
  end.


End system.

(** ** The in-memory repository *)

Section inmemory.
Context (sha1hex : string → string) (retention : Z).
#[local] Instance system_repository : WatchRepository store :=
  InMemoryWatchRepository sha1hex retention.

End inmemory.

(** ** A poll of a concrete store *)

Definition system_sha (s : string) : string := "sha1:" +:+ s.
Definition system_retention : Z := days 7.
#[local] Instance example_repository : WatchRepository store :=
  InMemoryWatchRepository system_sha system_retention.

Definition system_watch : Watch := cl_watch example_claim.
Definition system_create : cmd := CCreate system_watch (cl_runtime example_claim).
Definition system_start : world (Repo := store) := do_cmd system_create (empty_store, []).

(** The provider, the clock and the observers of the example; the clock and
    the repository say [seconds 90]. *)
Definition system_external (o : call) : outcome exn (answer o) :=
  match o with
  | RepoCommit _ _ _ => Exc (OtherError "infrastructure")
  | _ => example_answer o
  end.


Definition system_handler : ∀ o : call, world (Repo := store) → outcome exn (answer o) * world :=
  world_handler system_external (seconds 90).







(** ** Two races

    The user cancels while the booking call of a poll is in flight; the call
    fails and reconciliation cannot tell whether it took effect. *)

Definition cancel_during_booking (o : call) (sl : world (Repo := store))
    : outcome exn (answer o) * world :=
  match o return outcome exn (answer o) * world with
  | ProviderBook _ _ =>
      (Exc (AdapterError "connection reset"), do_cmd (CCancel "watch_1" (seconds 91)) sl)
  | ProviderReconcile _ => (Ok (MkReconciliation RC_UNKNOWN None), sl)
  | Uniform _ => (Ok 0, sl)
  | Enqueue _ _ _ _ _ => (Ok (), sl)
  | o => system_handler o sl
  end.

Definition cancelled_run : outcome exn WatchPollResult * world (Repo := store) :=
  run (Σ := calls) cancel_during_booking
    (poll_window example_service "watch_1" "watch_1:0" (Some "worker-a"%string) true) system_start.

(** A user cancels while the booking call is in flight;
    the request is recorded, the call fails, and reconciliation cannot tell
    whether it took effect. The poll then commits a next window with the
    request cleared: the watch stays active and will book again. *)
Lemma pending_cancellation_is_dropped :
  ∃ w r, st_watches cancelled_run.2.1 !! "watch_1"%string = Some w ∧
    st_runtimes cancelled_run.2.1 !! "watch_1"%string = Some r ∧
    w_status w = ACTIVE ∧ w_auto_book w = true ∧
    rt_cancel_requested r = false ∧ rt_phase r = None ∧
    rt_window_id r = Some "watch_1:1"%string ∧
    po_outcome <$> (match cancelled_run.1 with Ok p => Some p | Exc _ => None end)
      = Some PO_NO_AVAILABILITY.
Proof. vm_compute. do 2 eexists. split_and!; reflexivity. Qed.

(** The deadline passes while the booking call is in flight, and recovery
    expires the watch without looking at its phase; the provider confirms. *)
Definition late_watch : Watch := system_watch <| w_expires_at := seconds 100 |>.
Definition expire_during_booking (o : call) (sl : world (Repo := store))
    : outcome exn (answer o) * world :=
  match o return outcome exn (answer o) * world with
  | ProviderBook _ _ =>
      (Ok example_booking, do_cmd (CExpire "watch_1" None false (seconds 101)) sl)
  | RepoCommit _ _ _ => world_handler system_external (seconds 102) _ sl
  | o => system_handler o sl
  end.

Definition expired_run : outcome exn WatchPollResult * world (Repo := store) :=
  run (Σ := calls) expire_during_booking
    (poll_window example_service "watch_1" "watch_1:0" (Some "worker-a"%string) true)
    (do_cmd (CCreate late_watch (cl_runtime example_claim)) (empty_store, [])).

(** Recovery expires a watch whose booking call is in
    flight when the deadline passes; the provider then confirms, but the commit
    of the confirmation is refused, so the watch ends expired without it and
    the poll reports that there was nothing to do. *)
Lemma confirmed_booking_is_discarded :
  ∃ w, st_watches expired_run.2.1 !! "watch_1"%string = Some w ∧
    w_status w = EXPIRED ∧ w_booking w = None ∧
    po_outcome <$> (match expired_run.1 with Ok p => Some p | Exc _ => None end)
      = Some PO_ALREADY_FINISHED.
Proof. vm_compute. eexists. split_and!; reflexivity. Qed.
