(* ===== verification/MockState.v ===== *)
(** * The mock provider's shared state
    ([InMemoryMockBookingStateRepository] of [backend/db/repositories/mock_booking.py])

    Published slots, bookings with their idempotency key, tombstones of booked
    slots, and the pins that protect the slots of a running search.  Every
    method holds the one lock, so an operation is a function of the state.
    [admitted] is a Python set; nothing the operations do depends on its
    order. *)

From S2P Require Import Prelude Dict Sorting Calendar Schemas Reservation Watch Prog Effects.

Definition _OPERATION_PIN_SECONDS : Z := seconds 120.

(** [_SlotEntry], [_Booking], [_Tombstone], [_Pin] *)
Record SlotEntry := MkEntry { en_slot : AvailabilitySlot; en_last_touch : Z }.
Record Booking := MkBooking { bk_confirmation : BookingConfirmation; bk_protected_until : Z }.
Record Tombstone := MkTombstone { tb_key : string; tb_protected_until : Z }.
Record Pin := MkPin { pn_operation_id : string; pn_expires_at : Z }.

Record CleanupCounts := MkCounts { cc_idle_slots : Z; cc_expired_records : Z }.

Record mock_state := MkMock {
  ms_slots : dict SlotEntry;
  ms_tombstones : dict Tombstone;
  ms_bookings : dict Booking;
  ms_pins : dict Pin;
}.
#[export] Instance mock_state_eta : Eta mock_state := λ s,
  MkMock (ms_slots s) (ms_tombstones s) (ms_bookings s) (ms_pins s).

Definition empty_mock : mock_state := MkMock ∅ ∅ ∅ ∅.

Module Mock.
Section ops.
Context (capacity idle_ttl retention pin_ttl : Z).
Implicit Types s : mock_state.

(** ** Internals *)

Definition _expire_pins (now : Z) s : mock_state :=
  s <| ms_pins := dict_filter (λ _ p, now <? pn_expires_at p) (ms_pins s) |>.

Definition _pinned_ids (now : Z) s : list string :=
  keys (dict_filter (λ _ p, now <? pn_expires_at p) (ms_pins s)).

(** The loop of [_evict_one]: the first of the oldest unprotected slots. *)
Fixpoint oldest (protected : list string) (best : option (string * Z))
    (l : list (string * SlotEntry)) : option (string * Z) :=
  match l with
  | [] => best
  | (slot_id, entry) :: l' =>
      if decide (slot_id ∈ protected) then oldest protected best l'
      else match best with
           | Some (_, touch) =>
               if en_last_touch entry <? touch
               then oldest protected (Some (slot_id, en_last_touch entry)) l'
               else oldest protected best l'
           | None => oldest protected (Some (slot_id, en_last_touch entry)) l'
           end
  end.

Definition _evict_one (protected : list string) s : bool * mock_state :=
  match oldest protected None (items (ms_slots s)) with
  | None => (false, s)
  | Some (slot_id, _) => (true, s <| ms_slots := delete slot_id (ms_slots s) |>)
  end.

Definition _unpin_slot (slot_id : string) s : mock_state :=
  s <| ms_pins := delete slot_id (ms_pins s) |>.

(** ** Operations *)

Definition add_id (slot_id : string) (admitted : list string) : list string :=
  if decide (slot_id ∈ admitted) then admitted else admitted ++ [slot_id].

(** One round of the loop of [publish_and_filter]. *)
Definition publish_one (now : Z) (acc : list string * list AvailabilitySlot * mock_state)
    (slot : AvailabilitySlot) : list string * list AvailabilitySlot * mock_state :=
  let '(admitted, result, s) := acc in
  let slot_id := sl_slot_id slot in
  if match ms_tombstones s !! slot_id with
     | Some tomb => now <? tb_protected_until tomb
     | None => false
     end
  then (admitted, result, s)
  else match ms_slots s !! slot_id with
       | Some entry =>
           (add_id slot_id admitted, result ++ [en_slot entry],
            s <| ms_slots := <[slot_id := MkEntry (en_slot entry) now]> (ms_slots s) |>)
       | None =>
           let '(room, s) :=
             if capacity <=? dict_len (ms_slots s)
             then _evict_one (_pinned_ids now s ++ admitted) s else (true, s) in
           if (room : bool) then
             (add_id slot_id admitted, result ++ [slot],
              s <| ms_slots := <[slot_id := MkEntry slot now]> (ms_slots s) |>)
           else (admitted, result, s)
       end.

Definition pin_all (operation_id : string) (expires : Z) (admitted : list string) s : mock_state :=
  fold_left (λ s slot_id, s <| ms_pins := <[slot_id := MkPin operation_id expires]> (ms_pins s) |>)
    admitted s.

Definition publish_and_filter (candidates : list AvailabilitySlot) (operation_id : string)
    (now : Z) s : list AvailabilitySlot * mock_state :=
  let s := _expire_pins now s in
  let '(admitted, result, s) := fold_left (publish_one now) candidates ([], [], s) in
  (result, pin_all operation_id (now + pin_ttl) admitted s).

Definition get_booking (key : string) (now : Z) s : option BookingConfirmation :=
  match ms_bookings s !! key with
  | Some booking =>
      if bk_protected_until booking <=? now then None else Some (bk_confirmation booking)
  | None => None
  end.

Definition reconcile_booking (key : string) (permit_id : option string) (now : Z) s
    : ReconciliationResult :=
  match ms_bookings s !! key with
  | Some booking =>
      if now <? bk_protected_until booking
      then MkReconciliation RC_CONFIRMED (Some (bk_confirmation booking))
      else MkReconciliation RC_DEFINITIVELY_ABSENT None
  | None => MkReconciliation RC_DEFINITIVELY_ABSENT None
  end.

Definition book_slot (slot_id key : string) (factory : AvailabilitySlot → BookingConfirmation)
    (now : Z) s : outcome exn BookingConfirmation * mock_state :=
  match get_booking key now s with
  | Some confirmation => (Ok confirmation, s)
  | None =>
      if match ms_tombstones s !! slot_id with
         | Some tomb => (now <? tb_protected_until tomb) && negb (bool_decide (tb_key tomb = key))
         | None => false
         end
      then (Exc (SlotUnavailableError ("Mock slot is already booked: " +:+ slot_id)), s)
      else match ms_slots s !! slot_id with
           | None => (Exc (SlotNotFoundError ("Unknown mock slot: " +:+ slot_id)), s)
           | Some entry =>
               let protected_until := now + retention in
               let confirmation := factory (en_slot entry) in
               let s := s <| ms_bookings :=
                               <[key := MkBooking confirmation protected_until]> (ms_bookings s) |>
                          <| ms_tombstones :=
                               <[slot_id := MkTombstone key protected_until]> (ms_tombstones s) |>
                          <| ms_slots := delete slot_id (ms_slots s) |> in
               (Ok confirmation, _unpin_slot slot_id s)
           end
  end.

Definition release_operation (operation_id : string) s : mock_state :=
  s <| ms_pins :=
    dict_filter (λ _ p, negb (bool_decide (pn_operation_id p = operation_id))) (ms_pins s) |>.

Definition dict_drop {V} (ids : list string) (d : dict V) : dict V :=
  fold_left (λ d k, delete k d) ids d.

(** The candidates of the three loops of [cleanup]. *)
Definition idle_slots (now : Z) s : list string :=
  let pinned := _pinned_ids now s in
  keys (dict_filter (λ slot_id entry, negb (bool_decide (slot_id ∈ pinned))
                                      && (en_last_touch entry + idle_ttl <=? now)) (ms_slots s)).
Definition expired_bookings (now : Z) s : list string :=
  keys (dict_filter (λ _ b, bk_protected_until b <=? now) (ms_bookings s)).
Definition expired_tombstones (now : Z) s : list string :=
  keys (dict_filter (λ _ t, tb_protected_until t <=? now) (ms_tombstones s)).

Definition cleanup (now batch_size : Z) s : CleanupCounts * mock_state :=
  let s := _expire_pins now s in
  let idle := slice_to batch_size (idle_slots now s) in
  let s := s <| ms_slots := dict_drop idle (ms_slots s) |> in
  let expired_keys := slice_to batch_size (expired_bookings now s) in
  let s := s <| ms_bookings := dict_drop expired_keys (ms_bookings s) |> in
  let expired_tombs := slice_to batch_size (expired_tombstones now s) in
  let s := s <| ms_tombstones := dict_drop expired_tombs (ms_tombstones s) |> in
  (MkCounts (Z.of_nat (length idle)) (Z.of_nat (length expired_keys)), s).
End ops.
End Mock.
