(* ===== verification/MockTheorems.v ===== *)
(** * Properties of the mock provider's state

    Histories are sequences of the five operations under a clock that does not
    go back. *)

From S2P Require Import Prelude Dict Sorting Calendar Schemas Reservation Watch Prog Effects.
From S2P Require Import MockState.

(** ** Dropping keys *)

Lemma dict_drop_lookup {V} ids (d : dict V) k :
  Mock.dict_drop ids d !! k = if decide (k ∈ ids) then None else d !! k.
Proof.
  revert d. induction ids as [|i ids IH]; intros d; [by rewrite decide_False by set_solver|].
  cbn. unfold Mock.dict_drop in IH. rewrite IH, dict_lookup_delete.
  repeat case_decide; set_solver.
Qed.

Lemma dict_drop_wf {V} ids (d : dict V) : dict_wf d → dict_wf (Mock.dict_drop ids d).
Proof.
  revert d. induction ids as [|i ids IH]; cbn; [done|]. intros d Hd. by apply IH, dict_wf_delete.
Qed.

Lemma dict_drop_len {V} ids (d : dict V) : dict_len (Mock.dict_drop ids d) <= dict_len d.
Proof.
  revert d. induction ids as [|i ids IH]; cbn; [done|]. intros d.
  etrans; [apply IH|apply dict_len_delete_le].
Qed.

(** ** The invariant *)

Definition slot_of (b : Booking) : string := sl_slot_id (bc_slot (bk_confirmation b)).

Section mock.
Context (capacity idle_ttl retention pin_ttl : Z).
Implicit Types s : mock_state.

Record minv (now : Z) s : Prop := {
  mi_slots_wf : dict_wf (ms_slots s);
  mi_tombs_wf : dict_wf (ms_tombstones s);
  mi_bookings_wf : dict_wf (ms_bookings s);
  mi_pins_wf : dict_wf (ms_pins s);
  mi_capacity : dict_len (ms_slots s) <= capacity;
  mi_key id e : ms_slots s !! id = Some e → sl_slot_id (en_slot e) = id;
  mi_booked k b : ms_bookings s !! k = Some b → now < bk_protected_until b →
    ms_tombstones s !! slot_of b = Some (MkTombstone k (bk_protected_until b));
  mi_tomb id t : ms_tombstones s !! id = Some t → now < tb_protected_until t →
    ms_slots s !! id = None;
}.

Lemma minv_empty now : 0 <= capacity → minv now empty_mock.
Proof. intros Hc. split; cbn; try apply dict_wf_empty; try done. Qed.

Lemma minv_later now now' s : minv now s → now <= now' → minv now' s.
Proof. intros [] ?. split; eauto with lia. Qed.

(** Operations that touch only pins, and drop slots. *)
Lemma minv_shrink now s s' :
  minv now s → dict_wf (ms_pins s') → dict_wf (ms_slots s') →
  dict_len (ms_slots s') <= dict_len (ms_slots s) →
  (∀ id e, ms_slots s' !! id = Some e → ms_slots s !! id = Some e) →
  ms_bookings s' = ms_bookings s → ms_tombstones s' = ms_tombstones s → minv now s'.
Proof.
  intros [] ??? Hsub Hb Ht. split; rewrite ?Hb, ?Ht; eauto; [lia|].
  intros id t Hid Hl. apply eq_None_not_Some. intros [e He%Hsub].
  by rewrite (mi_tomb0 _ _ Hid Hl) in He.
Qed.

Lemma minv_expire_pins now now' s : minv now s → minv now (Mock._expire_pins now' s).
Proof.
  intros Hi. apply (minv_shrink _ s); try done; [apply dict_wf_filter, Hi|apply Hi].
Qed.

Lemma minv_release now op s : minv now s → minv now (Mock.release_operation op s).
Proof.
  intros Hi. apply (minv_shrink _ s); try done; [apply dict_wf_filter, Hi|apply Hi].
Qed.

(** ** Eviction *)

Lemma oldest_spec protected l best id touch :
  Mock.oldest protected best l = Some (id, touch) →
  (best = Some (id, touch) ∨ ∃ e, (id, e) ∈ l ∧ id ∉ protected ∧ en_last_touch e = touch) ∧
  (∀ id' t', best = Some (id', t') → touch <= t') ∧
  (∀ id' e', (id', e') ∈ l → id' ∉ protected → touch <= en_last_touch e').
Proof.
  revert best. induction l as [|[i e] l IH]; intros best H; cbn in H.
  { subst best. split_and!; [by left|intros ?? [= -> ->]; lia|set_solver]. }
  assert (∀ b', (b' = Some (i, en_last_touch e) ∧ i ∉ protected ∧
                   (∀ id' t', best = Some (id', t') → en_last_touch e <= t') ∨
                 b' = best ∧ (i ∈ protected ∨ ∃ id' t', best = Some (id', t') ∧ t' <= en_last_touch e)) →
    Mock.oldest protected b' l = Some (id, touch) →
    (best = Some (id, touch) ∨ ∃ e0, (id, e0) ∈ (i, e) :: l ∧ id ∉ protected ∧ en_last_touch e0 = touch) ∧
    (∀ id' t', best = Some (id', t') → touch <= t') ∧
    (∀ id' e', (id', e') ∈ (i, e) :: l → id' ∉ protected → touch <= en_last_touch e')) as Hstep.
  { intros b' Hb Ho. destruct (IH b' Ho) as (H1 & H2 & H3).
    destruct Hb as [(-> & Hi & Hlt)|(-> & Hi)].
    - specialize (H2 _ _ eq_refl). split_and!.
      + destruct H1 as [[= <- <-]|(e0 & ? & ?)]; right; [exists e|exists e0]; set_solver.
      + intros id' t' Hb'. specialize (Hlt _ _ Hb'). lia.
      + intros id' e' [[= -> ->]|Hin]%elem_of_cons; eauto.
    - split_and!.
      + destruct H1 as [?|(e0 & ? & ?)]; [by left|right; exists e0; set_solver].
      + done.
      + intros id' e' [[= -> ->]|Hin]%elem_of_cons Hp; [|eauto].
        destruct Hi as [?|(i2 & t2 & Hb & ?)]; [done|]. specialize (H2 _ _ Hb). lia. }
  case_decide as Hp; [apply (Hstep best); [right; auto|done]|].
  destruct best as [[i0 t0]|].
  - destruct (Z.ltb_spec (en_last_touch e) t0); (eapply Hstep; [|exact H]); [left|right];
      split_and!; eauto; intros ?? [= <- <-]; lia.
  - eapply Hstep; [|exact H]. left. by split_and!.
Qed.

Lemma oldest_none protected l :
  Mock.oldest protected None l = None → ∀ id e, (id, e) ∈ l → id ∈ protected.
Proof.
  induction l as [|[i e] l IH]; intros H; [set_solver|]. cbn in H.
  assert (∀ b, is_Some b → is_Some (Mock.oldest protected b l)) as Hl.
  { clear. induction l as [|[i e] l IH]; intros b Hb; cbn; [done|]. destruct Hb as [[? ?] ->].
    repeat case_match; apply IH; eauto. }
  case_decide as Hp.
  - intros id e' [[= -> ->]|Hin]%elem_of_cons; [done|]. by eapply IH.
  - destruct (Hl (Some (i, en_last_touch e)) ltac:(eauto)) as [? Hx]. by rewrite H in Hx.
Qed.

Lemma evict_spec now protected s :
  minv now s →
  match Mock._evict_one protected s with
  | (true, s') =>
      ∃ id e, ms_slots s !! id = Some e ∧ id ∉ protected ∧
        s' = s <| ms_slots := delete id (ms_slots s) |> ∧
        ∀ id' e', ms_slots s !! id' = Some e' → id' ∉ protected →
          en_last_touch e <= en_last_touch e'
  | (false, s') => s' = s ∧ ∀ id, is_Some (ms_slots s !! id) → id ∈ protected
  end.
Proof.
  intros Hi. unfold Mock._evict_one. pose proof (mi_slots_wf _ _ Hi) as Hwf.
  destruct (Mock.oldest _ _ _) as [[id touch]|] eqn:E.
  - apply oldest_spec in E as ([?|(e & Hin & Hp & <-)] & _ & Hmin); [done|].
    exists id, e. split_and!; try done.
    + by apply dict_elem_of_items.
    + intros id' e' He'. apply Hmin. by apply dict_elem_of_items.
  - split; [done|]. intros id [e He]. eapply oldest_none; [done|].
    by apply dict_elem_of_items.
Qed.

(** ** Publishing *)

Lemma minv_put now s id slot touch :
  minv now s → sl_slot_id slot = id →
  (∀ t, ms_tombstones s !! id = Some t → tb_protected_until t <= now) →
  is_Some (ms_slots s !! id) ∨ dict_len (ms_slots s) < capacity →
  minv now (s <| ms_slots := <[id := MkEntry slot touch]> (ms_slots s) |>).
Proof.
  intros [] Hid Ht Hroom. split; cbn; eauto using dict_wf_insert.
  - rewrite dict_len_insert. destruct (dict_mem id (ms_slots s)) eqn:E; [done|].
    apply dict_mem_false in E. destruct Hroom as [[? ?]|]; [congruence|lia].
  - intros id' e. rewrite dict_lookup_insert. case_decide; [by intros [= <-]; subst|eauto].
  - intros id' t Hid' Hl. rewrite dict_lookup_insert. case_decide; [|eauto].
    subst. specialize (Ht _ Hid'). lia.
Qed.

Lemma minv_drop_slot now s id :
  minv now s → minv now (s <| ms_slots := delete id (ms_slots s) |>).
Proof.
  intros Hi. apply (minv_shrink _ s); cbn; try done; try apply Hi.
  - apply dict_wf_delete, Hi.
  - apply dict_len_delete_le.
  - intros id' e. rewrite dict_lookup_delete. by case_decide.
Qed.

Record published (now : Z) s0 (cands : list AvailabilitySlot)
    (acc : list string * list AvailabilitySlot * mock_state) : Prop := {
  pb_inv : minv now acc.2;
  pb_books : ms_bookings acc.2 = ms_bookings s0 ∧ ms_tombstones acc.2 = ms_tombstones s0 ∧
             ms_pins acc.2 = ms_pins s0;
  pb_admitted id : id ∈ acc.1.1 → is_Some (ms_slots acc.2 !! id);
  pb_result sl : sl ∈ acc.1.2 → sl_slot_id sl ∈ acc.1.1 ∧
                 ∃ t, ms_slots acc.2 !! sl_slot_id sl = Some (MkEntry sl t);
  pb_order : map sl_slot_id acc.1.2 `sublist_of` map sl_slot_id cands;
}.

Lemma elem_of_add_id id x l : id ∈ Mock.add_id x l ↔ id = x ∨ id ∈ l.
Proof. unfold Mock.add_id. case_decide; set_solver. Qed.

Lemma published_add now s0 cands admitted result s slot slot' touch :
  published now s0 cands (admitted, result, s) →
  sl_slot_id slot' = sl_slot_id slot →
  (∀ t, ms_tombstones s !! sl_slot_id slot = Some t → tb_protected_until t <= now) →
  (∃ t, ms_slots s !! sl_slot_id slot = Some (MkEntry slot' t)) ∨
    ms_slots s !! sl_slot_id slot = None ∧ dict_len (ms_slots s) < capacity →
  published now s0 (cands ++ [slot])
    (Mock.add_id (sl_slot_id slot) admitted, result ++ [slot'],
     s <| ms_slots := <[sl_slot_id slot := MkEntry slot' touch]> (ms_slots s) |>).
Proof.
  intros [Hi Hb Ha Hr Ho] Hid Ht Hroom. cbn in *. split; cbn.
  - apply minv_put; try done. naive_solver.
  - done.
  - intros id [->|Hin]%elem_of_add_id; rewrite dict_lookup_insert; case_decide; eauto; done.
  - intros sl [Hin|Hin]%elem_of_app.
    + destruct (Hr _ Hin) as [Hadm [t Hs]]. split; [apply elem_of_add_id; auto|].
      rewrite dict_lookup_insert. case_decide as Heq; [|eauto].
      destruct Hroom as [[t' Hs']|[Hn _]]; rewrite Heq in *; [|congruence].
      rewrite Hs in Hs'. simplify_eq. eauto.
    + apply list_elem_of_singleton in Hin as ->. rewrite Hid. split; [apply elem_of_add_id; auto|].
      rewrite dict_lookup_insert_eq. eauto.
  - rewrite !map_app. cbn. rewrite Hid. by apply sublist_app.
Qed.

Lemma published_skip now s0 cands acc slot :
  published now s0 cands acc → published now s0 (cands ++ [slot]) acc.
Proof.
  intros [? ? ? ? Ho]. split; try done. rewrite map_app. by apply sublist_inserts_r.
Qed.

Lemma publish_one_ok now s0 cands acc slot :
  published now s0 cands acc →
  published now s0 (cands ++ [slot]) (Mock.publish_one capacity now acc slot).
Proof.
  destruct acc as [[admitted result] s]. intros Hp. pose proof Hp as [Hi Hb Ha Hr Ho].
  cbn [fst snd] in *. unfold Mock.publish_one.
  destruct (match ms_tombstones s !! sl_slot_id slot with Some tomb => _ | None => false end) eqn:Et;
    [by apply published_skip|].
  assert (∀ t, ms_tombstones s !! sl_slot_id slot = Some t → tb_protected_until t <= now) as Ht.
  { intros t Hs. rewrite Hs in Et. by apply Z.ltb_ge in Et. }
  destruct (ms_slots s !! sl_slot_id slot) as [[slot' t']|] eqn:Es.
  { apply published_add; try done; [by apply (mi_key _ _ Hi) in Es|cbn; eauto]. }
  destruct (Z.leb_spec capacity (dict_len (ms_slots s))) as [Hfull|Hroom].
  - pose proof (evict_spec now (Mock._pinned_ids now s ++ admitted) s Hi) as He.
    destruct (Mock._evict_one _ s) as [[] s'].
    + destruct He as (id & e & Hs & Hp' & -> & _).
      assert (published now s0 cands
                (admitted, result, s <| ms_slots := delete id (ms_slots s) |>)) as Hp2.
      { split; cbn; try done.
        - by apply minv_drop_slot.
        - intros id' Hin. rewrite dict_lookup_delete_ne by set_solver. auto.
        - intros sl Hin. destruct (Hr sl Hin) as [Hadm [t Ht']]. split; [done|].
          rewrite dict_lookup_delete_ne by set_solver. eauto. }
      apply (published_add _ _ _ _ _ _ _ _ now Hp2); cbn; try done.
      right. split; [rewrite dict_lookup_delete; by case_decide|].
      rewrite dict_len_delete by (apply Hi || eauto). pose proof (mi_capacity _ _ Hi). lia.
    + destruct He as [-> _]. by apply published_skip.
  - apply published_add; try done. by right.
Qed.

Lemma publish_fold_ok now s0 l cands acc :
  published now s0 cands acc →
  published now s0 (cands ++ l) (fold_left (Mock.publish_one capacity now) l acc).
Proof.
  revert cands acc. induction l as [|slot l IH]; intros cands acc Hp; cbn.
  - by rewrite app_nil_r.
  - rewrite cons_middle, app_assoc. by apply IH, publish_one_ok.
Qed.

Lemma pin_all_spec op expires ids s :
  let s' := Mock.pin_all op expires ids s in
  ms_slots s' = ms_slots s ∧ ms_bookings s' = ms_bookings s ∧
  ms_tombstones s' = ms_tombstones s ∧ (dict_wf (ms_pins s) → dict_wf (ms_pins s')) ∧
  ∀ id, ms_pins s' !! id = if decide (id ∈ ids) then Some (MkPin op expires) else ms_pins s !! id.
Proof.
  unfold Mock.pin_all. revert s. induction ids as [|i ids IH]; intros s; cbn.
  { split_and!; try done. }
  destruct (IH (s <| ms_pins := <[i := MkPin op expires]> (ms_pins s) |>)) as (H1 & H2 & H3 & H4 & H5).
  cbn in *. split_and!; try done.
  - intros Hw. by apply H4, dict_wf_insert.
  - intros id. rewrite H5, dict_lookup_insert. repeat case_decide; set_solver.
Qed.

Lemma publish_spec cands op now s :
  minv now s →
  let res := Mock.publish_and_filter capacity pin_ttl cands op now s in
  minv now res.2 ∧ ms_bookings res.2 = ms_bookings s ∧ ms_tombstones res.2 = ms_tombstones s ∧
  (∀ sl, sl ∈ res.1 → ∃ t, ms_slots res.2 !! sl_slot_id sl = Some (MkEntry sl t) ∧
     ms_pins res.2 !! sl_slot_id sl = Some (MkPin op (now + pin_ttl))) ∧
  map sl_slot_id res.1 `sublist_of` map sl_slot_id cands.
Proof.
  intros Hi. unfold Mock.publish_and_filter.
  assert (published now (Mock._expire_pins now s) [] ([], [], Mock._expire_pins now s)) as Hp.
  { split; cbn; try done; try set_solver. by apply minv_expire_pins. }
  apply (publish_fold_ok _ _ cands) in Hp. cbn [app] in Hp.
  destruct (fold_left _ cands _) as [[admitted result] s1]. destruct Hp as [Hi1 (Hb & Ht & _) Ha Hr Ho].
  cbn in *. destruct (pin_all_spec op (now + pin_ttl) admitted s1) as (E1 & E2 & E3 & E4 & E5).
  split_and!; [| | | |done].
  - apply (minv_shrink _ s1); rewrite ?E1; try done; [apply E4, Hi1|apply Hi1].
  - by rewrite E2, Hb.
  - by rewrite E3, Ht.
  - intros sl Hin. destruct (Hr sl Hin) as [Hadm [t Hs]]. exists t.
    by rewrite E1, E5, decide_True.
Qed.

(** ** Booking *)

Lemma get_booking_some key now s c :
  Mock.get_booking key now s = Some c ↔
  ∃ b, ms_bookings s !! key = Some b ∧ now < bk_protected_until b ∧ bk_confirmation b = c.
Proof.
  unfold Mock.get_booking. destruct (ms_bookings s !! key) as [b|]; [|naive_solver].
  destruct (Z.leb_spec (bk_protected_until b) now); split; [done| |intros [= <-]; eauto|];
    intros (b' & [= <-] & ? & ?); [lia|by f_equal].
Qed.

Definition keeps_slot (f : AvailabilitySlot → BookingConfirmation) : Prop :=
  ∀ slot, bc_slot (f slot) = slot.

(** A successful first booking. *)
Lemma book_new slot_id key f now s c s' :
  minv now s → keeps_slot f → Mock.get_booking key now s = None →
  Mock.book_slot retention slot_id key f now s = (Ok c, s') →
  ∃ e, ms_slots s !! slot_id = Some e ∧ c = f (en_slot e) ∧
    (∀ t, ms_tombstones s !! slot_id = Some t → tb_protected_until t <= now) ∧
    ms_bookings s' = <[key := MkBooking c (now + retention)]> (ms_bookings s) ∧
    ms_tombstones s' = <[slot_id := MkTombstone key (now + retention)]> (ms_tombstones s) ∧
    ms_slots s' = delete slot_id (ms_slots s) ∧ ms_pins s' = delete slot_id (ms_pins s).
Proof.
  intros Hi Hf Hn. unfold Mock.book_slot. rewrite Hn.
  destruct (match ms_tombstones s !! slot_id with Some tomb => _ | None => false end) eqn:Et; [done|].
  destruct (ms_slots s !! slot_id) as [e|] eqn:Es; [|done]. intros [= <- <-].
  exists e. split_and!; try done. intros t Ht.
  destruct (Z.le_gt_cases (tb_protected_until t) now) as [|Hl]; [done|].
  rewrite (mi_tomb _ _ Hi _ _ Ht) in Es by lia. done.
Qed.

Lemma minv_book slot_id key f now s :
  minv now s → keeps_slot f → minv now (Mock.book_slot retention slot_id key f now s).2.
Proof.
  intros Hi Hf. destruct (Mock.book_slot _ _ _ _ _ _) as [[c|x] s'] eqn:E; cycle 1.
  { unfold Mock.book_slot in E. repeat case_match; by simplify_eq. }
  destruct (Mock.get_booking key now s) as [c'|] eqn:Hn.
  { unfold Mock.book_slot in E. rewrite Hn in E. by simplify_eq. }
  destruct (book_new _ _ _ _ _ _ _ Hi Hf Hn E) as (e & He & -> & Hold & E1 & E2 & E3 & E4).
  pose proof (mi_key _ _ Hi _ _ He) as Hid. pose proof Hi as [].
  split; cbn; rewrite ?E1, ?E2, ?E3, ?E4; auto using dict_wf_insert, dict_wf_delete.
  - etrans; [apply dict_len_delete_le|done].
  - intros id e'. rewrite dict_lookup_delete. case_decide; [done|eauto].
  - intros k b. rewrite dict_lookup_insert. case_decide as Hk.
    + intros [= <-] _. cbn. unfold slot_of. cbn. rewrite Hf, Hid, dict_lookup_insert_eq.
      by subst.
    + intros Hb Hl. rewrite dict_lookup_insert. case_decide as Hs; [|by eauto].
      specialize (mi_booked0 _ _ Hb Hl). subst slot_id. rewrite Hs in Hold.
      specialize (Hold _ mi_booked0). cbn in Hold. lia.
  - intros id t. rewrite dict_lookup_insert, dict_lookup_delete. by case_decide; eauto.
Qed.

(** ** Cleanup *)

Lemma elem_of_kept {V} (P : string → V → bool) (d : dict V) k :
  dict_wf d → k ∈ keys (dict_filter P d) ↔ ∃ v, d !! k = Some v ∧ P k v = true.
Proof.
  intros Hwf. rewrite dict_elem_of_keys, dict_lookup_filter by done.
  destruct (d !! k) as [v|]; [|split; [by intros [? ?]|naive_solver]].
  destruct (P k v) eqn:E; split; eauto; [by intros [? ?]|]. intros (v' & [= <-] & ?). congruence.
Qed.

Lemma elem_of_expired_bookings now s k :
  minv now s →
  k ∈ Mock.expired_bookings now s ↔ ∃ b, ms_bookings s !! k = Some b ∧ bk_protected_until b <= now.
Proof.
  intros Hi. unfold Mock.expired_bookings. rewrite elem_of_kept by apply Hi.
  by setoid_rewrite Z.leb_le.
Qed.

Lemma elem_of_expired_tombstones now s k :
  minv now s →
  k ∈ Mock.expired_tombstones now s ↔ ∃ t, ms_tombstones s !! k = Some t ∧ tb_protected_until t <= now.
Proof.
  intros Hi. unfold Mock.expired_tombstones. rewrite elem_of_kept by apply Hi.
  by setoid_rewrite Z.leb_le.
Qed.

Lemma elem_of_pinned now s k :
  minv now s →
  k ∈ Mock._pinned_ids now s ↔ ∃ p, ms_pins s !! k = Some p ∧ now < pn_expires_at p.
Proof.
  intros Hi. unfold Mock._pinned_ids. rewrite elem_of_kept by apply Hi.
  by setoid_rewrite Z.ltb_lt.
Qed.

(** A slot that was not touched for the idle time and is not pinned. *)
Definition idle (now : Z) s (k : string) (e : SlotEntry) : Prop :=
  ms_slots s !! k = Some e ∧ en_last_touch e + idle_ttl <= now ∧
  ∀ p, ms_pins s !! k = Some p → pn_expires_at p <= now.

Lemma elem_of_idle_slots now s k :
  minv now s → k ∈ Mock.idle_slots idle_ttl now s ↔ ∃ e, idle now s k e.
Proof.
  intros Hi. unfold Mock.idle_slots. rewrite elem_of_kept by apply Hi. unfold idle.
  setoid_rewrite andb_true_iff. setoid_rewrite negb_true_iff.
  setoid_rewrite bool_decide_eq_false. setoid_rewrite Z.leb_le.
  split; intros (e & He & H1 & H2); exists e; (split; [done|]).
  - split; [done|]. intros p Hp. destruct (Z.le_gt_cases (pn_expires_at p) now); [done|].
    destruct H1. apply elem_of_pinned; [done|]. eauto with lia.
  - split; [|done]. rewrite elem_of_pinned by done. intros (p & Hp & ?). specialize (H2 p Hp). lia.
Qed.

Lemma idle_expire_pins now s k e :
  minv now s → idle now (Mock._expire_pins now s) k e → idle now s k e.
Proof.
  intros Hi (H1 & H2 & H3). split_and!; [done..|]. intros p Hp.
  destruct (Z.le_gt_cases (pn_expires_at p) now) as [|Hl]; [done|]. apply H3.
  unfold Mock._expire_pins. cbn. rewrite dict_lookup_filter, Hp by apply Hi.
  by rewrite (proj2 (Z.ltb_lt _ _)) by lia.
Qed.

#[local] Arguments Mock.idle_slots : simpl never.
#[local] Arguments Mock.expired_bookings : simpl never.
#[local] Arguments Mock.expired_tombstones : simpl never.

(** What one pass removes. *)
Lemma cleanup_lookup now n s :
  minv now s →
  let res := Mock.cleanup idle_ttl now n s in
  (∀ k, ms_bookings res.2 !! k = ms_bookings s !! k ∨
        ms_bookings res.2 !! k = None ∧ ∃ b, ms_bookings s !! k = Some b ∧ bk_protected_until b <= now) ∧
  (∀ k, ms_tombstones res.2 !! k = ms_tombstones s !! k ∨
        ms_tombstones res.2 !! k = None ∧ ∃ t, ms_tombstones s !! k = Some t ∧ tb_protected_until t <= now) ∧
  (∀ k, ms_slots res.2 !! k = ms_slots s !! k ∨
        ms_slots res.2 !! k = None ∧ ∃ e, idle now s k e).
Proof.
  intros Hi. pose proof (minv_expire_pins now now s Hi) as Hi1.
  unfold Mock.cleanup. cbn. split_and!; intros k; rewrite dict_drop_lookup;
    case_decide as Hin; auto; right; (split; [done|]); apply elem_of_slice_to in Hin.
  - by apply (elem_of_expired_bookings now s).
  - by apply (elem_of_expired_tombstones now s).
  - apply elem_of_idle_slots in Hin as [e He]; [|done]. exists e. by apply idle_expire_pins.
Qed.

Lemma minv_cleanup now n s : minv now s → minv now (Mock.cleanup idle_ttl now n s).2.
Proof.
  intros Hi. destruct (cleanup_lookup now n s Hi) as (Hb & Ht & Hs). pose proof Hi as [].
  set (s' := (Mock.cleanup idle_ttl now n s).2) in *.
  split; try (subst s'; cbn; auto using dict_drop_wf, dict_wf_filter; fail).
  - etrans; [apply dict_drop_len|done].
  - intros id e He. destruct (Hs id) as [E|[E _]]; rewrite E in He; [eauto|done].
  - intros k b Hk Hl. destruct (Hb k) as [E|[E _]]; rewrite E in Hk; [|done].
    pose proof (mi_booked0 _ _ Hk Hl) as Hbt.
    destruct (Ht (slot_of b)) as [E2|(_ & t & Ht' & Hle)]; [by rewrite E2|].
    rewrite Hbt in Ht'. simplify_eq. cbn in Hle. lia.
  - intros id t Hid Hl. destruct (Ht id) as [E|[E _]]; rewrite E in Hid; [|done].
    specialize (mi_tomb0 _ _ Hid Hl). by destruct (Hs id) as [E2|[E2 _]]; rewrite E2.
Qed.

(** ** Histories *)

Inductive mock_op :=
| MPublish (candidates : list AvailabilitySlot) (operation_id : string)
| MBook (slot_id key : string) (factory : AvailabilitySlot → BookingConfirmation)
| MRelease (operation_id : string)
| MCleanup (batch_size : Z).

Definition mock_exec (o : mock_op) (now : Z) s : mock_state :=
  match o with
  | MPublish cands op => (Mock.publish_and_filter capacity pin_ttl cands op now s).2
  | MBook slot_id key f => (Mock.book_slot retention slot_id key f now s).2
  | MRelease op => Mock.release_operation op s
  | MCleanup n => (Mock.cleanup idle_ttl now n s).2
  end.

Definition op_ok (o : mock_op) : Prop :=
  match o with MBook _ _ f => keeps_slot f | _ => True end.

(** One operation, at a time not before the last one. *)
Inductive mock_step : Z * mock_state → Z * mock_state → Prop :=
| mock_step_op o now now' s : op_ok o → now <= now' → mock_step (now, s) (now', mock_exec o now' s).

Definition mock_history : Z * mock_state → Z * mock_state → Prop := rtc mock_step.

Lemma minv_exec o now s : op_ok o → minv now s → minv now (mock_exec o now s).
Proof.
  destruct o; cbn; intros Ho Hi.
  - by apply publish_spec.
  - by apply minv_book.
  - by apply minv_release.
  - by apply minv_cleanup.
Qed.

Lemma history_minv x y : mock_history x y → minv x.1 x.2 → minv y.1 y.2.
Proof.
  induction 1 as [|? ? ? [o now now' s Ho Hle]]; [done|]. intros Hi. apply IHrtc; cbn.
  apply minv_exec; [done|]. by eapply minv_later.
Qed.

Lemma history_time x y : mock_history x y → x.1 <= y.1.
Proof. induction 1 as [|? ? ? [o now now' s Ho Hle]]; cbn in *; lia. Qed.

(** A live booking survives every operation. *)
Lemma exec_keeps_booking o now s key b :
  op_ok o → minv now s → ms_bookings s !! key = Some b → now < bk_protected_until b →
  ms_bookings (mock_exec o now s) !! key = Some b.
Proof.
  intros Ho Hi Hb Hl. destruct o as [cands op|slot_id key' f|op|n]; cbn in *.
  - by destruct (publish_spec cands op now s Hi) as (_ & -> & _).
  - destruct (Mock.book_slot retention slot_id key' f now s) as [[c|x] s'] eqn:E; cbn.
    + destruct (Mock.get_booking key' now s) as [c'|] eqn:Hn.
      { unfold Mock.book_slot in E. rewrite Hn in E. by simplify_eq. }
      destruct (book_new _ _ _ _ _ _ _ Hi Ho Hn E) as (e & _ & _ & _ & -> & _).
      rewrite dict_lookup_insert_ne; [done|]. intros ->.
      apply eq_None_not_Some in Hn. apply Hn. exists (bk_confirmation b).
      apply get_booking_some. eauto.
    + unfold Mock.book_slot in E. repeat case_match; by simplify_eq.
  - done.
  - destruct (cleanup_lookup now n s Hi) as (H & _).
    destruct (H key) as [E|(_ & b' & Hb' & ?)]; [by etrans|]. rewrite Hb' in Hb. simplify_eq. lia.
Qed.

Lemma history_keeps_booking x y key b :
  mock_history x y → minv x.1 x.2 → ms_bookings x.2 !! key = Some b →
  y.1 < bk_protected_until b → ms_bookings y.2 !! key = Some b.
Proof.
  induction 1 as [|? ? y [o now now' s Ho Hle] Hh IH]; [done|]. intros Hi Hb Hl.
  pose proof (history_time _ _ Hh) as Ht. cbn in *.
  assert (minv now' s) as Hi' by by eapply minv_later.
  apply IH; [by apply minv_exec|apply exec_keeps_booking; auto; lia|done].
Qed.
End mock.

(** ** Properties *)

Section properties.
Context (capacity idle_ttl retention pin_ttl : Z).
#[local] Abbreviation history := (mock_history capacity idle_ttl retention pin_ttl).

(** In every history of the mock store the number of published
    slots stays within the capacity, a slot is stored under its own id, and a
    slot whose booking is protected is not published: no search can offer it
    again. *)
Theorem mock_state_invariant now0 now s
    (Hcap : 0 <= capacity) (Hh : history (now0, empty_mock) (now, s)) :
  dict_len (ms_slots s) <= capacity ∧
  (∀ id e, ms_slots s !! id = Some e → sl_slot_id (en_slot e) = id) ∧
  (∀ key b, ms_bookings s !! key = Some b → now < bk_protected_until b →
     ms_slots s !! slot_of b = None ∧
     ∀ cands op sl, sl ∈ (Mock.publish_and_filter capacity pin_ttl cands op now s).1 →
       sl_slot_id sl ≠ slot_of b).
Proof.
  apply history_minv in Hh; [|by apply minv_empty]. cbn in Hh.
  split_and!; [apply Hh|apply Hh|]. intros key b Hb Hl.
  pose proof (mi_booked _ _ _ Hh _ _ Hb Hl) as Ht. split; [by apply (mi_tomb _ _ _ Hh _ _ Ht)|].
  intros cands op sl Hin Heq. destruct (publish_spec capacity pin_ttl cands op now s Hh)
    as (Hi' & _ & Ht' & Hr & _).
  destruct (Hr sl Hin) as (t & Hs & _). rewrite <-Ht' in Ht.
  rewrite Heq in Hs. by rewrite (mi_tomb _ _ _ Hi' _ _ Ht Hl) in Hs.
Qed.

(** C6 (no double booking). At any moment two protected bookings of the mock
    store are for different slots, unless they are the same booking. *)
Theorem one_booking_per_slot now0 now s k1 k2 b1 b2
    (Hcap : 0 <= capacity) (Hh : history (now0, empty_mock) (now, s))
    (H1 : ms_bookings s !! k1 = Some b1) (H2 : ms_bookings s !! k2 = Some b2)
    (L1 : now < bk_protected_until b1) (L2 : now < bk_protected_until b2)
    (Hslot : slot_of b1 = slot_of b2) :
  k1 = k2 ∧ b1 = b2.
Proof.
  apply history_minv in Hh; [|by apply minv_empty]. cbn in Hh.
  pose proof (mi_booked _ _ _ Hh _ _ H1 L1) as T1. pose proof (mi_booked _ _ _ Hh _ _ H2 L2) as T2.
  rewrite Hslot, T2 in T1. injection T1 as <- _. split; [done|]. congruence.
Qed.

(** C5 (idempotent booking). A booking made under a key is the answer of every
    later attempt under that key, of every lookup and of every reconciliation,
    until its protection ends, whatever happens to the store in between; a
    fresh booking is protected for the whole retention time. *)
Theorem booking_is_replayed now0 now s slot_id key f c s1 now' s'
    (Hcap : 0 <= capacity) (Hh : history (now0, empty_mock) (now, s)) (Hf : keeps_slot f)
    (Hret : 0 < retention)
    (Hb : Mock.book_slot retention slot_id key f now s = (Ok c, s1))
    (Hlater : history (now, s1) (now', s')) :
  ∃ until, now < until ∧
    (Mock.get_booking key now s = None → until = now + retention ∧ en_slot <$> ms_slots s !! slot_id = Some (bc_slot c)) ∧
    (now' < until →
       Mock.get_booking key now' s' = Some c ∧
       Mock.reconcile_booking key None now' s' = MkReconciliation RC_CONFIRMED (Some c) ∧
       ∀ slot_id' f', Mock.book_slot retention slot_id' key f' now' s' = (Ok c, s')).
Proof.
  apply history_minv in Hh; [|by apply minv_empty]. cbn in Hh.
  assert (∃ b, ms_bookings s1 !! key = Some b ∧ now < bk_protected_until b ∧
    bk_confirmation b = c ∧ (Mock.get_booking key now s = None →
      bk_protected_until b = now + retention ∧ en_slot <$> ms_slots s !! slot_id = Some (bc_slot c)))
    as (b & Hb1 & Hl & Hc & Hnew).
  { destruct (Mock.get_booking key now s) as [c'|] eqn:Hn.
    - unfold Mock.book_slot in Hb. rewrite Hn in Hb. simplify_eq.
      apply get_booking_some in Hn as (b & ? & ? & ?). by exists b.
    - destruct (book_new _ _ _ _ _ _ _ _ _ Hh Hf Hn Hb) as (e & He & -> & _ & -> & _).
      eexists. rewrite dict_lookup_insert_eq. split; [done|]. cbn. split; [lia|]. split; [done|].
      intros _. split; [done|]. by rewrite He, Hf. }
  exists (bk_protected_until b). split_and!; [done..|]. intros Hlt.
  assert (minv capacity now s1) as Hi1.
  { replace s1 with (Mock.book_slot retention slot_id key f now s).2 by by rewrite Hb.
    by apply minv_book. }
  pose proof (history_keeps_booking _ _ _ _ _ _ _ _ Hlater Hi1 Hb1 Hlt) as Hb'. cbn in Hb'.
  assert (Mock.get_booking key now' s' = Some c) as Hg by (apply get_booking_some; eauto).
  split_and!; [done| |].
  - unfold Mock.reconcile_booking. rewrite Hb', (proj2 (Z.ltb_lt _ _)) by done. by rewrite Hc.
  - intros. unfold Mock.book_slot. by rewrite Hg.
Qed.

(** Every slot a search returns is one of its candidates,
    in their order, and can be booked right away under a key without a live
    booking: the capacity limit and the evictions of the search never take back
    what it offers. *)
Theorem search_result_is_bookable now0 now s cands op sl key f
    (Hcap : 0 <= capacity) (Hh : history (now0, empty_mock) (now, s))
    (Hkey : Mock.get_booking key now s = None) :
  let res := Mock.publish_and_filter capacity pin_ttl cands op now s in
  map sl_slot_id res.1 `sublist_of` map sl_slot_id cands ∧
  (sl ∈ res.1 → (Mock.book_slot retention (sl_slot_id sl) key f now res.2).1 = Ok (f sl)).
Proof.
  apply history_minv in Hh; [|by apply minv_empty]. cbn in Hh.
  destruct (publish_spec capacity pin_ttl cands op now s Hh) as (Hi & Hb & Ht & Hr & Ho).
  split; [done|]. intros Hin. destruct (Hr sl Hin) as (t & Hs & _).
  assert (Mock.get_booking key now (Mock.publish_and_filter capacity pin_ttl cands op now s).2 = None)
    as Hn by (unfold Mock.get_booking in *; by rewrite Hb).
  unfold Mock.book_slot. rewrite Hn, Hs.
  destruct (match ms_tombstones _ !! _ with Some tomb => _ | None => false end) eqn:E; [|done].
  destruct (ms_tombstones _ !! _) as [tomb|] eqn:Et; [|done].
  apply andb_true_iff in E as [E%Z.ltb_lt _]. by rewrite (mi_tomb _ _ _ Hi _ _ Et E) in Hs.
Qed.

(** One cleanup pass removes at most [batch_size] slots and at most
    [batch_size] bookings, reports exactly how many, and never removes a
    protected booking, a live tombstone, or a slot that is pinned or was
    touched within the idle time. *)
Theorem mock_cleanup_is_bounded now0 now s batch
    (Hcap : 0 <= capacity) (Hbatch : 0 <= batch) (Hh : history (now0, empty_mock) (now, s)) :
  let res := Mock.cleanup idle_ttl now batch s in
  0 <= cc_idle_slots res.1 <= batch ∧ 0 <= cc_expired_records res.1 <= batch ∧
  (∀ k b, ms_bookings s !! k = Some b → now < bk_protected_until b → ms_bookings res.2 !! k = Some b) ∧
  (∀ k t, ms_tombstones s !! k = Some t → now < tb_protected_until t → ms_tombstones res.2 !! k = Some t) ∧
  (∀ k e, ms_slots s !! k = Some e → ¬ idle idle_ttl now s k e → ms_slots res.2 !! k = Some e).
Proof.
  apply history_minv in Hh; [|by apply minv_empty]. cbn in Hh.
  destruct (cleanup_lookup capacity idle_ttl now batch s Hh) as (Hb & Ht & Hs).
  split_and!.
  - cbn. lia.
  - cbn. by apply slice_to_length.
  - cbn. lia.
  - cbn. by apply slice_to_length.
  - intros k b Hk Hl. destruct (Hb k) as [E|(_ & b' & Hb' & ?)]; [by etrans|].
    rewrite Hk in Hb'. simplify_eq. lia.
  - intros k t Hk Hl. destruct (Ht k) as [E|(_ & t' & Ht' & ?)]; [by etrans|].
    rewrite Hk in Ht'. simplify_eq. lia.
  - intros k e Hk Hn. destruct (Hs k) as [E|(_ & e' & He')]; [by etrans|].
    destruct Hn. pose proof (proj1 He') as Hk'. rewrite Hk in Hk'. by simplify_eq.
Qed.
End properties.

(** ** A concrete history *)

Fixpoint mock_run (capacity idle_ttl retention pin_ttl : Z) (l : list (Z * mock_op))
    (x : Z * mock_state) : Z * mock_state :=
  match l with
  | [] => x
  | (t, o) :: l' => mock_run capacity idle_ttl retention pin_ttl l'
                      (t, mock_exec capacity idle_ttl retention pin_ttl o t x.2)
  end.

Fixpoint run_ok (now : Z) (l : list (Z * mock_op)) : Prop :=
  match l with [] => True | (t, o) :: l' => now <= t ∧ op_ok o ∧ run_ok t l' end.

Lemma mock_run_history c i r p l x :
  run_ok x.1 l → mock_history c i r p x (mock_run c i r p l x).
Proof.
  revert x. induction l as [|[t o] l IH]; intros [now s]; cbn; [done|].
  intros (? & ? & ?). eapply rtc_l; [by apply mock_step_op|]. by apply IH.
Qed.

Definition demo_slot (id time : string) : AvailabilitySlot :=
  MkSlot id "mock" "Aurora" RESTAURANT "2026-03-09" time None 2 4.
Definition demo_factory (slot : AvailabilitySlot) : BookingConfirmation :=
  MkConfirmation "mock_booking_1" "mock" MOCK_CONFIRMED slot 20.

(** A search, a booking, and another search at a full store. *)
Definition demo_before : list (Z * mock_op) :=
  [(10, MPublish [demo_slot "s1" "19:00"; demo_slot "s2" "19:15"] "op1");
   (15, MRelease "op1")].
Definition demo_after : list (Z * mock_op) :=
  [(30, MPublish [demo_slot "s1" "19:00"; demo_slot "s3" "19:30"; demo_slot "s4" "19:45"] "op2");
   (40, MCleanup 10)].

Definition demo_run (l : list (Z * mock_op)) (x : Z * mock_state) : Z * mock_state :=
  mock_run 2 1000 500 120 l x.
Definition demo_mid : mock_state := (demo_run demo_before (0, empty_mock)).2.
Definition demo_booked : mock_state :=
  (Mock.book_slot 500 "s1" "watch:w1" demo_factory 20 demo_mid).2.
Definition demo_end : mock_state := (demo_run demo_after (20, demo_booked)).2.

Lemma demo_factory_ok : keeps_slot demo_factory.
Proof. by intros slot. Qed.

Lemma demo_mid_history : mock_history 2 1000 500 120 (0, empty_mock) (15, demo_mid).
Proof. apply (mock_run_history 2 1000 500 120 demo_before (0, empty_mock)). cbn. lia. Qed.

Lemma demo_mid_20 : mock_history 2 1000 500 120 (0, empty_mock) (20, demo_mid).
Proof.
  etrans; [apply demo_mid_history|]. apply rtc_once.
  replace demo_mid with (mock_exec 2 1000 500 120 (MRelease "op1") 20 demo_mid) at 2
    by (vm_compute; reflexivity).
  by apply mock_step_op.
Qed.

Lemma demo_end_history : mock_history 2 1000 500 120 (20, demo_booked) (40, demo_end).
Proof. apply (mock_run_history 2 1000 500 120 demo_after (20, demo_booked)). cbn. lia. Qed.

Lemma demo_full_history : mock_history 2 1000 500 120 (0, empty_mock) (40, demo_end).
Proof.
  etrans; [apply demo_mid_20|]. etrans; [|apply demo_end_history]. apply rtc_once.
  apply (mock_step_op 2 1000 500 120 (MBook "s1" "watch:w1" demo_factory) 20 20 demo_mid);
    [apply demo_factory_ok|done].
Qed.

Lemma demo_booking :
  Mock.book_slot 500 "s1" "watch:w1" demo_factory 20 demo_mid
    = (Ok (demo_factory (demo_slot "s1" "19:00")), demo_booked).
Proof. vm_compute. reflexivity. Qed.

Lemma demo_end_bookings :
  ms_bookings demo_end !! "watch:w1"%string
    = Some (MkBooking (demo_factory (demo_slot "s1" "19:00")) 520) ∧
  (* the full store evicted its idle slot *)
  keys (ms_slots demo_end) = ["s3"; "s4"]%string.
Proof. vm_compute. done. Qed.

Lemma mock_state_invariant_witness :
  dict_len (ms_slots demo_end) <= 2 ∧ ms_slots demo_end !! "s1"%string = None.
Proof.
  destruct (mock_state_invariant 2 1000 500 120 0 40 demo_end ltac:(lia) demo_full_history)
    as (H1 & _ & H3).
  split; [exact H1|]. exact (proj1 (H3 _ _ (proj1 demo_end_bookings) eq_refl)).
Defined.

Lemma one_booking_per_slot_witness :
  ms_bookings demo_end !! "watch:w1"%string
    = Some (MkBooking (demo_factory (demo_slot "s1" "19:00")) 520) ∧
  ∀ k b, ms_bookings demo_end !! k = Some b → 40 < bk_protected_until b → slot_of b = "s1"%string →
    k = "watch:w1"%string.
Proof.
  split; [apply demo_end_bookings|]. intros k b Hk Hl Hs.
  exact (proj1 (one_booking_per_slot 2 1000 500 120 0 40 demo_end _ _ _ _ ltac:(lia)
    demo_full_history Hk (proj1 demo_end_bookings) Hl eq_refl Hs)).
Defined.

Lemma booking_is_replayed_witness :
  Mock.get_booking "watch:w1" 20 demo_mid = None ∧
  Mock.get_booking "watch:w1" 40 demo_end = Some (demo_factory (demo_slot "s1" "19:00")).
Proof.
  split; [vm_compute; reflexivity|].
  destruct (booking_is_replayed 2 1000 500 120 0 20 demo_mid "s1" "watch:w1" demo_factory _ _ 40
    demo_end ltac:(lia) demo_mid_20 demo_factory_ok ltac:(lia) demo_booking demo_end_history)
    as (until & _ & H1 & H2).
  destruct (H1 eq_refl) as [-> _]. apply (H2 eq_refl).
Defined.

Lemma search_result_is_bookable_witness :
  (Mock.book_slot 500 "s2" "watch:w2" demo_factory 20
     (Mock.publish_and_filter 2 120 [demo_slot "s2" "19:15"] "op3" 20 demo_mid).2).1
    = Ok (demo_factory (demo_slot "s2" "19:15")).
Proof.
  apply (search_result_is_bookable 2 1000 500 120 0 20 demo_mid [demo_slot "s2" "19:15"] "op3"
    (demo_slot "s2" "19:15") "watch:w2" demo_factory ltac:(lia) demo_mid_20 eq_refl).
  vm_compute. left.
Defined.

Lemma mock_cleanup_is_bounded_witness :
  cc_expired_records (Mock.cleanup 1000 600 10 demo_end).1 = 1 ∧
  ms_bookings (Mock.cleanup 1000 40 10 demo_end).2 !! "watch:w1"%string
    = Some (MkBooking (demo_factory (demo_slot "s1" "19:00")) 520).
Proof.
  split; [vm_compute; reflexivity|].
  apply (mock_cleanup_is_bounded 2 1000 500 120 0 40 demo_end 10 ltac:(lia) ltac:(lia)
    demo_full_history); [apply demo_end_bookings|reflexivity].
Defined.
