(* ===== verification/Dispatcher.v ===== *)
(** * The schedule dispatcher ([backend/workers/dispatcher.py])

    One pass reads the markers within the horizon, takes the single-flight
    lease of each, publishes it, and records the publication or releases the
    lease. *)

From S2P Require Import Prelude Dict Sorting Calendar Schemas Reservation Watch Prog Effects.

Definition _DEFAULT_DISPATCH_LEASE_SECONDS : Z := seconds 30.
Definition _DEFAULT_RECOVERY_GRACE_SECONDS : Z := seconds 60.
Definition _DEFAULT_BATCH_SIZE : Z := 256.

Inductive DispatchOutcome := DISPATCHED | DEFERRED | FAILED.
#[export] Instance DispatchOutcome_eq_dec : EqDecision DispatchOutcome.
Proof. solve_decision. Defined.

Record DispatchSweepResult := MkSweep {
  sw_considered : Z;
  sw_dispatched : Z;
  sw_deferred : Z;
  sw_failed : Z;
}.

Definition has_backlog (r : DispatchSweepResult) : bool := 0 <? sw_failed r.

(** [WatchScheduleDispatcher.__init__] *)
Record WatchScheduleDispatcher := MkDispatcher {
  dp_owner_id : string;
  dp_horizon : Z;
  dp_lease : Z;
  dp_recovery_grace : Z;
  dp_batch_size : Z;
}.

Definition _task_id (c : DispatchClaim) : string :=
  "dibs-poll:" +:+ dc_window_id c +:+ ":" +:+ pretty (dc_generation c).

Section dispatcher.
Context (d : WatchScheduleDispatcher).

Definition _dispatch_one (marker : ScheduleMarker) (now : Z) : M DispatchOutcome :=
  claim_result ← await (RepoClaimDispatch marker (dp_owner_id d) (dp_lease d));
  match dr_status claim_result with
  | CLAIMED =>
      match dr_claim claim_result with
      | None => raise (OtherError "AssertionError")
      | Some claim =>
          let delay := Z.max 0 (mk_scheduled_for marker - now) in
          published ← attempt (await (Enqueue (mk_watch_id marker) (Some (mk_window_id marker)) delay
                                        (Some (mk_scheduled_for marker)) (Some (_task_id claim))));
          match published with
          | Exc x =>
              if is_exception x then
                _ ← await (RepoReleaseDispatch claim);
                Ret FAILED
              else raise x
          | Ok _ =>
              let redispatch_after :=
                Z.max (mk_scheduled_for marker) now + dp_recovery_grace d in
              _ ← await (RepoMarkDispatched claim redispatch_after);
              Ret DISPATCHED
          end
      end
  | _ => Ret DEFERRED
  end.

Definition count_outcome (r : DispatchSweepResult) (o : DispatchOutcome) : DispatchSweepResult :=
  match o with
  | DISPATCHED => MkSweep (sw_considered r) (sw_dispatched r + 1) (sw_deferred r) (sw_failed r)
  | DEFERRED => MkSweep (sw_considered r) (sw_dispatched r) (sw_deferred r + 1) (sw_failed r)
  | FAILED => MkSweep (sw_considered r) (sw_dispatched r) (sw_deferred r) (sw_failed r + 1)
  end.

Definition dispatch_due : M DispatchSweepResult :=
  now ← await Now;
  markers ← await (RepoDueMarkers now (dp_horizon d) (dp_batch_size d));
  for_fold markers (MkSweep (Z.of_nat (length markers)) 0 0 0)
    (λ r marker, o ← _dispatch_one marker now; Ret (count_outcome r o)).

(** ** What one pass does *)

(** The calls made for one marker, and how it ends. *)
Inductive one_marker (now : Z) (m : ScheduleMarker)
    : list call_event → outcome exn DispatchOutcome → Prop :=
| one_deferred r : dr_status r ≠ CLAIMED →
    one_marker now m [Ev (Σ := calls) (RepoClaimDispatch m (dp_owner_id d) (dp_lease d)) (Ok r)]
      (Ok DEFERRED)
| one_dispatched c b u :
    one_marker now m
      [Ev (Σ := calls) (RepoClaimDispatch m (dp_owner_id d) (dp_lease d))
         (Ok (MkDispatchResult CLAIMED (Some c)));
       Ev (Σ := calls) (Enqueue (mk_watch_id m) (Some (mk_window_id m))
                          (Z.max 0 (mk_scheduled_for m - now)) (Some (mk_scheduled_for m))
                          (Some (_task_id c))) (Ok u);
       Ev (Σ := calls) (RepoMarkDispatched c (Z.max (mk_scheduled_for m) now + dp_recovery_grace d))
         (Ok b)]
      (Ok DISPATCHED)
| one_failed c x b : is_exception x = true →
    one_marker now m
      [Ev (Σ := calls) (RepoClaimDispatch m (dp_owner_id d) (dp_lease d))
         (Ok (MkDispatchResult CLAIMED (Some c)));
       Ev (Σ := calls) (Enqueue (mk_watch_id m) (Some (mk_window_id m))
                          (Z.max 0 (mk_scheduled_for m - now)) (Some (mk_scheduled_for m))
                          (Some (_task_id c))) (Exc x);
       Ev (Σ := calls) (RepoReleaseDispatch c) (Ok b)]
      (Ok FAILED)
| one_raised t x : one_marker now m t (Exc x).

Lemma dispatch_one_runs m now t out :
  runs (_dispatch_one m now) t out → one_marker now m t out.
Proof.
  unfold _dispatch_one. intros [([st oc] & t1 & -> & H)|(x & -> & ->)]%runs_await_bind; [|constructor].
  cbn in H. destruct st; try (apply (runs_ret_inv (Σ := calls)) in H as [-> ->]; by apply one_deferred).
  destruct oc as [c|]; [|apply (runs_raise_inv (Σ := calls)) in H as [-> ->]; constructor].
  apply runs_await_attempt in H as ([u|x] & t2 & -> & H).
  - apply runs_await_bind in H as [(b & t3 & -> & H)|(x & -> & ->)]; [|constructor].
    apply (runs_ret_inv (Σ := calls)) in H as [-> ->]. apply one_dispatched.
  - destruct (is_exception x) eqn:E.
    + apply runs_await_bind in H as [(b & t3 & -> & H)|(y & -> & ->)]; [|constructor].
      apply (runs_ret_inv (Σ := calls)) in H as [-> ->]. by apply one_failed.
    + apply (runs_raise_inv (Σ := calls)) in H as [-> ->]. constructor.
Qed.

Definition count_of (o : DispatchOutcome) (l : list DispatchOutcome) : Z :=
  Z.of_nat (length (filter (λ o', o' = o) l)).

Definition add_outcomes (r : DispatchSweepResult) (l : list DispatchOutcome) : DispatchSweepResult :=
  MkSweep (sw_considered r) (sw_dispatched r + count_of DISPATCHED l)
    (sw_deferred r + count_of DEFERRED l) (sw_failed r + count_of FAILED l).

Lemma add_outcomes_cons r o l : add_outcomes r (o :: l) = add_outcomes (count_outcome r o) l.
Proof.
  unfold add_outcomes, count_of.
  rewrite !filter_cons. destruct o; repeat case_decide; try done; cbn; f_equal; lia.
Qed.

Lemma dispatch_fold_runs now ms acc t r :
  runs (for_fold ms acc (λ r marker, o ← _dispatch_one marker now; Ret (count_outcome r o))) t (Ok r) →
  ∃ ts os, t = concat ts ∧ r = add_outcomes acc os ∧
    Forall3 (λ m t o, one_marker now m t (Ok o)) ms ts os.
Proof.
  revert acc t. induction ms as [|m ms IH]; intros acc t H; cbn [for_fold] in H.
  - apply (runs_ret_inv (Σ := calls)) in H as [-> [= <-]]. exists [], []. split_and!; [done| |constructor].
    destruct r. unfold add_outcomes, count_of. cbn. f_equal; lia.
  - apply (runs_bind_inv (Σ := calls)) in H as [(acc' & t1 & t2 & -> & H1 & H2)|(x & _ & ?)]; [|done].
    apply (runs_bind_inv (Σ := calls)) in H1 as [(o & t3 & t4 & -> & H1 & H3)|(x & _ & ?)]; [|done].
    apply (runs_ret_inv (Σ := calls)) in H3 as [-> [= ->]].
    apply dispatch_one_runs in H1. apply IH in H2 as (ts & os & -> & -> & Hf).
    exists (t3 :: ts), (o :: os). split_and!; [by rewrite app_nil_r|by rewrite add_outcomes_cons|].
    by constructor.
Qed.

(** A completed pass reads the markers due within the horizon
    once, and for each of them, in that order and independently of the others:
    defers it when another owner has its window; or publishes it exactly once,
    with its own window, due time and a task id fixed by the window and the
    dispatch generation, and then either records the publication until the
    recovery grace has passed or, when publishing failed, releases the lease.
    The result counts exactly these outcomes. *)
Theorem dispatch_due_spec t r
    (Hrun : runs (Σ := calls) dispatch_due t (Ok r)) :
  ∃ now markers ts os,
    t = Ev (Σ := calls) Now (Ok now) ::
        Ev (Σ := calls) (RepoDueMarkers now (dp_horizon d) (dp_batch_size d)) (Ok markers) :: concat ts ∧
    Forall3 (λ m t o, one_marker now m t (Ok o)) markers ts os ∧
    r = MkSweep (Z.of_nat (length markers)) (count_of DISPATCHED os) (count_of DEFERRED os)
          (count_of FAILED os) ∧
    sw_considered r = sw_dispatched r + sw_deferred r + sw_failed r.
Proof.
  unfold dispatch_due in Hrun.
  apply runs_await_bind in Hrun as [(now & t1 & -> & H)|(x & _ & ?)]; [|done].
  apply runs_await_bind in H as [(ms & t2 & -> & H)|(x & _ & ?)]; [|done].
  apply dispatch_fold_runs in H as (ts & os & -> & -> & Hf).
  exists now, ms, ts, os. split_and!; try done.
  unfold add_outcomes. cbn.
  assert (∀ l, Z.of_nat (length l) = count_of DISPATCHED l + count_of DEFERRED l + count_of FAILED l) as Hc.
  { unfold count_of. induction l as [|o l IH]; [done|].
    rewrite !filter_cons. destruct o; repeat case_decide; try done; cbn [length]; lia. }
  rewrite (Forall3_length_lr _ _ _ _ Hf). apply Hc.
Qed.
End dispatcher.

(** ** A concrete pass

    Three markers: one is published, one belongs to another owner, and the
    broker refuses the last. *)

Definition example_dispatcher : WatchScheduleDispatcher :=
  MkDispatcher "api-1" (seconds 60) _DEFAULT_DISPATCH_LEASE_SECONDS
    _DEFAULT_RECOVERY_GRACE_SECONDS _DEFAULT_BATCH_SIZE.

Definition example_markers : list ScheduleMarker :=
  [MkMarker "w1" "w1:0" (seconds 100); MkMarker "w2" "w2:4" (seconds 110);
   MkMarker "w3" "w3:1" (seconds 130)].

Definition dispatch_answer (o : call) : outcome exn (answer o) :=
  match o with
  | Now => Ok (seconds 105)
  | RepoDueMarkers _ _ _ => Ok example_markers
  | RepoClaimDispatch m owner lease =>
      Ok (if String.eqb (mk_watch_id m) "w2" then MkDispatchResult DS_BUSY None
          else MkDispatchResult CLAIMED
                 (Some (MkDispatchClaim (mk_watch_id m) (mk_window_id m) (mk_scheduled_for m)
                          owner 1 (seconds 135))))
  | Enqueue id _ _ _ _ =>
      if String.eqb id "w3" then Exc (OtherError "OperationalError") else Ok ()
  | RepoMarkDispatched _ _ | RepoReleaseDispatch _ => Ok true
  | _ => Exc (OtherError "infrastructure")
  end.

Definition dispatch_record : list call_event * outcome exn DispatchSweepResult :=
  record (Σ := calls) (λ o (s : ()), (dispatch_answer o, s)) (dispatch_due example_dispatcher) ().

Lemma dispatch_outcome : dispatch_record.2 = Ok (MkSweep 3 1 1 1).
Proof. vm_compute. reflexivity. Qed.

Lemma dispatch_example_runs :
  runs (Σ := calls) (dispatch_due example_dispatcher) dispatch_record.1 (Ok (MkSweep 3 1 1 1)).
Proof.
  exact (eq_ind dispatch_record.2 (λ o, runs (Σ := calls) _ dispatch_record.1 o)
           (record_runs _ _ _) _ dispatch_outcome).
Qed.

Lemma dispatch_due_spec_witness :
  ∃ now markers ts os,
    dispatch_record.1 = Ev (Σ := calls) Now (Ok now) ::
        Ev (Σ := calls) (RepoDueMarkers now (seconds 60) 256) (Ok markers) :: concat ts ∧
    Forall3 (λ m t o, one_marker example_dispatcher now m t (Ok o)) markers ts os ∧
    MkSweep 3 1 1 1 = MkSweep (Z.of_nat (length markers)) (count_of DISPATCHED os)
      (count_of DEFERRED os) (count_of FAILED os).
Proof.
  destruct (dispatch_due_spec example_dispatcher _ _ dispatch_example_runs)
    as (now & ms & ts & os & H1 & H2 & H3 & _).
  exists now, ms, ts, os. split; [exact H1|]. split; [exact H2|exact H3].
Defined.
