(* ===== verification/Recovery.v ===== *)
(** * Recovery ([backend/services/watch_recovery.py])

    One pass of the coordinator: leadership, the reconciliation of every
    candidate, the dispatch of due markers, and bounded cleanup.  Expiry goes
    through the watch service when one is wired; the dispatch sweep is the one
    of [Dispatcher].  The process-local pass lock serialises whole passes. *)

From S2P Require Import Prelude Dict Sorting Calendar Schemas Reservation Watch Policy Backoff Prog.
From S2P Require Import Effects WatchSpec WatchLog WatchService Dispatcher.

Definition _DEFAULT_CLEANUP_BATCH_SIZE : Z := 256.

Record RecoveryOutcome := MkRecovery {
  ro_is_leader : bool;
  ro_considered : Z;
  ro_pruned : Z;
  ro_expired : Z;
  ro_synthesized : Z;
  ro_dispatched : Z;
  ro_dispatch_failed : Z;
  ro_failed : Z;
  ro_cleanup_removed : Z;
  ro_backlog : bool;
}.

Definition recovery_ready (o : RecoveryOutcome) : bool :=
  ro_is_leader o && (ro_failed o =? 0) && negb (ro_backlog o).

(** The strings [_reconcile_one] answers. *)
Inductive Action := A_pruned | A_expired | A_noop | A_deferred | A_synthesized | A_preserved.
#[export] Instance Action_eq_dec : EqDecision Action.
Proof. solve_decision. Defined.

(** [RecoveryCoordinator.__init__] *)
Record RecoveryCoordinator := MkCoordinator {
  rv_dispatcher : WatchScheduleDispatcher;
  rv_owner_id : string;
  rv_distributed : bool;
  rv_leader_lease : Z;
  rv_earliest_delay : Z;
  rv_mock_state : bool;
  rv_watch_service : option WatchService;
  rv_cleanup_batch_size : Z;
}.

Section coordinator.
Context (rv : RecoveryCoordinator).

Definition _expire (watch_id : string) : M TransitionResult :=
  match rv_watch_service rv with
  | Some sv => expire sv watch_id
  | None => await (RepoExpire watch_id None false)
  end.

(** The runtime to persist for a candidate whose document is [watch]. *)
Definition _marker_runtime (candidate : RecoveryCandidate) (watch : Watch) (now : Z)
    : option WatchRuntime :=
  match rc_runtime candidate with
  | Some runtime =>
      let window := match rt_window_id runtime with
                    | Some w => if nonempty w then w
                                else window_id_for (rc_watch_id candidate) (rt_cadence_sequence runtime)
                    | None => window_id_for (rc_watch_id candidate) (rt_cadence_sequence runtime)
                    end in
      let base := match rt_scheduled_for runtime with
                  | Some t => t
                  | None => match w_next_check_at watch with Some t => t | None => now end
                  end in
      Some (runtime <| rt_window_id := Some window |>
                    <| rt_scheduled_for := Some (Z.min base (w_expires_at watch)) |>)
  | None =>
      let runtime := migrate_legacy_watch watch (rv_earliest_delay rv) now in
      match rt_window_id runtime, rt_scheduled_for runtime with
      | Some _, Some t =>
          Some (runtime <| rt_scheduled_for := Some (Z.min t (w_expires_at watch)) |>)
      | _, _ => None
      end
  end.

Definition _reconcile_one (candidate : RecoveryCandidate) (now : Z) : M Action :=
  match rc_watch candidate with
  | None =>
      _ ← await (RepoPrune (rc_watch_id candidate) true);
      Ret A_pruned
  | Some watch =>
      if watch_terminal watch then
        _ ← await (RepoPrune (rc_watch_id candidate) false);
        Ret A_pruned
      else if is_exhausted watch now then
        result ← _expire (rc_watch_id candidate);
        match tr_status result with
        | APPLIED => Ret A_expired
        | _ => Ret A_noop
        end
      else if rc_has_live_claim candidate then Ret A_deferred
      else if negb (rc_has_marker candidate) then
        match _marker_runtime candidate watch now with
        | Some runtime =>
            synthesized ← await (RepoSynthesize (rc_watch_id candidate) runtime);
            Ret (if (synthesized : bool) then A_synthesized else A_noop)
        | None => Ret A_noop
        end
      else Ret A_preserved
  end.

Record tally := MkTally { ta_pruned : Z; ta_expired : Z; ta_synthesized : Z; ta_failed : Z }.

Definition count_action (n : tally) (a : option Action) : tally :=
  match a with
  | Some A_pruned => MkTally (ta_pruned n + 1) (ta_expired n) (ta_synthesized n) (ta_failed n)
  | Some A_expired => MkTally (ta_pruned n) (ta_expired n + 1) (ta_synthesized n) (ta_failed n)
  | Some A_synthesized => MkTally (ta_pruned n) (ta_expired n) (ta_synthesized n + 1) (ta_failed n)
  | None => MkTally (ta_pruned n) (ta_expired n) (ta_synthesized n) (ta_failed n + 1)
  | _ => n
  end.

(** One round of the candidate loop. *)
Definition reconcile_candidate (now : Z) (n : tally) (candidate : RecoveryCandidate) : M tally :=
  r ← attempt (_reconcile_one candidate now);
  match r with
  | Ok a => Ret (count_action n (Some a))
  | Exc x => if is_exception x then Ret (count_action n None) else raise x
  end.

(** [(dispatched, failed, has_backlog)] *)
Definition _dispatch_due : M (Z * Z * bool) :=
  r ← attempt (dispatch_due (rv_dispatcher rv));
  match r with
  | Ok sweep => Ret (sw_dispatched sweep, sw_failed sweep, has_backlog sweep)
  | Exc x => if is_exception x then Ret (0, 1, true) else raise x
  end.

Definition _run_cleanup (now : Z) : M (Z * bool) :=
  r ← attempt (await (RepoCleanup now (rv_cleanup_batch_size rv)));
  '(removed, backlog) ← match r with
    | Ok result => Ret (cu_removed result, cu_remaining result)
    | Exc x => if is_exception x then Ret (0, true) else raise x
    end;
  if rv_mock_state rv then
    m ← attempt (await (MockCleanup now (rv_cleanup_batch_size rv)));
    match m with
    | Ok _ => Ret (removed, backlog)
    | Exc x => if is_exception x then Ret (removed, true) else raise x
    end
  else Ret (removed, backlog).

Definition _run_pass : M RecoveryOutcome :=
  now ← await Now;
  listed ← attempt (await RepoCandidates);
  match listed with
  | Exc x =>
      if is_exception x then Ret (MkRecovery true 0 0 0 0 0 0 1 0 true) else raise x
  | Ok candidates =>
      n ← for_fold candidates (MkTally 0 0 0 0) (reconcile_candidate now);
      '(dispatched, dispatch_failed, dispatch_backlog) ← _dispatch_due;
      '(cleaned, cleanup_backlog) ← _run_cleanup now;
      Ret (MkRecovery true (Z.of_nat (length candidates)) (ta_pruned n) (ta_expired n)
             (ta_synthesized n) dispatched dispatch_failed (ta_failed n) cleaned
             ((0 <? ta_failed n) || dispatch_backlog || cleanup_backlog))
  end.

Definition _hold_leadership : M bool :=
  if negb (rv_distributed rv) then Ret true else
  renewed ← await (RepoRenewLeadership (rv_owner_id rv) (rv_leader_lease rv));
  if (renewed : bool) then Ret true
  else await (RepoAcquireLeadership (rv_owner_id rv) (rv_leader_lease rv)).

Definition reconcile_once : M RecoveryOutcome :=
  leading ← attempt _hold_leadership;
  match leading with
  | Exc x =>
      if is_exception x then Ret (MkRecovery false 0 0 0 0 0 0 1 0 true) else raise x
  | Ok false => Ret (MkRecovery false 0 0 0 0 0 0 0 0 false)
  | Ok true => _run_pass
  end.

Definition release : M () :=
  if rv_distributed rv then
    best_effort (_ ← await (RepoReleaseLeadership (rv_owner_id rv)); Ret ())
  else Ret ().
End coordinator.
