(* ===== verification/RecoveryTheorems.v ===== *)
(** * Properties of recovery

    A pass absorbs every failure but a cancellation, and a pass over the
    in-memory repository leaves no active watch without a schedule. *)

From S2P Require Import Prelude Dict Sorting Calendar Schemas Reservation Watch Policy Backoff Prog.
From S2P Require Import Effects WatchService Dispatcher.
From S2P Require Import WatchSpec WatchLog WatchStore WatchStoreCorrect Recovery.

(** ** Failures *)

(** Reading the clock does not fail. *)
Definition clock_rely (o : call) : outcome exn (answer o) → Prop :=
  match o with Now => λ r, match r with Ok _ => True | Exc _ => False end | _ => λ _, True end.

Definition any_call : monitor calls :=
  Monitor (Σ := calls) () (λ _ _, True) (λ _, clock_rely) (λ _ _ _, ()).

Definition only_cancelled {A} (r : outcome exn A) (_ : ()) : Prop :=
  match r with Ok _ => True | Exc x => is_exception x = false end.

(** [try: p  except Exception: ...] with any continuation of that kind. *)
Lemma safe_guarded {A B} (p : M A) (f : outcome exn A → M B) :
  (∀ r, match r with
        | Ok _ => safe any_call () (f r) only_cancelled
        | Exc x => is_exception x = true → safe any_call () (f r) only_cancelled
        end) →
  (∀ x, is_exception x = false → safe any_call () (f (Exc x)) only_cancelled) →
  safe any_call () (attempt p ≫= f) only_cancelled.
Proof.
  intros Hf Hx. apply (safe_attempt_bind any_call).
  eapply safe_mono; [by apply safe_total|]. intros r [] _.
  destruct r as [a|x]; [apply (Hf (Ok a))|].
  destruct (is_exception x) eqn:E; [by apply (Hf (Exc x))|by apply Hx].
Qed.

Ltac guarded :=
  apply safe_guarded; [intros [?|?]; [|intros E; rewrite E]|intros ? E; cbn; by rewrite E].

Lemma safe_run_cleanup rv now :
  safe any_call () (_run_cleanup rv now) only_cancelled.
Proof.
  unfold _run_cleanup.
  assert (∀ p : Z * bool, safe any_call ()
    (let '(removed, backlog) := p in
     if rv_mock_state rv then
       m ← attempt (await (MockCleanup now (rv_cleanup_batch_size rv)));
       match m with
       | Ok _ => Ret (removed, backlog)
       | Exc x => if is_exception x then Ret (removed, true) else raise x
       end
     else Ret (removed, backlog)) only_cancelled) as Hmock.
  { intros [removed backlog]. destruct (rv_mock_state rv); [|done]. guarded; done. }
  guarded; [exact (Hmock (cu_removed _, cu_remaining _))|exact (Hmock (0, true))].
Qed.

Lemma safe_run_pass rv : safe any_call () (_run_pass rv) only_cancelled.
Proof.
  unfold _run_pass. apply (safe_await any_call); [done| |by intros x Hx].
  intros now _. guarded; [|done]. cbn [mnext any_call].
  apply (safe_bind any_call).
  apply (safe_for_fold any_call) with (I := λ _ _, True); [done| |].
  - intros c acc [] _ _. unfold reconcile_candidate.
    eapply safe_mono; [guarded; done|]. intros [?|?] []; done.
  - intros n [] _. cbn beta iota. apply (safe_bind any_call). unfold _dispatch_due.
    eapply safe_mono; [guarded; done|]. intros [[[i j] b]|x] [] Hx; [|exact Hx]. cbn beta iota.
    apply (safe_bind any_call). eapply safe_mono; [apply safe_run_cleanup|].
    by intros [[? ?]|?] [] ?.
Qed.

(** Whatever the repository, the queue, the dispatcher,
    the notifier and the mock store do, a recovery pass raises nothing but the
    cancellation of its own task: every failure ends in the outcome. *)
Theorem recovery_absorbs_failures rv t x
    (Hrun : runs (Σ := calls) (reconcile_once rv) t (Exc x))
    (Hclock : relied any_call () t) :
  x = CancelledError.
Proof.
  assert (safe any_call () (reconcile_once rv) only_cancelled) as Hs.
  { unfold reconcile_once. guarded; [|done]. destruct a; [apply safe_run_pass|done]. }
  destruct (safe_runs any_call _ _ _ _ _ Hs Hrun Hclock) as [_ Hx]. cbn in Hx.
  by destruct x.
Qed.

(** ** A pass over the in-memory repository *)

Section pass.
Context (sha1hex : string → string) (retention : Z).
Context (rv : RecoveryCoordinator) (now : Z).

(** Everything outside the repository; it may fail, but the task is not
    cancelled. *)
Context (ext : ∀ o : call, outcome exn (answer o)).
Hypothesis Hext : ∀ o x, ext o = Exc x → is_exception x = true.

#[local] Instance pass_repository : WatchRepository store :=
  InMemoryWatchRepository sha1hex retention.

Definition answered {A} (r : A * store) : outcome exn A * store := (Ok r.1, r.2).

Definition recovery_world (o : call) (s : store) : outcome exn (answer o) * store :=
  match o return outcome exn (answer o) * store with
  | Now => (Ok now, s)
  | RepoCandidates => (Ok (InMemory.list_recovery_candidates now s), s)
  | RepoExpire id expected force =>
      answered (InMemory.expire_if_eligible sha1hex retention id expected force now s)
  | RepoSynthesize id r => answered (InMemory.synthesize_marker id r now s)
  | RepoPrune id all => (Ok (), InMemory.prune_index_member id all s)
  | RepoCleanup n batch => answered (InMemory.cleanup_due n batch s)
  | RepoDueMarkers n horizon limit => (Ok (InMemory.due_schedule_markers n horizon limit s), s)
  | RepoClaimDispatch m owner lease => answered (InMemory.claim_dispatch m owner lease now s)
  | RepoMarkDispatched c after => answered (InMemory.mark_dispatched c after s)
  | RepoReleaseDispatch c => answered (InMemory.release_dispatch c s)
  | o => (ext o, s)
  end.

#[local] Abbreviation runs_on := (run (Σ := calls) recovery_world).

(** An active watch is exhausted no more, and it is scheduled or being polled. *)
Definition settled (v : view) : Prop :=
  ∀ w, v_watch v = Some w → watch_terminal w = true ∨
    is_exhausted w now = false ∧
    (is_Some (v_marker v) ∨ ∃ h, v_claim v = Some h ∧ now < cls_expires_at h).

(** A live watch keeps its document. *)
Definition kept (v v' : view) : Prop :=
  ∀ w, v_watch v = Some w → watch_terminal w = false → is_exhausted w now = false →
    v_watch v' = Some w.

Lemma run_record_history sv w owner user rev s :
  runs_on (_record_history sv w owner user rev) s = (Ok (), s).
Proof.
  unfold _record_history. destruct (sv_history sv); [|done]. cbn.
  destruct (ext (RecordHistory w owner user rev)) as [[]|x] eqn:E; [done|]. cbn.
  by rewrite (Hext _ _ E).
Qed.

Lemma run_notify w e s : runs_on (_notify w e) s = (Ok (), s).
Proof.
  unfold _notify. cbn. destruct (ext (Notify w e)) as [[]|x] eqn:E; [done|]. cbn.
  by rewrite (Hext _ _ E).
Qed.

Lemma run_expire id s :
  runs_on (_expire rv id) s =
    answered (InMemory.expire_if_eligible sha1hex retention id None false now s).
Proof.
  unfold _expire. destruct (rv_watch_service rv) as [sv|]; [|by cbn].
  unfold expire. rewrite (run_await _ (RepoExpire id None false)). unfold recovery_world at 1, answered at 1.
  destruct (InMemory.expire_if_eligible _ _ _ _ _ _ _) as [res s']. cbn [fst snd].
  destruct (tr_status res); try done. destruct (tr_watch res) as [w|]; [|done].
  rewrite run_bind, run_record_history. destruct (tr_event_id res); [|done].
  by rewrite run_bind, run_notify.
Qed.

(** What the listing says of a watch. *)
Definition listed (c : RecoveryCandidate) (id : string) (v : view) : Prop :=
  rc_watch_id c = id ∧ rc_watch c = v_watch v ∧ rc_runtime c = v_runtime v ∧
  rc_has_marker c = is_some (v_marker v) ∧
  (rc_has_live_claim c = true ↔ ∃ h, v_claim v = Some h ∧ now < cls_expires_at h).

Lemma marker_runtime_some c w :
  watch_terminal w = false →
  ∃ r win t, _marker_runtime rv c w now = Some r ∧ rt_window_id r = Some win ∧
    rt_scheduled_for r = Some t ∧ t <= w_expires_at w.
Proof.
  intros Hw. unfold _marker_runtime. destruct (rc_runtime c) as [r|]; [|unfold migrate_legacy_watch; rewrite Hw];
    cbn; do 3 eexists; (split; [done|]); cbn; (split; [done|]); (split; [done|lia]).
Qed.

Lemma expire_settles id w v res v' :
  expire_post sha1hex retention id None false now v res v' → v_watch v = Some w →
  watch_terminal w = false → is_exhausted w now = true → settled v'.
Proof.
  intros Hp Hw Ht Hx. inversion Hp; try congruence. intros w1 [= <-]. by left.
Qed.

Lemma synthesize_settles id r w v b v' :
  synthesize_post id r now v b v' → v_watch v = Some w → watch_terminal w = false →
  is_exhausted w now = false → v_marker v = None → marker_of id r ≠ None →
  ¬ (∃ h, v_claim v = Some h ∧ now < cls_expires_at h) → settled v' ∧ kept v v'.
Proof.
  intros Hp Hw Ht Hx Hm Hmo Hcl.
  inversion Hp as [Href|w0 Hw0 Ht0 _ Hn|w0 m Hw0 Ht0 Hc0 Hmn Hmo0]; subst.
  - exfalso. destruct (Href w Hw Ht) as [?|[[? ?]|?]]; [done|congruence|done].
  - done.
  - split; [|by intros w1]. intros w1 Hw1. right. cbn in *. simplify_eq. split; [done|]. eauto.
Qed.

#[local] Arguments view_of : simpl never.

Lemma reconcile_settles c id w s :
  good_store s → listed c id (view_of id s) → st_watches s !! id = Some w →
  watch_terminal w = false →
  ∃ a s', runs_on (_reconcile_one rv c now) s = (Ok a, s') ∧ good_store s' ∧
    settled (view_of id s') ∧ kept (view_of id s) (view_of id s') ∧
    ∀ id', id' ≠ id → view_of id' s' = view_of id' s.
Proof.
  intros Hg (Hid & Hw & Hr & Hm & Hc) Hs Hact. unfold _reconcile_one.
  assert (v_watch (view_of id s) = Some w) as Hvw by exact Hs.
  rewrite Hvw in Hw. rewrite Hw, Hact, Hid.
  destruct (is_exhausted w now) eqn:Hex.
  { rewrite run_bind, run_expire. unfold answered.
    destruct (inmem_expire sha1hex retention id None false now s) as [Hp Hframe].
    pose proof (inmem_good sha1hex retention (CExpire id None false now) s Hg) as Hg'. cbn in Hg'.
    destruct (InMemory.expire_if_eligible sha1hex retention id None false now s) as [res s'].
    cbn [fst snd] in *. pose proof (expire_settles _ w _ _ _ Hp Hs Hact Hex).
    exists (match tr_status res with APPLIED => A_expired | _ => A_noop end), s'.
    split_and!; try done; [by destruct (tr_status res)|]. intros w1 Hw1 _ Hx. congruence. }
  destruct (rc_has_live_claim c) eqn:Hlive.
  { exists A_deferred, s. split_and!; try done; [|by intros w1]. intros w1 Hw1. right.
    rewrite Hvw in Hw1. simplify_eq. split; [done|]. right. by apply Hc. }
  rewrite Hm. destruct (v_marker (view_of id s)) as [m|] eqn:Hmk; cbn [negb is_some].
  { exists A_preserved, s. split_and!; try done; [|by intros w1]. intros w1 Hw1. right.
    rewrite Hvw in Hw1. simplify_eq. split; [done|]. left. rewrite Hmk. eauto. }
  destruct (marker_runtime_some c w Hact) as (r & win & t & -> & Hwin & Ht & _).
  change (negb (is_some None)) with true. cbv iota.
  rewrite (run_await _ (RepoSynthesize id r)). unfold recovery_world, answered.
  destruct (inmem_synthesize sha1hex retention id r now s) as [Hp Hframe].
  pose proof (inmem_good sha1hex retention (CSynthesize id r now) s Hg) as Hg'. cbn in Hg'.
  cbn. destruct (InMemory.synthesize_marker id r now s) as [b s']. cbn in *.
  assert (settled (view_of id s') ∧ kept (view_of id s) (view_of id s')) as [Hset Hkept].
  { eapply synthesize_settles; try done.
    - unfold marker_of. by rewrite Hwin, Ht.
    - intros Hx%Hc. congruence. }
  by exists (if b then A_synthesized else A_noop), s'.
Qed.

Lemma reconcile_fold cs acc s :
  good_store s → NoDup (map rc_watch_id cs) →
  (∀ c, c ∈ cs → ∃ w, listed c (rc_watch_id c) (view_of (rc_watch_id c) s) ∧
     st_watches s !! rc_watch_id c = Some w ∧ watch_terminal w = false) →
  ∃ n s', runs_on (for_fold cs acc (reconcile_candidate rv now)) s = (Ok n, s') ∧ good_store s' ∧
    (∀ id, id ∈ map rc_watch_id cs → settled (view_of id s')) ∧
    (∀ id, kept (view_of id s) (view_of id s')) ∧
    (∀ id, id ∉ map rc_watch_id cs → view_of id s' = view_of id s).
Proof.
  revert acc s. induction cs as [|c cs IH]; intros acc s Hg Hnd Hcs.
  { exists acc, s. split_and!; try done; [set_solver|by intros id w]. }
  cbn [for_fold map] in *. apply NoDup_cons in Hnd as [Hnin Hnd].
  destruct (Hcs c ltac:(left)) as (w & Hl & Hw & Hact).
  destruct (reconcile_settles c _ w s Hg Hl Hw Hact) as (a & s1 & Hr & Hg1 & Hset & Hk & Hf).
  assert (∀ c', c' ∈ cs → view_of (rc_watch_id c') s1 = view_of (rc_watch_id c') s) as Hf'.
  { intros c' Hin. apply Hf. intros Heq. apply Hnin. rewrite <-Heq. by apply list_elem_of_fmap_2. }
  destruct (IH (count_action acc (Some a)) s1 Hg1 Hnd) as (n & s2 & Hr2 & Hg2 & Hset2 & Hk2 & Hf2).
  { intros c' Hin. destruct (Hcs c' ltac:(by right)) as (w' & Hl' & Hw' & Hact').
    exists w'. rewrite (Hf' c' Hin). split_and!; try done.
    change (v_watch (view_of (rc_watch_id c') s1) = Some w'). by rewrite (Hf' c' Hin). }
  exists n, s2. split_and!; [|done| | |].
  - rewrite run_bind. unfold reconcile_candidate at 1. rewrite run_attempt_bind, Hr. exact Hr2.
  - intros id [->|Hin]%elem_of_cons; [|by apply Hset2]. by rewrite Hf2.
  - intros id w' Hw' Ht Hx. apply Hk2; try done.
    destruct (decide (id = rc_watch_id c)) as [->|Hne]; [by apply Hk|]. by rewrite Hf.
  - intros id Hni. rewrite Hf2, Hf by set_solver. done.
Qed.

(** *** The listing *)

Lemma listing_spec s :
  good_store s →
  let cs := InMemory.list_recovery_candidates now s in
  NoDup (map rc_watch_id cs) ∧
  (∀ c, c ∈ cs → ∃ w, listed c (rc_watch_id c) (view_of (rc_watch_id c) s) ∧
     st_watches s !! rc_watch_id c = Some w ∧ watch_terminal w = false) ∧
  (∀ id w, st_watches s !! id = Some w → watch_terminal w = false → id ∈ map rc_watch_id cs).
Proof.
  intros (Hwf & _ & _). cbn zeta. unfold InMemory.list_recovery_candidates.
  set (f := λ '(watch_id, watch), _). split_and!.
  - assert (map rc_watch_id (omap f (items (st_watches s))) `sublist_of` (items (st_watches s)).*1) as Hsub.
    { induction (items (st_watches s)) as [|[id w] l IH]; [done|]. cbn.
      destruct (negb _); cbn; [by apply sublist_cons|by apply sublist_skip]. }
    by eapply sublist_NoDup.
  - intros c Hc. apply list_elem_of_omap in Hc as ([id w] & Hin & Hf).
    apply dict_elem_of_items in Hin; [|done]. unfold f in Hf.
    destruct (negb (bool_decide (w_status w = ACTIVE))) eqn:E; [done|]. injection Hf as <-.
    apply negb_false_iff, bool_decide_eq_true in E. exists w. cbn.
    split; [|split; [done|by apply watch_terminal_false]]. unfold listed. cbn. split_and!; try done.
    { change (v_marker (view_of id s)) with (st_markers s !! id). unfold dict_mem.
      by destruct (st_markers s !! id). }
    change (v_claim (view_of id s)) with (st_claims s !! id).
    destruct (st_claims s !! id) as [h|].
    + split; [intros Hx%Z.ltb_lt; eauto|]. intros (h' & [= <-] & ?). by apply Z.ltb_lt.
    + split; [done|]. by intros (h' & ? & ?).
  - intros id w Hw Ht%watch_terminal_false. apply list_elem_of_fmap.
    eexists. split; cycle 1.
    { apply list_elem_of_omap. exists (id, w). split; [by apply dict_elem_of_items|].
      unfold f. by rewrite bool_decide_true. }
    done.
Qed.

(** *** The dispatch sweep and cleanup *)

Definition dispatch_call (o : call) : Prop :=
  match o with
  | Now | RepoDueMarkers _ _ _ | RepoClaimDispatch _ _ _ | Enqueue _ _ _ _ _
  | RepoMarkDispatched _ _ | RepoReleaseDispatch _ => True
  | _ => False
  end.

Definition dispatch_monitor : monitor calls :=
  Monitor (Σ := calls) () (λ _, dispatch_call)
    (λ _ _ r, match r with Ok _ => True | Exc x => is_exception x = true end) (λ _ _ _, ()).

Definition exceptional {A} (r : outcome exn A) (_ : ()) : Prop :=
  match r with Ok _ => True | Exc x => is_exception x = true end.

Lemma safe_dispatch_one d m n : safe dispatch_monitor () (_dispatch_one d m n) exceptional.
Proof.
  unfold _dispatch_one. apply (safe_await dispatch_monitor); [done| |by intros].
  intros r _. destruct (dr_status r); [|done..]. destruct (dr_claim r) as [c|]; [|done].
  apply (safe_attempt_bind dispatch_monitor), (safe_await_last dispatch_monitor); [done|].
  intros [u|x] Hx.
  - by apply (safe_await dispatch_monitor).
  - cbn in Hx. rewrite Hx. by apply (safe_await dispatch_monitor).
Qed.

Lemma safe_dispatch_due d : safe dispatch_monitor () (dispatch_due d) exceptional.
Proof.
  unfold dispatch_due. apply (safe_await dispatch_monitor); [done| |by intros]. intros n _.
  apply (safe_await dispatch_monitor); [done| |by intros]. intros ms _.
  apply (safe_for_fold dispatch_monitor) with (I := λ _ _, True); [done| |done].
  intros m acc [] _ _. apply (safe_bind dispatch_monitor).
  eapply safe_mono; [apply safe_dispatch_one|]. by intros [?|?] [] ?.
Qed.

Definition same_views (s0 s : store) : Prop :=
  (good_store s0 → good_store s) ∧ ∀ id, view_of id s = view_of id s0.

Lemma run_dispatch_due s :
  ∃ t s', runs_on (_dispatch_due rv) s = (Ok t, s') ∧ same_views s s'.
Proof.
  destruct (safe_run dispatch_monitor recovery_world (λ _ s', same_views s s') ()
              (dispatch_due (rv_dispatcher rv)) exceptional s) as (σ' & Hq & Hs).
  - intros [] o s1 [Hg Hv] Ho. destruct o; try done; cbn;
      unfold InMemory.claim_dispatch, InMemory.mark_dispatched, InMemory.release_dispatch;
      repeat case_match; cbn; try done.
    split; [by eapply Hext|done].
  - done.
  - apply safe_dispatch_due.
  - unfold _dispatch_due. rewrite run_attempt_bind.
    destruct (run _ _ s) as [[sw|x] s']; cbn in Hq, Hs |- *; [eauto|].
    rewrite Hq. cbn. eauto.
Qed.

Lemma cleanup_settles v v' : cleanup_post now v v' → (settled v → settled v') ∧ kept v v'.
Proof.
  unfold settled, kept. intros Hp. inversion Hp as [|d Hd Hle Hw|w d Hw Ht Hd Hle]; subst; try done.
  split; [by intros _ w'|]. cbn. intros w'. rewrite Hw. intros [= <-]. congruence.
Qed.

Lemma run_cleanup_settled s :
  good_store s →
  ∃ b s', runs_on (_run_cleanup rv now) s = (Ok b, s') ∧
    ∀ id, (settled (view_of id s) → settled (view_of id s')) ∧ kept (view_of id s) (view_of id s').
Proof.
  intros Hg. unfold _run_cleanup. rewrite run_attempt_bind. cbn.
  pose proof (inmem_cleanup sha1hex now (rv_cleanup_batch_size rv) s Hg) as Hp.
  destruct (InMemory.cleanup_due now (rv_cleanup_batch_size rv) s) as [res s'].
  assert (∀ id, (settled (view_of id s) → settled (view_of id s')) ∧ kept (view_of id s) (view_of id s'))
    as Hk.
  { intros id. apply cleanup_settles, Hp. }
  cbn. destruct (rv_mock_state rv); cbn; [|eauto].
  destruct (ext (MockCleanup now (rv_cleanup_batch_size rv))) as [u|x] eqn:E; cbn; [eauto|].
  rewrite (Hext _ _ E). cbn. eauto.
Qed.

(** C4 (nothing is forgotten). When no other client interferes, one recovery
    pass over the in-memory repository completes; afterwards every watch that
    is still active has lifetime and attempts left and is either scheduled by a
    durable marker or owned by a poll with a live lease, and no such watch had
    its document changed, whatever the queue, the history, the notifier and the
    mock store answered. *)
Theorem recovery_forgets_nothing s
    (Hg : good_store s) (Hlocal : rv_distributed rv = false) :
  ∃ o s', runs_on (reconcile_once rv) s = (Ok o, s') ∧ ro_is_leader o = true ∧
    ∀ id, settled (view_of id s') ∧ kept (view_of id s) (view_of id s').
Proof.
  assert (runs_on (reconcile_once rv) s = runs_on (_run_pass rv) s) as ->.
  { unfold reconcile_once, _hold_leadership. by rewrite Hlocal. }
  assert (∀ k : outcome exn (list RecoveryCandidate) → M RecoveryOutcome, runs_on (listed ← attempt (await RepoCandidates); k listed) s
    = runs_on (k (Ok (InMemory.list_recovery_candidates now s))) s) as Hlist by done.
  unfold _run_pass. rewrite (run_await _ Now). unfold recovery_world at 1. rewrite Hlist. clear Hlist.
  destruct (listing_spec s Hg) as (Hnd & Hcs & Hall).
  set (cs := InMemory.list_recovery_candidates now s) in *.
  destruct (reconcile_fold cs (MkTally 0 0 0 0) s Hg Hnd Hcs) as (n & s1 & Hr1 & Hg1 & Hset & Hk1 & Hf).
  destruct (run_dispatch_due s1) as ([[i j] b] & s2 & Hr2 & Hg2 & Hv2).
  destruct (run_cleanup_settled s2 (Hg2 Hg1)) as ([m b'] & s3 & Hr3 & Hk3).
  eexists _, s3. split_and!.
  - rewrite run_bind, Hr1. rewrite run_bind, Hr2. rewrite run_bind, Hr3. reflexivity.
  - done.
  - intros id. destruct (Hk3 id) as [Hs3 Hkept]. split.
    + apply Hs3. rewrite Hv2. destruct (decide (id ∈ map rc_watch_id cs)) as [Hin|Hni]; [by apply Hset|].
      rewrite Hf by done. intros w Hw. left.
      destruct (watch_terminal w) eqn:Ht; [done|]. destruct Hni. by eapply Hall.
    + rewrite Hv2 in Hkept. intros w Hw Ht Hx. apply Hkept; try done. by apply Hk1.
Qed.
End pass.

(** *** A concrete pass

    A legacy document without a sidecar, an exhausted watch, and everything
    outside the repository down. *)

Definition example_store : store :=
  empty_store <| st_watches :=
    <["watch_2"%string := example_watch <| w_watch_id := "watch_2"%string |> <| w_attempts := 200 |>]>
      (<["watch_1"%string := example_watch]> ∅) |>.

Definition example_coordinator : RecoveryCoordinator :=
  MkCoordinator (MkDispatcher "api-1" (seconds 60) (seconds 30) (seconds 60) 256) "api-1" false
    (seconds 60) (seconds 150) true None 256.

Definition all_down (o : call) : outcome exn (answer o) := Exc (OtherError "down").

Lemma all_down_ok o x : all_down o = Exc x → is_exception x = true.
Proof. by intros [= <-]. Qed.

Lemma example_store_good : good_store example_store.
Proof. split_and!; [apply dict_wf_insert, dict_wf_insert| |]; apply dict_wf_empty. Qed.

Definition example_pass : outcome exn RecoveryOutcome * store :=
  run (Σ := calls) (recovery_world (λ x, x) (days 7) (seconds 100) all_down)
    (reconcile_once example_coordinator) example_store.

Lemma example_pass_outcome :
  example_pass.1 = Ok (MkRecovery true 2 0 1 1 0 1 0 0 true) ∧
  st_markers example_store !! "watch_1"%string = None ∧
  st_markers example_pass.2 !! "watch_1"%string = Some (MkMarker "watch_1" "watch_1:0" (seconds 90)) ∧
  w_status <$> st_watches example_pass.2 !! "watch_2"%string = Some EXPIRED.
Proof. vm_compute. done. Qed.

Lemma recovery_forgets_nothing_witness :
  st_markers example_store !! "watch_1"%string = None ∧
  ∃ o s', run (Σ := calls) (recovery_world (λ x, x) (days 7) (seconds 100) all_down)
            (reconcile_once example_coordinator) example_store = (Ok o, s') ∧
    ro_is_leader o = true ∧
    ∀ id, settled (seconds 100) (view_of id s') ∧
          kept (seconds 100) (view_of id example_store) (view_of id s').
Proof.
  split; [apply example_pass_outcome|].
  exact (recovery_forgets_nothing (λ x, x) (days 7) example_coordinator (seconds 100) all_down
    all_down_ok example_store example_store_good eq_refl).
Defined.

(** A pass whose task is cancelled in the candidate listing. *)
Lemma recovery_absorbs_failures_witness :
  let t := [Ev (Σ := calls) Now (Ok (seconds 100)); Ev (Σ := calls) RepoCandidates (Exc CancelledError)] in
  runs (Σ := calls) (reconcile_once example_coordinator) t (Exc CancelledError) ∧
  ∀ x, runs (Σ := calls) (reconcile_once example_coordinator) t (Exc x) → x = CancelledError.
Proof.
  split.
  - apply (runs_call (Σ := calls)), (runs_call (Σ := calls)), (runs_raise (Σ := calls)).
  - intros x Hx. exact (recovery_absorbs_failures _ _ _ Hx ltac:(by vm_compute)).
Defined.

(** The runtime a pass writes for a watch without a marker keeps the
    revision and phase its history rests on, names a window, is due no later
    than the deadline of the watch, and so calls for a durable marker. *)
Theorem repair_keeps_history rv c w now r v
    (Hw : watch_terminal w = false) (Hc : rc_runtime c = v_runtime v)
    (Hr : _marker_runtime rv c w now = Some r) :
  repairs r v ∧
  ∃ win due, marker_of (rc_watch_id c) r = Some (MkMarker (rc_watch_id c) win due) ∧
    due <= w_expires_at w.
Proof.
  unfold _marker_runtime in Hr. unfold repairs, marker_of. rewrite <-Hc.
  destruct (rc_runtime c) as [r0|]; [|unfold migrate_legacy_watch in Hr; rewrite Hw in Hr];
    injection Hr as <-; cbn; (split; [done|]); do 2 eexists; (split; [done|lia]).
Qed.

Lemma repair_keeps_history_witness :
  ∃ win due, marker_of "watch_1"
    (migrate_legacy_watch example_watch (seconds 150) (seconds 100) <| rt_scheduled_for := Some (seconds 90) |>)
      = Some (MkMarker "watch_1" win due) ∧ due <= days 2.
Proof.
  exact (proj2 (repair_keeps_history example_coordinator
    (MkCandidate "watch_1" (Some example_watch) None false false) example_watch (seconds 100) _
    (legacy_view example_watch) eq_refl eq_refl eq_refl)).
Defined.
