(* ===== verification/Venues.v ===== *)
(** * The mock venue catalog ([backend/data/venues.py])

    The holiday calendar, opening hours, the catalog and the deterministic
    resolution of a venue name.  Text is ASCII, on which the NFKD normal form
    is the identity and no character is a combining accent, so [_normalize]
    casefolds, drops apostrophes and turns punctuation into single spaces. *)

From S2P Require Import Prelude Dict Calendar Schemas.

Definition SLOT_INTERVAL_MINUTES : Z := 15.
Definition MAX_GENERATED_SLOTS : Z := 16.

(** [range(2024, 2032)] *)
Definition SUPPORTED_YEARS : list Z := seqZ 2024 8.

Definition _MONDAY : Z := 0.
Definition _SUNDAY : Z := 6.

(** ** Holidays *)

Definition _nth_weekday (y m wd nth : Z) : date :=
  let first := Date y m 1 in
  let offset := (wd - weekday first) mod 7 in
  add_days first (offset + 7 * (nth - 1)).

Definition _easter_sunday (y : Z) : date :=
  let a := y mod 19 in
  let b := y / 100 in let c := y mod 100 in
  let d := b / 4 in let e := b mod 4 in
  let f := (b + 8) / 25 in
  let g := (b - f + 1) / 3 in
  let h := (19 * a + b - d - g + 15) mod 30 in
  let i := c / 4 in let k := c mod 4 in
  let l := (32 + 2 * e + 2 * i - h - k) mod 7 in
  let m := (a + 11 * h + 22 * l) / 451 in
  let n := h + l - 7 * m + 114 in
  Date y (n / 31) (n mod 31 + 1).

Definition _victoria_day (y : Z) : date :=
  let may_24 := Date y 5 24 in
  add_days may_24 (- weekday may_24).

Definition holiday_days (y : Z) : list (date * string) :=
  let easter := _easter_sunday y in
  [(Date y 1 1, "New Year's Day");
   (_nth_weekday y 2 _MONDAY 3, "Family Day");
   (Date y 2 14, "Valentine's Day");
   (add_days easter (-2), "Good Friday");
   (easter, "Easter Sunday");
   (add_days easter 1, "Easter Monday");
   (_nth_weekday y 5 _SUNDAY 2, "Mother's Day");
   (_victoria_day y, "Victoria Day");
   (Date y 7 1, "Canada Day");
   (_nth_weekday y 8 _MONDAY 1, "Civic Holiday");
   (_nth_weekday y 9 _MONDAY 1, "Labour Day");
   (_nth_weekday y 10 _MONDAY 2, "Thanksgiving Monday");
   (Date y 12 24, "Christmas Eve");
   (Date y 12 25, "Christmas Day");
   (Date y 12 26, "Boxing Day");
   (Date y 12 31, "New Year's Eve")]%string.

(** [{key(x): value(x) for x in l}] *)
Definition dict_of {V} (l : list (string * V)) : dict V :=
  fold_left (λ d kv, <[kv.1 := kv.2]> d) l ∅.

Definition _holidays_for (y : Z) : dict string :=
  dict_of ((λ dn, (isoformat dn.1, dn.2)) <$> holiday_days y).

Definition HOLIDAY_CALENDAR : dict string :=
  dict_of (SUPPORTED_YEARS ≫= λ y, items (_holidays_for y)).

(** A [frozenset] of ISO dates. *)
Definition _dates_named (names : list string) : gset string :=
  list_to_set (List.filter (λ kv, bool_decide (kv.2 ∈ names)) (items HOLIDAY_CALENDAR)).*1.

Definition STATUTORY_CLOSURES : gset string :=
  _dates_named ["New Year's Day"; "Good Friday"; "Easter Sunday"; "Thanksgiving Monday";
                "Christmas Day"; "Boxing Day"].

Definition RECREATION_CLOSURES : gset string :=
  _dates_named ["New Year's Day"; "Easter Sunday"; "Christmas Day"; "Boxing Day"].

Definition COMMON_SELLOUT_DATES : gset string :=
  _dates_named ["Valentine's Day"; "Mother's Day"; "Easter Monday"; "Family Day"; "Victoria Day";
                "Canada Day"; "Civic Holiday"; "Labour Day"; "Christmas Eve"; "New Year's Eve"].

Definition RECREATION_SELLOUT_DATES : gset string :=
  _dates_named ["Family Day"; "Victoria Day"; "Canada Day"; "Civic Holiday"; "Labour Day"].

Definition holiday_name (d : date) : option string := HOLIDAY_CALENDAR !! isoformat d.

(** ** Venues *)

Definition _WORDS_IGNORED_WHEN_MATCHING : gset string :=
  list_to_set ["the"; "and"; "of"; "at"; "a"]%string.

Record OpeningHours := MkHours { open_time : string; close_time : string }.

Record VenueProfile := MkProfile {
  weekly_hours : list (option OpeningHours);
  max_party_size : Z;
  minimum_stay_minutes : Z;
  closed_dates : gset string;
  sold_out_dates : gset string;
}.

Definition hours_for (p : VenueProfile) (d : date) : option OpeningHours :=
  if decide (isoformat d ∈ closed_dates p) then None
  else mjoin (weekly_hours p !! Z.to_nat (weekday d)).

Definition is_sold_out (p : VenueProfile) (d : date) : bool :=
  bool_decide (isoformat d ∈ sold_out_dates p).

Record Venue := MkVenue {
  ve_name : string;
  ve_venue_type : VenueType;
  ve_profile : VenueProfile;
  ve_aliases : list string;
}.

Inductive VenueResolutionStatus := RESOLVED | AMBIGUOUS | VR_UNKNOWN.

Record VenueResolution := MkResolution {
  vr_status : VenueResolutionStatus;
  vr_venue : option Venue;
  vr_candidates : list Venue;
}.

Definition _hours (open_time close_time : string) : OpeningHours := MkHours open_time close_time.

(** [x or y] *)
Definition or_else {A} (x y : option A) : option A :=
  match x with Some _ => x | None => y end.

Definition _week (weekday friday saturday sunday monday : option OpeningHours)
    (monday_closed : bool) : list (option OpeningHours) :=
  let friday := or_else friday weekday in
  let saturday := or_else saturday friday in
  let sunday := match sunday with Some _ => sunday | None => weekday end in
  let monday := if monday_closed then None else or_else monday weekday in
  [monday; weekday; weekday; weekday; friday; saturday; sunday].

Definition _restaurant_profile (weekly : list (option OpeningHours)) (max_party : Z)
    (extra_closures : gset string) : VenueProfile :=
  MkProfile weekly max_party 90 (STATUTORY_CLOSURES ∪ extra_closures) COMMON_SELLOUT_DATES.

Definition _recreation_profile (weekly : list (option OpeningHours)) (max_party : Z)
    : VenueProfile :=
  MkProfile weekly max_party 60 RECREATION_CLOSURES RECREATION_SELLOUT_DATES.

Definition DEFAULT_VENUE_PROFILE : VenueProfile :=
  MkProfile (_week (Some (_hours "11:00" "22:00")) (Some (_hours "11:00" "23:00")) None None None false)
    12 90 STATUTORY_CLOSURES COMMON_SELLOUT_DATES.

Definition VENUE_CATALOG : list Venue := [
  MkVenue "The Bauer Kitchen" RESTAURANT
    (_restaurant_profile
       (_week (Some (_hours "11:30" "22:00")) (Some (_hours "11:30" "23:00")) None (Some (_hours "10:00" "21:00")) None false)
       10 ∅)
    ["bauer"];
  MkVenue "Proof Kitchen + Lounge" RESTAURANT
    (_restaurant_profile
       (_week (Some (_hours "11:00" "22:00")) (Some (_hours "11:00" "23:30")) None (Some (_hours "11:00" "21:00")) None false)
       12 ∅)
    ["proof"];
  MkVenue "The Charcoal Steak House" RESTAURANT
    (_restaurant_profile
       (_week (Some (_hours "16:30" "22:00")) (Some (_hours "16:30" "23:00")) None (Some (_hours "16:00" "21:00")) None true)
       14 ∅)
    ["charcoal"];
  MkVenue "Golf's Steak House" RESTAURANT
    (_restaurant_profile
       (_week (Some (_hours "17:00" "22:00")) (Some (_hours "17:00" "23:00")) None None None true)
       8 ∅)
    ["golfs"];
  MkVenue "Ethel's Lounge" RESTAURANT
    (_restaurant_profile
       (_week (Some (_hours "12:00" "23:00")) (Some (_hours "12:00" "23:45")) None None None false)
       8 ∅)
    ["ethels"];
  MkVenue "Grand Trunk Saloon" RESTAURANT
    (_restaurant_profile
       (_week (Some (_hours "16:00" "23:00")) (Some (_hours "16:00" "23:45")) None (Some (_hours "16:00" "22:00")) None false)
       12 ∅)
    ["grand trunk"];
  MkVenue "Grand River Rocks" RECREATION
    (_recreation_profile
       (_week (Some (_hours "06:00" "23:00")) None (Some (_hours "09:00" "22:00")) (Some (_hours "09:00" "21:00")) None false)
       20)
    ["grr"; "grand river rocks climbing gym"];
  MkVenue "Waterloo Bowling Lanes" RECREATION
    (_recreation_profile
       (_week (Some (_hours "12:00" "22:00")) (Some (_hours "12:00" "00:00")) (Some (_hours "10:00" "00:00")) (Some (_hours "10:00" "21:00")) None false)
       24)
    ["waterloo bowling"];
  MkVenue "Chicopee Tube Park" RECREATION
    (_recreation_profile
       (_week None (Some (_hours "16:00" "21:00")) (Some (_hours "10:00" "21:00")) (Some (_hours "10:00" "17:00")) None false)
       30)
    ["chicopee"]]%string.

(** ** Name resolution *)

(** [s.split()] *)
Fixpoint split_aux (word : list ascii) (l : list ascii) : list string :=
  match l with
  | [] => match word with [] => [] | _ => [of_chars (rev word)] end
  | c :: l' =>
      if is_space c then
        match word with [] => split_aux [] l' | _ => of_chars (rev word) :: split_aux [] l' end
      else split_aux (c :: word) l'
  end.
Definition split (s : string) : list string := split_aux [] (chars s).

Definition _normalize (value : string) : string :=
  let without_apostrophes := List.filter (λ c, negb (Ascii.eqb c "'")) (chars value) in
  let cleaned := map (λ c, if is_alnum c then c else " "%char) (map to_lower without_apostrophes) in
  join " " (split (of_chars cleaned)).

Definition _match_tokens (value : string) : gset string :=
  list_to_set (split (_normalize value)) ∖ _WORDS_IGNORED_WHEN_MATCHING.

Definition _venue_keys (v : Venue) : list string :=
  _normalize (ve_name v) :: map _normalize (ve_aliases v).

(** The exact matches and the partial ones. *)
Definition exact_matches (catalog : list Venue) (query : string) : list Venue :=
  List.filter (λ v, bool_decide (query ∈ _venue_keys v)) catalog.

Definition partial_matches (catalog : list Venue) (tokens : gset string) : list Venue :=
  List.filter (λ v, existsb (λ key, bool_decide (tokens ⊆ _match_tokens key))
                      (ve_name v :: ve_aliases v)) catalog.

Definition resolve_venue (venue_name : string) : VenueResolution :=
  let unknown := MkResolution VR_UNKNOWN None [] in
  let query := _normalize venue_name in
  if negb (nonempty query) then unknown else
  match exact_matches VENUE_CATALOG query with
  | [v] => MkResolution RESOLVED (Some v) [v]
  | (_ :: _) as l => MkResolution AMBIGUOUS None l
  | [] =>
      let query_tokens := _match_tokens venue_name in
      if decide (query_tokens = ∅) then unknown else
      match partial_matches VENUE_CATALOG query_tokens with
      | [v] => MkResolution RESOLVED (Some v) [v]
      | (_ :: _) as l => MkResolution AMBIGUOUS None l
      | [] => unknown
      end
  end.

Definition profile_for (venue_name : string) : VenueProfile :=
  match vr_venue (resolve_venue venue_name) with
  | Some v => ve_profile v
  | None => DEFAULT_VENUE_PROFILE
  end.
