(* ===== verification/VenueTheorems.v ===== *)
(** * The venue catalog: theorems

    The holiday algorithms against reference definitions, the holiday
    calendar, the well-formedness of every venue's rules, and what resolving a
    name means. *)

From S2P Require Import Prelude Dict Calendar CalendarFacts Schemas Venues.

(** ** Holiday algorithms *)

Theorem nth_weekday_spec y m wd n :
  1 <= m <= 12 → 0 <= wd < 7 → 1 <= n <= 4 →
  ∃ d, _nth_weekday y m wd n = Date y m d ∧ 7 * (n - 1) < d <= 7 * n ∧
       weekday (Date y m d) = wd.
Proof.
  intros Hm Hwd Hn. unfold _nth_weekday. set (off := (wd - weekday (Date y m 1)) mod 7).
  pose proof (Z.mod_pos_bound (wd - weekday (Date y m 1)) 7 eq_refl) as Hoff. fold off in Hoff.
  pose proof (days_in_month_bounds y m) as Hdim.
  assert (real_day (Date y m 1)) as Hreal by (split; cbn; lia).
  exists (1 + (off + 7 * (n - 1))).
  pose proof (add_days_in_month y m 1 (off + 7 * (n - 1)) Hm ltac:(lia)) as He.
  split_and!; [done|lia|lia|].
  rewrite <- He, weekday_add by done.
  replace (weekday (Date y m 1) + (off + 7 * (n - 1)))
    with (weekday (Date y m 1) + off + (n - 1) * 7) by lia.
  rewrite Z_mod_plus_full. subst off. rewrite Zplus_mod_idemp_r.
  replace (weekday (Date y m 1) + (wd - weekday (Date y m 1))) with wd by lia.
  apply Z.mod_small. lia.
Qed.

Theorem victoria_day_spec y :
  ∃ d, _victoria_day y = Date y 5 d ∧ 18 <= d <= 24 ∧ weekday (Date y 5 d) = _MONDAY.
Proof.
  unfold _victoria_day. pose proof (weekday_bounds (Date y 5 24)) as Hw.
  set (w := weekday (Date y 5 24)) in *.
  assert (real_day (Date y 5 24)) as Hreal by (split; cbn; lia).
  pose proof (add_days_in_month y 5 24 (- w) ltac:(lia)) as He.
  change (days_in_month y 5) with 31 in He. specialize (He ltac:(lia)).
  exists (24 + - w). split_and!; [done|lia|lia|].
  rewrite <- He, weekday_add by done. fold w. by replace (w + - w) with 0 by lia.
Qed.

(** Easter by the Gregorian calendar reform: the Sunday after the ecclesiastical
    full moon, from the golden number and the epact. *)
Definition paschal_full_moon (y : Z) : date :=
  let golden := y mod 19 + 1 in
  let century := y / 100 + 1 in
  let dropped_leap_years := 3 * century / 4 - 12 in
  let moon_correction := (8 * century + 5) / 25 - 5 in
  let epact := (11 * golden + 20 + moon_correction - dropped_leap_years) mod 30 in
  let epact := if ((epact =? 25) && (11 <? golden)) || (epact =? 24) then epact + 1 else epact in
  let n := 44 - epact in
  let n := if n <? 21 then n + 30 else n in
  add_days (Date y 3 1) (n - 1).

Definition sunday_after (d : date) : date := add_days d (7 - (weekday d + 1) mod 7).

Definition easter_agrees (y : Z) : bool :=
  date_eqb (_easter_sunday y) (sunday_after (paschal_full_moon y)).

Lemma easter_checked : all_from easter_agrees 1583 (Z.to_nat 8417) = true.
Proof. vm_compute. reflexivity. Qed.

Lemma easter_agreed y : 1583 <= y <= 9999 → _easter_sunday y = sunday_after (paschal_full_moon y).
Proof.
  intros Hy. apply date_eqb_spec. change (easter_agrees y = true).
  apply (all_from_Z easter_agrees 1583 8417); [exact easter_checked|lia].
Qed.

(** Easter Sunday is the Sunday after the ecclesiastical full moon,
    for every year of the Gregorian calendar a date can name; Victoria Day and
    the movable Mondays and Sundays are the weekday they are named for, in the
    right week of their month. *)
Theorem holiday_algorithms_spec :
  (∀ y, 1583 <= y <= 9999 → _easter_sunday y = sunday_after (paschal_full_moon y)) ∧
  (∀ y m wd n, 1 <= m <= 12 → 0 <= wd < 7 → 1 <= n <= 4 →
     ∃ d, _nth_weekday y m wd n = Date y m d ∧ 7 * (n - 1) < d <= 7 * n ∧
          weekday (Date y m d) = wd) ∧
  (∀ y, ∃ d, _victoria_day y = Date y 5 d ∧ 18 <= d <= 24 ∧ weekday (Date y 5 d) = _MONDAY).
Proof.
  split_and!; [exact easter_agreed|exact nth_weekday_spec|exact victoria_day_spec].
Qed.

(** ** The holiday calendar *)

Definition all_holidays : list (date * string) := SUPPORTED_YEARS ≫= holiday_days.

Definition disjointb (X Y : gset string) : bool :=
  forallb (λ x, negb (bool_decide (x ∈ Y))) (elements X).

Lemma disjointb_spec X Y : disjointb X Y = true → X ## Y.
Proof.
  unfold disjointb. rewrite forallb_forall. intros H x Hx Hy.
  specialize (H x). rewrite negb_true_iff, bool_decide_eq_false in H.
  by apply H; [apply list_elem_of_In, elem_of_elements|].
Qed.

Definition holidays_checked : bool :=
  forallb (λ y, forallb (λ dn, valid_date dn.1 && (year dn.1 =? y)) (holiday_days y)) SUPPORTED_YEARS.

Lemma holidays_checked_ok : holidays_checked = true.
Proof. vm_compute. reflexivity. Qed.

Lemma holiday_days_valid y d name :
  y ∈ SUPPORTED_YEARS → (d, name) ∈ holiday_days y → valid_date d = true ∧ year d = y.
Proof.
  intros Hy Hd. pose proof holidays_checked_ok as H. unfold holidays_checked in H.
  rewrite forallb_forall in H. specialize (H y (proj1 (list_elem_of_In _ _) Hy)).
  rewrite forallb_forall in H. specialize (H (d, name) (proj1 (list_elem_of_In _ _) Hd)).
  cbn [fst snd] in H. by rewrite andb_true_iff, Z.eqb_eq in H.
Qed.

Lemma calendar_items : items HOLIDAY_CALENDAR = (λ dn, (isoformat dn.1, dn.2)) <$> all_holidays.
Proof. apply (bool_decide_eq_true_1 _). vm_compute. reflexivity. Qed.

Lemma calendar_nodup : NoDup (items HOLIDAY_CALENDAR).*1.
Proof. apply (bool_decide_eq_true_1 _). vm_compute. reflexivity. Qed.

Lemma closures_disjoint :
  STATUTORY_CLOSURES ## COMMON_SELLOUT_DATES ∧ RECREATION_CLOSURES ## RECREATION_SELLOUT_DATES.
Proof. split; apply disjointb_spec; vm_compute; reflexivity. Qed.

#[local] Opaque HOLIDAY_CALENDAR SUPPORTED_YEARS holiday_days valid_date isoformat.

(** [holiday_name] knows exactly the holidays of the supported
    years: a representable day has a name iff it is one of the dates
    [_holidays_for] computes for its year, no two holidays fall on one day, and
    no holiday is both a closure and a sell-out. *)
Theorem holiday_calendar_spec d name (Hd : valid_date d = true) :
  (holiday_name d = Some name ↔ year d ∈ SUPPORTED_YEARS ∧ (d, name) ∈ holiday_days (year d)) ∧
  STATUTORY_CLOSURES ## COMMON_SELLOUT_DATES ∧ RECREATION_CLOSURES ## RECREATION_SELLOUT_DATES.
Proof.
  split; [|exact closures_disjoint].
  unfold holiday_name, lookup, dict_lookup. pose proof calendar_nodup as Hnd.
  rewrite calendar_items in Hnd |- *. split.
  - intros He%alist_get_elem. apply list_elem_of_fmap in He as ([d' n'] & [= Hiso ->] & Hall).
    apply list_elem_of_bind in Hall as (y & Hdn & Hyin).
    destruct (holiday_days_valid _ _ _ Hyin Hdn) as [Hv <-].
    apply isoformat_inj in Hiso as ->; [split; assumption|assumption|assumption].
  - intros [Hyin Hdn]. apply alist_elem_get; [exact Hnd|].
    apply list_elem_of_fmap. exists (d, name). split; [reflexivity|].
    apply list_elem_of_bind. exists (year d). split; assumption.
Qed.

Lemma holiday_calendar_spec_witness :
  valid_date (Date 2026 4 5) = true ∧
  (holiday_name (Date 2026 4 5) = Some "Easter Sunday"%string ↔
   2026 ∈ SUPPORTED_YEARS ∧ (Date 2026 4 5, "Easter Sunday"%string) ∈ holiday_days 2026).
Proof.
  split; [reflexivity|].
  exact (proj1 (holiday_calendar_spec (Date 2026 4 5) "Easter Sunday" eq_refl)).
Defined.

(** ** Resolving a name *)

Lemma exact_matches_spec l q v : v ∈ exact_matches l q ↔ v ∈ l ∧ q ∈ _venue_keys v.
Proof.
  unfold exact_matches. rewrite list_elem_of_In, filter_In, <- list_elem_of_In.
  by rewrite bool_decide_eq_true.
Qed.

Definition covers (tokens : gset string) (v : Venue) : Prop :=
  ∃ key, key ∈ ve_name v :: ve_aliases v ∧ tokens ⊆ _match_tokens key.

Lemma partial_matches_spec l tokens v : v ∈ partial_matches l tokens ↔ v ∈ l ∧ covers tokens v.
Proof.
  unfold partial_matches, covers. rewrite list_elem_of_In, filter_In, <- list_elem_of_In.
  rewrite existsb_exists. setoid_rewrite bool_decide_eq_true. by setoid_rewrite <- list_elem_of_In.
Qed.

(** The name or an alias of the venue; some of their words. *)
Definition names (s : string) (v : Venue) : Prop :=
  _normalize s ≠ "" ∧ _normalize s ∈ _venue_keys v.
Definition suggests (s : string) (v : Venue) : Prop :=
  _match_tokens s ≠ ∅ ∧ covers (_match_tokens s) v.

Lemma nonempty_spec s : nonempty s = true ↔ s ≠ "".
Proof. destruct s; cbn; split; done. Qed.

Lemma match_tokens_empty s : _normalize s = "" → _match_tokens s = ∅.
Proof. unfold _match_tokens. intros ->. set_solver. Qed.

(** The outcome of a resolution over a catalog, by the venues it names. *)
Definition resolution_ok (catalog : list Venue) (s : string) (r : VenueResolution) : Prop :=
  let unnamed := ∀ v, v ∈ catalog → ¬ names s v in
  match vr_status r with
  | RESOLVED =>
      ∃ v, vr_venue r = Some v ∧ vr_candidates r = [v] ∧ v ∈ catalog ∧
        ((names s v ∧ ∀ v', v' ∈ catalog → names s v' → v' = v) ∨
         (unnamed ∧ suggests s v ∧ ∀ v', v' ∈ catalog → suggests s v' → v' = v))
  | AMBIGUOUS =>
      vr_venue r = None ∧ (2 <= length (vr_candidates r))%nat ∧
      ∀ v, v ∈ vr_candidates r ↔ v ∈ catalog ∧ (names s v ∨ unnamed ∧ suggests s v)
  | VR_UNKNOWN => vr_venue r = None ∧ ∀ v, v ∈ catalog → ¬ names s v ∧ ¬ suggests s v
  end.

#[local] Opaque _normalize _match_tokens VENUE_CATALOG.

Lemma resolve_venue_ok s : resolution_ok VENUE_CATALOG s (resolve_venue s).
Proof.
  unfold resolve_venue. destruct (nonempty (_normalize s)) eqn:Hne; cbn [negb].
  2: { cbn. split; [done|]. intros v Hv.
       assert (_normalize s = "") as He by (destruct (_normalize s); done).
       split; [by intros [? _]|intros [Ht _]]. by apply Ht, match_tokens_empty. }
  apply nonempty_spec in Hne.
  pose proof (exact_matches_spec VENUE_CATALOG (_normalize s)) as Hex.
  destruct (exact_matches VENUE_CATALOG (_normalize s)) as [|v1 [|v2 l]].
  - assert (∀ v, v ∈ VENUE_CATALOG → ¬ names s v) as Hun.
    { intros v Hv [_ Hk]. by apply (not_elem_of_nil v), Hex. }
    destruct (decide (_match_tokens s = ∅)) as [He|Hne'].
    { cbn. split; [done|]. intros v Hv. split; [by apply Hun|]. by intros [? _]. }
    pose proof (partial_matches_spec VENUE_CATALOG (_match_tokens s)) as Hp.
    destruct (partial_matches VENUE_CATALOG (_match_tokens s)) as [|v1 [|v2 l]].
    + cbn. split; [done|]. intros v Hv. split; [by apply Hun|]. intros [_ Hc].
      by apply (not_elem_of_nil v), Hp.
    + cbn. exists v1. destruct (proj1 (Hp v1) ltac:(set_solver)) as [Hin Hc].
      split_and!; try done. right. split_and!; [done|done|].
      intros v' Hv' [_ Hc']. apply list_elem_of_singleton, Hp. done.
    + cbn [resolution_ok vr_status vr_venue vr_candidates length]. split_and!; [done|lia|].
      intros v. rewrite Hp. split.
      * intros [Hv Hc]. split; [done|]. right. done.
      * intros [Hv [Hn|[_ [_ Hc]]]]; [by destruct (Hun v Hv)|done].
  - cbn. exists v1. destruct (proj1 (Hex v1) ltac:(set_solver)) as [Hin Hk].
    split_and!; try done. left. split; [done|].
    intros v' Hv' [_ Hk']. apply list_elem_of_singleton, Hex. done.
  - cbn [resolution_ok vr_status vr_venue vr_candidates length]. split_and!; [done|lia|].
    intros v. rewrite Hex. split.
    + intros [Hv Hk]. split; [done|]. by left.
    + intros [Hv [[_ Hk]|[Hun _]]]; [done|].
      destruct (proj1 (Hex v1) ltac:(set_solver)) as [Hin Hk1]. by destruct (Hun v1 Hin).
Qed.

#[local] Transparent _normalize VENUE_CATALOG.

Lemma keys_checked :
  forallb (λ v, forallb (λ key, nonempty key
      && match exact_matches VENUE_CATALOG key with [_] => true | _ => false end) (_venue_keys v))
    VENUE_CATALOG = true.
Proof. vm_compute. reflexivity. Qed.

Lemma names_checked :
  forallb (λ v, len_ok 1 60 (ve_name v) && String.eqb (strip (ve_name v)) (ve_name v)) VENUE_CATALOG = true.
Proof. vm_compute. reflexivity. Qed.

#[local] Opaque _normalize VENUE_CATALOG.

Lemma catalog_name v :
  v ∈ VENUE_CATALOG → len_ok 1 60 (ve_name v) = true ∧ strip (ve_name v) = ve_name v.
Proof.
  intros Hv. pose proof names_checked as H. rewrite forallb_forall in H.
  specialize (H v (proj1 (list_elem_of_In _ _) Hv)).
  by rewrite andb_true_iff, String.eqb_eq in H.
Qed.

Lemma resolve_key s v :
  v ∈ VENUE_CATALOG → _normalize s ∈ _venue_keys v → resolve_venue s = MkResolution RESOLVED (Some v) [v].
Proof.
  intros Hv Hk. pose proof keys_checked as H. rewrite forallb_forall in H.
  specialize (H v (proj1 (list_elem_of_In _ _) Hv)). rewrite forallb_forall in H.
  specialize (H _ (proj1 (list_elem_of_In _ _) Hk)). apply andb_true_iff in H as [Hne Hone].
  unfold resolve_venue. rewrite Hne. cbn [negb].
  assert (v ∈ exact_matches VENUE_CATALOG (_normalize s)) as Hin by by apply exact_matches_spec.
  destruct (exact_matches VENUE_CATALOG (_normalize s)) as [|v1 [|v2 l]]; try done.
  by apply list_elem_of_singleton in Hin as ->.
Qed.

(** Resolving a venue name finds exactly one venue or says why
    not: a resolved venue is the only one the text names, or, when it names
    none, the only one it suggests; an ambiguous result lists all the venues
    it names or suggests, at least two; an unknown name neither names nor
    suggests any. Text that normalises to the name or an alias of a catalog
    venue always resolves to that venue. *)
Theorem resolve_venue_spec s :
  resolution_ok VENUE_CATALOG s (resolve_venue s) ∧
  ∀ v key, v ∈ VENUE_CATALOG → key ∈ ve_name v :: ve_aliases v → _normalize s = _normalize key →
    resolve_venue s = MkResolution RESOLVED (Some v) [v].
Proof.
  split; [apply resolve_venue_ok|]. intros v key Hv Hkey He.
  apply resolve_key; [done|]. rewrite He. unfold _venue_keys.
  apply elem_of_cons in Hkey as [->|Hkey]; [by left|]. right.
  rewrite list_elem_of_In, in_map_iff. exists key. by rewrite <- list_elem_of_In.
Qed.

#[local] Transparent _normalize _match_tokens VENUE_CATALOG HOLIDAY_CALENDAR SUPPORTED_YEARS holiday_days valid_date isoformat.

Example ambiguous_steak_house :
  ve_name <$> vr_candidates (resolve_venue "steak house")
    = ["The Charcoal Steak House"; "Golf's Steak House"]%string.
Proof. vm_compute. reflexivity. Qed.

Example resolves_case_and_punctuation :
  ve_name <$> vr_venue (resolve_venue "  the BAUER, kitchen! ") = Some "The Bauer Kitchen"%string.
Proof. vm_compute. reflexivity. Qed.
