(* ===== verification/Validator.v ===== *)
(** * The intent validator ([backend/orchestrator/validator.py]) and the engine
    ([backend/orchestrator/engine.py])

    An untrusted extraction becomes a READY intent or a clarification.  A
    function of type [option] returns [None] where the Python raises
    ([ValidationError], [ValueError], [OverflowError]); the theorems show it
    never does on a constructed extraction. *)

From S2P Require Import Prelude Calendar ClockTime Schemas Venues.

(** The local reference time: [.date()] and the parts [strftime] prints. *)
Record LocalTime := MkLocal { lt_date : date; lt_hour : Z; lt_minute : Z }.

Definition strftime_HM (t : LocalTime) : string := pad 2 (lt_hour t) +:+ ":" +:+ pad 2 (lt_minute t).

Definition MAX_DAYS_AHEAD : Z := 365.

Definition _resolve_venue (e : ReservationExtraction)
    : option (option string * VenueType * list string) :=
  match ex_venue_name e with
  | None => Some (None, ex_venue_type e, [])
  | Some venue_name =>
      let resolution := resolve_venue venue_name in
      match vr_status resolution with
      | RESOLVED =>
          venue ← vr_venue resolution;
          Some (Some (ve_name venue), ve_venue_type venue, [])
      | AMBIGUOUS => Some (Some venue_name, ex_venue_type e, ve_name <$> vr_candidates resolution)
      | VR_UNKNOWN => Some (Some venue_name, ex_venue_type e, [])
      end
  end.

Definition _resolve_date (e : ReservationExtraction) (today : date)
    : option (option string * option string) :=
  match ex_date e with
  | None => Some (None, None)
  | Some text =>
      if negb (has_valid_date e) then Some (None, Some "impossible"%string) else
      target ← date_fromisoformat text;
      if toordinal target <? toordinal today then Some (None, Some "past"%string) else
      let limit := toordinal today + MAX_DAYS_AHEAD in
      if max_ordinal <? limit then None                             (* OverflowError *)
      else if limit <? toordinal target then Some (None, Some "too_far"%string)
      else Some (Some text, None)
  end.

Definition _next_slot_boundary (now : string) : option string :=
  total ← to_minutes now;
  let rounded := - (- total / SLOT_INTERVAL_MINUTES) * SLOT_INTERVAL_MINUTES in
  if 24 * 60 <=? rounded then Some "23:59"%string
  else Some (pad 2 (rounded / 60) +:+ ":" +:+ pad 2 (rounded mod 60)).

(** [TimeWindow(...)] *)
Definition make_time_window (start end_ : string) : option TimeWindow :=
  let w := MkTimeWindow start end_ in if time_window_ok w then Some w else None.

Definition _resolve_time (e : ReservationExtraction) (reference : LocalTime)
    (target_date : option string) : option (option string * option TimeWindow * option string) :=
  let preferred_time := ex_preferred_time e in
  let time_window := ex_time_window e in
  if match time_window with Some w => str_lt (tw_end w) (tw_start w) | None => false end
  then Some (preferred_time, None, Some "invalid_window"%string)
  else if match time_window, preferred_time with
          | Some w, Some p => negb (str_le (tw_start w) p && str_le p (tw_end w))
          | _, _ => false
          end
  then Some (preferred_time, time_window, Some "conflicting"%string)
  else if bool_decide (target_date = Some (isoformat (lt_date reference))) then
    earliest ← _next_slot_boundary (strftime_HM reference);
    if match preferred_time with Some p => str_lt p earliest | None => false end
    then Some (None, None, Some "past_time"%string)
    else match time_window with
         | Some w =>
             if str_lt (tw_end w) earliest then Some (None, None, Some "past_time"%string)
             else if str_lt (tw_start w) earliest
             then w' ← make_time_window earliest (tw_end w); Some (preferred_time, Some w', None)
             else Some (preferred_time, Some w, None)
         | None => Some (preferred_time, None, None)
         end
  else Some (preferred_time, time_window, None).

Definition _route_for (action : option IntentAction) : OrchestratorRoute :=
  if bool_decide (action = Some CREATE_WATCH) then WATCH_SERVICE else BOOKING_SERVICE.

(** ** Clarification questions *)

Definition single_question (f : MissingField) : string :=
  match f with
  | MF_ACTION => "Would you like me to check availability, book it, or create a watch?"
  | MF_VENUE_NAME => "Which restaurant or recreational venue would you like?"
  | MF_PARTY_SIZE => "How many guests or participants are there?"
  | MF_DATE => "What date would you like?"
  | MF_TIME => "What time or time range works for you?"
  end.

Definition field_label (f : MissingField) : string :=
  match f with
  | MF_ACTION => "request type"
  | MF_VENUE_NAME => "venue"
  | MF_PARTY_SIZE => "party size"
  | MF_DATE => "date"
  | MF_TIME => "time or time range"
  end.

(** ["a or b"], ["a, b, or c"]: the list as English, with a conjunction. *)
Definition listed_as (conj : string) (l : list string) : string :=
  match l with
  | [a] => a
  | [a; b] => a +:+ " " +:+ conj +:+ " " +:+ b
  | _ => join ", " (removelast l) +:+ ", " +:+ conj +:+ " " +:+ List.last l ""
  end.

Definition is_problem (p : option string) (s : string) : bool := bool_decide (p = Some s).

Definition _specific_question (missing_fields : list MissingField)
    (date_problem time_problem : option string) (venue_candidates : list string) : option string :=
  match missing_fields, venue_candidates with
  | [MF_VENUE_NAME], _ :: _ =>
      Some ("Did you mean " +:+ listed_as "or" (take 3 venue_candidates) +:+ "?")
  | [MF_DATE], _ =>
      if is_problem date_problem "past"
      then Some "That date has already passed. What future date would you like?"
      else if is_problem date_problem "impossible"
      then Some "That date does not exist on the calendar. What date would you like?"
      else if is_problem date_problem "too_far"
      then Some "I can only book up to a year ahead. What date within the next year would you like?"
      else None
  | [MF_TIME], _ =>
      if is_problem time_problem "invalid_window"
      then Some "The time window is invalid. What time or valid time range works for you?"
      else if is_problem time_problem "conflicting"
      then Some "The preferred time falls outside the requested time window. Which time constraint should I use?"
      else if is_problem time_problem "past_time"
      then Some "That time has already passed today. What later time works, or should I look at another day?"
      else None
  | _, _ => None
  end%string.

Definition _build_question (missing_fields : list MissingField)
    (date_problem time_problem : option string) (venue_candidates : list string) : string :=
  match _specific_question missing_fields date_problem time_problem venue_candidates with
  | Some specific => specific
  | None =>
      match missing_fields with
      | [f] => single_question f
      | _ => "Could you provide the " +:+ listed_as "and" (field_label <$> missing_fields) +:+ "?"
      end
  end%string.

(** ** Validation *)

Definition missing (b : bool) (f : MissingField) : list MissingField := if b then [f] else [].

Definition validate (e : ReservationExtraction) (reference_time : LocalTime) : option ReservationIntent :=
  '(venue_name, venue_type, venue_candidates) ← _resolve_venue e;
  '(target_date, date_problem) ← _resolve_date e (lt_date reference_time);
  '(preferred_time, time_window, time_problem) ← _resolve_time e reference_time target_date;
  let has_time := (is_some preferred_time || is_some time_window)
                  && negb (is_problem time_problem "conflicting") in
  let missing_fields :=
    missing (is_none (ex_action e)) MF_ACTION
    ++ missing (is_none venue_name || match venue_candidates with [] => false | _ => true end) MF_VENUE_NAME
    ++ missing (is_none (ex_party_size e)) MF_PARTY_SIZE
    ++ missing (is_none target_date) MF_DATE
    ++ missing (negb has_time) MF_TIME in
  match missing_fields with
  | _ :: _ =>
      make_intent (MkIntent NEEDS_CLARIFICATION CLARIFICATION (ex_action e) venue_name venue_type MARKET
        (ex_party_size e) target_date preferred_time time_window (ex_duration_minutes e)
        (ex_special_requests e) missing_fields
        (Some (_build_question missing_fields date_problem time_problem venue_candidates)))
  | [] =>
      make_intent (MkIntent READY (_route_for (ex_action e)) (ex_action e) venue_name venue_type MARKET
        (ex_party_size e) target_date preferred_time time_window (ex_duration_minutes e)
        (ex_special_requests e) [] None)
  end.

(** [OrchestratorEngine.parse], after the provider answered: the clock is
    read before the call and converted to the engine's time zone ([localtime],
    the zone database). *)
Definition parse (localtime : Z → LocalTime) (clock : Z) (extraction : ReservationExtraction)
    : option ReservationIntent :=
  validate extraction (localtime clock).
