(* ===== verification/ValidatorTheorems.v ===== *)
(** * The intent validator: theorems

    Validation never fails on an extraction pydantic accepted: it produces a
    valid intent, names exactly the missing facts, and what it declares READY
    can be booked: the query constructor accepts it, the date is at most a year
    ahead and the times are not past. *)

From S2P Require Import Prelude Calendar CalendarFacts ClockTime Schemas Reservation Venues VenueTheorems Validator.

(** ** Constructed extractions *)

Record extraction_wf (e : ReservationExtraction) : Prop := {
  wf_ok : extraction_ok e = true;
  wf_venue : strip <$> ex_venue_name e = ex_venue_name e;
  wf_date : strip <$> ex_date e = ex_date e;
  wf_time : strip <$> ex_preferred_time e = ex_preferred_time e;
  wf_requests : map strip (ex_special_requests e) = ex_special_requests e;
}.

Lemma strip_fmap_idemp (o : option string) : strip <$> (strip <$> o) = strip <$> o.
Proof. destruct o; cbn; [by rewrite strip_idemp|done]. Qed.

Lemma strip_map_idemp l : map strip (map strip l) = map strip l.
Proof. rewrite map_map. apply map_ext. apply strip_idemp. Qed.

Lemma make_extraction_wf raw e : make_extraction raw = Some e → extraction_wf e.
Proof.
  unfold make_extraction. cbn zeta. destruct (extraction_ok _) eqn:H; [|done]. intros [= <-].
  split; [done|apply strip_fmap_idemp..|apply strip_map_idemp].
Qed.

Lemma extraction_fields e :
  extraction_wf e →
  opt_all (len_ok 1 200) (ex_venue_name e) = true ∧ opt_all (in_range 1 100) (ex_party_size e) = true ∧
  opt_all iso_date_ok (ex_date e) = true ∧ opt_all hour_minute_ok (ex_preferred_time e) = true ∧
  opt_all time_window_ok (ex_time_window e) = true ∧
  opt_all (in_range 15 720) (ex_duration_minutes e) = true ∧
  special_requests_ok (ex_special_requests e) = true.
Proof.
  intros [H _ _ _ _]. unfold extraction_ok in H. rewrite !andb_true_iff in H. tauto.
Qed.

(** A representable reference time, a year of calendar left. *)
Definition lt_ok (t : LocalTime) : Prop :=
  valid_date (lt_date t) = true ∧ 0 <= lt_hour t < 24 ∧ 0 <= lt_minute t < 60 ∧
  toordinal (lt_date t) + MAX_DAYS_AHEAD <= max_ordinal.

Definition now_minutes (t : LocalTime) : Z := lt_hour t * 60 + lt_minute t.

Lemma strftime_minutes t : lt_ok t → strftime_HM t = from_minutes (now_minutes t) ∧ day_minute (now_minutes t).
Proof.
  intros (_ & Hh & Hm & _). unfold strftime_HM, from_minutes, now_minutes, day_minute.
  rewrite (div_is 60 _ (lt_hour t) (lt_minute t)), (mod_is 60 _ (lt_hour t) (lt_minute t)) by lia.
  split; [done|lia].
Qed.

(** The next bookable boundary, in minutes. *)
Definition boundary (now : Z) : Z :=
  let rounded := - (- now / 15) * 15 in if 1440 <=? rounded then 1439 else rounded.

Lemma boundary_spec now :
  day_minute now → day_minute (boundary now) ∧ now <= boundary now.
Proof.
  unfold day_minute, boundary. cbn zeta. intros Hn.
  destruct (Z.leb_spec 1440 (- (- now / 15) * 15)); div_lia.
Qed.

Lemma next_slot_boundary_spec t :
  lt_ok t → _next_slot_boundary (strftime_HM t) = Some (from_minutes (boundary (now_minutes t))).
Proof.
  intros (-> & Hd)%strftime_minutes. unfold _next_slot_boundary.
  rewrite to_from_minutes by done. cbn -[from_minutes boundary]. unfold boundary, SLOT_INTERVAL_MINUTES.
  cbn zeta. change (24 * 60) with 1440. by destruct (1440 <=? _).
Qed.

(** ** Times, in minutes *)

Definition minutes_of (o : option string) : option Z := o ≫= to_minutes.
Definition window_of (w : option TimeWindow) : option (Z * Z) :=
  w ← w; a ← to_minutes (tw_start w); b ← to_minutes (tw_end w); Some (a, b).

Definition valid_minutes (o : option Z) : Prop := ∀ m, o = Some m → day_minute m.

(** A preference as strings and as minutes. *)
Lemma preferred_minutes o :
  opt_all hour_minute_ok o = true → valid_minutes (minutes_of o) ∧ o = from_minutes <$> minutes_of o.
Proof.
  destruct o as [s|]; cbn; [|by split].
  intros (m & Hm & ->)%hour_minute_from. rewrite to_from_minutes by done.
  split; [by intros ? [= ->]|done].
Qed.

Lemma window_minutes o :
  opt_all time_window_ok o = true →
  match window_of o with
  | Some (a, b) => day_minute a ∧ day_minute b ∧ o = Some (MkTimeWindow (from_minutes a) (from_minutes b))
  | None => o = None
  end.
Proof.
  destruct o as [[s t]|]; cbn; [|done]. unfold time_window_ok. cbn.
  rewrite andb_true_iff. intros [(a & Ha & ->)%hour_minute_from (b & Hb & ->)%hour_minute_from].
  by rewrite !to_from_minutes.
Qed.

(** [_resolve_time] on minutes; [today] holds the boundary when the target is
    the reference day. *)
Definition resolve_minutes (p : option Z) (w : option (Z * Z)) (today : option Z)
    : option Z * option (Z * Z) * option string :=
  match w with
  | Some (a, b) =>
      if b <? a then (p, None, Some "invalid_window"%string)
      else if match p with Some x => negb ((a <=? x) && (x <=? b)) | None => false end
      then (p, w, Some "conflicting"%string)
      else match today with
           | Some n =>
               if match p with Some x => x <? n | None => false end || (b <? n)
               then (None, None, Some "past_time"%string)
               else (p, Some (Z.max a n, b), None)
           | None => (p, w, None)
           end
  | None =>
      match today with
      | Some n => if match p with Some x => x <? n | None => false end
                  then (None, None, Some "past_time"%string) else (p, None, None)
      | None => (p, None, None)
      end
  end.

Definition today_boundary (t : LocalTime) (target : option string) : option Z :=
  if bool_decide (target = Some (isoformat (lt_date t))) then Some (boundary (now_minutes t)) else None.

Definition window_text (w : Z * Z) : TimeWindow := MkTimeWindow (from_minutes w.1) (from_minutes w.2).

Lemma resolve_time_minutes e t target :
  extraction_wf e → lt_ok t →
  _resolve_time e t target =
    let '(p, w, problem) := resolve_minutes (minutes_of (ex_preferred_time e))
                              (window_of (ex_time_window e)) (today_boundary t target) in
    Some (from_minutes <$> p, window_text <$> w, problem).
Proof.
  intros Hwf Ht. destruct (extraction_fields e Hwf) as (_ & _ & _ & Hp & Hw & _).
  destruct (preferred_minutes _ Hp) as [Hpm Hpe]. pose proof (window_minutes _ Hw) as Hwm.
  unfold _resolve_time. rewrite (next_slot_boundary_spec t Ht).
  destruct (boundary_spec (now_minutes t)) as [Hb Hnow]; [by apply strftime_minutes|].
  unfold today_boundary. set (n := boundary (now_minutes t)) in *. clearbody n.
  set (p := minutes_of (ex_preferred_time e)) in *. rewrite Hpe. clearbody p.
  destruct (window_of (ex_time_window e)) as [[a b]|].
  - destruct Hwm as (Ha & Hb' & ->). cbn [tw_start tw_end resolve_minutes window_text].
    rewrite !str_lt_minutes by done.
    destruct (Z.ltb_spec b a) as [|Hab]; [done|].
    destruct p as [x|]; cbn [fmap option_fmap option_map].
    + pose proof (Hpm x eq_refl) as Hx. rewrite !str_le_minutes by done.
      destruct (negb ((a <=? x) && (x <=? b))); [done|].
      destruct (bool_decide _); [|done]. cbn [mbind option_bind]. rewrite !str_lt_minutes by done.
      destruct (x <? n); [done|]. cbn [orb].
      destruct (Z.ltb_spec b n); [done|].
      destruct (Z.ltb_spec a n) as [Han|Han].
      * unfold make_time_window, time_window_ok. cbn [tw_start tw_end].
        rewrite !from_minutes_ok by done. cbn. by rewrite Z.max_r by lia.
      * by rewrite Z.max_l by lia.
    + destruct (bool_decide _); [|done]. cbn [mbind option_bind orb]. rewrite !str_lt_minutes by done.
      destruct (Z.ltb_spec b n); [done|].
      destruct (Z.ltb_spec a n) as [Han|Han].
      * unfold make_time_window, time_window_ok. cbn [tw_start tw_end].
        rewrite !from_minutes_ok by done. cbn. by rewrite Z.max_r by lia.
      * by rewrite Z.max_l by lia.
  - rewrite Hwm. cbn [resolve_minutes].
    destruct p as [x|]; cbn [fmap option_fmap option_map]; [|by destruct (bool_decide _)].
    destruct (bool_decide _); [|done]. cbn [mbind option_bind].
    rewrite str_lt_minutes by (done || by apply Hpm). by destruct (x <? n).
Qed.

(** What makes a time preference usable: a malformed window is dropped in
    favour of a preferred time; otherwise the preferred time lies in the
    window and, on the reference day, nothing lies before the boundary. *)
Definition time_accepted (p : option Z) (w : option (Z * Z)) (today : option Z) : Prop :=
  match w with
  | Some (a, b) =>
      if b <? a then p ≠ None
      else (∀ x, p = Some x → a <= x <= b) ∧
           ∀ n, today = Some n → n <= b ∧ ∀ x, p = Some x → n <= x
  | None => p ≠ None ∧ ∀ n x, today = Some n → p = Some x → n <= x
  end.

Definition has_time (r : option Z * option (Z * Z) * option string) : bool :=
  let '(p, w, problem) := r in (is_some p || is_some w) && negb (is_problem problem "conflicting").

Lemma has_time_spec p w today : has_time (resolve_minutes p w today) = true ↔ time_accepted p w today.
Proof.
  unfold resolve_minutes, time_accepted.
  destruct w as [[a b]|]; [destruct (Z.ltb_spec b a)|].
  - destruct p; cbn; naive_solver.
  - destruct p as [x|].
    + destruct (Z.leb_spec a x); [|split; [done|intros [Hx _]; specialize (Hx x eq_refl); lia]].
      destruct (Z.leb_spec x b); [|split; [done|intros [Hx _]; specialize (Hx x eq_refl); lia]].
      cbn [andb negb]. destruct today as [n|]; [|split; [intros _; split; [intros ? [= <-]; lia|done]|done]].
      destruct (Z.ltb_spec x n).
      { split; [done|]. intros [_ Hn]. destruct (Hn n eq_refl) as [_ Hx]. specialize (Hx x eq_refl). lia. }
      destruct (Z.ltb_spec b n); [split; [done|]; intros [_ Hn]; destruct (Hn n eq_refl); lia|].
      split; [|done]. intros _. split; [intros ? [= <-]; lia|].
      intros ? [= <-]. split; [lia|]. intros ? [= <-]. lia.
    + destruct today as [n|]; [|split; [intros _; split; done|done]]. cbn [orb].
      destruct (Z.ltb_spec b n); [split; [done|]; intros [_ Hn]; destruct (Hn n eq_refl); lia|].
      split; [|done]. intros _. split; [done|]. intros ? [= <-]. split; [lia|done].
  - destruct p as [x|]; [|destruct today; split; try done; by intros [? _]].
    destruct today as [n|]; [|split; [intros _; split; [done|]; naive_solver|done]].
    destruct (Z.ltb_spec x n).
    + split; [done|]. intros [_ Hn]. specialize (Hn n x eq_refl eq_refl). lia.
    + split; [|done]. intros _. split; [done|]. intros ?? [= <-] [= <-]. lia.
Qed.

(** The resolved preference is made of valid times; when it is usable, the
    preferred time lies in the window, and on the reference day nothing lies
    before the boundary, unless the extracted window was malformed. *)
Record resolved_ok (w : option (Z * Z)) (today : option Z) (p' : option Z) (w' : option (Z * Z))
    (usable : bool) : Prop := {
  ro_time : valid_minutes p';
  ro_window : ∀ a b, w' = Some (a, b) → day_minute a ∧ day_minute b;
  ro_within : usable = true → ∀ x a b, p' = Some x → w' = Some (a, b) → a <= x <= b;
  ro_future : usable = true → (∀ a b, w = Some (a, b) → a <= b) → ∀ n, today = Some n →
    (∀ x, p' = Some x → n <= x) ∧ (∀ a b, w' = Some (a, b) → n <= a <= b);
}.

Lemma resolve_minutes_ok p w today p' w' problem :
  valid_minutes p → (∀ a b, w = Some (a, b) → day_minute a ∧ day_minute b) →
  (∀ n, today = Some n → day_minute n) →
  resolve_minutes p w today = (p', w', problem) →
  resolved_ok w today p' w' (has_time (p', w', problem)).
Proof.
  unfold resolve_minutes. intros Hp Hw Ht.
  destruct w as [[a b]|]; [destruct (Z.ltb_spec b a) as [Hab|Hab]|].
  - intros [= <- <- <-]. split; [done|done|done|]. intros _ Hle. specialize (Hle a b eq_refl). lia.
  - destruct (Hw a b eq_refl) as [Ha Hb].
    destruct (match p with Some x => negb ((a <=? x) && (x <=? b)) | None => false end) eqn:Hc.
    { intros [= <- <- <-]. split; try done; cbn; by rewrite andb_false_r. }
    assert (∀ x, p = Some x → a <= x <= b) as Hin.
    { intros x ->. apply negb_false_iff, andb_true_iff in Hc. lia. }
    destruct today as [n|].
    2: { intros [= <- <- <-]. split; try done. intros _ x a' b' Hx [= <- <-]. by apply Hin. }
    specialize (Ht n eq_refl). unfold day_minute in *.
    destruct (match p with Some x => x <? n | None => false end) eqn:Hpast; cbn [orb].
    { by intros [= <- <- <-]. }
    destruct (Z.ltb_spec b n) as [|Hbn]; [by intros [= <- <- <-]|].
    assert (∀ x, p = Some x → n <= x) as Hnx by (intros x ->; apply Z.ltb_ge; exact Hpast).
    intros [= <- <- <-]. split; [done|unfold day_minute; intros ?? [= <- <-]; lia|..].
    + intros _ x a' b' Hx [= <- <-]. specialize (Hin x Hx). specialize (Hnx x Hx). lia.
    + intros _ _ n' [= <-]. split; [done|]. intros ?? [= <- <-]. lia.
  - destruct today as [n|].
    2: { intros [= <- <- <-]. by split. }
    destruct (match p with Some x => x <? n | None => false end) eqn:Hpast.
    { by intros [= <- <- <-]. }
    intros [= <- <- <-]. split; try done. intros _ _ n' [= <-]. split; [|done].
    intros x ->. by apply Z.ltb_ge.
Qed.

(** ** Dates and venues *)

Definition date_accepted (today : date) (text : option string) : Prop :=
  ∃ s d, text = Some s ∧ date_fromisoformat s = Some d ∧
    toordinal today <= toordinal d <= toordinal today + MAX_DAYS_AHEAD.

Lemma resolve_date_spec e t :
  lt_ok t →
  ∃ target problem, _resolve_date e (lt_date t) = Some (target, problem) ∧
    match target with
    | Some s => ex_date e = Some s ∧ date_accepted (lt_date t) (ex_date e)
    | None => ¬ date_accepted (lt_date t) (ex_date e)
    end.
Proof.
  intros (_ & _ & _ & Hmax). unfold _resolve_date, has_valid_date.
  destruct (ex_date e) as [s|]; [|eexists _, _; split; [done|]; by intros (? & ? & ? & _)].
  destruct (date_fromisoformat s) as [d|] eqn:Ed; cbn [is_some is_none negb mbind option_bind].
  2: { eexists _, _. split; [done|]. intros (? & ? & [= <-] & ? & _). congruence. }
  destruct (Z.ltb_spec (toordinal d) (toordinal (lt_date t))).
  { eexists _, _. split; [done|]. intros (? & d' & [= <-] & Hd & ?). replace d' with d in * by congruence. lia. }
  destruct (Z.ltb_spec max_ordinal (toordinal (lt_date t) + MAX_DAYS_AHEAD)); [lia|].
  destruct (Z.ltb_spec (toordinal (lt_date t) + MAX_DAYS_AHEAD) (toordinal d)).
  { eexists _, _. split; [done|]. intros (? & d' & [= <-] & Hd & ?). replace d' with d in * by congruence. lia. }
  eexists _, _. split; [done|]. cbn. split; [done|]. exists s, d. done.
Qed.

Definition venue_clear (name : option string) : Prop :=
  ∃ s, name = Some s ∧ vr_status (resolve_venue s) ≠ AMBIGUOUS.

#[local] Opaque VENUE_CATALOG resolve_venue.

Lemma resolve_venue_field e :
  extraction_wf e →
  ∃ name kind candidates, _resolve_venue e = Some (name, kind, candidates) ∧
    opt_all (len_ok 1 200) name = true ∧ strip <$> name = name ∧
    Forall (λ s, strlen s <= 60) candidates ∧
    (is_none name || match candidates with [] => false | _ => true end = false ↔ venue_clear (ex_venue_name e)).
Proof.
  intros Hwf. destruct (extraction_fields e Hwf) as (Hlen & _). pose proof (wf_venue e Hwf) as Hstrip.
  unfold _resolve_venue. destruct (ex_venue_name e) as [s|].
  2: { eexists _, _, _. split_and!; try done. split; [done|]. by intros (? & ? & _). }
  pose proof (resolve_venue_ok s) as Hr. unfold resolution_ok, venue_clear in *. cbn zeta in *.
  destruct (vr_status (resolve_venue s)) eqn:Es.
  - destruct Hr as (v & -> & _ & Hv & _). cbn. destruct (catalog_name v Hv) as [Hl Hs].
    eexists _, _, _. split; [done|]. split_and!; [|by cbn; rewrite Hs|done|].
    + cbn. unfold len_ok, in_range in *. rewrite andb_true_iff, !Z.leb_le in *. lia.
    + split; [|done]. intros _. exists s. by rewrite Es.
  - destruct Hr as (_ & Hlen2 & Hc). eexists _, _, _. split; [done|]. split_and!; try done.
    + apply Forall_fmap, Forall_forall. intros v Hv%Hc. destruct Hv as [Hv _]. cbn.
      destruct (catalog_name v Hv) as [Hl _]. unfold len_ok, in_range in Hl.
      rewrite andb_true_iff, !Z.leb_le in Hl. lia.
    + destruct (vr_candidates (resolve_venue s)); cbn in *; [lia|]. split; [done|].
      intros (s' & [= <-] & Hne). by rewrite Es in Hne.
  - eexists _, _, _. split; [done|]. split_and!; try done. split; [|done]. intros _. exists s. by rewrite Es.
Qed.

(** ** Questions *)

Definition visible (s : string) : bool :=
  match s with String c _ => negb (is_space c) | EmptyString => false end.

Definition question_fits (s : string) : bool := visible s && (strlen s <=? 400).

Lemma question_fits_ok s : question_fits s = true → len_ok 1 400 (strip s) = true.
Proof.
  unfold question_fits, len_ok, in_range. rewrite !andb_true_iff, !Z.leb_le. intros [Hv Hl].
  destruct s as [|c s]; [done|]. apply negb_true_iff in Hv.
  pose proof (strip_visible c s Hv). pose proof (strlen_strip (String c s)). lia.
Qed.

Definition missing_list (a v p d t : bool) : list MissingField :=
  missing a MF_ACTION ++ missing v MF_VENUE_NAME ++ missing p MF_PARTY_SIZE ++ missing d MF_DATE ++ missing t MF_TIME.

Lemma listed_as_length l :
  l ≠ [] → Forall (λ s, strlen s <= 60) l → strlen (listed_as "or" (take 3 l)) <= 200.
Proof.
  intros Hne Hl. destruct l as [|a [|b [|c l]]]; [done|..];
    repeat match goal with H : Forall _ (_ :: _) |- _ => apply Forall_cons in H as [? ?] end;
    cbn beta in *.
  - change (strlen a <= 200). lia.
  - change (strlen (a +:+ " " +:+ "or" +:+ " " +:+ b) <= 200). rewrite !strlen_app.
    change (strlen " ") with 1. change (strlen "or") with 2. lia.
  - change (strlen ((a +:+ ", " +:+ b) +:+ ", " +:+ "or" +:+ " " +:+ c) <= 200). rewrite !strlen_app.
    change (strlen " ") with 1. change (strlen "or") with 2. change (strlen ", ") with 2. lia.
Qed.

Lemma build_question_fits a v p d t dp tp vc :
  Forall (λ s, strlen s <= 60) vc →
  question_fits (_build_question (missing_list a v p d t) dp tp vc) = true.
Proof.
  intros Hvc. unfold _build_question.
  destruct (_specific_question (missing_list a v p d t) dp tp vc) as [q|] eqn:E.
  - destruct a, v, p, d, t; try discriminate E; cbn in E.
    + destruct vc as [|x vc]; [done|].
      assert (q = "Did you mean " +:+ listed_as "or" (take 3 (x :: vc)) +:+ "?")%string as ->
        by (symmetry; injection E; done).
      unfold question_fits. apply andb_true_iff. split; [done|]. apply Z.leb_le.
      rewrite !strlen_app. change (strlen "Did you mean ") with 13. change (strlen "?") with 1.
      pose proof (listed_as_length (x :: vc) ltac:(done) Hvc). lia.
    + repeat case_match; simplify_eq; reflexivity.
    + repeat case_match; simplify_eq; reflexivity.
  - clear E. destruct a, v, p, d, t; vm_compute; reflexivity.
Qed.

(** ** Validation *)

Definition field_given (e : ReservationExtraction) (t : LocalTime) (f : MissingField) : Prop :=
  match f with
  | MF_ACTION => ex_action e ≠ None
  | MF_VENUE_NAME => venue_clear (ex_venue_name e)
  | MF_PARTY_SIZE => ex_party_size e ≠ None
  | MF_DATE => date_accepted (lt_date t) (ex_date e)
  | MF_TIME => time_accepted (minutes_of (ex_preferred_time e)) (window_of (ex_time_window e))
                 (today_boundary t (ex_date e))
  end.

(** Today is always an accepted date. *)
Lemma today_boundary_target e t target problem :
  lt_ok t → _resolve_date e (lt_date t) = Some (target, problem) →
  today_boundary t target = today_boundary t (ex_date e).
Proof.
  intros Ht Hd. destruct (resolve_date_spec e t Ht) as (target' & problem' & Hd' & Hs).
  rewrite Hd in Hd'. injection Hd' as <- <-. destruct target as [s|]; [by destruct Hs as [-> _]|].
  unfold today_boundary. rewrite !bool_decide_decide. rewrite decide_False by done.
  rewrite decide_False; [done|]. intros He. apply Hs. rewrite He.
  exists (isoformat (lt_date t)), (lt_date t). destruct Ht as (Hv & _).
  split; [done|]. split; [by apply fromisoformat_isoformat|]. unfold MAX_DAYS_AHEAD. lia.
Qed.

(** What the three resolutions of an extraction give. *)
Record resolved (e : ReservationExtraction) (t : LocalTime) (name : option string) (candidates : list string)
    (target : option string) (p : option Z) (w : option (Z * Z)) (usable : bool) : Prop := {
  rs_name : opt_all (len_ok 1 200) name = true;
  rs_name_strip : strip <$> name = name;
  rs_candidates : Forall (λ s, strlen s <= 60) candidates;
  rs_clear : is_none name || match candidates with [] => false | _ => true end = false
             ↔ field_given e t MF_VENUE_NAME;
  rs_date : match target with
            | Some s => ex_date e = Some s ∧ field_given e t MF_DATE
            | None => ¬ field_given e t MF_DATE
            end;
  rs_times : resolved_ok (window_of (ex_time_window e)) (today_boundary t (ex_date e)) p w usable;
  rs_usable : usable = true ↔ field_given e t MF_TIME;
  rs_some : usable = true → is_some p || is_some w = true;
}.

Definition draft (e : ReservationExtraction) (name : option string) (kind : VenueType) (target : option string)
    (p : option Z) (w : option (Z * Z)) (status : IntentStatus) (route : OrchestratorRoute)
    (fields : list MissingField) (question : option string) : ReservationIntent :=
  MkIntent status route (ex_action e) name kind MARKET (ex_party_size e) target
    (from_minutes <$> p) (window_text <$> w) (ex_duration_minutes e) (ex_special_requests e) fields question.

Lemma validate_resolved e t :
  extraction_wf e → lt_ok t →
  ∃ name kind candidates target p w usable question,
    resolved e t name candidates target p w usable ∧
    let fields := missing_list (is_none (ex_action e))
                    (is_none name || match candidates with [] => false | _ => true end)
                    (is_none (ex_party_size e)) (is_none target) (negb usable) in
    question_fits question = true ∧
    validate e t = make_intent (match fields with
      | [] => draft e name kind target p w READY (_route_for (ex_action e)) [] None
      | _ => draft e name kind target p w NEEDS_CLARIFICATION CLARIFICATION fields (Some question)
      end).
Proof.
  intros Hwf Ht.
  destruct (resolve_venue_field e Hwf) as (name & kind & candidates & Hv & Hlen & Hstrip & Hc & Hclear).
  destruct (resolve_date_spec e t Ht) as (target & dp & Hd & Hs).
  pose proof (today_boundary_target e t target dp Ht Hd) as Htb.
  pose proof (resolve_time_minutes e t target Hwf Ht) as Hr. rewrite Htb in Hr.
  destruct (resolve_minutes _ _ _) as [[p w] tp] eqn:Em in Hr.
  destruct (extraction_fields e Hwf) as (_ & _ & _ & Hp & Hw & _).
  assert (resolved_ok (window_of (ex_time_window e)) (today_boundary t (ex_date e)) p w (has_time (p, w, tp)))
    as Hro.
  { eapply resolve_minutes_ok, Em.
    - by apply preferred_minutes.
    - intros a b Hab. pose proof (window_minutes _ Hw) as H. rewrite Hab in H. tauto.
    - intros n. unfold today_boundary. case_bool_decide; [|done]. intros [= <-].
      by apply boundary_spec, strftime_minutes. }
  exists name, kind, candidates, target, p, w, (has_time (p, w, tp)).
  exists (_build_question (missing_list (is_none (ex_action e))
            (is_none name || match candidates with [] => false | _ => true end)
            (is_none (ex_party_size e)) (is_none target) (negb (has_time (p, w, tp)))) dp tp candidates).
  split.
  { split; try done.
    - by rewrite <- Em, has_time_spec.
    - unfold has_time. by destruct (is_some p || is_some w). }
  cbn zeta. split; [by apply build_question_fits|].
  unfold validate. rewrite Hv. cbn [mbind option_bind]. rewrite Hd. cbn [mbind option_bind].
  rewrite Hr. cbn [mbind option_bind]. unfold has_time.
  replace (is_some (from_minutes <$> p)) with (is_some p) by by destruct p.
  replace (is_some (window_text <$> w)) with (is_some w) by by destruct w.
  change (missing ?a ?f ++ missing ?b ?g ++ missing ?c ?h ++ missing ?d ?i ++ missing ?u ?j)
    with (missing_list a b c d u).
  by destruct (missing_list _ _ _ _ _).
Qed.

(** The drafted intent passes the constructor. *)
Lemma make_draft e t name kind candidates target p w usable status route fields question :
  extraction_wf e → resolved e t name candidates target p w usable →
  opt_all (len_ok 1 400) (strip <$> question) = true →
  let i := draft e name kind target p w status route fields (strip <$> question) in
  intent_state_ok i = true →
  make_intent (draft e name kind target p w status route fields question) = Some i ∧ intent_ok i = true.
Proof.
  intros Hwf Hr Hq i Hs. destruct Hr as [Hn Hns _ _ Hd [Hp Hw _ _] _ _].
  destruct (extraction_fields e Hwf) as (_ & Hparty & Hdate & _ & _ & Hdur & Hreq).
  assert (strip <$> (from_minutes <$> p) = from_minutes <$> p) as Hps
    by (destruct p as [x|]; cbn; [rewrite strip_from_minutes; [done|by apply Hp]|done]).
  assert (strip <$> target = target) as Hts.
  { pose proof (wf_date e Hwf) as Hw'. destruct target as [s|]; [|done]. destruct Hd as [Hd _].
    by rewrite Hd in Hw'. }
  assert (intent_fields_ok i = true) as Hf.
  { unfold intent_fields_ok, i, draft.
    cbn [in_venue_name in_market in_party_size in_date in_preferred_time in_time_window
         in_duration_minutes in_special_requests in_clarification_question].
    rewrite Hn, Hparty, Hdur, Hreq, Hq.
    assert (opt_all (λ d, iso_date_ok d && is_some (date_fromisoformat d)) target = true) as ->.
    { destruct target as [s|]; [|done]. destruct Hd as [Hd (s' & d & Hs' & Hparse & _)].
      rewrite Hd in Hdate, Hs'. injection Hs' as <-. cbn in *. by rewrite Hdate, Hparse. }
    assert (opt_all hour_minute_ok (from_minutes <$> p) = true) as ->
      by (destruct p; [by apply from_minutes_ok, Hp|done]).
    assert (opt_all time_window_ok (window_text <$> w) = true) as ->.
    { destruct w as [[a b]|]; [|done]. destruct (Hw a b eq_refl). cbn. unfold time_window_ok. cbn.
      by rewrite !from_minutes_ok. }
    reflexivity. }
  assert (intent_ok i = true) as Hi by (unfold intent_ok; by rewrite Hf, Hs).
  split; [|done]. unfold make_intent, draft.
  cbn [in_status in_route in_action in_venue_name in_venue_type in_market in_party_size in_date
       in_preferred_time in_time_window in_duration_minutes in_special_requests in_missing_fields
       in_clarification_question].
  rewrite Hns, Hts, Hps, (wf_requests e Hwf). fold (draft e name kind target p w status route fields (strip <$> question)).
  fold i. by rewrite Hi.
Qed.

Lemma is_none_spec {A} (o : option A) : is_none o = true ↔ o = None.
Proof. by destruct o. Qed.

Lemma missing_list_elem f a v p d u :
  f ∈ missing_list a v p d u ↔
    match f with MF_ACTION => a | MF_VENUE_NAME => v | MF_PARTY_SIZE => p | MF_DATE => d | MF_TIME => u end = true.
Proof.
  unfold missing_list, missing. destruct f, a, v, p, d, u; split; try done; set_solver.
Qed.

(** The missing fields are those not given. *)
Lemma missing_fields_spec e t name candidates target p w usable f :
  resolved e t name candidates target p w usable →
  f ∈ missing_list (is_none (ex_action e))
        (is_none name || match candidates with [] => false | _ => true end)
        (is_none (ex_party_size e)) (is_none target) (negb usable) ↔ ¬ field_given e t f.
Proof.
  intros [_ _ _ Hc Hd _ Hu _]. rewrite missing_list_elem. destruct f; cbn [field_given].
  - rewrite is_none_spec. destruct (ex_action e); naive_solver.
  - cbn [field_given] in Hc. destruct (is_none name || _); naive_solver.
  - rewrite is_none_spec. destruct (ex_party_size e); naive_solver.
  - destruct target; naive_solver.
  - cbn [field_given] in Hu. destruct usable; naive_solver.
Qed.

(** The outcome of a validation. *)
Lemma validate_outcome e t :
  extraction_wf e → lt_ok t →
  ∃ i name kind candidates target p w usable,
    validate e t = Some i ∧ intent_ok i = true ∧ resolved e t name candidates target p w usable ∧
    (∀ f, f ∈ in_missing_fields i ↔ ¬ field_given e t f) ∧
    ((in_status i = NEEDS_CLARIFICATION ∧ in_route i = CLARIFICATION ∧ in_missing_fields i ≠ [] ∧
      ∃ q, i = draft e name kind target p w NEEDS_CLARIFICATION CLARIFICATION (in_missing_fields i) q) ∨
     usable = true ∧ i = draft e name kind target p w READY (_route_for (ex_action e)) [] None).
Proof.
  intros Hwf Ht.
  destruct (validate_resolved e t Hwf Ht)
    as (name & kind & candidates & target & p & w & usable & q & Hr & Hq & Hv).
  cbn zeta in Hv. pose proof (missing_fields_spec e t name candidates target p w usable) as Hf.
  destruct (missing_list _ _ _ _ _) as [|f fs] eqn:El.
  - assert (is_none (ex_action e) = false ∧ is_none name = false ∧ is_none (ex_party_size e) = false ∧
            is_none target = false ∧ usable = true) as (Ha & Hn & Hpa & Hta & Hu).
    { unfold missing_list, missing in El. destruct (is_none (ex_action e)), (is_none name),
        (is_none (ex_party_size e)), (is_none target), usable; cbn in El; try done;
        destruct candidates; done. }
    assert (∀ f, ¬ field_given e t f ↔ f ∈ ([] : list MissingField)) as Hf'
      by (intros f; by rewrite (Hf f Hr)).
    edestruct (make_draft e t name kind candidates target p w usable READY (_route_for (ex_action e)) [] None)
      as [Hm Hok]; [done|done|done| |].
    { unfold intent_state_ok, draft. cbn. unfold is_some. rewrite Ha, Hn, Hpa, Hta. cbn.
      pose proof (rs_some _ _ _ _ _ _ _ _ Hr Hu) as Hs.
      assert (negb (is_none (from_minutes <$> p)) || negb (is_none (window_text <$> w)) = true) as ->
        by (rewrite <- Hs; destruct p; [reflexivity|]; destruct w; reflexivity).
      unfold _route_for. by destruct (bool_decide (ex_action e = Some CREATE_WATCH)). }
    eexists _, name, kind, candidates, target, p, w, usable. rewrite Hv.
    split; [exact Hm|]. split; [exact Hok|]. split; [done|]. split; [|right; done].
    intros f. rewrite Hf'. done.
  - edestruct (make_draft e t name kind candidates target p w usable NEEDS_CLARIFICATION CLARIFICATION
      (f :: fs) (Some q)) as [Hm Hok]; [done|done|by apply question_fits_ok|done|].
    eexists _, name, kind, candidates, target, p, w, usable. rewrite Hv.
    split; [exact Hm|]. split; [exact Hok|]. split; [done|]. split; [intros f'; apply (Hf f' Hr)|].
    left. cbn. split_and!; try done. by eexists.
Qed.

(** C13 (validation). Validation never fails: every extraction pydantic accepts
    becomes a valid intent that keeps the extracted facts, lists as missing
    exactly the facts that are absent, ambiguous, out of range or
    contradictory, and is READY, routed to the watch or the booking service by
    its action, iff nothing is missing. *)
Theorem validate_spec raw e t (He : make_extraction raw = Some e) (Ht : lt_ok t) :
  ∃ i, validate e t = Some i ∧ intent_ok i = true ∧
    in_action i = ex_action e ∧ in_party_size i = ex_party_size e ∧
    in_duration_minutes i = ex_duration_minutes e ∧ in_special_requests i = ex_special_requests e ∧
    (∀ f, f ∈ in_missing_fields i ↔ ¬ field_given e t f) ∧
    (is_ready i = true ↔ ∀ f, ¬ ¬ field_given e t f) ∧
    in_route i = (if is_ready i
                  then if bool_decide (ex_action e = Some CREATE_WATCH) then WATCH_SERVICE else BOOKING_SERVICE
                  else CLARIFICATION).
Proof.
  apply make_extraction_wf in He.
  destruct (validate_outcome e t He Ht) as (i & name & kind & c & target & p & w & u & Hv & Hok & Hr & Hf & Hcase).
  exists i. split; [done|]. split; [done|].
  destruct Hcase as [(Hs & Hro & Hne & q & Hi)|[_ Hi]].
  - rewrite Hi. cbn [draft in_action in_party_size in_duration_minutes in_special_requests is_ready in_status in_route in_missing_fields].
    split_and!; try done; try exact Hf. split; [done|]. intros Hall.
    destruct (in_missing_fields i) as [|f fs]; [done|]. destruct (Hall f). apply Hf. by left.
  - rewrite Hi in Hf |- *. cbn [draft in_action in_party_size in_duration_minutes in_special_requests in_missing_fields] in *.
    split_and!; try done. split; [|done]. intros _ f Hn. apply Hf in Hn. by apply not_elem_of_nil in Hn.
Qed.

Lemma make_window_time x a b :
  day_minute x → day_minute a → day_minute b → a <= x <= b →
  str_le (from_minutes a) (from_minutes x) && str_le (from_minutes x) (from_minutes b) = true.
Proof. intros. rewrite !str_le_minutes by done. rewrite andb_true_iff, !Z.leb_le. lia. Qed.

(** The query of a READY intent. *)
Lemma draft_query e t name kind candidates target p w :
  extraction_wf e → resolved e t name candidates target p w true →
  let i := draft e name kind target p w READY (_route_for (ex_action e)) [] None in
  intent_ok i = true →
  ∃ q s d, query_from i = Some q ∧ query_ok q = true ∧ q_date q = s ∧ ex_date e = Some s ∧
    (date_fromisoformat s = Some d ∧
     toordinal (lt_date t) <= toordinal d <= toordinal (lt_date t) + MAX_DAYS_AHEAD) ∧
    q_preferred_time q = from_minutes <$> p ∧ q_time_window q = window_text <$> w.
Proof.
  intros Hwf Hr i Hok. destruct Hr as [Hn Hns _ _ Hd [Hp Hw Hin _] _ Hsome].
  subst i. unfold intent_ok, intent_fields_ok, intent_state_ok, draft in Hok.
  cbn [in_venue_name in_market in_party_size in_date in_preferred_time in_time_window in_action in_route
       in_duration_minutes in_special_requests in_clarification_question in_status in_missing_fields] in Hok.
  cbn zeta in Hok. rewrite !andb_true_iff in Hok.
  destruct Hok as [Hf [[[Hreq _] _] _]].
  destruct Hf as ((((((((Hfn & Hfm) & Hfp) & Hfd) & Hft) & Hfw) & Hfu) & Hfr) & _).
  destruct Hreq as ((((_ & Hrn) & Hrp) & Hrd) & _).
  unfold query_from, draft.
  cbn [in_venue_name in_market in_party_size in_date in_preferred_time in_time_window in_venue_type
       in_duration_minutes in_special_requests].
  destruct name as [name|]; [|done]. destruct (ex_party_size e) as [party|]; [|done].
  destruct target as [s|]; [|done]. destruct Hd as [Hex (s' & d & Hs' & Hparse & Hrange)].
  rewrite Hex in Hs'. injection Hs' as <-. injection Hns as Hns.
  pose proof (wf_date e Hwf) as Hws. rewrite Hex in Hws. injection Hws as Hws.
  assert (strip <$> (from_minutes <$> p) = from_minutes <$> p) as Hps
    by (destruct p as [x|]; cbn; [rewrite strip_from_minutes; [done|by apply Hp]|done]).
  eexists _, s, d. unfold make_query. cbn zeta.
  cbn [q_venue_name q_venue_type q_market q_party_size q_date q_preferred_time q_time_window
       q_duration_minutes q_special_requests].
  rewrite Hns, Hws, Hps, (wf_requests e Hwf). change (strip MARKET) with MARKET.
  assert (query_ok (MkQuery name kind MARKET party s (from_minutes <$> p) (window_text <$> w)
            (ex_duration_minutes e) (ex_special_requests e)) = true) as Hq.
  { unfold query_ok. cbn [q_venue_name q_venue_type q_market q_party_size q_date q_preferred_time
      q_time_window q_duration_minutes q_special_requests].
    cbn in Hfn, Hfp, Hfd. apply andb_true_iff in Hfd as [Hd1 Hd2].
    rewrite Hfn, Hfm, Hfp, Hd1, Hd2, Hft, Hfw, Hfu, Hfr. cbn [andb].
    unfold query_time_ok. cbn [q_preferred_time q_time_window].
    specialize (Hsome eq_refl). destruct p as [x|], w as [[a b]|]; try done. cbn.
    destruct (Hw a b eq_refl). apply make_window_time; [by apply Hp|done|done|].
    by apply (Hin eq_refl). }
  rewrite Hq. destruct Hrange. split_and!; done.
Qed.

(** C14 (bookable). A READY intent can be executed as it is: the query
    constructor of both services accepts it, its date lies between today and a
    year ahead, and unless the extracted window was malformed, no time of
    today that it asks for is already past. *)
Theorem ready_intent_is_bookable raw e t i
    (He : make_extraction raw = Some e) (Ht : lt_ok t)
    (Hv : validate e t = Some i) (Hready : is_ready i = true) :
  ∃ q d, query_from i = Some q ∧ query_ok q = true ∧ date_fromisoformat (q_date q) = Some d ∧
    toordinal (lt_date t) <= toordinal d <= toordinal (lt_date t) + MAX_DAYS_AHEAD ∧
    (opt_all (λ w, str_le (tw_start w) (tw_end w)) (ex_time_window e) = true → d = lt_date t →
      (∀ s, q_preferred_time q = Some s → ∃ m, to_minutes s = Some m ∧ now_minutes t <= m) ∧
      (∀ w, q_time_window q = Some w →
         ∃ a b, to_minutes (tw_start w) = Some a ∧ to_minutes (tw_end w) = Some b ∧ now_minutes t <= a <= b)).
Proof.
  apply make_extraction_wf in He as Hwf.
  destruct (validate_outcome e t Hwf Ht) as (i' & name & kind & c & target & p & w & u & Hv' & Hok & Hr & Hf & Hcase).
  rewrite Hv in Hv'. injection Hv' as <-.
  destruct Hcase as [(Hs & _)|[-> ->]]; [unfold is_ready in Hready; by rewrite Hs in Hready|].
  destruct (draft_query e t name kind c target p w Hwf Hr Hok) as (q & s & d & Hq & Hqok & Hqd & Hex & Hd & Hqp & Hqw).
  exists q, d. rewrite Hqd. split_and!; try done; [apply Hd..|].
  pose proof Hr as [_ _ _ _ _ [Hp Hw _ Hfut] _ _].
  intros Hwin ->. destruct Hd as (Hparse & _).
  assert (today_boundary t (ex_date e) = Some (boundary (now_minutes t))) as Htb.
  { unfold today_boundary. apply isoformat_fromisoformat in Hparse as <-. rewrite Hex.
    rewrite bool_decide_eq_true_2; done. }
  destruct (boundary_spec (now_minutes t)) as [_ Hnow]; [by apply strftime_minutes|].
  destruct (Hfut eq_refl) with (n := boundary (now_minutes t)) as [H1 H2]; [|done|].
  { intros a b Hab. pose proof (extraction_fields e Hwf) as (_ & _ & _ & _ & Hwok & _).
    pose proof (window_minutes _ Hwok) as Hm. rewrite Hab in Hm. destruct Hm as (Ha & Hb & Hwe).
    rewrite Hwe in Hwin. cbn in Hwin. rewrite str_le_minutes in Hwin by done. lia. }
  split.
  - intros x. rewrite Hqp. destruct p as [m|]; cbn; [|done]. intros [= <-].
    exists m. rewrite to_from_minutes by by apply Hp. split; [done|]. specialize (H1 m eq_refl). lia.
  - intros x. rewrite Hqw. destruct w as [[a b]|]; cbn; [|done]. intros [= <-]. cbn.
    destruct (Hw a b eq_refl). exists a, b. rewrite !to_from_minutes by done. split_and!; try done.
    + specialize (H2 a b eq_refl). lia.
    + specialize (H2 a b eq_refl). lia.
Qed.

(** ** Concrete extractions *)

Definition example_raw : ReservationExtraction :=
  MkExtraction (Some BOOK_RESERVATION) (Some "  bauer "%string) VT_UNKNOWN (Some 2) (Some "2026-08-21"%string)
    (Some "19:00"%string) (Some (MkTimeWindow "18:00" "21:00")) None [" window seat"%string].

Definition example_extraction : ReservationExtraction :=
  MkExtraction (Some BOOK_RESERVATION) (Some "bauer"%string) VT_UNKNOWN (Some 2) (Some "2026-08-21"%string)
    (Some "19:00"%string) (Some (MkTimeWindow "18:00" "21:00")) None ["window seat"%string].

Lemma example_extraction_made : make_extraction example_raw = Some example_extraction.
Proof. vm_compute. reflexivity. Qed.

(** The afternoon of the day itself. *)
Definition example_time : LocalTime := MkLocal (Date 2026 8 21) 18 40.

Lemma example_time_ok : lt_ok example_time.
Proof. unfold lt_ok. vm_compute. split_and!; done || congruence. Qed.

Definition example_intent : ReservationIntent :=
  MkIntent READY BOOKING_SERVICE (Some BOOK_RESERVATION) (Some "The Bauer Kitchen"%string) RESTAURANT MARKET
    (Some 2) (Some "2026-08-21"%string) (Some "19:00"%string) (Some (MkTimeWindow "18:45" "21:00")) None
    ["window seat"%string] [] None.

Lemma example_validated : validate example_extraction example_time = Some example_intent.
Proof. vm_compute. reflexivity. Qed.

Lemma validate_spec_witness :
  make_extraction example_raw = Some example_extraction ∧
  ∃ i, validate example_extraction example_time = Some i ∧ intent_ok i = true.
Proof.
  split; [exact example_extraction_made|].
  destruct (validate_spec example_raw example_extraction example_time example_extraction_made example_time_ok)
    as (i & Hv & Hok & _).
  exists i. split; [exact Hv|exact Hok].
Defined.

Lemma ready_intent_is_bookable_witness :
  is_ready example_intent = true ∧
  ∃ q d, query_from example_intent = Some q ∧ query_ok q = true ∧ date_fromisoformat (q_date q) = Some d.
Proof.
  split; [reflexivity|].
  destruct (ready_intent_is_bookable example_raw example_extraction example_time example_intent
              example_extraction_made example_time_ok example_validated eq_refl)
    as (q & d & Hq & Hok & Hd & _).
  exists q, d. split; [exact Hq|]. split; [exact Hok|exact Hd].
Defined.

(** The same day at 15:00, for 10:00 and a window that ends before it starts. *)
Definition malformed_extraction : ReservationExtraction :=
  MkExtraction (Some BOOK_RESERVATION) (Some "bauer"%string) VT_UNKNOWN (Some 2) (Some "2026-08-21"%string)
    (Some "10:00"%string) (Some (MkTimeWindow "20:00" "18:00")) None [].

(** A malformed window hides a past time: the validator drops
    the window and returns before it compares the preferred time with the
    clock, so at 15:00 a booking for 10:00 of the same day is READY, while
    without the window it asks for a later time. *)
Theorem malformed_window_hides_past_time :
  (∃ i, validate malformed_extraction (MkLocal (Date 2026 8 21) 15 0) = Some i ∧
     is_ready i = true ∧ in_date i = Some "2026-08-21"%string ∧ in_preferred_time i = Some "10:00"%string) ∧
  (∃ i, validate (MkExtraction (Some BOOK_RESERVATION) (Some "bauer"%string) VT_UNKNOWN (Some 2)
                    (Some "2026-08-21"%string) (Some "10:00"%string) None None [])
          (MkLocal (Date 2026 8 21) 15 0) = Some i ∧ in_missing_fields i = [MF_TIME]).
Proof. split; eexists; vm_compute; split_and!; reflexivity. Qed.
