(* ===== verification/MockAdapter.v ===== *)
(** * The mock provider adapter ([backend/integrations/mock_booking.py])

    Stateless generation of the candidate slots of a query over the venue
    catalog, and the four provider operations over the shared mock state.
    [uuid5(NAMESPACE_URL, s).hex] and the first byte of [sha256(s)] are
    parameters.  A result [None] is the [ValueError] or [ValidationError] the
    Python would raise. *)

From S2P Require Import Prelude Dict Sorting Calendar ClockTime Schemas Reservation Watch Venues Prog Effects.
From S2P Require Import MockState.

(** Table sizes the mock cycles through. *)
Definition SLOT_CAPACITIES : list Z := [2; 4; 6; 8; 10].

Definition _MINUTES_PER_DAY : Z := 24 * 60.

(** [range(first, last + 1, step)], for a positive step *)
Definition range_to (first last step : Z) : list Z :=
  (λ i, first + Z.of_nat i * step) <$> seq 0 (Z.to_nat ((last - first) / step + 1)).

(** [l.remove(x)], where [x] is in [l] *)
Fixpoint list_remove_first (x : string) (l : list string) : list string :=
  match l with
  | [] => []
  | y :: l' => if decide (x = y) then l' else y :: list_remove_first x l'
  end.

(** [AvailabilitySlot(...)] *)
Definition make_slot (sl : AvailabilitySlot) : option AvailabilitySlot :=
  if slot_ok sl then Some sl else None.

Fixpoint collect {A B} (f : A → option (option B)) (l : list A) : option (list B) :=
  match l with
  | [] => Some []
  | a :: l' =>
      match f a with
      | None => None
      | Some None => collect f l'
      | Some (Some b) => bs ← collect f l'; Some (b :: bs)
      end
  end.

Section adapter.
Context (uuid5_hex : string → string) (sha256_first : string → Z).
Context (unavailable_venues : list string).
Context (capacity retention pin_ttl : Z).

(** [self._unavailable_venues] *)
Definition unavailable (venue : string) : bool :=
  bool_decide (lower venue ∈ (λ v, lower (strip v)) <$> unavailable_venues).

(** ** Generation *)

Definition _snap_to_grid (m : Z) : Z :=
  let offset := m mod SLOT_INTERVAL_MINUTES in
  if offset =? 0 then m
  else if offset * 2 <=? SLOT_INTERVAL_MINUTES then m - offset
  else m - offset + SLOT_INTERVAL_MINUTES.

Definition _end_time (start_time : string) (duration_minutes : option Z) : option (option string) :=
  match duration_minutes with
  | None => Some None
  | Some d => m ← to_minutes start_time; Some (Some (from_minutes ((m + d) mod _MINUTES_PER_DAY)))
  end.

(** [x or y] on an optional number *)
Definition or_number (x : option Z) (y : Z) : Z :=
  match x with Some n => if n =? 0 then y else n | None => y end.

Definition _slot_capacity (q : AvailabilityQuery) (start_time : string) (p : VenueProfile) : Z :=
  let identity := lower (q_venue_name q) +:+ "|" +:+ q_date q +:+ "|" +:+ start_time in
  let digest := sha256_first identity in
  let size := nth (Z.to_nat (digest mod Z.of_nat (length SLOT_CAPACITIES))) SLOT_CAPACITIES 0 in
  Z.min size (max_party_size p).

(** Opening and latest start, in minutes from the midnight of the day. *)
Definition service_hours (q : AvailabilityQuery) (p : VenueProfile) (h : OpeningHours) : option (Z * Z) :=
  opens ← to_minutes (open_time h);
  closes ← to_minutes (close_time h);
  let closes := if closes <=? opens then closes + _MINUTES_PER_DAY else closes in
  let stay := or_number (q_duration_minutes q) (minimum_stay_minutes p) in
  Some (opens, closes - stay).

Definition _candidate_times (q : AvailabilityQuery) (p : VenueProfile) (h : OpeningHours)
    : option (list string) :=
  '(opens, latest_start) ← service_hours q p h;
  if latest_start <? opens then Some [] else
  match q_time_window q with
  | None =>
      match q_preferred_time q with
      | None => Some []
      | Some preferred =>
          m ← to_minutes preferred;
          let exact := _snap_to_grid m in
          if (opens <=? exact) && (exact <=? latest_start) then Some [from_minutes exact] else Some []
      end
  | Some w =>
      start ← to_minutes (tw_start w);
      end_ ← to_minutes (tw_end w);
      let first := Z.max opens (_snap_to_grid start) in
      let last := Z.min latest_start end_ in
      let candidates := from_minutes <$> range_to first last SLOT_INTERVAL_MINUTES in
      let candidates := match q_preferred_time q with
                        | Some p => if decide (p ∈ candidates) then p :: list_remove_first p candidates
                                    else candidates
                        | None => candidates
                        end in
      Some (slice_to MAX_GENERATED_SLOTS candidates)
  end.

Definition slot_identity (q : AvailabilityQuery) (start_time : string) : string :=
  join "|" [q_market q; lower (q_venue_name q); q_date q; start_time; pretty (q_party_size q);
            match q_duration_minutes q with
            | Some d => if (d =? 0)%Z then "none" else pretty d
            | None => "none"
            end]%string.

(** One round of the loop of [_generate]; [Some None] is [continue]. *)
Definition generate_one (q : AvailabilityQuery) (p : VenueProfile) (start_time : string)
    : option (option AvailabilitySlot) :=
  let capacity := _slot_capacity q start_time p in
  if capacity <? q_party_size q then Some None else
  end_time ← _end_time start_time (q_duration_minutes q);
  sl ← make_slot (MkSlot ("mock_" +:+ uuid5_hex (slot_identity q start_time)) "mock" (q_venue_name q)
         (q_venue_type q) (q_date q) start_time end_time (q_party_size q) capacity);
  Some (Some sl).

Definition _generate (q : AvailabilityQuery) : option (list AvailabilitySlot) :=
  if unavailable (q_venue_name q) then Some [] else
  let p := profile_for (q_venue_name q) in
  d ← date_fromisoformat (q_date q);
  if is_sold_out p d || (max_party_size p <? q_party_size q) then Some [] else
  match hours_for p d with
  | None => Some []
  | Some h =>
      times ← _candidate_times q p h;
      collect (generate_one q p) times
  end.

(** ** Provider operations, on the shared state *)

Definition _confirmation_factory (key : string) (now : Z) (sl : AvailabilitySlot) : BookingConfirmation :=
  MkConfirmation ("mock_booking_" +:+ uuid5_hex key) "mock" MOCK_CONFIRMED sl now.

Definition search_availability (q : AvailabilityQuery) (operation_id : string) (now : Z) (s : mock_state)
    : outcome exn (list AvailabilitySlot) * mock_state :=
  match _generate q with
  | None => (Exc ValueError, s)
  | Some [] => (Ok [], s)
  | Some candidates =>
      let '(result, s) := Mock.publish_and_filter capacity pin_ttl candidates operation_id now s in
      (Ok result, Mock.release_operation operation_id s)
  end.

Definition get_booking (key : string) (now : Z) (s : mock_state) : option BookingConfirmation :=
  Mock.get_booking key now s.

Definition reconcile_booking (key : string) (now : Z) (s : mock_state) : ReconciliationResult :=
  Mock.reconcile_booking key None now s.

Definition book_slot (slot_id key : string) (now : Z) (s : mock_state)
    : outcome exn BookingConfirmation * mock_state :=
  Mock.book_slot retention slot_id key (_confirmation_factory key now) now s.
End adapter.
