(* ===== verification/MockAdapterTheorems.v ===== *)
(** * The mock adapter: theorems

    What a generated slot is, that every bookable time is generated, and where
    the generator leaves the requested window. *)

From S2P Require Import Prelude Dict Sorting Calendar CalendarFacts ClockTime Schemas Reservation.
From S2P Require Import Venues VenueTheorems Watch Prog Effects MockState MockAdapter.

(** ** Lists *)

Lemma elem_of_range_to first last step m :
  0 < step → m ∈ range_to first last step ↔ first <= m <= last ∧ (m - first) mod step = 0.
Proof.
  intros Hs. unfold range_to. rewrite list_elem_of_fmap. setoid_rewrite elem_of_seq. split.
  - intros (i & -> & Hi).
    assert (Z.of_nat i * step <= last - first).
    { assert (Z.of_nat i <= (last - first) / step) as H by lia.
      pose proof (Z.mul_div_le (last - first) step Hs). nia. }
    split; [nia|]. replace (first + Z.of_nat i * step - first) with (Z.of_nat i * step) by lia.
    apply Z_mod_mult.
  - intros [Hm Hmod]. exists (Z.to_nat ((m - first) / step)).
    pose proof (Z.div_mod (m - first) step ltac:(lia)) as Hd.
    pose proof (Z.div_pos (m - first) step ltac:(lia) Hs).
    pose proof (Z.div_le_mono (m - first) (last - first) step Hs ltac:(lia)).
    split; [|lia]. rewrite Z2Nat.id by done. lia.
Qed.

Lemma NoDup_range_to first last step : 0 < step → NoDup (range_to first last step).
Proof.
  intros Hs. unfold range_to. apply NoDup_fmap_2_strong; [|apply NoDup_seq].
  intros i j _ _ H. nia.
Qed.

Lemma range_to_length first last step :
  Z.of_nat (length (range_to first last step)) = Z.max 0 ((last - first) / step + 1).
Proof. unfold range_to. rewrite length_fmap, length_seq. lia. Qed.

Lemma remove_first_perm x l : x ∈ l → x :: list_remove_first x l ≡ₚ l.
Proof.
  induction l as [|y l IH]; [set_solver|]. cbn. case_decide as Hxy; [by subst|].
  intros Hin. assert (x ∈ l) as Hin' by set_solver. rewrite <- (IH Hin') at 2. constructor.
Qed.

Lemma collect_total {A B} (f : A → option (option B)) l :
  (∀ a, a ∈ l → is_Some (f a)) →
  ∃ bs, collect f l = Some bs ∧ (∀ b, b ∈ bs ↔ ∃ a, a ∈ l ∧ f a = Some (Some b)).
Proof.
  induction l as [|a l IH]; intros Hf.
  - exists []. split; [done|]. set_solver.
  - destruct IH as (bs & He & Hb); [set_solver|]. destruct (Hf a) as [r Hr]; [by left|].
    cbn. rewrite Hr. destruct r as [b|].
    + rewrite He. cbn. exists (b :: bs). split; [done|]. intros b'.
      rewrite elem_of_cons, Hb. split.
      * intros [->|(a' & Ha' & He')]; [exists a|exists a']; set_solver.
      * intros (a' & Ha' & He'). apply elem_of_cons in Ha' as [->|Ha'];
          [left; congruence|right; eauto].
    + exists bs. split; [done|]. intros b'. rewrite Hb. split.
      * intros (a' & Ha' & He'). exists a'. set_solver.
      * intros (a' & Ha' & He'). apply elem_of_cons in Ha' as [->|Ha']; [congruence|eauto].
Qed.

(** The collected results keep the order of their arguments. *)
Lemma collect_sublist {A B} (f : A → option (option B)) (g : B → A) l bs :
  (∀ a b, f a = Some (Some b) → g b = a) → collect f l = Some bs → g <$> bs `sublist_of` l.
Proof.
  intros Hg. revert bs. induction l as [|a l IH]; intros bs; cbn.
  - by intros [= <-].
  - destruct (f a) as [[b|]|] eqn:E; [| |done].
    + destruct (collect f l) as [bs'|]; [|done]. intros [= <-]. cbn. rewrite (Hg a b E).
      apply sublist_skip. by apply IH.
    + intros H. apply sublist_cons. by apply IH.
Qed.

(** ** Venue rules *)

Definition hours_good (h : OpeningHours) : bool :=
  match to_minutes (open_time h), to_minutes (close_time h) with
  | Some o, Some c =>
      (0 <=? o) && (o mod 15 =? 0) && ((if c <=? o then c + 1440 else c) <=? 1440)
  | _, _ => false
  end.

Definition profile_good (p : VenueProfile) : bool :=
  forallb (λ o, match o with Some h => hours_good h | None => true end) (weekly_hours p)
  && (length (weekly_hours p) =? 7)%nat
  && (1 <=? minimum_stay_minutes p) && (2 <=? max_party_size p) && (max_party_size p <=? 100).

Lemma profiles_checked :
  forallb (λ v, profile_good (ve_profile v)) VENUE_CATALOG && profile_good DEFAULT_VENUE_PROFILE = true.
Proof. vm_compute. reflexivity. Qed.

Lemma profile_for_good name : profile_good (profile_for name) = true.
Proof.
  pose proof profiles_checked as H. apply andb_true_iff in H as [Hv Hd].
  pose proof (resolve_venue_ok name) as Hr. unfold profile_for.
  destruct (vr_venue (resolve_venue name)) as [v|] eqn:Ev; [|exact Hd].
  rewrite forallb_forall in Hv. apply Hv, list_elem_of_In.
  unfold resolution_ok in Hr. destruct (vr_status (resolve_venue name)).
  - destruct Hr as (v' & Ev' & _ & Hin & _). rewrite Ev in Ev'. by injection Ev' as ->.
  - destruct Hr as [Ev' _]. congruence.
  - destruct Hr as [Ev' _]. congruence.
Qed.

Lemma hours_for_good p d h :
  profile_good p = true → hours_for p d = Some h → hours_good h = true.
Proof.
  unfold profile_good, hours_for. rewrite !andb_true_iff. intros ((((Hh & _) & _) & _) & _).
  case_decide; [done|]. destruct (weekly_hours p !! _) as [[h'|]|] eqn:E; cbn; try done.
  intros [= ->]. apply list_elem_of_lookup_2 in E. rewrite forallb_forall in Hh.
  specialize (Hh (Some h)). by apply Hh, list_elem_of_In.
Qed.

(** The hours a stay fits in, all inside the day. *)
Lemma service_hours_good q p h :
  profile_good p = true → hours_good h = true → opt_all (in_range 15 720) (q_duration_minutes q) = true →
  ∃ opens latest, service_hours q p h = Some (opens, latest) ∧
    0 <= opens ∧ opens mod 15 = 0 ∧ latest <= 1439.
Proof.
  unfold profile_good, hours_good, service_hours. rewrite !andb_true_iff, !Z.leb_le.
  intros ((((_ & _) & Hstay) & _) & _) Hh Hdur.
  destruct (to_minutes (open_time h)) as [o|]; [|done].
  destruct (to_minutes (close_time h)) as [c|]; [|done]. cbn.
  rewrite !andb_true_iff, !Z.leb_le, Z.eqb_eq in Hh. destruct Hh as [[Ho Hm] Hc].
  eexists _, _. split; [done|]. split; [done|]. split; [done|].
  assert (1 <= or_number (q_duration_minutes q) (minimum_stay_minutes p)); [|unfold _MINUTES_PER_DAY; destruct (c <=? o); lia].
  unfold or_number. destruct (q_duration_minutes q) as [n|]; [|done].
  destruct (Z.eqb_spec n 0); [done|]. cbn in Hdur. unfold in_range in Hdur.
  rewrite andb_true_iff, !Z.leb_le in Hdur. lia.
Qed.

(** The whole stay lies inside the hours, which may end after midnight. *)
Definition stay_fits (q : AvailabilityQuery) (p : VenueProfile) (h : OpeningHours) (m : Z) : Prop :=
  ∃ o c, to_minutes (open_time h) = Some o ∧ to_minutes (close_time h) = Some c ∧ o <= m ∧
    m + default (minimum_stay_minutes p) (q_duration_minutes q) <= (if c <=? o then c + 1440 else c).

Lemma stay_fits_spec q p h opens latest m :
  opt_all (in_range 15 720) (q_duration_minutes q) = true →
  service_hours q p h = Some (opens, latest) →
  stay_fits q p h m ↔ opens <= m <= latest.
Proof.
  intros Hd. assert (or_number (q_duration_minutes q) (minimum_stay_minutes p) =
    default (minimum_stay_minutes p) (q_duration_minutes q)) as He.
  { unfold or_number. destruct (q_duration_minutes q) as [n|]; [|done].
    destruct (Z.eqb_spec n 0) as [->|]; done. }
  unfold service_hours, stay_fits. rewrite He. unfold _MINUTES_PER_DAY.
  generalize (default (minimum_stay_minutes p) (q_duration_minutes q)). intros stay.
  destruct (to_minutes (open_time h)) as [o|], (to_minutes (close_time h)) as [c|]; cbn; try done.
  intros [= <- <-]. destruct (c <=? o) eqn:Eco; (split;
    [intros (? & ? & [= <-] & [= <-] & Hm); rewrite Eco in Hm; lia
    |intros; exists o, c; rewrite Eco; split_and!; done || lia]).
Qed.

(** ** The grid *)

Lemma snap_spec m :
  _snap_to_grid m mod 15 = 0 ∧ m - 7 <= _snap_to_grid m <= m + 7 ∧ (m mod 15 = 0 → _snap_to_grid m = m).
Proof.
  unfold _snap_to_grid, SLOT_INTERVAL_MINUTES. cbn zeta.
  pose proof (Z.mod_pos_bound m 15 eq_refl) as Hb. pose proof (Z.div_mod m 15 ltac:(lia)) as Hd.
  set (r := m mod 15) in *. set (k := m / 15) in *. clearbody r k.
  destruct (Z.eqb_spec r 0) as [->|]; [|destruct (Z.leb_spec (r * 2) 15)]; subst m.
  - split_and!; try lia. replace (15 * k + 0) with (k * 15) by lia. apply Z_mod_mult.
  - split_and!; try lia. replace (15 * k + r - r) with (k * 15) by lia. apply Z_mod_mult.
  - split_and!; try lia. replace (15 * k + r - r + 15) with ((k + 1) * 15) by lia. apply Z_mod_mult.
Qed.

Lemma grid_step first m : first mod 15 = 0 → (m - first) mod 15 = 0 ↔ m mod 15 = 0.
Proof.
  intros Hf. rewrite Zminus_mod, Hf, Z.sub_0_r, Zmod_mod. done.
Qed.

Lemma max_grid a b : a mod 15 = 0 → b mod 15 = 0 → Z.max a b mod 15 = 0.
Proof. destruct (Z.max_spec a b) as [[_ ->]|[_ ->]]; done. Qed.

(** ** Candidate times *)

(** The times the query asks for.  A window reaches back before its start only
    when the start is off the fifteen-minute grid, and then by at most seven
    minutes; it never reaches past its end.  A preferred time without a window
    asks for the times at most seven minutes from it: one grid time. *)
Definition in_request (q : AvailabilityQuery) (m : Z) : Prop :=
  match q_time_window q with
  | Some w => ∃ a b, to_minutes (tw_start w) = Some a ∧ to_minutes (tw_end w) = Some b ∧
                     (a <= m ∨ a mod 15 <> 0 ∧ a - 7 <= m) ∧ m <= b
  | None => ∃ s a, q_preferred_time q = Some s ∧ to_minutes s = Some a ∧ a - 7 <= m <= a + 7
  end.

(** A window with at most sixteen of these times on the grid. *)
Definition narrow (q : AvailabilityQuery) : Prop :=
  match q_time_window q with
  | Some w => ∀ a b, to_minutes (tw_start w) = Some a → to_minutes (tw_end w) = Some b →
                     b / 15 - (a + 7) / 15 < 16
  | None => True
  end.

(** The snapped start bounds exactly these times from below. *)
Lemma snap_le a m :
  m mod 15 = 0 → _snap_to_grid a <= m ↔ a <= m ∨ a mod 15 <> 0 ∧ a - 7 <= m.
Proof.
  intros Hm. destruct (snap_spec a) as (Hg & Hnear & Hexact).
  apply Z.div_exact in Hm, Hg; [|done..]. split; [|lia].
  intros Hle. destruct (Z.le_gt_cases a m); [by left|]. right. split; [|lia].
  intros Ha. rewrite Hexact in Hle by done. lia.
Qed.

Lemma snap_unique a m : m mod 15 = 0 → a - 7 <= m <= a + 7 ↔ m = _snap_to_grid a.
Proof.
  intros Hm. destruct (snap_spec a) as (Hg & Hnear & _).
  apply Z.div_exact in Hm, Hg; [|done..]. split; lia.
Qed.

Lemma narrow_snap a b : b / 15 - (a + 7) / 15 < 16 → b - _snap_to_grid a < 240.
Proof.
  intros Hn. destruct (snap_spec a) as (Hg & Hnear & _). apply Z.div_exact in Hg; [|done].
  assert ((a + 7) / 15 = _snap_to_grid a / 15) as He.
  { symmetry. apply Z.div_unique with (r := a + 7 - _snap_to_grid a); lia. }
  pose proof (Z.mul_succ_div_gt b 15 eq_refl). lia.
Qed.

Record candidates_ok (q : AvailabilityQuery) (opens latest : Z) (l : list string) : Prop := {
  ca_length : Z.of_nat (length l) <= MAX_GENERATED_SLOTS;
  ca_nodup : NoDup l;
  ca_sound s : s ∈ l → ∃ m, s = from_minutes m ∧ day_minute m ∧ m mod 15 = 0 ∧
                 opens <= m <= latest ∧ in_request q m;
  ca_complete m : narrow q → m mod 15 = 0 → opens <= m <= latest → in_request q m → from_minutes m ∈ l;
  ca_preferred s : q_preferred_time q = Some s → s ∈ l → head l = Some s;
}.

Lemma from_minutes_inj m n : day_minute m → day_minute n → from_minutes m = from_minutes n → m = n.
Proof. intros Hm%to_from_minutes Hn%to_from_minutes He. rewrite He in Hm. congruence. Qed.

Lemma elem_of_grid first last s :
  first mod 15 = 0 →
  s ∈ from_minutes <$> range_to first last SLOT_INTERVAL_MINUTES ↔
    ∃ m, s = from_minutes m ∧ first <= m <= last ∧ m mod 15 = 0.
Proof.
  intros Hf. rewrite list_elem_of_fmap. unfold SLOT_INTERVAL_MINUTES.
  setoid_rewrite elem_of_range_to; [|done]. split; intros (m & -> & Hm & Hmod); exists m;
    by rewrite grid_step in * by done.
Qed.

(** Moving the preferred time to the front and cutting at sixteen. *)
Definition preferred_first (preferred : option string) (l : list string) : list string :=
  match preferred with
  | Some p => if decide (p ∈ l) then p :: list_remove_first p l else l
  | None => l
  end.

Lemma preferred_first_perm preferred l : preferred_first preferred l ≡ₚ l.
Proof. unfold preferred_first. destruct preferred; [case_decide; [by apply remove_first_perm|]|]; done. Qed.

Lemma window_candidates_ok q opens latest w a b :
  q_time_window q = Some w → to_minutes (tw_start w) = Some a → to_minutes (tw_end w) = Some b →
  0 <= opens → opens mod 15 = 0 → latest <= 1439 → day_minute a →
  candidates_ok q opens latest
    (slice_to MAX_GENERATED_SLOTS (preferred_first (q_preferred_time q)
       (from_minutes <$> range_to (Z.max opens (_snap_to_grid a)) (Z.min latest b) SLOT_INTERVAL_MINUTES))).
Proof.
  intros Hw Ha Hb Ho Hom Hl Hda. set (first := Z.max opens (_snap_to_grid a)).
  assert (first mod 15 = 0) as Hf by (apply max_grid; [done|apply snap_spec]).
  set (grid := from_minutes <$> range_to first (Z.min latest b) SLOT_INTERVAL_MINUTES).
  assert (∀ s, s ∈ grid ↔ ∃ m, s = from_minutes m ∧ first <= m <= Z.min latest b ∧ m mod 15 = 0) as Hg
    by (intros s; by apply elem_of_grid).
  assert (NoDup grid) as Hnd.
  { apply NoDup_fmap_2_strong; [|by apply NoDup_range_to]. intros x y Hx Hy He.
    apply elem_of_range_to in Hx; [|done]. apply elem_of_range_to in Hy; [|done].
    apply from_minutes_inj in He; unfold day_minute in *; lia. }
  pose proof (preferred_first_perm (q_preferred_time q) grid) as Hperm.
  set (all := preferred_first (q_preferred_time q) grid) in *.
  split.
  - by apply slice_to_length.
  - destruct (slice_to_prefix MAX_GENERATED_SLOTS all) as [rest Hall].
    rewrite <- Hperm, Hall in Hnd. by apply NoDup_app in Hnd as [? _].
  - intros s Hs%elem_of_slice_to. rewrite Hperm in Hs. apply Hg in Hs as (m & -> & Hm & Hmod).
    exists m. unfold day_minute. split_and!; try done; try lia.
    unfold in_request. rewrite Hw. exists a, b. split_and!; try done; [|lia].
    apply snap_le; [done|lia].
  - intros m Hn Hmod Hm Hreq. unfold narrow, in_request in *. rewrite Hw in Hn, Hreq.
    destruct Hreq as (a' & b' & Ha' & Hb' & Hab & Hmb). apply snap_le in Hab; [|done].
    replace a' with a in * by congruence. replace b' with b in * by congruence.
    specialize (Hn a b Ha Hb). apply narrow_snap in Hn. rewrite slice_to_all.
    + rewrite Hperm. apply Hg. exists m. split_and!; try done; lia.
    + rewrite Hperm. unfold grid. rewrite length_fmap, range_to_length.
      unfold SLOT_INTERVAL_MINUTES, MAX_GENERATED_SLOTS.
      pose proof (Z.div_lt_upper_bound (Z.min latest b - first) 15 16 eq_refl ltac:(lia)). lia.
  - intros s Hs Hin%elem_of_slice_to. rewrite Hperm in Hin. subst all. unfold preferred_first.
    rewrite Hs, decide_True by done. done.
Qed.

Lemma candidates_nil q opens latest :
  (∀ m, m mod 15 = 0 → opens <= m <= latest → ¬ in_request q m) → candidates_ok q opens latest [].
Proof.
  intros Hn. split; [done|apply NoDup_nil_2|set_solver| |set_solver].
  intros m _ Hg Hm Hreq. by destruct (Hn m Hg Hm).
Qed.

Lemma candidate_times_ok q p h opens latest :
  opt_all hour_minute_ok (q_preferred_time q) = true → opt_all time_window_ok (q_time_window q) = true →
  service_hours q p h = Some (opens, latest) → 0 <= opens → opens mod 15 = 0 → latest <= 1439 →
  ∃ l, _candidate_times q p h = Some l ∧ candidates_ok q opens latest l.
Proof.
  intros Hp Hw Hs Ho Hom Hl. unfold _candidate_times. rewrite Hs. cbn [mbind option_bind].
  destruct (Z.ltb_spec latest opens) as [Hlt|Hle].
  { exists []. split; [done|]. apply candidates_nil. intros m _ Hm. lia. }
  destruct (q_time_window q) as [w|] eqn:Ew.
  - cbn in Hw. unfold time_window_ok in Hw. apply andb_true_iff in Hw as [Hw1 Hw2].
    destruct (to_minutes_ok _ Hw1) as (a & Ha & Hda). destruct (to_minutes_ok _ Hw2) as (b & Hb & _).
    rewrite Ha, Hb. cbn [mbind option_bind]. eexists. split; [reflexivity|].
    exact (window_candidates_ok q opens latest w a b Ew Ha Hb Ho Hom Hl Hda).
  - destruct (q_preferred_time q) as [s|] eqn:Es.
    2: { exists []. split; [done|]. apply candidates_nil. intros m _ _. unfold in_request. rewrite Ew, Es. by intros (? & ? & ? & _). }
    destruct (to_minutes_ok _ Hp) as (a & Ha & Hda). rewrite Ha. cbn [mbind option_bind].
    destruct (snap_spec a) as (Hgrid & Hnear & _).
    assert (∀ m, m mod 15 = 0 → in_request q m ↔ m = _snap_to_grid a) as Hreq.
    { intros m Hm. rewrite <-snap_unique by done. unfold in_request. rewrite Ew, Es.
      split; [|by exists s, a]. intros (s' & a' & [= <-] & Ha' & Hn). congruence. }
    destruct (Z.leb_spec opens (_snap_to_grid a)), (Z.leb_spec (_snap_to_grid a) latest); cbn [andb].
    + eexists. split; [done|]. split.
      * cbn. unfold MAX_GENERATED_SLOTS. lia.
      * apply NoDup_singleton.
      * intros x ->%list_elem_of_singleton. eexists. split; [done|]. unfold day_minute.
        split_and!; try done; try lia. by apply Hreq.
      * intros m _ Hmg _ ->%Hreq; [|done]. by left.
      * intros x Hx. by intros ->%list_elem_of_singleton.
    + exists []. split; [done|]. apply candidates_nil. intros m Hg Hm ->%Hreq; [lia|done].
    + exists []. split; [done|]. apply candidates_nil. intros m Hg Hm ->%Hreq; [lia|done].
    + exists []. split; [done|]. apply candidates_nil. intros m Hg Hm ->%Hreq; [lia|done].
Qed.

(** ** Generated slots *)

Lemma query_fields q :
  query_ok q = true →
  len_ok 1 200 (q_venue_name q) = true ∧ in_range 1 100 (q_party_size q) = true ∧
  iso_date_ok (q_date q) = true ∧ is_some (date_fromisoformat (q_date q)) = true ∧
  opt_all hour_minute_ok (q_preferred_time q) = true ∧ opt_all time_window_ok (q_time_window q) = true ∧
  opt_all (in_range 15 720) (q_duration_minutes q) = true.
Proof. unfold query_ok. rewrite !andb_true_iff. tauto. Qed.

Section generate.
Context (uuid5_hex : string → string) (sha256_first : string → Z) (unavailable_venues : list string).

#[local] Abbreviation generate := (_generate uuid5_hex sha256_first unavailable_venues).
#[local] Abbreviation capacity_at := (_slot_capacity sha256_first).

(** A time the venue can be booked at for this query. *)
Definition offered (q : AvailabilityQuery) (d : date) (m : Z) : Prop :=
  let p := profile_for (q_venue_name q) in
  unavailable unavailable_venues (q_venue_name q) = false ∧ is_sold_out p d = false ∧
  day_minute m ∧ m mod 15 = 0 ∧ in_request q m ∧ q_party_size q <= capacity_at q (from_minutes m) p ∧
  ∃ h, hours_for p d = Some h ∧ stay_fits q p h m.

Definition slot_for (q : AvailabilityQuery) (sl : AvailabilitySlot) : Prop :=
  slot_ok sl = true ∧ sl_venue_name sl = q_venue_name q ∧ sl_venue_type sl = q_venue_type q ∧
  sl_date sl = q_date q ∧ sl_party_size sl = q_party_size q ∧
  sl_slot_id sl = "mock_" +:+ uuid5_hex (slot_identity q (sl_start_time sl)).

Lemma capacity_bound q s p : capacity_at q s p <= max_party_size p.
Proof. unfold _slot_capacity. cbn zeta. lia. Qed.

Lemma end_time_ok m o :
  day_minute m → ∃ e, _end_time (from_minutes m) o = Some e ∧ opt_all hour_minute_ok e = true.
Proof.
  intros Hm. unfold _end_time. destruct o as [d|]; [|by exists None].
  rewrite to_from_minutes by done. eexists. split; [reflexivity|]. cbn.
  apply from_minutes_ok. apply Z.mod_pos_bound. done.
Qed.

Lemma generate_one_ok q m :
  (∀ s, strlen (uuid5_hex s) = 32) → query_ok q = true → day_minute m →
  let p := profile_for (q_venue_name q) in
  match generate_one uuid5_hex sha256_first q p (from_minutes m) with
  | Some (Some sl) => q_party_size q <= capacity_at q (from_minutes m) p ∧
      slot_for q sl ∧ sl_start_time sl = from_minutes m
  | Some None => capacity_at q (from_minutes m) p < q_party_size q
  | None => False
  end.
Proof.
  intros Hu Hq Hm p. destruct (query_fields q Hq) as (Hv & Hpa & Hd & _ & _ & _ & Hdur).
  pose proof (profile_for_good (q_venue_name q)) as Hg. fold p in Hg.
  unfold profile_good in Hg. rewrite !andb_true_iff, !Z.leb_le in Hg. destruct Hg as [_ Hmax].
  unfold generate_one. cbn zeta. destruct (Z.ltb_spec (capacity_at q (from_minutes m) p) (q_party_size q)) as [|Hcap]; [done|].
  destruct (end_time_ok m (q_duration_minutes q) Hm) as (e & He & Hok). rewrite He. cbn [mbind option_bind].
  pose proof (capacity_bound q (from_minutes m) p) as Hb.
  unfold make_slot.
  assert (slot_ok (MkSlot ("mock_" +:+ uuid5_hex (slot_identity q (from_minutes m))) "mock" (q_venue_name q)
            (q_venue_type q) (q_date q) (from_minutes m) e (q_party_size q)
            (capacity_at q (from_minutes m) p)) = true) as Hs.
  { unfold slot_ok. cbn [sl_slot_id sl_provider sl_venue_name sl_date sl_start_time sl_end_time sl_party_size sl_max_party_size].
    rewrite Hv, Hd, Hok, Hpa, from_minutes_ok by done.
    unfold in_range in Hpa. rewrite andb_true_iff, !Z.leb_le in Hpa.
    unfold len_ok, in_range. rewrite strlen_app, Hu. change (strlen "mock_") with 5.
    rewrite !andb_true_iff, !Z.leb_le. split_and!; try done; lia. }
  rewrite Hs. cbn [mbind option_bind]. split; [done|]. done.
Qed.

Lemma slot_identity_inj q s t : slot_identity q s = slot_identity q t → s = t.
Proof.
  unfold slot_identity. cbn [join].
  intros H%string_app_cancel_l%string_app_cancel_l%string_app_cancel_l%string_app_cancel_l%string_app_cancel_l%string_app_cancel_l.
  by apply string_app_cancel_r in H.
Qed.

Record generated_ok (q : AvailabilityQuery) (d : date) (slots : list AvailabilitySlot) : Prop := {
  ge_length : Z.of_nat (length slots) <= MAX_GENERATED_SLOTS;
  ge_starts : NoDup (sl_start_time <$> slots);
  ge_sound sl : sl ∈ slots → slot_for q sl ∧ ∃ m, sl_start_time sl = from_minutes m ∧ offered q d m;
  ge_complete m : narrow q → offered q d m → from_minutes m ∈ sl_start_time <$> slots;
  ge_preferred s : q_preferred_time q = Some s → s ∈ sl_start_time <$> slots →
    head (sl_start_time <$> slots) = Some s;
}.

Lemma generated_nil q d : (∀ m, ¬ offered q d m) → generated_ok q d [].
Proof.
  intros Hn. split; cbn; [done|apply NoDup_nil_2|set_solver| |set_solver].
  intros m _ Hm. by destruct (Hn m).
Qed.

Lemma sublist_head {A} (x : A) l k : NoDup k → l `sublist_of` k → x ∈ l → head k = Some x → head l = Some x.
Proof.
  intros Hnd Hs Hx Hk. destruct k as [|y k]; [done|]. injection Hk as ->.
  apply NoDup_cons in Hnd as [Hni _].
  inversion Hs as [| |? ? ? Hs']; subst; [done|].
  exfalso. apply Hni. by apply (elem_of_sublist l).
Qed.

Lemma generate_ok q :
  (∀ s, strlen (uuid5_hex s) = 32) → query_ok q = true →
  ∃ slots d, generate q = Some slots ∧ date_fromisoformat (q_date q) = Some d ∧ generated_ok q d slots.
Proof.
  intros Hu Hq. destruct (query_fields q Hq) as (Hv & Hpa & Hd & Hparse & Hpt & Hw & Hdur).
  destruct (date_fromisoformat (q_date q)) as [d|] eqn:Ed; [|done].
  unfold _generate. rewrite Ed. set (p := profile_for (q_venue_name q)).
  pose proof (profile_for_good (q_venue_name q)) as Hg. fold p in Hg.
  destruct (unavailable unavailable_venues (q_venue_name q)) eqn:Eun.
  { exists [], d. split_and!; try done. apply generated_nil. intros m (H & _). congruence. }
  cbn [mbind option_bind].
  destruct (is_sold_out p d) eqn:Eso; cbn [orb].
  { exists [], d. split_and!; try done. apply generated_nil. intros m (_ & H & _). fold p in H. congruence. }
  destruct (Z.ltb_spec (max_party_size p) (q_party_size q)) as [Hbig|Hfit].
  { exists [], d. split_and!; try done. apply generated_nil. intros m (_ & _ & _ & _ & _ & H & _).
    fold p in H. pose proof (capacity_bound q (from_minutes m) p). lia. }
  destruct (hours_for p d) as [h|] eqn:Eh.
  2: { exists [], d. split_and!; try done. apply generated_nil. intros m (_ & _ & _ & _ & _ & _ & h & H & _).
    fold p in H. congruence. }
  destruct (service_hours_good q p h Hg (hours_for_good p d h Hg Eh) Hdur) as (o & l & Hs & Ho & Hom & Hl).
  destruct (candidate_times_ok q p h o l Hpt Hw Hs Ho Hom Hl) as (times & Ht & Hc).
  rewrite Ht. cbn [mbind option_bind]. destruct Hc as [Hlen Hnd Hsound Hcomplete Hpref].
  destruct (collect_total (generate_one uuid5_hex sha256_first q p) times) as (slots & He & Hel).
  { intros s Hin. destruct (Hsound s Hin) as (m & -> & Hm & _).
    pose proof (generate_one_ok q m Hu Hq Hm) as H1. cbn zeta in H1. fold p in H1.
    by destruct (generate_one _ _ q p (from_minutes m)). }
  assert (∀ s sl, generate_one uuid5_hex sha256_first q p s = Some (Some sl) → sl_start_time sl = s) as Hst.
  { intros s sl. unfold generate_one, make_slot. cbn zeta. destruct (_ <? _); [done|].
    destruct (_end_time _ _); [|done]. cbn [mbind option_bind].
    destruct (slot_ok _); [|done]. by intros [= <-]. }
  pose proof (collect_sublist _ sl_start_time times slots Hst He) as Hsub.
  exists slots, d. rewrite He. split_and!; [done|done|]. split.
  - apply sublist_length in Hsub. rewrite length_fmap in Hsub. lia.
  - exact (sublist_NoDup _ _ Hnd Hsub).
  - intros sl (s & Hin & Hone)%Hel. destruct (Hsound s Hin) as (m & -> & Hm & Hmod & Hrange & Hreq).
    pose proof (generate_one_ok q m Hu Hq Hm) as H1. cbn zeta in H1. fold p in H1.
    rewrite Hone in H1. destruct H1 as (Hcap & Hfor & Hstart). split; [done|].
    exists m. split; [done|]. unfold offered. fold p. split_and!; try done. exists h.
    split; [done|]. by eapply stay_fits_spec.
  - intros m Hn (_ & _ & Hm & Hmod & Hreq & Hcap & h' & Hh' & Hrange). fold p in Hcap, Hh', Hrange.
    rewrite Eh in Hh'. injection Hh' as <-. apply (stay_fits_spec q p h o l m Hdur Hs) in Hrange.
    assert (from_minutes m ∈ times) as Hin by by apply Hcomplete.
    pose proof (generate_one_ok q m Hu Hq Hm) as H1. cbn zeta in H1. fold p in H1.
    destruct (generate_one _ _ q p (from_minutes m)) as [[sl|]|] eqn:Hone; [|lia|done].
    destruct H1 as (_ & _ & Hstart). rewrite list_elem_of_fmap. exists sl. split; [done|]. apply Hel. eauto.
  - intros s Hs1 Hs2. apply (sublist_head s (sl_start_time <$> slots) times Hnd Hsub Hs2), Hpref; [done|].
    by eapply elem_of_sublist.
Qed.
End generate.

(** C15 (generation). Generating candidates never fails on a valid query. Every
    generated slot is well formed, for the queried party, on the fifteen-minute
    grid, not after the requested window - and not before it either, unless
    the window starts off the grid, and then by at most seven minutes - or,
    without a window, at most seven minutes from the preferred time; it leaves
    its whole stay inside the hours of an open, not sold-out day, at a table that seats the party; no
    start time repeats and at most sixteen are offered. Conversely every such
    time is offered unless the window holds more than sixteen, a preferred
    time among them comes first, and distinct slots have distinct ids when
    [uuid5] does not collide on them. *)
Theorem generate_spec uuid5_hex sha256_first unavailable_venues q
    (Huuid : ∀ s, strlen (uuid5_hex s) = 32) (Hq : query_ok q = true) :
  ∃ slots d, _generate uuid5_hex sha256_first unavailable_venues q = Some slots ∧
    date_fromisoformat (q_date q) = Some d ∧
    generated_ok uuid5_hex sha256_first unavailable_venues q d slots ∧
    ((∀ sl sl', sl ∈ slots → sl' ∈ slots →
        uuid5_hex (slot_identity q (sl_start_time sl)) = uuid5_hex (slot_identity q (sl_start_time sl')) →
        slot_identity q (sl_start_time sl) = slot_identity q (sl_start_time sl')) →
     NoDup (sl_slot_id <$> slots)).
Proof.
  destruct (generate_ok uuid5_hex sha256_first unavailable_venues q Huuid Hq) as (slots & d & He & Hd & Hok).
  exists slots, d. split_and!; try done. intros Hinj.
  pose proof (ge_starts _ _ _ _ _ _ Hok) as Hnd.
  assert (∀ sl sl', sl ∈ slots → sl' ∈ slots → sl_slot_id sl = sl_slot_id sl' →
            sl_start_time sl = sl_start_time sl') as Hid.
  { intros sl sl' H1 H2 Heq.
    destruct (ge_sound _ _ _ _ _ _ Hok sl H1) as ((_ & _ & _ & _ & _ & Hi) & _).
    destruct (ge_sound _ _ _ _ _ _ Hok sl' H2) as ((_ & _ & _ & _ & _ & Hi') & _).
    rewrite Hi, Hi' in Heq. apply string_app_cancel_l in Heq.
    by eapply slot_identity_inj, Hinj. }
  clear -Hnd Hid. induction slots as [|sl slots IH]; [apply NoDup_nil_2|].
  rewrite fmap_cons in *. apply NoDup_cons in Hnd as [Hni Hnd]. apply NoDup_cons. split.
  - intros (sl' & Heq & Hin)%list_elem_of_fmap. apply Hni, list_elem_of_fmap.
    exists sl'. split; [|done]. apply Hid; [by left|by right|done].
  - apply IH; [done|]. intros x y Hx Hy. apply Hid; by right.
Qed.

(** ** Concrete generation *)

(** Stand-ins for the two hashes. *)
Definition demo_uuid5 (s : string) : string := of_chars (take 32 (rev (chars s) ++ replicate 32 "0"%char)).
Definition demo_sha256 (s : string) : Z := Z.of_nat (String.length s).

Lemma demo_uuid5_length s : strlen (demo_uuid5 s) = 32.
Proof.
  unfold demo_uuid5. rewrite strlen_of_chars, length_take, length_app, length_rev, length_replicate. lia.
Qed.

Definition demo_query : AvailabilityQuery :=
  MkQuery "The Bauer Kitchen" RESTAURANT MARKET 2 "2026-08-21" (Some "19:00"%string)
    (Some (MkTimeWindow "18:00" "20:00")) None [].

Lemma generate_spec_witness :
  query_ok demo_query = true ∧
  (sl_start_time <$> default [] (_generate demo_uuid5 demo_sha256 [] demo_query))
    = ["19:00"; "18:00"; "18:15"; "18:30"; "18:45"; "19:15"; "19:30"; "19:45"; "20:00"]%string ∧
  ∃ slots, _generate demo_uuid5 demo_sha256 [] demo_query = Some slots ∧ NoDup (sl_start_time <$> slots).
Proof.
  split; [vm_compute; reflexivity|]. split; [vm_compute; reflexivity|].
  destruct (generate_spec demo_uuid5 demo_sha256 [] demo_query demo_uuid5_length eq_refl)
    as (slots & d & He & _ & Hok & _).
  exists slots. split; [exact He|apply Hok].
Defined.

(** The generator may leave the requested window: its start is
    snapped to the nearest quarter hour, so a window from 18:05 is searched
    from 18:00, and the first slot offered, the one a booking takes, starts
    before the earliest acceptable time. *)
Theorem window_start_is_rounded_down :
  ∃ q slots sl, query_ok q = true ∧ q_time_window q = Some (MkTimeWindow "18:05" "18:30") ∧
    _generate demo_uuid5 demo_sha256 [] q = Some slots ∧ head slots = Some sl ∧
    sl_start_time sl = "18:00"%string.
Proof.
  exists (MkQuery "The Bauer Kitchen" RESTAURANT MARKET 2 "2026-08-21" None
            (Some (MkTimeWindow "18:05" "18:30")) None []).
  eexists _, _. vm_compute. split_and!; reflexivity.
Qed.
