(* ===== verification/BookingService.v ===== *)
(** * The booking service and the prompt router
    ([backend/services/booking_service.py], [backend/orchestrator/router.py])

    A validated intent becomes at most one booking.  Both coroutines are
    programs over the awaited calls of [Effects]; [sha256(...).hexdigest()] is
    a parameter, the canonical JSON it hashes is not. *)

From S2P Require Import Prelude Dict Sorting Calendar Schemas Reservation Watch Policy Prog Effects.
From S2P Require Import Json WatchService.

(** [PromptExecutionResult(...)] *)
Definition make_result (st : ExecutionStatus) (i : ReservationIntent) (slots : list AvailabilitySlot)
    (booking : option BookingConfirmation) (watch_id : option string) (message : string)
    : M PromptExecutionResult :=
  let r := MkResult st i slots booking watch_id message in
  if result_ok r then Ret r else raise ValueError.

Definition action_value (a : IntentAction) : string :=
  match a with
  | BOOK_RESERVATION => "BOOK_RESERVATION"
  | SEARCH_AVAILABILITY => "SEARCH_AVAILABILITY"
  | CREATE_WATCH => "CREATE_WATCH"
  end.

Definition venue_type_value (t : VenueType) : string :=
  match t with RESTAURANT => "RESTAURANT" | RECREATION => "RECREATION" | VT_UNKNOWN => "UNKNOWN" end.

Definition json_opt {A} (f : A → json) (o : option A) : json :=
  match o with Some a => f a | None => JNull end.

(** The dictionary [_idempotency_key] hashes. *)
Definition identity (i : ReservationIntent) (q : AvailabilityQuery) (scope : string) : json :=
  JObj [("owner", JStr scope);
        ("action", json_opt (λ a, JStr (action_value a)) (in_action i));
        ("venue_name", JStr (lower (q_venue_name q)));
        ("venue_type", JStr (venue_type_value (q_venue_type q)));
        ("market", JStr (q_market q));
        ("party_size", JInt (q_party_size q));
        ("date", JStr (q_date q));
        ("preferred_time", json_opt JStr (q_preferred_time q));
        ("time_window", json_opt (λ w, JObj [("start", JStr (tw_start w)); ("end", JStr (tw_end w))])
                          (q_time_window q));
        ("duration_minutes", json_opt JInt (q_duration_minutes q));
        ("special_requests", JList (map JStr (sort_text id (map lower (q_special_requests q)))))]%string.

Section service.
Context (sha256_hex : string → string).

Definition idempotency_key (i : ReservationIntent) (q : AvailabilityQuery) (scope : string) : string :=
  sha256_hex (dumps (identity i q scope)).

(** [_query_from] *)
Definition booking_query (i : ReservationIntent) : M AvailabilityQuery := or_value_error (query_from i).

Definition _replayed_booking (i : ReservationIntent) (key : option string)
    : M (option PromptExecutionResult) :=
  match key with
  | None => Ret None
  | Some key =>
      existing ← await (ProviderGetBooking key);
      match existing with
      | None => Ret None
      | Some c =>
          r ← make_result MOCK_BOOKED i [bc_slot c] (Some c) None
            "Returning the existing mock reservation for this idempotent request. No real venue or booking provider was contacted.";
          Ret (Some r)
      end
  end.

(** The owner whose retries share a key. *)
Definition scope_of (owner_client_id user_id : option string) : M string :=
  match user_id, owner_client_id with
  | Some u, _ => Ret ("account:" +:+ u)
  | None, Some c =>
      if nonempty c then Ret ("client:" +:+ c)
      else hex ← await Uuid; Ret ("request:" +:+ hex)
  | None, None => hex ← await Uuid; Ret ("request:" +:+ hex)
  end.

(** The loop over the slots: the first one that is not lost to a race. *)
Fixpoint book_first (key : string) (slots : list AvailabilitySlot) : M (option BookingConfirmation) :=
  match slots with
  | [] => Ret None
  | sl :: slots' =>
      r ← attempt (await (ProviderBook (sl_slot_id sl) key));
      match r with
      | Ok c => Ret (Some c)
      | Exc x => if slot_race x then book_first key slots' else raise x
      end
  end.

(** After the search of [execute]. *)
Definition book_slots (i : ReservationIntent) (key : string) (slots : list AvailabilitySlot)
    : M PromptExecutionResult :=
  booked ← book_first key slots;
  match booked with
  | Some c =>
      make_result MOCK_BOOKED i slots (Some c) None
        "Mock reservation confirmed. No real venue or booking provider was contacted."
  | None =>
      replayed ← _replayed_booking i (Some key);
      match replayed with
      | Some r => Ret r
      | None =>
          make_result NO_AVAILABILITY_RESULT i [] None None
            "Every matching mock slot was taken before the booking completed."
      end
  end.

Definition search_and_book (i : ReservationIntent) (q : AvailabilityQuery) (key : option string)
    : M PromptExecutionResult :=
  slots ← await (ProviderSearch q);
  match slots with
  | [] =>
      replayed ← _replayed_booking i key;
      match replayed with
      | Some r => Ret r
      | None =>
          make_result NO_AVAILABILITY_RESULT i [] None None
            "No availability matched the request. (mock search only returns one slot for testing purposes.)"
      end
  | _ =>
      match in_action i, key with
      | Some SEARCH_AVAILABILITY, _ =>
          make_result AVAILABILITY_FOUND i slots None None
            ("Found " +:+ pretty (Z.of_nat (length slots)) +:+ " mock availability slot(s).")
      | Some BOOK_RESERVATION, Some key => book_slots i key slots
      | _, _ => raise ValueError
      end
  end.

Definition execute (i : ReservationIntent) (owner_client_id user_id : option string)
    : M PromptExecutionResult :=
  if negb (is_ready i) then
    make_result CLARIFICATION_REQUIRED i [] None None
      (match in_clarification_question i with
       | Some question => if nonempty question then question else "More information is required."
       | None => "More information is required."
       end)
  else if bool_decide (in_route i = WATCH_SERVICE) then
    make_result WATCH_REQUIRED i [] None None
      "This request needs background monitoring. Route it through the watch service rather than the booking service."
  else
    q ← booking_query i;
    if bool_decide (in_action i = Some BOOK_RESERVATION) then
      scope ← scope_of owner_client_id user_id;
      let key := idempotency_key i q scope in
      replayed ← _replayed_booking i (Some key);
      match replayed with
      | Some r => Ret r
      | None => search_and_book i q (Some key)
      end
    else search_and_book i q None.
End service.

(** ** The router *)

Section router.
Context (sha256_hex : string → string) (sv : WatchService).

Definition _watch_message (w : Watch) (p : AvailabilityPolicy) : string :=
  let q := w_query w in
  let opening := "Watching " +:+ q_venue_name q +:+ " for " +:+ pretty (q_party_size q)
                 +:+ " on " +:+ q_date q +:+ ". " in
  if ap_supports_deadline p
  then opening +:+ "Background checks run every few minutes until a slot opens or the date passes."
  else opening +:+ "Background checks run every few minutes for up to " +:+ pretty (ap_effective_attempts p)
       +:+ " availability checks; monitoring may stop before " +:+ q_date q +:+ ".".

Definition _create_watch (i : ReservationIntent) (owner_client_id user_id : option string)
    : M PromptExecutionResult :=
  w ← create_from_intent sv i false owner_client_id user_id;
  policy ← or_value_error (describe_policy sv w);
  make_result WATCH_CREATED i [] None (Some (w_watch_id w)) (_watch_message w policy).

Definition route_prompt (i : ReservationIntent) (owner_client_id user_id : option string)
    : M PromptExecutionResult :=
  if is_ready i && bool_decide (in_route i = WATCH_SERVICE)
  then _create_watch i owner_client_id user_id
  else execute sha256_hex i owner_client_id user_id.
End router.
