(* ===== verification/BookingTheorems.v ===== *)
(** * The booking service: theorems

    One request books at most one slot, for the searched query and under the
    key of its owner and content; keys of different requests differ. *)

From S2P Require Import Prelude Dict Sorting Calendar CalendarFacts ClockTime Schemas Reservation Watch Policy.
From S2P Require Import Prog Effects Json WatchService Venues Validator VenueTheorems ValidatorTheorems BookingService.

Section execute.
Context (sha256_hex : string → string) (i : ReservationIntent) (q : AvailabilityQuery).
Context (owner_client_id user_id : option string).
Implicit Types t : list call_event.

(** The scope of the request, a fresh one when it has no identity. *)
Definition scope_known t (scope : string) : Prop :=
  match user_id, owner_client_id with
  | Some u, _ => scope = "account:" +:+ u
  | None, Some c =>
      if nonempty c then scope = "client:" +:+ c
      else ∃ hex, scope = "request:" +:+ hex ∧ Ev (Σ := calls) Uuid (Ok hex) ∈ t
  | None, None => ∃ hex, scope = "request:" +:+ hex ∧ Ev (Σ := calls) Uuid (Ok hex) ∈ t
  end.

Definition request_key t (key : string) : Prop :=
  ∃ scope, scope_known t scope ∧ key = idempotency_key sha256_hex i q scope.

(** An event that leaves the request without a reservation: a booking lost to
    a race, a lookup that found none, any other call. *)
Definition unbooked_event (e : call_event) : Prop :=
  match e with
  | Ev c r =>
      match c as c return outcome exn (answer c) → Prop with
      | ProviderBook _ _ => λ r, ∃ x, r = Exc x ∧ slot_race x = true
      | ProviderGetBooking _ => λ r, r = Ok None
      | _ => λ _, True
      end r
  end.

Definition unbooked t : Prop := Forall unbooked_event t.

Definition execute_ok t (o : call) : Prop :=
  is_ready i = true ∧ in_route i = BOOKING_SERVICE ∧
  match o with
  | Uuid => in_action i = Some BOOK_RESERVATION
  | ProviderSearch q' => q' = q ∧ unbooked t
  | ProviderGetBooking key =>
      in_action i = Some BOOK_RESERVATION ∧ request_key t key ∧ unbooked t
  | ProviderBook id key =>
      in_action i = Some BOOK_RESERVATION ∧ request_key t key ∧ unbooked t ∧
      Ev (Σ := calls) (ProviderGetBooking key) (Ok None) ∈ t ∧
      ∃ slots sl, Ev (Σ := calls) (ProviderSearch q) (Ok slots) ∈ t ∧ sl ∈ slots ∧ sl_slot_id sl = id
  | _ => False
  end.

(** A booking intent was looked up first. *)
Definition looked_up t : Prop :=
  is_ready i = true → in_route i = BOOKING_SERVICE → in_action i = Some BOOK_RESERVATION →
  ∃ key, request_key t key ∧ Ev (Σ := calls) (ProviderGetBooking key) (Ok None) ∈ t.

Definition execute_post (out : outcome exn PromptExecutionResult) t : Prop :=
  match out with
  | Ok r =>
      result_ok r = true ∧ pr_intent r = i ∧
      match pr_booking r with
      | Some c => (∃ key, request_key t key ∧
          (Ev (Σ := calls) (ProviderGetBooking key) (Ok (Some c)) ∈ t ∨
           ∃ id, Ev (Σ := calls) (ProviderBook id key) (Ok c) ∈ t))
      | None => unbooked t ∧ looked_up t
      end
  | Exc x => (∃ c, Ev (Σ := calls) c (Exc x) ∈ t) ∨
      ∃ slots, Ev (Σ := calls) (ProviderSearch q) (Ok slots) ∈ t ∧ 1000 <= Z.of_nat (length slots)
  end.

#[local] Abbreviation safe_execute := (safe (tracing (Σ := calls) execute_ok)).

Definition raised t (x : exn) : Prop := ∃ c, Ev (Σ := calls) c (Exc x) ∈ t.

Lemma raised_last t c x : raised (t ++ [Ev (Σ := calls) c (Exc x)]) x.
Proof. exists c. set_solver. Qed.

Lemma snoc_request_key t e key : request_key t key → request_key (t ++ [e]) key.
Proof.
  intros (scope & Hs & ->). exists scope. split; [|done]. unfold scope_known in *.
  destruct user_id; [done|]. destruct owner_client_id as [c|]; [destruct (nonempty c); [done|]|];
    destruct Hs as (hex & -> & Hin); exists hex; set_solver.
Qed.

Lemma snoc_unbooked t e : unbooked t → unbooked_event e → unbooked (t ++ [e]).
Proof. intros Ht He. apply Forall_app. by split; [|constructor]. Qed.

Lemma make_result_spec t st slots booking wid message (Q : outcome exn PromptExecutionResult → list call_event → Prop) :
  result_ok (MkResult st i slots booking wid message) = true →
  Q (Ok (MkResult st i slots booking wid message)) t →
  safe_execute t (make_result st i slots booking wid message) Q.
Proof. intros Hok HQ. unfold make_result. cbn zeta. by rewrite Hok. Qed.

Lemma safe_make_result {A} t st slots booking wid message
    (f : PromptExecutionResult → M A) (Q : outcome exn A → list call_event → Prop) :
  result_ok (MkResult st i slots booking wid message) = true →
  safe_execute t (f (MkResult st i slots booking wid message)) Q →
  safe_execute t (make_result st i slots booking wid message ≫= f) Q.
Proof. intros Hok HQ. unfold make_result. cbn zeta. by rewrite Hok. Qed.

(** What may still follow a call that booked nothing. *)
Section ready.
Context (Hready : is_ready i = true) (Hroute : in_route i = BOOKING_SERVICE).

Lemma booked_result_ok slots c message :
  len_ok 1 500 message = true →
  result_ok (MkResult MOCK_BOOKED i slots (Some c) None message) = true.
Proof. intros Hm. unfold result_ok. cbn [pr_status pr_booking pr_watch_id pr_message opt_all]. by rewrite Hm. Qed.

Lemma plain_result_ok st slots message :
  st = NO_AVAILABILITY_RESULT ∨ st = AVAILABILITY_FOUND → len_ok 1 500 message = true →
  result_ok (MkResult st i slots None None message) = true.
Proof.
  intros Hst Hm. unfold result_ok. cbn [pr_status pr_booking pr_watch_id pr_message opt_all].
  rewrite Hm. by destruct Hst as [-> | ->].
Qed.

(** A lookup under the key of the request. *)
Lemma safe_replayed {A} t key (f : option PromptExecutionResult → M A)
    (Q : outcome exn A → list call_event → Prop) :
  in_action i = Some BOOK_RESERVATION → request_key t key → unbooked t →
  (∀ t' r, execute_post (Ok r) t' → safe_execute t' (f (Some r)) Q) →
  (∀ t', request_key t' key → unbooked t' → (∀ e, e ∈ t → e ∈ t') →
     Ev (Σ := calls) (ProviderGetBooking key) (Ok None) ∈ t' → safe_execute t' (f None) Q) →
  (∀ t' x, raised t' x → Q (Exc x) t') →
  safe_execute t (_replayed_booking i (Some key) ≫= f) Q.
Proof.
  intros Ha Hk Hu Hsome Hnone Hexc. unfold _replayed_booking.
  apply (safe_bind (tracing execute_ok)), (safe_await (tracing execute_ok) t (ProviderGetBooking key)).
  - cbn. done.
  - intros [c|] _; cbn [mnext tracing].
    + apply safe_make_result; [by apply booked_result_ok|]. apply Hsome. cbn.
      split; [by apply booked_result_ok|]. split; [done|].
      exists key. split; [by apply snoc_request_key|]. left. set_solver.
    + apply Hnone; [by apply snoc_request_key|by apply snoc_unbooked|set_solver|set_solver].
  - intros x _. apply Hexc, raised_last.
Qed.

Lemma request_key_sub t t' key : request_key t key → (∀ e, e ∈ t → e ∈ t') → request_key t' key.
Proof.
  intros (scope & Hs & ->) Hsub. exists scope. split; [|done]. unfold scope_known in *.
  destruct user_id; [done|]. destruct owner_client_id as [c|]; [destruct (nonempty c); [done|]|];
    destruct Hs as (hex & -> & Hin); exists hex; auto.
Qed.

(** The loop over the slots. *)
Lemma safe_book_first {A} t key l slots (f : option BookingConfirmation → M A)
    (Q : outcome exn A → list call_event → Prop) :
  in_action i = Some BOOK_RESERVATION → request_key t key → unbooked t →
  Ev (Σ := calls) (ProviderGetBooking key) (Ok None) ∈ t →
  Ev (Σ := calls) (ProviderSearch q) (Ok slots) ∈ t → (∀ sl, sl ∈ l → sl ∈ slots) →
  (∀ t' id c, request_key t' key → Ev (Σ := calls) (ProviderBook id key) (Ok c) ∈ t' →
     safe_execute t' (f (Some c)) Q) →
  (∀ t', request_key t' key → unbooked t' → safe_execute t' (f None) Q) →
  (∀ t' x, raised t' x → Q (Exc x) t') →
  safe_execute t (book_first key l ≫= f) Q.
Proof.
  intros Ha. revert t. induction l as [|sl l IH]; intros t Hk Hu Hg Hs Hl Hsome Hnone Hexc.
  - apply Hnone; done.
  - cbn [book_first]. split.
    + cbn. split_and!; try done. exists slots, sl. split_and!; try done. apply Hl. by left.
    + intros [c|x] _; cbn [mnext tracing].
      * apply (Hsome _ (sl_slot_id sl)); [by apply snoc_request_key|set_solver].
      * cbn -[book_first]. destruct (slot_race x) eqn:Ex; [|apply Hexc, raised_last].
        apply IH; try done.
        -- by apply snoc_request_key.
        -- apply snoc_unbooked; [done|]. by exists x.
        -- set_solver.
        -- set_solver.
        -- intros sl' Hin. apply Hl. by right.
Qed.

Lemma found_message_ok n : 0 <= n < 1000 →
  len_ok 1 500 ("Found " +:+ pretty n +:+ " mock availability slot(s).") = true.
Proof.
  intros Hn.
  assert (all_from (λ n, len_ok 1 500 ("Found " +:+ pretty n +:+ " mock availability slot(s).")) 0 (Z.to_nat 1000) = true)
    as H by (vm_compute; reflexivity).
  exact (all_from_Z _ _ _ H n Hn).
Qed.

Lemma execute_post_exc t x : raised t x → execute_post (Exc x) t.
Proof. intros H. by left. Qed.

Lemma safe_no_availability t message :
  unbooked t → looked_up t → len_ok 1 500 message = true →
  safe_execute t (make_result NO_AVAILABILITY_RESULT i [] None None message) execute_post.
Proof.
  intros Hu Hl Hm. assert (result_ok (MkResult NO_AVAILABILITY_RESULT i [] None None message) = true) as Hok
    by (apply plain_result_ok; [by left|done]).
  apply make_result_spec; [done|]. done.
Qed.

Lemma safe_search_and_book t key :
  match in_action i with
  | Some BOOK_RESERVATION => ∃ k, key = Some k ∧ request_key t k ∧
      Ev (Σ := calls) (ProviderGetBooking k) (Ok None) ∈ t
  | Some SEARCH_AVAILABILITY => key = None
  | _ => False
  end →
  unbooked t → safe_execute t (search_and_book i q key) execute_post.
Proof.
  intros Hact Hu. unfold search_and_book.
  apply (safe_await (tracing execute_ok) t (ProviderSearch q)); [by cbn| |intros x _; apply execute_post_exc, raised_last].
  intros slots _. cbn [mnext tracing]. set (t1 := t ++ [_]).
  assert (unbooked t1) as Hu1 by by apply snoc_unbooked.
  assert (Ev (Σ := calls) (ProviderSearch q) (Ok slots) ∈ t1) as Hin by set_solver.
  destruct (in_action i) as [[]|] eqn:Ea; try done.
  - destruct Hact as (k & -> & Hk & Hg).
    assert (request_key t1 k) as Hk1 by by apply snoc_request_key.
    destruct slots as [|sl slots].
    + apply (safe_replayed t1 k); [done|done|done|..].
      * intros t' r Hr. exact Hr.
      * intros t' Hk' Hu' _ Hg'. apply safe_no_availability; [done| |done]. intros _ _ _. by exists k.
      * intros t' x Hx. by apply execute_post_exc.
    + unfold book_slots. apply (safe_book_first t1 k (sl :: slots) (sl :: slots)); try done; [set_solver| | |].
      * intros t' id c Hk' Hb. cbn beta iota. apply make_result_spec; [by apply booked_result_ok|].
        split; [by apply booked_result_ok|]. split; [done|]. exists k. split; [done|]. right. by exists id.
      * intros t' Hk' Hu'. cbn beta iota. apply (safe_replayed t' k); [done|done|done|..].
        -- intros t'' r Hr. exact Hr.
        -- intros t'' Hk'' Hu'' _ Hg'. apply safe_no_availability; [done| |done]. intros _ _ _. by exists k.
        -- intros t'' x Hx. by apply execute_post_exc.
      * intros t' x Hx. by apply execute_post_exc.
  - subst key. assert (looked_up t1) as Hl1 by (intros _ _ H; by rewrite Ea in H).
    destruct slots as [|sl slots].
    + by apply safe_no_availability.
    + unfold make_result. cbn zeta.
      destruct (decide (Z.of_nat (length (sl :: slots)) < 1000)) as [Hlt|Hge].
      * rewrite plain_result_ok; [|by right|apply found_message_ok; lia].
        split; [apply plain_result_ok; [by right|apply found_message_ok; lia]|]. done.
      * destruct (result_ok _) eqn:Hok; [by split|]. right. exists (sl :: slots). split; [done|lia].
Qed.
End ready.

Lemma safe_scope {A} t (f : string → M A) (Q : outcome exn A → list call_event → Prop) :
  is_ready i = true → in_route i = BOOKING_SERVICE → in_action i = Some BOOK_RESERVATION → unbooked t →
  (∀ t' scope, scope_known t' scope → unbooked t' → safe_execute t' (f scope) Q) →
  (∀ t' x, raised t' x → Q (Exc x) t') →
  safe_execute t (scope_of owner_client_id user_id ≫= f) Q.
Proof.
  intros Hready Hroute Ha Hu Hf Hexc.
  assert ((∀ t' hex, Ev (Σ := calls) Uuid (Ok hex) ∈ t' → scope_known t' ("request:" +:+ hex)) →
    safe_execute t ((hex ← await Uuid; Ret ("request:" +:+ hex)) ≫= f) Q) as Hfresh.
  { intros Hk. apply (safe_bind (tracing execute_ok)), (safe_await (tracing execute_ok) t Uuid); [done| |].
    - intros hex _. cbn [mnext tracing]. apply Hf; [apply Hk; set_solver|by apply snoc_unbooked].
    - intros x _. apply Hexc, raised_last. }
  unfold scope_of, scope_known in *. destruct user_id as [u|]; [by apply Hf|].
  destruct owner_client_id as [c|]; [destruct (nonempty c); [by apply Hf|]|];
    apply Hfresh; intros t' hex Hin; by exists hex.
Qed.

Lemma safe_execute_spec :
  intent_ok i = true → (is_ready i = true → query_from i = Some q) →
  in_route i = (if is_ready i
                then if bool_decide (in_action i = Some CREATE_WATCH) then WATCH_SERVICE else BOOKING_SERVICE
                else CLARIFICATION) →
  safe_execute [] (execute sha256_hex i owner_client_id user_id) execute_post.
Proof.
  intros Hok Hq Hroute. unfold execute.
  unfold intent_ok, intent_state_ok in Hok. apply andb_true_iff in Hok as [Hf Hs].
  destruct (is_ready i) eqn:Er; cbn [negb].
  2: { pose proof Er as Er'. unfold is_ready in Er'. destruct (in_status i); [done|].
    rewrite !andb_true_iff in Hs. destruct Hs as [_ Hc].
    unfold intent_fields_ok in Hf. rewrite !andb_true_iff in Hf. destruct Hf as [_ Hlen].
    destruct (in_clarification_question i) as [question|]; [|done]. cbn in Hlen.
    assert (nonempty question = true) as -> by (destruct question; [vm_compute in Hlen|]; done).
    assert (result_ok (MkResult CLARIFICATION_REQUIRED i [] None None question) = true) as Hres.
    { unfold result_ok. cbn [pr_status pr_booking pr_watch_id pr_message pr_intent opt_all].
      unfold len_ok, in_range in *. rewrite andb_true_iff, !Z.leb_le in Hlen.
      rewrite (proj2 (Z.leb_le 1 (strlen question))), (proj2 (Z.leb_le (strlen question) 500)) by lia.
      by rewrite Er. }
    apply make_result_spec; [done|]. split; [done|]. split; [done|]. split; [constructor|].
    intros H. by rewrite Er in H. }
  specialize (Hq eq_refl).
  destruct (bool_decide (in_action i = Some CREATE_WATCH)) eqn:Ec.
  { rewrite Hroute. cbn [bool_decide]. rewrite bool_decide_eq_true_2 by done.
    apply make_result_spec; [reflexivity|]. split; [reflexivity|]. split; [done|]. split; [constructor|].
    intros _ H. by rewrite Hroute in H. }
  rewrite bool_decide_eq_false_2 by by rewrite Hroute.
  unfold booking_query. rewrite Hq. cbn [or_value_error mbind prog_bind].
  apply bool_decide_eq_false in Ec.
  assert (is_some (in_action i) = true) as Hact.
  { unfold is_ready in Er. destruct (in_status i); [|done]. rewrite !andb_true_iff in Hs. tauto. }
  destruct (decide (in_action i = Some BOOK_RESERVATION)) as [Ha|Ha].
  - rewrite bool_decide_eq_true_2 by done.
    apply safe_scope; [done..|constructor| |intros; by apply execute_post_exc].
    intros t scope Hscope Hu. cbn zeta. set (key := idempotency_key sha256_hex i q scope).
    assert (request_key t key) as Hk by (exists scope; done).
    apply (safe_replayed Er Hroute t key); [done|done|done|..].
    + intros t' r Hr. exact Hr.
    + intros t' Hk' Hu' _ Hg. apply safe_search_and_book; [done|done| |done]. rewrite Ha. by exists key.
    + intros t' x Hx. by apply execute_post_exc.
  - rewrite bool_decide_eq_false_2 by done.
    apply safe_search_and_book; [done|done| |constructor].
    destruct (in_action i) as [[]|]; done.
Qed.
End execute.

(** C11 (booking). Executing a validated intent makes only the calls it
    announces: an intent that is not READY or goes to the watch service makes
    none; a search uses the query of the intent; only a booking intent books,
    after a lookup under its key found nothing, a slot its own search
    returned, and only while every earlier attempt was lost to a race, so at
    most one booking succeeds. The result is well formed, a confirmation in
    it was confirmed or replayed under the key of this request, and without
    one nothing was booked. An exception is one a call raised, or the
    rejection of an answer of a thousand slots and more. *)
Theorem execute_spec sha256_hex i q owner_client_id user_id t out
    (Hi : intent_ok i = true) (Hq : is_ready i = true → query_from i = Some q)
    (Hroute : in_route i = (if is_ready i
       then if bool_decide (in_action i = Some CREATE_WATCH) then WATCH_SERVICE else BOOKING_SERVICE
       else CLARIFICATION))
    (Hrun : runs (Σ := calls) (execute sha256_hex i owner_client_id user_id) t out) :
  (∀ t1 o r t2, t = t1 ++ Ev (Σ := calls) o r :: t2 →
     execute_ok sha256_hex i q owner_client_id user_id t1 o) ∧
  execute_post sha256_hex i q owner_client_id user_id out t.
Proof. by eapply tracing_runs, Hrun; apply safe_execute_spec. Qed.

(** ** The identity of a request *)

Lemma null_not_quoted s r r' : "null" +:+ r ≠ quoted s +:+ r'.
Proof. intros H%(f_equal chars). rewrite chars_quoted in H. discriminate H. Qed.

Lemma dumps_text_inj s s' r r' : dumps (JStr s) +:+ r = dumps (JStr s') +:+ r' → s = s' ∧ r = r'.
Proof. apply quoted_inj. Qed.

Lemma dumps_optional_inj o o' r r' :
  dumps (json_opt JStr o) +:+ r = dumps (json_opt JStr o') +:+ r' → o = o' ∧ r = r'.
Proof.
  destruct o as [s|], o' as [s'|]; cbn [json_opt dumps]; intros H.
  - by apply quoted_inj in H as [-> ->].
  - symmetry in H. by apply null_not_quoted in H.
  - by apply null_not_quoted in H.
  - by apply string_app_cancel_l in H.
Qed.

Lemma dumps_action_inj a a' r r' :
  dumps (json_opt (λ a, JStr (action_value a)) a) +:+ r
    = dumps (json_opt (λ a, JStr (action_value a)) a') +:+ r' → a = a' ∧ r = r'.
Proof.
  intros H. assert (json_opt (λ a, JStr (action_value a)) a = json_opt JStr (action_value <$> a) ∧
    json_opt (λ a, JStr (action_value a)) a' = json_opt JStr (action_value <$> a')) as [E1 E2]
    by by destruct a, a'.
  rewrite E1, E2 in H. apply dumps_optional_inj in H as [H ->]. split; [|done].
  destruct a as [[]|], a' as [[]|]; done.
Qed.

(** Numbers a valid query holds, before a comma. *)
Lemma small_digits n : 0 <= n < 1000 → ","%char ∉ chars (pretty n).
Proof.
  intros Hn.
  assert (all_from (λ n, negb (bool_decide (","%char ∈ chars (pretty n)))) 0 (Z.to_nat 1000) = true) as H
    by (vm_compute; reflexivity).
  pose proof (all_from_Z _ _ _ H n Hn) as Hd. cbn beta in Hd.
  by apply negb_true_iff, bool_decide_eq_false in Hd.
Qed.

Lemma dumps_number_inj n n' r r' :
  0 <= n < 1000 → 0 <= n' < 1000 →
  dumps (JInt n) +:+ "," +:+ r = dumps (JInt n') +:+ "," +:+ r' → n = n' ∧ r = r'.
Proof.
  intros Hn Hn' H%(f_equal chars). cbn [dumps] in H. rewrite !chars_app in H.
  apply delimited in H as [H1%chars_inj H2%chars_inj]; [|by apply small_digits..].
  by apply (inj pretty) in H1.
Qed.

Lemma null_not_number n r r' :
  0 <= n < 1000 → "null" +:+ r ≠ dumps (JInt n) +:+ r'.
Proof.
  intros Hn H%(f_equal chars). rewrite !chars_app in H. cbn [dumps] in H.
  assert (all_from (λ n, match chars (pretty n) with c :: _ => is_digit c | [] => false end) 0 (Z.to_nat 1000) = true)
    as Hd by (vm_compute; reflexivity).
  pose proof (all_from_Z _ _ _ Hd n Hn) as Hc. cbn beta in Hc.
  destruct (chars (pretty n)) as [|c l]; [done|]. injection H as <- _. done.
Qed.

Lemma dumps_duration_inj o o' r r' :
  opt_all (in_range 15 720) o = true → opt_all (in_range 15 720) o' = true →
  dumps (json_opt JInt o) +:+ "," +:+ r = dumps (json_opt JInt o') +:+ "," +:+ r' → o = o' ∧ r = r'.
Proof.
  assert (∀ n, in_range 15 720 n = true → 0 <= n < 1000) as Hr
    by (intros n; unfold in_range; rewrite andb_true_iff, !Z.leb_le; lia).
  destruct o as [n|], o' as [n'|]; cbn [json_opt opt_all]; intros Ho Ho' H.
  - apply dumps_number_inj in H as [-> ->]; auto.
  - symmetry in H. apply null_not_number in H; [done|auto].
  - apply null_not_number in H; [done|auto].
  - apply (string_app_cancel_l "null") in H. by apply (string_app_cancel_l ",") in H.
Qed.

Definition window_json (o : option TimeWindow) : json :=
  json_opt (λ w, JObj [("start", JStr (tw_start w)); ("end", JStr (tw_end w))])%string o.

Lemma dumps_window_inj o o' r r' :
  dumps (window_json o) +:+ r = dumps (window_json o') +:+ r' → o = o' ∧ r = r'.
Proof.
  destruct o as [[a b]|], o' as [[a' b']|]; unfold window_json; cbn [json_opt tw_start tw_end]; intros H.
  - assert (∀ a b s, dumps (JObj [("start", JStr a); ("end", JStr b)])%string +:+ s
      = ("{" +:+ quoted "end" +:+ ":") +:+ quoted b +:+ ("," +:+ quoted "start" +:+ ":") +:+ quoted a +:+ "}" +:+ s)
      as Hd.
    { intros x y s.
      change (dumps (JObj [("start", JStr x); ("end", JStr y)])%string)
        with ("{" +:+ ((quoted "end" +:+ ":" +:+ quoted y) +:+ "," +:+ quoted "start" +:+ ":" +:+ quoted x) +:+ "}").
      apply chars_inj. by rewrite !chars_app, <- ?app_assoc. }
    rewrite !Hd in H. apply string_app_cancel_l, quoted_inj in H as [-> H].
    apply string_app_cancel_l, quoted_inj in H as [-> H]. by apply string_app_cancel_l in H.
  - apply (f_equal chars) in H. discriminate H.
  - apply (f_equal chars) in H. discriminate H.
  - by apply (string_app_cancel_l "null") in H.
Qed.

(** The hashed text, field by field in the order of the keys. *)
Definition field_key (k : string) : string := quoted k +:+ ":".

Lemma dumps_identity i q scope :
  dumps (identity i q scope) =
    ("{" +:+ field_key "action") +:+ dumps (json_opt (λ a, JStr (action_value a)) (in_action i)) +:+
    ("," +:+ field_key "date") +:+ dumps (JStr (q_date q)) +:+
    ("," +:+ field_key "duration_minutes") +:+ dumps (json_opt JInt (q_duration_minutes q)) +:+ "," +:+
    field_key "market" +:+ dumps (JStr (q_market q)) +:+
    ("," +:+ field_key "owner") +:+ dumps (JStr scope) +:+
    ("," +:+ field_key "party_size") +:+ dumps (JInt (q_party_size q)) +:+ "," +:+
    field_key "preferred_time" +:+ dumps (json_opt JStr (q_preferred_time q)) +:+
    ("," +:+ field_key "special_requests") +:+
      dumps (JList (map JStr (sort_text id (map lower (q_special_requests q))))) +:+
    ("," +:+ field_key "time_window") +:+ dumps (window_json (q_time_window q)) +:+
    ("," +:+ field_key "venue_name") +:+ dumps (JStr (lower (q_venue_name q))) +:+
    ("," +:+ field_key "venue_type") +:+ dumps (JStr (venue_type_value (q_venue_type q))) +:+ "}".
Proof.
  set (A := json_opt (λ a, JStr (action_value a)) (in_action i)).
  set (R := JList (map JStr (sort_text id (map lower (q_special_requests q))))).
  set (D := json_opt JInt (q_duration_minutes q)). set (P := json_opt JStr (q_preferred_time q)).
  set (W := window_json (q_time_window q)).
  change (dumps (identity i q scope)) with
    ("{" +:+ join "," (map dump_field
      [("action", dumps A); ("date", dumps (JStr (q_date q))); ("duration_minutes", dumps D);
       ("market", dumps (JStr (q_market q))); ("owner", dumps (JStr scope));
       ("party_size", dumps (JInt (q_party_size q))); ("preferred_time", dumps P);
       ("special_requests", dumps R); ("time_window", dumps W);
       ("venue_name", dumps (JStr (lower (q_venue_name q))));
       ("venue_type", dumps (JStr (venue_type_value (q_venue_type q))))]%string) +:+ "}").
  generalize (dumps A) (dumps R) (dumps D) (dumps P) (dumps W) (dumps (JStr (q_date q))) (dumps (JStr (q_market q)))
    (dumps (JStr scope)) (dumps (JInt (q_party_size q))) (dumps (JStr (lower (q_venue_name q))))
    (dumps (JStr (venue_type_value (q_venue_type q)))).
  intros. apply chars_inj. unfold field_key. cbn [map join]. unfold dump_field. cbn [fst snd].
  rewrite !chars_app. by rewrite <- !app_assoc.
Qed.

(** What a request asks for, and for whom. *)
Definition same_request (i i' : ReservationIntent) (q q' : AvailabilityQuery) (scope scope' : string) : Prop :=
  scope = scope' ∧ in_action i = in_action i' ∧ lower (q_venue_name q) = lower (q_venue_name q') ∧
  q_venue_type q = q_venue_type q' ∧ q_market q = q_market q' ∧ q_party_size q = q_party_size q' ∧
  q_date q = q_date q' ∧ q_preferred_time q = q_preferred_time q' ∧ q_time_window q = q_time_window q' ∧
  q_duration_minutes q = q_duration_minutes q' ∧
  sort_text id (map lower (q_special_requests q)) = sort_text id (map lower (q_special_requests q')).

Lemma identity_text_inj i i' q q' scope scope' :
  query_ok q = true → query_ok q' = true →
  dumps (identity i q scope) = dumps (identity i' q' scope') → same_request i i' q q' scope scope'.
Proof.
  intros Hq Hq' H. rewrite !dumps_identity in H.
  unfold query_ok in Hq, Hq'. rewrite !andb_true_iff in Hq, Hq'.
  assert (∀ n, in_range 1 100 n = true → 0 <= n < 1000) as Hparty
    by (intros n; unfold in_range; rewrite andb_true_iff, !Z.leb_le; lia).
  apply string_app_cancel_l, dumps_action_inj in H as [H1 H].
  apply string_app_cancel_l, dumps_text_inj in H as [H2 H].
  apply string_app_cancel_l, dumps_duration_inj in H as [H3 H]; [|tauto..].
  apply string_app_cancel_l, dumps_text_inj in H as [H4 H].
  apply string_app_cancel_l, dumps_text_inj in H as [H5 H].
  apply string_app_cancel_l, dumps_number_inj in H as [H6 H]; [|apply Hparty; tauto..].
  apply string_app_cancel_l, dumps_optional_inj in H as [H7 H].
  rewrite !dumps_strings in H. apply string_app_cancel_l, quoted_list_inj in H as [H8 H].
  apply string_app_cancel_l, dumps_window_inj in H as [H9 H].
  apply string_app_cancel_l, dumps_text_inj in H as [H10 H].
  apply string_app_cancel_l, dumps_text_inj in H as [H11 _].
  unfold same_request. split_and!; try done.
  by destruct (q_venue_type q), (q_venue_type q').
Qed.

(** The owner a scope stands for. *)
Lemma scope_owner t t' owner owner' user user' scope :
  scope_known owner user t scope → scope_known owner' user' t' scope → user = user'.
Proof.
  assert (∀ u s, "account:" +:+ u ≠ "client:" +:+ s) as H1 by (intros u s H; discriminate H).
  assert (∀ u s, "account:" +:+ u ≠ "request:" +:+ s) as H2 by (intros u s H; discriminate H).
  unfold scope_known. intros H H'.
  destruct user as [u|], user' as [u'|]; [| | |done].
  - subst scope. by apply string_app_cancel_l in H' as ->.
  - exfalso. subst scope. destruct owner' as [c|]; [destruct (nonempty c)|]; naive_solver.
  - exfalso. subst scope. destruct owner as [c|]; [destruct (nonempty c)|]; naive_solver.
Qed.

(** C12 (idempotency key). The text hashed into an idempotency key determines
    the request: two valid requests with the same text have the same owner
    scope, action, venue up to case, kind, market, party, date, times, duration
    and special requests up to case and order; and they have the same text
    when all of these agree. So while [sha256] does not collide on the two
    texts, no two accounts and no two different requests share a booking. *)
Theorem idempotency_key_spec sha256_hex i i' q q' scope scope'
    (Hq : query_ok q = true) (Hq' : query_ok q' = true)
    (Hsha : sha256_hex (dumps (identity i q scope)) = sha256_hex (dumps (identity i' q' scope')) →
            dumps (identity i q scope) = dumps (identity i' q' scope')) :
  (idempotency_key sha256_hex i q scope = idempotency_key sha256_hex i' q' scope' ↔
   same_request i i' q q' scope scope') ∧
  ∀ t t' owner owner' user user',
    scope_known owner user t scope → scope_known owner' user' t' scope' →
    idempotency_key sha256_hex i q scope = idempotency_key sha256_hex i' q' scope' → user = user'.
Proof.
  assert (idempotency_key sha256_hex i q scope = idempotency_key sha256_hex i' q' scope' →
          same_request i i' q q' scope scope') as Hinj
    by (intros H; by apply identity_text_inj, Hsha).
  split; [split; [exact Hinj|]|].
  - intros (-> & Ha & Hv & Ht & Hm & Hp & Hd & Hpt & Hw & Hdur & Hs). unfold idempotency_key, identity.
    by rewrite Ha, Hv, Ht, Hm, Hp, Hd, Hpt, Hw, Hdur, Hs.
  - intros t t' owner owner' user user' Hs Hs' H%Hinj. destruct H as [-> _].
    by eapply scope_owner.
Qed.

(** ** A concrete request: the first slot is lost to a race. *)

Definition booking_query_example : AvailabilityQuery :=
  MkQuery "The Bauer Kitchen" RESTAURANT MARKET 2 "2026-08-21" (Some "19:00"%string)
    (Some (MkTimeWindow "18:45" "21:00")) None ["window seat"%string].

Lemma booking_query_example_made :
  query_from example_intent = Some booking_query_example ∧ query_ok booking_query_example = true.
Proof. vm_compute. done. Qed.

Definition offered_slot (id start : string) : AvailabilitySlot :=
  MkSlot id "mock" "The Bauer Kitchen" RESTAURANT "2026-08-21" start None 2 4.

Definition booking_answer (o : call) : outcome exn (answer o) :=
  match o with
  | ProviderGetBooking _ => Ok None
  | ProviderSearch _ => Ok [offered_slot "mock_a" "19:00"; offered_slot "mock_b" "19:15"]
  | ProviderBook id key =>
      if String.eqb id "mock_a" then Exc (SlotUnavailableError "taken")
      else Ok (MkConfirmation "mock_booking_1" "mock" MOCK_CONFIRMED (offered_slot "mock_b" "19:15") 0)
  | _ => Exc (OtherError "infrastructure")
  end.

(** Any injective function stands for the digest. *)
Definition booking_record : list call_event * outcome exn PromptExecutionResult :=
  record (Σ := calls) (λ o (s : ()), (booking_answer o, s))
    (execute id example_intent (Some "browser-1"%string) None) ().

Lemma booking_record_outcome :
  length booking_record.1 = 4%nat ∧
  match booking_record.2 with
  | Ok r => pr_status r = MOCK_BOOKED ∧ sl_slot_id ∘ bc_slot <$> pr_booking r = Some "mock_b"%string
  | Exc _ => False
  end.
Proof. vm_compute. done. Qed.

Lemma booking_record_runs :
  runs (Σ := calls) (execute id example_intent (Some "browser-1"%string) None) booking_record.1 booking_record.2.
Proof. unfold booking_record. apply (record_runs (Σ := calls)). Qed.

Lemma example_intent_ok :
  intent_ok example_intent = true ∧
  in_route example_intent = (if is_ready example_intent
    then if bool_decide (in_action example_intent = Some CREATE_WATCH) then WATCH_SERVICE else BOOKING_SERVICE
    else CLARIFICATION).
Proof. vm_compute. done. Qed.

Lemma execute_spec_witness :
  length booking_record.1 = 4%nat ∧
  execute_post id example_intent booking_query_example (Some "browser-1"%string) None
    booking_record.2 booking_record.1.
Proof.
  split; [exact (proj1 booking_record_outcome)|].
  exact (proj2 (execute_spec id example_intent booking_query_example (Some "browser-1"%string) None _ _
    (proj1 example_intent_ok) (λ _, proj1 booking_query_example_made) (proj2 example_intent_ok)
    booking_record_runs)).
Defined.

(** Two browsers asking for the same table. *)
Lemma idempotency_key_spec_witness :
  query_ok booking_query_example = true ∧
  (idempotency_key id example_intent booking_query_example "client:a"
     = idempotency_key id example_intent booking_query_example "client:b" ↔
   same_request example_intent example_intent booking_query_example booking_query_example "client:a" "client:b").
Proof.
  split; [exact (proj2 booking_query_example_made)|].
  exact (proj1 (idempotency_key_spec id example_intent example_intent booking_query_example booking_query_example
    "client:a" "client:b" (proj2 booking_query_example_made) (proj2 booking_query_example_made) (λ H, H))).
Defined.
