(* ===== verification/PromptSystem.v ===== *)
(** * Booking requests against the shared mock store

    The booking service over the mock adapter over the in-memory store, with
    the clock moving and any other clients publishing, booking and cleaning up
    between two of its calls.  A search is one step: the pins it releases at
    its end protect slots from eviction, never bookings. *)

From S2P Require Import Prelude Dict Sorting Calendar CalendarFacts ClockTime Schemas Reservation Watch Policy.
From S2P Require Import Prog Effects Json WatchService Venues Validator VenueTheorems ValidatorTheorems.
From S2P Require Import MockState MockTheorems MockAdapter MockAdapterTheorems BookingService BookingTheorems.

Section system.
Context (uuid5_hex : string → string) (sha256_first : string → Z) (unavailable_venues : list string).
Context (capacity idle_ttl retention pin_ttl : Z).
Context (sha256_hex : string → string).

Definition world : Type := Z * mock_state.

(** The adapter serves a call at the current time; uuid4 may be any text. *)
Definition serves (c : call) (x : world) (r : outcome exn (answer c)) (y : world) : Prop :=
  y.1 = x.1 ∧
  match c as c return outcome exn (answer c) → Prop with
  | ProviderSearch q => λ r, ∃ op,
      (r, y.2) = search_availability uuid5_hex sha256_first unavailable_venues capacity pin_ttl q op x.1 x.2
  | ProviderGetBooking key => λ r, r = Ok (get_booking key x.1 x.2) ∧ y.2 = x.2
  | ProviderBook id key => λ r, (r, y.2) = book_slot uuid5_hex retention id key x.1 x.2
  | Uuid => λ r, (∃ hex, r = Ok hex) ∧ y.2 = x.2
  | _ => λ _, False
  end r.

(** Other clients, and time. *)
Definition others : world → world → Prop := mock_step capacity idle_ttl retention pin_ttl.

Definition request_steps {A} : M A * world → M A * world → Prop := rtc (pstep (Σ := calls) serves others).

#[local] Abbreviation inv x := (minv capacity x.1 x.2).

Lemma factory_keeps_slot key now : keeps_slot (_confirmation_factory uuid5_hex key now).
Proof. done. Qed.

Lemma generated_few q slots :
  _generate uuid5_hex sha256_first unavailable_venues q = Some slots → Z.of_nat (length slots) <= MAX_GENERATED_SLOTS →
  ∀ op now s, minv capacity now s →
  ∃ result s', search_availability uuid5_hex sha256_first unavailable_venues capacity pin_ttl q op now s = (Ok result, s') ∧
    Z.of_nat (length result) <= MAX_GENERATED_SLOTS ∧ minv capacity now s' ∧ ms_bookings s' = ms_bookings s.
Proof.
  intros Hg Hlen op now s Hi. unfold search_availability. rewrite Hg.
  destruct slots as [|sl slots]; [by exists [], s|].
  pose proof (publish_spec capacity pin_ttl (sl :: slots) op now s Hi) as Hp. cbn zeta in Hp.
  destruct (Mock.publish_and_filter capacity pin_ttl (sl :: slots) op now s) as [result s1].
  destruct Hp as (Hi1 & Hb & _ & _ & Hsub). cbn [fst snd] in *.
  eexists _, _. split; [reflexivity|]. apply sublist_length in Hsub. rewrite !length_map in Hsub.
  split; [lia|]. split; [by apply minv_release|done].
Qed.

(** A served call keeps the invariant and every live booking. *)
Lemma serves_keeps c x r y :
  (∀ s, strlen (uuid5_hex s) = 32) → (∀ q, c = ProviderSearch q → query_ok q = true) →
  serves c x r y → inv x → inv y ∧ ∀ key b, ms_bookings x.2 !! key = Some b → x.1 < bk_protected_until b →
    ms_bookings y.2 !! key = Some b.
Proof.
  destruct x as [now s], y as [now' s']. intros Hu Hq [Ht Hc] Hi. cbn [fst snd] in *. subst now'.
  destruct c; try done.
  - destruct Hc as [_ ->]. done.
  - destruct Hc as [op Hc].
    destruct (generate_ok uuid5_hex sha256_first unavailable_venues q Hu (Hq q eq_refl)) as (slots & d & Hg & _ & Hok).
    destruct (generated_few q slots Hg (ge_length _ _ _ _ _ _ Hok) op now s Hi) as (res & s1 & He & _ & Hi1 & Hb).
    rewrite He in Hc. injection Hc as _ ->. split; [done|]. intros key b. by rewrite Hb.
  - destruct Hc as [_ ->]. done.
  - assert (s' = mock_exec capacity idle_ttl retention pin_ttl (MBook slot_id key (_confirmation_factory uuid5_hex key now)) now s)
      as -> by (unfold book_slot in Hc; cbn; by rewrite <- Hc).
    split; [by apply minv_exec|]. intros k b Hb Hl. by apply exec_keeps_booking.
Qed.

Lemma others_keep x y :
  others x y → inv x → inv y ∧ x.1 <= y.1 ∧ ∀ key b, ms_bookings x.2 !! key = Some b → y.1 < bk_protected_until b →
    ms_bookings y.2 !! key = Some b.
Proof.
  intros [o now now' s Ho Hle] Hi. cbn [fst snd] in *.
  assert (minv capacity now' s) as Hi' by by eapply minv_later.
  split; [by apply minv_exec|]. split; [done|]. intros key b Hb Hl. by apply exec_keeps_booking.
Qed.

(** A booking is only ever added for the whole retention time. *)
Lemma exec_bookings o now s key b :
  op_ok o → minv capacity now s →
  ms_bookings (mock_exec capacity idle_ttl retention pin_ttl o now s) !! key = Some b →
  ms_bookings s !! key = Some b ∨ bk_protected_until b = now + retention.
Proof.
  intros Ho Hi. destruct o as [cands op|slot_id key' f|op|n]; cbn.
  - destruct (publish_spec capacity pin_ttl cands op now s Hi) as (_ & -> & _). by left.
  - destruct (Mock.book_slot retention slot_id key' f now s) as [[c|x] s'] eqn:E; cbn.
    + destruct (Mock.get_booking key' now s) as [c'|] eqn:Hn.
      { unfold Mock.book_slot in E. rewrite Hn in E. simplify_eq. by left. }
      destruct (book_new _ _ _ _ _ _ _ _ _ Hi Ho Hn E) as (e & _ & _ & _ & -> & _).
      rewrite dict_lookup_insert. case_decide; [|by left]. intros [= <-]. by right.
    + unfold Mock.book_slot in E. repeat case_match; simplify_eq; by left.
  - by left.
  - destruct (cleanup_lookup capacity idle_ttl now n s Hi) as (H & _).
    destruct (H key) as [E|(E & _)]; cbn in E |- *; rewrite E; [by left|done].
Qed.

Lemma serves_bookings c x r y key b :
  (∀ s, strlen (uuid5_hex s) = 32) → (∀ q, c = ProviderSearch q → query_ok q = true) →
  serves c x r y → inv x → ms_bookings y.2 !! key = Some b →
  ms_bookings x.2 !! key = Some b ∨ bk_protected_until b = x.1 + retention.
Proof.
  destruct x as [now s], y as [now' s']. intros Hu Hq [Ht Hc] Hi. cbn [fst snd] in *. subst now'.
  destruct c; try done.
  - destruct Hc as [_ ->]. by left.
  - destruct Hc as [op Hc].
    destruct (generate_ok uuid5_hex sha256_first unavailable_venues q Hu (Hq q eq_refl)) as (slots & d & Hg & _ & Hok).
    destruct (generated_few q slots Hg (ge_length _ _ _ _ _ _ Hok) op now s Hi) as (res & s1 & He & _ & Hi1 & Hb).
    rewrite He in Hc. injection Hc as _ ->. rewrite Hb. by left.
  - destruct Hc as [_ ->]. by left.
  - assert (s' = mock_exec capacity idle_ttl retention pin_ttl (MBook slot_id key0 (_confirmation_factory uuid5_hex key0 now)) now s)
      as -> by (unfold book_slot in Hc; cbn; by rewrite <- Hc).
    by apply exec_bookings.
Qed.

(** ** What a request has learnt is in the store *)

Section request.
Context (start : world) (key0 : string).

(** No protected booking under the key when the request starts. *)
Definition fresh : Prop := get_booking key0 start.1 start.2 = None.

(** A reservation protected from some moment of the request on, for the whole
    retention time of a fresh one, and stored while it is protected. *)
Definition reserved (b : Booking) : Prop :=
  start.1 < bk_protected_until b ∧ (fresh → start.1 + retention <= bk_protected_until b).

Definition stored (x : world) (c : BookingConfirmation) : Prop :=
  ∃ b, bk_confirmation b = c ∧ reserved b ∧
    (x.1 < bk_protected_until b → ms_bookings x.2 !! key0 = Some b).

Definition stored_event (x : world) (e : call_event) : Prop :=
  match e with
  | Ev c r =>
      match c as c return outcome exn (answer c) → Prop with
      | ProviderGetBooking key => λ r, key = key0 → ∀ c, r = Ok (Some c) → stored x c
      | ProviderBook _ key => λ r, key = key0 → ∀ c, r = Ok c → stored x c
      | _ => λ _, True
      end r
  end.

(** Every booking under the key is older than the request or reserved. *)
Definition old_or_reserved (x : world) : Prop :=
  ∀ b, ms_bookings x.2 !! key0 = Some b → x.1 < bk_protected_until b → reserved b.

Record progress (t : list call_event) (x : world) : Prop := {
  pg_inv : inv x;
  pg_time : start.1 <= x.1;
  pg_bookings : old_or_reserved x;
  pg_events : Forall (stored_event x) t;
}.

Lemma stored_event_later x y e :
  stored_event x e → x.1 <= y.1 →
  (∀ key b, ms_bookings x.2 !! key = Some b → y.1 < bk_protected_until b → ms_bookings y.2 !! key = Some b) →
  stored_event y e.
Proof.
  assert (∀ c, stored x c → x.1 <= y.1 →
    (∀ key b, ms_bookings x.2 !! key = Some b → y.1 < bk_protected_until b → ms_bookings y.2 !! key = Some b) →
    stored y c) as Hlater.
  { intros c (b & Hc & Hr & Hb) Ht Hk. exists b. split_and!; [done|apply Hr..|].
    intros Hl. apply Hk; [apply Hb; lia|done]. }
  intros He Ht Hk. destruct e as [c r]. destruct c; cbn in *; try done.
  - intros -> c ->. by apply Hlater; [apply He| |].
  - intros -> c ->. by apply Hlater; [apply He| |].
Qed.

(** A confirmation the store answers with is stored. *)
Lemma serves_stored c x r y :
  0 < retention → inv x → start.1 <= x.1 → old_or_reserved x → serves c x r y → stored_event y (Ev c r).
Proof.
  destruct x as [now s], y as [now' s']. intros Hret Hi Hst Hold [Ht Hc]. cbn [fst snd] in *. subst now'.
  destruct c; cbn; try done.
  - destruct Hc as [-> ->]. intros -> c [= Hg]. unfold get_booking in Hg.
    apply get_booking_some in Hg as (b & Hb & Hl & <-). exists b. split; [done|]. split; [|done].
    by apply Hold.
  - intros -> c ->. unfold book_slot in Hc. symmetry in Hc.
    destruct (Mock.get_booking key0 now s) as [c'|] eqn:Hn.
    + unfold Mock.book_slot in Hc. rewrite Hn in Hc. injection Hc as -> ->.
      apply get_booking_some in Hn as (b & Hb & Hl & <-). exists b. split; [done|]. split; [|done].
      by apply Hold.
    + destruct (book_new _ _ _ _ _ _ _ _ _ Hi (factory_keeps_slot key0 now) Hn Hc) as (e & _ & _ & _ & Hb & _).
      exists (MkBooking c (now + retention)). split; [done|]. split.
      * split; cbn; lia.
      * intros _. cbn. rewrite Hb. apply dict_lookup_insert_eq.
Qed.

Lemma progress_call t c x r y :
  (∀ s, strlen (uuid5_hex s) = 32) → 0 < retention → (∀ q, c = ProviderSearch q → query_ok q = true) →
  progress t x → serves c x r y → progress (t ++ [Ev (Σ := calls) c r]) y.
Proof.
  intros Hu Hret Hq [Hi Ht Hb He] Hs.
  destruct (serves_keeps c x r y Hu Hq Hs Hi) as [Hi' Hkeep].
  assert (y.1 = x.1) as Hy by apply Hs. split.
  - done.
  - by rewrite Hy.
  - intros b Hlook Hl. destruct (serves_bookings c x r y key0 b Hu Hq Hs Hi Hlook) as [Hold|Hnew].
    + apply Hb; [done|lia].
    + split; [lia|]. intros _. lia.
  - apply Forall_app. split.
    + eapply Forall_impl; [exact He|]. intros e Hev. eapply stored_event_later; [done|lia|].
      intros key b Hk Hl. apply Hkeep; [done|lia].
    + constructor; [|done]. exact (serves_stored c x r y Hret Hi Ht Hb Hs).
Qed.

Lemma progress_others t x y : 0 < retention → progress t x → others x y → progress t y.
Proof.
  intros Hret [Hi Ht Hb He] Ho. destruct (others_keep x y Ho Hi) as (Hi' & Hle & Hkeep). split.
  - done.
  - lia.
  - intros b Hlook Hl. destruct Ho as [o now now' s Hop Hnow]. cbn [fst snd] in *.
    destruct (exec_bookings o now' s key0 b Hop) as [Hold|Hnew]; [by eapply minv_later|done|apply Hb; cbn; [done|lia]|].
    split; [lia|]. intros _. lia.
  - eapply Forall_impl; [exact He|]. intros e Hev. by eapply stored_event_later.
Qed.

Lemma progress_start : inv start → progress [] start.
Proof.
  intros Hi. split; [done|done| |constructor]. intros b Hb Hl. split; [done|]. intros Hf.
  unfold fresh, get_booking in Hf. exfalso. apply eq_None_not_Some in Hf. apply Hf.
  exists (bk_confirmation b). apply get_booking_some. eauto.
Qed.

(** ** A reservation already stored *)

Context (b0 : Booking).

(** While the reservation is protected, every answer under its key is its
    confirmation. *)
Definition agrees (e : call_event) : Prop :=
  match e with
  | Ev c r =>
      match c as c return outcome exn (answer c) → Prop with
      | Uuid => λ r, ∃ hex, r = Ok hex
      | ProviderSearch _ => λ r, ∃ l, r = Ok l ∧ Z.of_nat (length l) < 1000
      | ProviderGetBooking key => λ r, key = key0 ∧ r = Ok (Some (bk_confirmation b0))
      | ProviderBook _ key => λ r, key = key0 ∧ r = Ok (bk_confirmation b0)
      | _ => λ _, False
      end r
  end.

Definition replaying (t : list call_event) (x : world) : Prop :=
  inv x ∧ (x.1 < bk_protected_until b0 → ms_bookings x.2 !! key0 = Some b0 ∧ Forall agrees t).

Lemma serves_agrees c x r y :
  (∀ s, strlen (uuid5_hex s) = 32) → (∀ q, c = ProviderSearch q → query_ok q = true) →
  (∀ key, c = ProviderGetBooking key → key = key0) → (∀ id key, c = ProviderBook id key → key = key0) →
  inv x → serves c x r y → x.1 < bk_protected_until b0 → ms_bookings x.2 !! key0 = Some b0 → agrees (Ev c r).
Proof.
  destruct x as [now s], y as [now' s']. intros Hu Hq Hg Hbk Hi [Ht Hc] Hl Hb. cbn [fst snd] in *. subst now'.
  assert (Mock.get_booking key0 now s = Some (bk_confirmation b0)) as Hget by (apply get_booking_some; eauto).
  destruct c; cbn; try done.
  - by destruct Hc.
  - destruct Hc as [op Hc].
    destruct (generate_ok uuid5_hex sha256_first unavailable_venues q Hu (Hq q eq_refl)) as (slots & d & Hgen & _ & Hok).
    destruct (generated_few q slots Hgen (ge_length _ _ _ _ _ _ Hok) op now s Hi) as (res & s1 & He & Hlen & _).
    rewrite He in Hc. injection Hc as -> _. exists res. split; [done|]. unfold MAX_GENERATED_SLOTS in Hlen. lia.
  - destruct Hc as [-> _]. rewrite (Hg key eq_refl). unfold get_booking. by rewrite Hget.
  - rewrite (Hbk slot_id key eq_refl) in *. unfold book_slot, Mock.book_slot in Hc. rewrite Hget in Hc.
    by injection Hc as -> _.
Qed.

Lemma replaying_call t c x r y :
  (∀ s, strlen (uuid5_hex s) = 32) → (∀ q, c = ProviderSearch q → query_ok q = true) →
  (∀ key, c = ProviderGetBooking key → key = key0) → (∀ id key, c = ProviderBook id key → key = key0) →
  replaying t x → serves c x r y → replaying (t ++ [Ev (Σ := calls) c r]) y.
Proof.
  intros Hu Hq Hg Hbk [Hi Hr] Hs. destruct (serves_keeps c x r y Hu Hq Hs Hi) as [Hi' Hkeep].
  assert (y.1 = x.1) as Hy by apply Hs. split; [done|]. rewrite Hy. intros Hl.
  destruct (Hr Hl) as [Hb Ha]. split; [by apply Hkeep|]. apply Forall_app. split; [done|].
  constructor; [|done]. exact (serves_agrees c x r y Hu Hq Hg Hbk Hi Hs Hl Hb).
Qed.

Lemma replaying_others t x y : replaying t x → others x y → replaying t y.
Proof.
  intros [Hi Hr] Ho. destruct (others_keep x y Ho Hi) as (Hi' & Hle & Hkeep). split; [done|].
  intros Hl. destruct (Hr ltac:(lia)) as [Hb Ha]. split; [by apply Hkeep|done].
Qed.

Lemma replaying_start : inv start → ms_bookings start.2 !! key0 = Some b0 → replaying [] start.
Proof. intros Hi Hb. split; [done|]. intros _. split; [done|constructor]. Qed.
End request.

(** ** Identified requests *)

(** The scope of a request that carries an identity. *)
Definition request_scope (owner_client_id user_id : option string) : option string :=
  match user_id, owner_client_id with
  | Some u, _ => Some ("account:" +:+ u)
  | None, Some c => if nonempty c then Some ("client:" +:+ c) else None
  | None, None => None
  end.

Lemma request_key_scope i q owner user scope t key :
  request_scope owner user = Some scope → request_key sha256_hex i q owner user t key →
  key = idempotency_key sha256_hex i q scope.
Proof.
  unfold request_key, scope_known, request_scope. intros Hs (s & Hk & ->).
  destruct user as [u|]; [congruence|]. destruct owner as [c|]; [|done].
  destruct (nonempty c); congruence.
Qed.

Section requests.
Context (i : ReservationIntent) (q : AvailabilityQuery) (owner user : option string) (scope : string).
Context (Huuid : ∀ s, strlen (uuid5_hex s) = 32) (Hret : 0 < retention).
Context (Hi : intent_ok i = true) (Hready : is_ready i = true) (Hbook : in_action i = Some BOOK_RESERVATION).
Context (Hroute : in_route i = BOOKING_SERVICE) (Hquery : query_from i = Some q).
Context (Hscope : request_scope owner user = Some scope).

#[local] Abbreviation key := (idempotency_key sha256_hex i q scope).
#[local] Abbreviation request := (execute sha256_hex i owner user).

Lemma query_from_ok : query_ok q = true.
Proof.
  revert Hquery. unfold query_from, make_query. repeat case_match; try done. by intros [= <-].
Qed.

Lemma request_safe :
  safe (tracing (Σ := calls) (execute_ok sha256_hex i q owner user)) [] request
    (execute_post sha256_hex i q owner user).
Proof.
  apply safe_execute_spec; [done|done|]. rewrite Hready, Hbook, Hroute. done.
Qed.

Lemma execute_ok_calls t c :
  execute_ok sha256_hex i q owner user t c →
  (∀ q', c = ProviderSearch q' → query_ok q' = true) ∧
  (∀ k, c = ProviderGetBooking k → k = key) ∧ (∀ id k, c = ProviderBook id k → k = key).
Proof.
  intros (_ & _ & Hc). split_and!.
  - intros q' ->. destruct Hc as [-> _]. apply query_from_ok.
  - intros k ->. destruct Hc as (_ & Hk & _). by apply (request_key_scope i q owner user scope t).
  - intros id k ->. destruct Hc as (_ & Hk & _). by apply (request_key_scope i q owner user scope t).
Qed.

(** A confirmation a request returns is reserved in the store. *)
Lemma request_reserves x y r c :
  inv x → request_steps (request, x) (Ret r, y) → pr_booking r = Some c →
  ∃ b, bk_confirmation b = c ∧ reserved x key b ∧
    (y.1 < bk_protected_until b → ms_bookings y.2 !! key = Some b).
Proof.
  intros Hx Hsteps Hr.
  destruct (safe_pstep (tracing (Σ := calls) (execute_ok sha256_hex i q owner user)) serves others (progress x key) request (Ret r) [] (execute_post sha256_hex i q owner user) x y)
    as (t & Hp & Hq); [| |exact Hsteps|by apply progress_start|exact request_safe|].
  - intros t o w a w' Hp Hok Hs. split; [done|].
    destruct (execute_ok_calls t o Hok) as (Hq & _). by eapply progress_call.
  - intros t w w' Hp Ho. by eapply progress_others.
  - cbn in Hq. destruct Hq as (_ & _ & Hq). rewrite Hr in Hq. destruct Hq as (k & Hk & Hev).
    apply (request_key_scope i q owner user scope t k Hscope) in Hk. subst k.
    pose proof (pg_events _ _ _ _ Hp) as He. rewrite Forall_forall in He.
    destruct Hev as [Hev|[id Hev]]; exact (He _ Hev eq_refl c eq_refl).
Qed.

(** A request under the key of a stored reservation returns it. *)
Lemma request_replays x y out b :
  inv x → ms_bookings x.2 !! key = Some b → request_steps (request, x) (of_outcome out, y) →
  y.1 < bk_protected_until b →
  ms_bookings y.2 !! key = Some b ∧
  ∃ r, out = Ok r ∧ pr_status r = MOCK_BOOKED ∧ pr_booking r = Some (bk_confirmation b).
Proof.
  intros Hx Hb Hsteps Hl.
  destruct (safe_pstep (tracing (Σ := calls) (execute_ok sha256_hex i q owner user)) serves others (replaying key b) request (of_outcome out) [] (execute_post sha256_hex i q owner user) x y)
    as (t & [_ Hp] & Hq); [| |exact Hsteps|by apply replaying_start|exact request_safe|].
  - intros t o w a w' Hp Hok Hs. split; [done|].
    destruct (execute_ok_calls t o Hok) as (Hq & Hg & Hbk). by eapply replaying_call.
  - intros t w w' Hp Ho. by eapply replaying_others.
  - destruct (Hp Hl) as [Hlook Ha]. split; [done|]. rewrite Forall_forall in Ha.
    assert (execute_post sha256_hex i q owner user out t) as Hpost by by destruct out.
    destruct out as [r|ex]; cbn in Hpost.
    + exists r. split; [done|]. destruct Hpost as (Hrok & _ & Hbooking).
      destruct (pr_booking r) as [c|] eqn:Ec.
      * destruct Hbooking as (k & Hk & Hev).
        assert (c = bk_confirmation b) as ->.
        { destruct Hev as [Hev|[id Hev]]; apply Ha in Hev as [_ Hev]; by simplify_eq. }
        split; [|done]. unfold result_ok in Hrok. rewrite Ec in Hrok. rewrite !andb_true_iff in Hrok.
        destruct Hrok as [[[_ Hst] _] _]. apply eqb_prop in Hst.
        by apply (bool_decide_eq_true_1 _) in Hst.
      * destruct Hbooking as [_ Hlk]. destruct (Hlk Hready Hroute Hbook) as (k & _ & Hev).
        apply Ha in Hev as [_ Hev]. done.
    + exfalso. destruct Hpost as [[c Hev]|(l & Hev & Hlen)].
      * apply Ha in Hev. destruct c; cbn in Hev; try done.
        -- by destruct Hev.
        -- by destruct Hev as (? & ? & _).
        -- by destruct Hev.
        -- by destruct Hev.
      * apply Ha in Hev as (l' & [= ->] & Hlen'). lia.
Qed.
End requests.
End system.

(** C10 (one reservation). Booking requests are exactly-once against the shared
    mock store, whatever other clients do to it meanwhile and however often a
    request is repeated: a confirmation a request returns is reserved under the
    key of its owner and content, for the whole retention time unless it
    replays an older one, and as long as it is protected every further request
    under that key, interrupted or concurrent as it may be, ends with this very
    confirmation. *)
Theorem requests_book_once uuid5_hex sha256_first unavailable_venues capacity idle_ttl retention pin_ttl sha256_hex
    i q owner user scope now0 x
    (Huuid : ∀ s, strlen (uuid5_hex s) = 32) (Hret : 0 < retention) (Hcap : 0 <= capacity)
    (Hi : intent_ok i = true) (Hready : is_ready i = true) (Hbook : in_action i = Some BOOK_RESERVATION)
    (Hroute : in_route i = BOOKING_SERVICE) (Hquery : query_from i = Some q)
    (Hscope : request_scope owner user = Some scope)
    (Hx : mock_history capacity idle_ttl retention pin_ttl (now0, empty_mock) x) :
  let key := idempotency_key sha256_hex i q scope in
  let steps := request_steps uuid5_hex sha256_first unavailable_venues capacity idle_ttl retention pin_ttl
                 (A := PromptExecutionResult) in
  let request := execute sha256_hex i owner user in
  (∀ y r c, steps (request, x) (Ret r, y) → pr_booking r = Some c →
     ∃ b, bk_confirmation b = c ∧ reserved retention x key b ∧
       (y.1 < bk_protected_until b → ms_bookings y.2 !! key = Some b)) ∧
  (∀ y out b, ms_bookings x.2 !! key = Some b → steps (request, x) (of_outcome out, y) →
     y.1 < bk_protected_until b →
     ms_bookings y.2 !! key = Some b ∧
     ∃ r, out = Ok r ∧ pr_status r = MOCK_BOOKED ∧ pr_booking r = Some (bk_confirmation b)).
Proof.
  apply history_minv in Hx; [|by apply minv_empty]. cbn zeta. split.
  - intros y r c Hs Hr. by eapply request_reserves.
  - intros y out b Hb Hs Hl. by eapply request_replays.
Qed.

(** ** A concrete request *)

Definition demo_call (o : call) (x : world) : outcome exn (answer o) * world :=
  match o with
  | Uuid => (Ok "0f3a"%string, x)
  | ProviderSearch q =>
      let '(r, s) := search_availability demo_uuid5 demo_sha256 [] 500 60 q "op" x.1 x.2 in (r, (x.1, s))
  | ProviderGetBooking key => (Ok (get_booking key x.1 x.2), x)
  | ProviderBook id key => let '(r, s) := book_slot demo_uuid5 3600 id key x.1 x.2 in (r, (x.1, s))
  | _ => (Exc (OtherError "infrastructure"), x)
  end.

Definition demo_start : world := (1000, empty_mock).

Definition demo_run : outcome exn PromptExecutionResult * world :=
  run (Σ := calls) demo_call (execute id example_intent (Some "browser-1"%string) None) demo_start.

Definition demo_outcome_ok : bool :=
  match demo_run.1 with
  | Ok r => bool_decide (pr_status r = MOCK_BOOKED)
            && bool_decide (sl_start_time ∘ bc_slot <$> pr_booking r = Some "19:00"%string)
  | Exc _ => false
  end.

Lemma demo_run_outcome : demo_outcome_ok = true.
Proof. vm_compute. reflexivity. Qed.

#[local] Abbreviation demo_steps := (request_steps demo_uuid5 demo_sha256 [] 500 900 3600 60).

Lemma demo_ready :
  is_ready example_intent = true ∧ in_action example_intent = Some BOOK_RESERVATION ∧
  in_route example_intent = BOOKING_SERVICE.
Proof. split_and!; reflexivity. Qed.

Lemma demo_run_steps :
  demo_steps (execute id example_intent (Some "browser-1"%string) None, demo_start)
             (of_outcome demo_run.1, demo_run.2).
Proof.
  unfold demo_run, request_steps.
  apply (safe_run_psteps (tracing (Σ := calls)
    (execute_ok id example_intent booking_query_example (Some "browser-1"%string) None)) _ _ demo_call [] _
    (execute_post id example_intent booking_query_example (Some "browser-1"%string) None)).
  - intros t o x (_ & _ & Hok). split; [|done]. destruct o; try done; cbn.
    + split; [done|]. split; [by eexists|done].
    + destruct (search_availability _ _ _ _ _ _ _ _ _) as [r s] eqn:E. split; [done|]. exists "op"%string. by rewrite E.
    + destruct (book_slot _ _ _ _ _ _) as [r s] eqn:E. split; [done|]. by rewrite E.
  - apply (request_safe id example_intent booking_query_example);
      [apply example_intent_ok|apply demo_ready|apply demo_ready|apply demo_ready|apply booking_query_example_made].
Qed.

Lemma requests_book_once_witness :
  demo_outcome_ok = true ∧
  demo_steps (execute id example_intent (Some "browser-1"%string) None, demo_start)
             (of_outcome demo_run.1, demo_run.2) ∧
  ∀ y r c, demo_steps (execute id example_intent (Some "browser-1"%string) None, demo_start) (Ret r, y) →
    pr_booking r = Some c → ∃ b, bk_confirmation b = c ∧ 1000 + 3600 <= bk_protected_until b.
Proof.
  split; [exact demo_run_outcome|]. split; [exact demo_run_steps|]. intros y r c Hs Hr.
  destruct (proj1 (requests_book_once demo_uuid5 demo_sha256 [] 500 900 3600 60 id example_intent
    booking_query_example (Some "browser-1"%string) None "client:browser-1" 1000 demo_start
    demo_uuid5_length eq_refl (Pos2Z.is_nonneg 500) (proj1 example_intent_ok) (proj1 demo_ready)
    (proj1 (proj2 demo_ready)) (proj2 (proj2 demo_ready)) (proj1 booking_query_example_made) eq_refl
    (rtc_refl _ _)) y r c Hs Hr) as (b & Hc & [_ Hfresh] & _).
  exists b. split; [exact Hc|]. exact (Hfresh eq_refl).
Defined.
