(* ===== verification/RedisServer.v ===== *)
(** * What the repositories use of a Redis server

    Redis is not code of this repository: [RedisServer] names the commands
    the repositories call, and [RedisLaws] states, one law per command, what
    its documentation says the command does to the keys of the server.  The
    state type is abstract.  [at_ k r] is what key [k] holds, with a flag that
    says whether the key carries a time to live; [lapse] is the passing of
    time, which may remove keys that carry one and nothing else.

    A server-side script runs atomically; [lua] is the state and error monad
    of one script, [None] standing for an error reply. *)

From Stdlib Require Import SpecFloat.
From S2P Require Import Prelude Calendar.

Inductive value :=
| VString (s : string)
| VSet (members : gset string)
| VZset (scores : gmap string Z)
| VHash (fields : gmap string string).

(** A key that exists: its value, and whether it has a time to live. *)
Definition entry_at : Type := option (value * bool).

Class RedisServer (R : Type) := {
  at_ : string → R → entry_at;
  SET : string → string → R → R;
  SET_PX : string → string → Z → R → R;
  DEL : string → R → R;
  INCR : string → R → option Z * R;          (* [None]: not an integer *)
  PEXPIRE : string → Z → R → R;
  SADD : string → string → R → R;
  SREM : string → string → R → R;
  ZADD : string → Z → string → R → R;
  ZREM : string → string → R → R;
  ZRANGEBYSCORE : string → Z → R → list string;   (* -inf .. max *)
  lapse : R → R → Prop;
}.

(** ** Replies of the reading commands *)

Section reads.
Context `{RedisServer R}.
Implicit Types (k : string) (r : R).

Definition GET k r : option string :=
  match at_ k r with Some (VString s, _) => Some s | _ => None end.

Definition EXISTS k r : bool := match at_ k r with Some _ => true | None => false end.

Definition volatile k r : bool := match at_ k r with Some (_, b) => b | None => false end.

Definition SMEMBERS k r : gset string :=
  match at_ k r with Some (VSet s, _) => s | _ => ∅ end.

Definition scores_at k r : gmap string Z :=
  match at_ k r with Some (VZset m, _) => m | _ => ∅ end.

Definition ZSCORE k (member : string) r : option Z := scores_at k r !! member.

Definition ZCOUNT k (max : Z) r : Z := Z.of_nat (length (ZRANGEBYSCORE k max r)).
End reads.

(** ** Effects on one key *)

Definition sadd (m : string) (e : entry_at) : entry_at :=
  match e with
  | None => Some (VSet {[m]}, false)
  | Some (VSet s, b) => Some (VSet ({[m]} ∪ s), b)
  | e => e                                   (* WRONGTYPE *)
  end.

(** A set or sorted set that becomes empty is removed. *)
Definition srem (m : string) (e : entry_at) : entry_at :=
  match e with
  | Some (VSet s, b) => if decide (s ∖ {[m]} = ∅) then None else Some (VSet (s ∖ {[m]}), b)
  | e => e
  end.

Definition zadd (score : Z) (m : string) (e : entry_at) : entry_at :=
  match e with
  | None => Some (VZset {[m := score]}, false)
  | Some (VZset z, b) => Some (VZset (<[m := score]> z), b)
  | e => e
  end.

Definition zrem (m : string) (e : entry_at) : entry_at :=
  match e with
  | Some (VZset z, b) => if decide (delete m z = ∅) then None else Some (VZset (delete m z), b)
  | e => e
  end.

Definition pexpire (ms : Z) (e : entry_at) : entry_at :=
  match e with
  | Some (v, _) => if ms <=? 0 then None else Some (v, true)
  | None => None
  end.

Definition hset (f v : string) (e : entry_at) : entry_at :=
  match e with
  | None => Some (VHash {[f := v]}, false)
  | Some (VHash h, b) => Some (VHash (<[f := v]> h), b)
  | e => e
  end.

Definition hdel (f : string) (e : entry_at) : entry_at :=
  match e with
  | Some (VHash h, b) => if decide (delete f h = ∅) then None else Some (VHash (delete f h), b)
  | e => e
  end.

Class RedisLaws (R : Type) `{RedisServer R} := {
  at_SET k v k' r : at_ k' (SET k v r) = if decide (k = k') then Some (VString v, false) else at_ k' r;
  at_SET_PX k v px k' r : 0 < px →
    at_ k' (SET_PX k v px r) = if decide (k = k') then Some (VString v, true) else at_ k' r;
  at_DEL k k' r : at_ k' (DEL k r) = if decide (k = k') then None else at_ k' r;
  INCR_new k r : at_ k r = None → (INCR k r).1 = Some 1;
  INCR_next k n b r : at_ k r = Some (VString (pretty (n : Z)), b) → (INCR k r).1 = Some (n + 1);
  at_INCR k n k' r r' : INCR k r = (Some n, r') →
    at_ k' r' = if decide (k = k') then Some (VString (pretty (n : Z)), volatile k r) else at_ k' r;
  at_INCR_error k k' r r' : INCR k r = (None, r') → at_ k' r' = at_ k' r;
  at_PEXPIRE k ms k' r : at_ k' (PEXPIRE k ms r) = if decide (k = k') then pexpire ms (at_ k r) else at_ k' r;
  at_SADD k m k' r : at_ k' (SADD k m r) = if decide (k = k') then sadd m (at_ k r) else at_ k' r;
  at_SREM k m k' r : at_ k' (SREM k m r) = if decide (k = k') then srem m (at_ k r) else at_ k' r;
  at_ZADD k s m k' r : at_ k' (ZADD k s m r) = if decide (k = k') then zadd s m (at_ k r) else at_ k' r;
  at_ZREM k m k' r : at_ k' (ZREM k m r) = if decide (k = k') then zrem m (at_ k r) else at_ k' r;
  ZRANGEBYSCORE_spec k max r m :
    m ∈ ZRANGEBYSCORE k max r ↔ ∃ s, ZSCORE k m r = Some s ∧ s <= max;
  ZRANGEBYSCORE_NoDup k max r : NoDup (ZRANGEBYSCORE k max r);
  ZRANGEBYSCORE_sorted k max r i j mi mj si sj : (i <= j)%nat →
    ZRANGEBYSCORE k max r !! i = Some mi → ZRANGEBYSCORE k max r !! j = Some mj →
    ZSCORE k mi r = Some si → ZSCORE k mj r = Some sj → si <= sj;
  lapse_at r r' : lapse r r' → ∀ k, at_ k r' = at_ k r ∨ (volatile k r = true ∧ at_ k r' = None);
}.

(** ** Hashes, the least member of a sorted set, and time

    What the mock provider's store uses besides.  [ZRANGE_0_0] is
    [ZRANGE key 0 0]: members of equal score are in lexicographic order. *)

Class RedisMore (R : Type) := {
  HSET : string → string → string → R → R;
  HDEL : string → string → R → R;
  ZRANGE_0_0 : string → R → option string;
  server_now : R → Z;                      (* milliseconds *)
  deadline : string → R → option Z;        (* of a key with a time to live *)
}.

Section more_reads.
Context `{RedisServer R}.

Definition HGET k (f : string) (r : R) : option string :=
  match at_ k r with Some (VHash h, _) => h !! f | _ => None end.

Definition ZCARD k (r : R) : Z := Z.of_nat (size (scores_at k r)).
End more_reads.

(** The server clock stands still, and only [k] may get another deadline. *)
Definition only_deadline `{RedisMore R} (k : string) (r r' : R) : Prop :=
  server_now r' = server_now r ∧ ∀ k', k' ≠ k → deadline k' r' = deadline k' r.

Class RedisMoreLaws (R : Type) `{RedisServer R, !RedisMore R} := {
  at_HSET k f v k' r : at_ k' (HSET k f v r) = if decide (k = k') then hset f v (at_ k r) else at_ k' r;
  at_HDEL k f k' r : at_ k' (HDEL k f r) = if decide (k = k') then hdel f (at_ k r) else at_ k' r;
  ZRANGE_0_0_none k r : ZRANGE_0_0 k r = None → scores_at k r = ∅;
  ZRANGE_0_0_some k r m : ZRANGE_0_0 k r = Some m →
    ∃ s, ZSCORE k m r = Some s ∧
      ∀ m' s', ZSCORE k m' r = Some s' → s < s' ∨ (s = s' ∧ String.leb m m' = true);
  deadline_SET k v r : only_deadline k r (SET k v r);
  deadline_DEL k r : only_deadline k r (DEL k r);
  deadline_PEXPIRE k ms r : only_deadline k r (PEXPIRE k ms r);
  deadline_PEXPIRE_eq k ms r : at_ k r ≠ None → 0 < ms →
    deadline k (PEXPIRE k ms r) = Some (server_now r + ms);
  deadline_SADD k m r : only_deadline k r (SADD k m r);
  deadline_SREM k m r : only_deadline k r (SREM k m r);
  deadline_ZADD k s m r : only_deadline k r (ZADD k s m r);
  deadline_ZREM k m r : only_deadline k r (ZREM k m r);
  deadline_HSET k f v r : only_deadline k r (HSET k f v r);
  deadline_HDEL k f r : only_deadline k r (HDEL k f r);
  lapse_now r r' : lapse r r' → server_now r <= server_now r';
  lapse_deadline r r' k d : lapse r r' → deadline k r = Some d → server_now r' < d →
    at_ k r' = at_ k r ∧ deadline k r' = Some d;
}.

(** ** Scripts *)

Definition lua (R A : Type) : Type := R → option A * R.

#[export] Instance lua_ret {R} : MRet (lua R) := λ A a r, (Some a, r).
#[export] Instance lua_bind {R} : MBind (lua R) := λ A B f c r,
  match c r with
  | (Some a, r') => f a r'
  | (None, r') => (None, r')
  end.

Definition lua_error {R A} : lua R A := λ r, (None, r).
Definition lua_read {R A} (f : R → A) : lua R A := λ r, (Some (f r), r).
Definition lua_write {R} (f : R → R) : lua R () := λ r, (Some (), f r).

(** [if b then c end] *)
Definition lua_when {R} (b : bool) (c : lua R ()) : lua R () := if b then c else mret ().

(** [for _, x in ipairs(l) do c x end] *)
Fixpoint lua_each {R A} (c : A → lua R ()) (l : list A) : lua R () :=
  match l with [] => mret () | x :: l' => c x;; lua_each c l' end.

(** [redis.call('INCR', k)] *)
Definition call_INCR {R} `{RedisServer R} (k : string) : lua R Z := INCR k.

(** [redis.call('SET', k, v, 'PX', px)]: a time that is not positive is an error. *)
Definition call_SET_PX {R} `{RedisServer R} (k v : string) (px : Z) : lua R () :=
  if px <=? 0 then lua_error else lua_write (SET_PX k v px).

(** ** Text and numbers of the scripts

    [cjson], the formatting of Lua numbers (14 significant digits) and
    [tonumber] belong to the server. *)

Class LuaHost := {
  lua_num : Z → string;
  tonumber : string → option Z;
}.

Definition lua_exact (n : Z) : Prop := - 10 ^ 14 < n < 10 ^ 14.

Class LuaLaws `{LuaHost} := {
  lua_num_exact n : lua_exact n → lua_num n = pretty n;
  tonumber_pretty n : lua_exact n → tonumber (pretty n) = Some n;
}.

(** ** Times in milliseconds ([watches.py])

    [_to_ms] goes through a double: [moment.timestamp()] is the number of
    microseconds divided by a million, correctly rounded; [* 1000] rounds
    again; [int] truncates.  Microseconds below [2^53] are exact. *)

Definition float_of (n : Z) : spec_float := binary_normalize 53 1024 n 0 false.

Definition truncate (x : spec_float) : Z :=
  match x with
  | S754_finite s m e =>
      let n := if 0 <=? e then Z.shiftl (Zpos m) e else Z.shiftr (Zpos m) (- e) in
      if s then - n else n
  | _ => 0
  end.

Definition timestamp (moment : Z) : spec_float :=
  SFdiv 53 1024 (float_of moment) (float_of 1_000_000).

Definition _to_ms (moment : Z) : Z := truncate (SFmul 53 1024 (timestamp moment) (float_of 1000)).

(** [datetime.fromtimestamp(ms / 1000, UTC)] rounds to the nearest
    microsecond, which is exact before the year 2242. *)
Definition _from_ms (ms : Z) : Z := ms * 1000.

(** [int(lease_seconds * 1000)], a duration in microseconds *)
Definition lease_ms_of (lease : Z) : Z := _to_ms lease.

Example to_ms_now : _to_ms 1_772_323_200_123_456 = 1_772_323_200_123.
Proof. vm_compute. reflexivity. Qed.

(** Two roundings may cost a millisecond: [1.001 * 1000] is below [1001]. *)
Example to_ms_loses : _to_ms 1_001_000 = 1000.
Proof. vm_compute. reflexivity. Qed.

(** ** Reading after writing *)

Section facts.
Context `{RedisLaws R}.
Implicit Types (k : string) (r : R).

Lemma GET_at k r s : GET k r = Some s ↔ ∃ b, at_ k r = Some (VString s, b).
Proof. unfold GET. destruct (at_ k r) as [[[] ]|]; naive_solver. Qed.

Lemma ZSCORE_at k m r r' : at_ k r' = at_ k r → ZSCORE k m r' = ZSCORE k m r.
Proof. unfold ZSCORE, scores_at. by intros ->. Qed.

Lemma GET_same k r r' : at_ k r' = at_ k r → GET k r' = GET k r.
Proof. unfold GET. by intros ->. Qed.

Lemma SMEMBERS_same k r r' : at_ k r' = at_ k r → SMEMBERS k r' = SMEMBERS k r.
Proof. unfold SMEMBERS. by intros ->. Qed.

Lemma lapse_GET r r' k : lapse r r' →
  GET k r' = GET k r ∨ (volatile k r = true ∧ GET k r' = None).
Proof.
  intros Hl. destruct (lapse_at r r' Hl k) as [E|[Hv E]]; unfold GET; rewrite E; auto.
Qed.

Lemma lapse_lasting r r' k : lapse r r' → volatile k r = false → at_ k r' = at_ k r.
Proof. intros Hl Hv. destruct (lapse_at r r' Hl k) as [|[? _]]; [done|congruence]. Qed.
End facts.

Create HintDb redis discriminated.
#[export] Hint Rewrite @at_SET @at_DEL @at_PEXPIRE @at_SADD @at_SREM @at_ZADD @at_ZREM
  using typeclasses eauto : redis.
