(* ===== verification/WatchScripts.v ===== *)
(** * The Lua scripts of the watch repository
    ([backend/db/repositories/watch_scripts.py])

    Each script is one atomic function of the server.  Its keys come first,
    under the names of its [KEYS] comment, then its arguments; numbers that a
    script only passes through [tonumber] are integers, an argument that may
    be the empty string is an [option], a flag ['1'/'0'] is a boolean, and
    the returned array is the decision with what it carries. *)

From S2P Require Import Prelude Calendar Reservation Watch RedisServer.

(** ** Documents as JSON text

    [model_dump_json] and [model_validate_json] are pydantic's, reading a
    scalar field with [cjson.decode] is the server's. *)

Class Documents := {
  watch_json : Watch → string;
  parse_watch : string → option Watch;           (* [None]: ValidationError *)
  runtime_json : WatchRuntime → string;
  parse_runtime : string → option WatchRuntime;
  cjson_status : string → string;
  cjson_window_id : string → option string;      (* [None]: null *)
  cjson_revision : string → string;              (* through [tostring] *)
  cjson_cancel_requested : string → bool;        (* [== true] *)
}.

Class DocumentLaws `{Documents} := {
  parse_watch_json w w' : parse_watch (watch_json w) = Some w' → w' = w;
  parse_runtime_json r r' : parse_runtime (runtime_json r) = Some r' → r' = r;
  parse_runtime_valid s r : parse_runtime s = Some r → runtime_ok r = true;
  parse_runtime_ok r : runtime_ok r = true → parse_runtime (runtime_json r) = Some r;
  cjson_status_json w : cjson_status (watch_json w) = status_value (w_status w);
  cjson_window_json r : cjson_window_id (runtime_json r) = rt_window_id r;
  cjson_revision_json r : lua_exact (rt_revision r) →
    cjson_revision (runtime_json r) = pretty (rt_revision r);
  cjson_cancel_json r : cjson_cancel_requested (runtime_json r) = rt_cancel_requested r;
}.

(** ** Claim values: ["owner|token|expires_ms"] *)

(** [string.find(v, '|')], with the text before and after it *)
Fixpoint find_bar (l : list ascii) : option (list ascii * list ascii) :=
  match l with
  | [] => None
  | c :: l' =>
      if Ascii.eqb c "|"%char then Some ([], l')
      else '(a, b) ← find_bar l'; Some (c :: a, b)
  end.

Section scripts.
Context `{RedisServer R, LuaHost, Documents}.

Definition claim_value (owner : string) (token expires : Z) : string :=
  owner +:+ "|" +:+ lua_num token +:+ "|" +:+ lua_num expires.

(** [None] where the script indexes a [nil] position. *)
Definition parse_claim (v : string) : option (string * string * option Z) :=
  '(owner, rest) ← find_bar (chars v);
  '(token, expires) ← find_bar rest;
  Some (of_chars owner, of_chars token, tonumber (of_chars expires)).

(** [local owner, token, exp = parse_claim(v)] *)
Definition lua_parse_claim (v : string) : lua R (string * string * option Z) :=
  match parse_claim v with Some p => mret p | None => lua_error end.

(** Comparing [nil] with a number is an error. *)
Definition lua_number (n : option Z) : lua R Z :=
  match n with Some n => mret n | None => lua_error end.

Definition is_active (w : string) : bool := bool_decide (cjson_status w = "ACTIVE"%string).

Inductive create_reply :=
| CreateExists (watch : string) (runtime : option string)
| CreateDone.

Definition CREATE_WITH_SCHEDULE (watch runtime fence all_index active_index schedule : string)
    (watch_id watch_doc runtime_doc : string) (scheduled_ms : option Z) : lua R create_reply :=
  exists_ ← lua_read (EXISTS watch);
  if exists_ : bool then
    w ← lua_read (GET watch);
    r ← lua_read (GET runtime);
    match w with Some w => mret (CreateExists w r) | None => lua_error end
  else
    lua_write (SET watch watch_doc);;
    lua_write (SET runtime runtime_doc);;
    lua_write (SET fence "0");;
    lua_write (SADD all_index watch_id);;
    lua_write (SADD active_index watch_id);;
    match scheduled_ms with
    | Some ms => lua_write (ZADD schedule ms watch_id)
    | None => mret ()
    end;;
    mret CreateDone.

Inductive claim_reply :=
| ClaimRefused (code : ClaimStatus)
| ClaimOwned (watch runtime : string) (token expires : Z).

(** The lease a claim key holds is still running at [now]. *)
Definition lease_held (key : string) (now : Z) : lua R bool :=
  held ← lua_read (GET key);
  match held with
  | None => mret false
  | Some v => '(_, _, exp) ← lua_parse_claim v; exp ← lua_number exp; mret (now <? exp)
  end.

Definition CLAIM_WINDOW (watch runtime fence claim schedule : string)
    (watch_id window_id owner_id : string) (lease_ms now : Z) (ignore_schedule : bool)
    : lua R claim_reply :=
  w ← lua_read (GET watch);
  match w with
  | None => mret (ClaimRefused UNKNOWN)
  | Some w =>
      if negb (is_active w) then mret (ClaimRefused TERMINAL) else
      rraw ← lua_read (GET runtime);
      match rraw with
      | None => mret (ClaimRefused UNKNOWN)
      | Some rraw =>
          if negb (bool_decide (cjson_window_id rraw = Some window_id))
          then mret (ClaimRefused STALE) else
          due ← lua_read (ZSCORE schedule watch_id);
          if negb ignore_schedule && match due with Some due => now <? due | None => false end
          then mret (ClaimRefused EARLY) else
          busy ← lease_held claim now;
          if busy : bool then mret (ClaimRefused BUSY) else
          token ← call_INCR fence;
          let expires := now + lease_ms in
          call_SET_PX claim (claim_value owner_id token expires) lease_ms;;
          mret (ClaimOwned w rraw token expires)
      end
  end.

(** The guards shared by the scripts that act for a claim: the revision it
    saw, and its owner and token on an unexpired claim key. *)
Definition claim_guard (claim rraw expected_revision expected_token owner_id : string)
    (now : Z) : lua R bool :=
  if negb (bool_decide (cjson_revision rraw = expected_revision)) then mret false else
  held ← lua_read (GET claim);
  match held with
  | None => mret false
  | Some v =>
      '(owner, token, exp) ← lua_parse_claim v;
      if negb (bool_decide (owner = owner_id)) || negb (bool_decide (token = expected_token))
      then mret false
      else exp ← lua_number exp; mret (now <? exp)
  end.

Definition BEGIN_BOOKING (watch runtime claim : string)
    (watch_id expected_revision expected_token owner_id booking_runtime_doc : string) (now : Z)
    : lua R BookingPermitStatus :=
  w ← lua_read (GET watch);
  match w with
  | None => mret BP_FENCED
  | Some w =>
      if negb (is_active w) then mret BP_FENCED else
      rraw ← lua_read (GET runtime);
      match rraw with
      | None => mret BP_FENCED
      | Some rraw =>
          owns ← claim_guard claim rraw expected_revision expected_token owner_id now;
          if negb owns then mret BP_FENCED else
          if cjson_cancel_requested rraw then mret BP_CANCELLED else
          lua_write (SET runtime booking_runtime_doc);;
          mret GRANTED
      end
  end.

(** [if ARGV ~= '' then redis.call(...) end] *)
Definition when_given {A} (x : option A) (f : A → R → R) : lua R () :=
  match x with Some a => lua_write (f a) | None => mret () end.

Definition COMMIT_WINDOW (watch runtime claim all_index active_index schedule terminal events : string)
    (watch_id expected_revision expected_token owner_id new_watch_doc new_runtime_doc : string)
    (ends : bool) (next_scheduled_ms terminal_delete_ms : option Z) (event_id : option string)
    (retention_ttl_ms : option Z) (now : Z) : lua R CommitStatus :=
  w ← lua_read (GET watch);
  match w with
  | None => mret CS_UNKNOWN
  | Some w =>
      if negb (is_active w) then mret CS_TERMINAL else
      rraw ← lua_read (GET runtime);
      match rraw with
      | None => mret CS_UNKNOWN
      | Some rraw =>
          owns ← claim_guard claim rraw expected_revision expected_token owner_id now;
          if negb owns then mret CS_FENCED else
          lua_write (SET watch new_watch_doc);;
          lua_write (SET runtime new_runtime_doc);;
          lua_write (DEL claim);;
          if ends then
            lua_write (SREM active_index watch_id);;
            lua_write (ZREM schedule watch_id);;
            when_given terminal_delete_ms (λ ms, ZADD terminal ms watch_id);;
            when_given event_id (SADD events);;
            when_given retention_ttl_ms (λ ms r, PEXPIRE runtime ms (PEXPIRE watch ms r));;
            mret COMMITTED
          else
            match next_scheduled_ms with
            | Some ms => lua_write (ZADD schedule ms watch_id)
            | None => lua_write (ZREM schedule watch_id)
            end;;
            mret COMMITTED
      end
  end.

Inductive transition_reply :=
| TransitionRefused (code : TransitionStatus)
| TransitionNoop (watch : string)
| TransitionNotEligible (watch : string)
| TransitionApplied (watch : string).

(** Ending a watch, as [CANCEL_IF_ACTIVE] and [EXPIRE_IF_ELIGIBLE] do it. *)
Definition end_watch (watch runtime claim active_index schedule terminal : string)
    (watch_id new_watch_doc : string) (new_runtime_doc : option string)
    (has_runtime : bool) (terminal_delete_ms : option Z) : lua R () :=
  lua_write (SET watch new_watch_doc);;
  lua_when has_runtime (lua_write (SET runtime (default ""%string new_runtime_doc)));;
  lua_write (DEL claim);;
  lua_write (SREM active_index watch_id);;
  lua_write (ZREM schedule watch_id);;
  when_given terminal_delete_ms (λ ms, ZADD terminal ms watch_id).

(** [rraw and ARGV[2] ~= '' and tostring(...revision) ~= ARGV[2]] *)
Definition revision_moved (rraw cas_revision : option string) : bool :=
  match rraw, cas_revision with
  | Some rraw, Some rev => negb (bool_decide (cjson_revision rraw = rev))
  | _, _ => false
  end.

Definition has {A} (x : option A) : bool := match x with Some _ => true | None => false end.

Definition CANCEL_IF_ACTIVE (watch runtime claim active_index schedule terminal : string)
    (watch_id : string) (cas_revision : option string) (pending : bool)
    (new_watch_doc : string) (new_runtime_doc : option string)
    (terminal_delete_ms retention_ttl_ms : option Z) : lua R transition_reply :=
  w ← lua_read (GET watch);
  match w with
  | None => mret (TransitionRefused TS_UNKNOWN)
  | Some w =>
      if negb (is_active w) then mret (TransitionNoop w) else
      rraw ← lua_read (GET runtime);
      if revision_moved rraw cas_revision then mret (TransitionRefused TS_FENCED) else
      if pending then
        lua_when (has rraw) (lua_write (SET runtime (default ""%string new_runtime_doc)));;
        mret (TransitionNotEligible w)
      else
        end_watch watch runtime claim active_index schedule terminal watch_id
          new_watch_doc new_runtime_doc (has rraw) terminal_delete_ms;;
        when_given retention_ttl_ms (λ ms r, PEXPIRE runtime ms (PEXPIRE watch ms r));;
        mret (TransitionApplied new_watch_doc)
  end.

Definition EXPIRE_IF_ELIGIBLE (watch runtime claim active_index schedule terminal events : string)
    (watch_id : string) (cas_revision : option string) (new_watch_doc : string)
    (new_runtime_doc : option string) (event_id : option string)
    (terminal_delete_ms retention_ttl_ms : option Z) : lua R transition_reply :=
  w ← lua_read (GET watch);
  match w with
  | None => mret (TransitionRefused TS_UNKNOWN)
  | Some w =>
      if negb (is_active w) then mret (TransitionNoop w) else
      rraw ← lua_read (GET runtime);
      if revision_moved rraw cas_revision then mret (TransitionRefused TS_FENCED) else
      end_watch watch runtime claim active_index schedule terminal watch_id
        new_watch_doc new_runtime_doc (has rraw) terminal_delete_ms;;
      when_given event_id (SADD events);;
      when_given retention_ttl_ms (λ ms r, PEXPIRE runtime ms (PEXPIRE watch ms r));;
      mret (TransitionApplied new_watch_doc)
  end.

(** [for _, wid in ipairs(due)] of [CLEANUP_DUE], counting removals. *)
Fixpoint cleanup_members (terminal all_index active_index schedule key_prefix : string)
    (due : list string) (removed : Z) : lua R Z :=
  match due with
  | [] => mret removed
  | wid :: due' =>
      let wkey := key_prefix +:+ ":" +:+ wid in
      doc ← lua_read (GET wkey);
      let gone := match doc with Some d => negb (is_active d) | None => false end in
      lua_when gone
        (lua_write (DEL wkey);;
         lua_write (DEL (wkey +:+ ":runtime"));;
         lua_write (DEL (wkey +:+ ":fence"));;
         lua_write (DEL (wkey +:+ ":claim"));;
         lua_write (SREM all_index wid);;
         lua_write (SREM active_index wid);;
         lua_write (ZREM schedule wid));;
      lua_write (ZREM terminal wid);;
      cleanup_members terminal all_index active_index schedule key_prefix due'
        (if gone then removed + 1 else removed)
  end.

(** ['LIMIT', 0, n]: a negative count is no limit. *)
Definition limit (n : Z) (l : list string) : list string :=
  if n <? 0 then l else take (Z.to_nat n) l.

Definition CLEANUP_DUE (terminal all_index active_index schedule : string)
    (now batch : Z) (key_prefix : string) : lua R (Z * Z) :=
  due ← lua_read (ZRANGEBYSCORE terminal now);
  removed ← cleanup_members terminal all_index active_index schedule key_prefix (limit batch due) 0;
  remaining ← lua_read (ZCOUNT terminal now);
  mret (removed, remaining).

Definition RELEASE_CLAIM (claim owner_id token : string) : lua R bool :=
  held ← lua_read (GET claim);
  match held with
  | None => mret false
  | Some v =>
      '(owner, tok, _) ← lua_parse_claim v;
      if bool_decide (owner = owner_id) && bool_decide (tok = token)
      then lua_write (DEL claim);; mret true
      else mret false
  end.

Inductive dispatch_reply :=
| DispatchRefused (code : DispatchStatus)
| DispatchClaimed (generation expires : Z).

Definition CLAIM_DISPATCH (watch runtime dispatch_fence dispatch_lease schedule : string)
    (watch_id window_id owner_id : string) (lease_ms now : Z) : lua R dispatch_reply :=
  w ← lua_read (GET watch);
  match w with
  | None => mret (DispatchRefused DS_STALE)
  | Some w =>
      if negb (is_active w) then mret (DispatchRefused DS_STALE) else
      rraw ← lua_read (GET runtime);
      match rraw with
      | None => mret (DispatchRefused DS_STALE)
      | Some rraw =>
          if negb (bool_decide (cjson_window_id rraw = Some window_id))
          then mret (DispatchRefused DS_STALE) else
          due ← lua_read (ZSCORE schedule watch_id);
          if negb (has due) then mret (DispatchRefused DS_STALE) else
          busy ← lease_held dispatch_lease now;
          if busy : bool then mret (DispatchRefused DS_BUSY) else
          gen ← call_INCR dispatch_fence;
          let expires := now + lease_ms in
          call_SET_PX dispatch_lease (claim_value owner_id gen expires) lease_ms;;
          mret (DispatchClaimed gen expires)
      end
  end.

Definition MARK_DISPATCHED (dispatch_lease owner_id generation : string)
    (redispatch_after_ms now : Z) : lua R bool :=
  held ← lua_read (GET dispatch_lease);
  match held with
  | None => mret false
  | Some v =>
      '(owner, gen, _) ← lua_parse_claim v;
      if negb (bool_decide (owner = owner_id)) || negb (bool_decide (gen = generation))
      then mret false
      else
        let px := Z.max 1 (redispatch_after_ms - now) in
        call_SET_PX dispatch_lease
          (owner +:+ "|" +:+ gen +:+ "|" +:+ lua_num redispatch_after_ms) px;;
        mret true
  end.

Definition RELEASE_DISPATCH (dispatch_lease owner_id generation : string) : lua R bool :=
  RELEASE_CLAIM dispatch_lease owner_id generation.

Definition RENEW_LEADER (leader owner_id : string) (lease_ms : Z) : lua R bool :=
  held ← lua_read (GET leader);
  if bool_decide (held = Some owner_id)
  then call_SET_PX leader owner_id lease_ms;; mret true
  else mret false.

Definition RELEASE_LEADER (leader owner_id : string) : lua R bool :=
  held ← lua_read (GET leader);
  if bool_decide (held = Some owner_id)
  then lua_write (DEL leader);; mret true
  else mret false.

Definition SYNTHESIZE_MARKER (watch runtime fence claim schedule : string)
    (watch_id runtime_doc : string) (scheduled_ms now : Z) : lua R bool :=
  w ← lua_read (GET watch);
  match w with
  | None => mret false
  | Some w =>
      if negb (is_active w) then mret false else
      busy ← lease_held claim now;
      if busy : bool then mret false else
      due ← lua_read (ZSCORE schedule watch_id);
      if has due then mret false else
      lua_write (SET runtime runtime_doc);;
      fence_exists ← lua_read (EXISTS fence);
      lua_when (negb fence_exists) (lua_write (SET fence "0"));;
      lua_write (ZADD schedule scheduled_ms watch_id);;
      mret true
  end.
End scripts.
