(* ===== verification/RedisWatch.v ===== *)
(** * The Redis watch repository
    ([RedisWatchRepository], [backend/db/repositories/watches.py])

    Every method is a coroutine over one kind of awaited call: an atomic
    action of the server, that is a command, a [MULTI]/[EXEC] pipeline or a
    script.  Between two of them any other client may act.  [self._clock()]
    is a call too, so that each reading may answer differently. *)

From S2P Require Import Prelude Sorting Json Calendar ClockTime Schemas Reservation Watch.
From S2P Require Import WatchSpec Prog RedisServer WatchScripts.

(** ** Keys *)

Definition KEY_PREFIX : string := "dibs:watch".
Definition INDEX_KEY : string := "dibs:watches".
Definition ACTIVE_INDEX_KEY : string := "dibs:watches:active".
Definition SCHEDULE_INDEX_KEY : string := "dibs:watches:schedule".
Definition TERMINAL_INDEX_KEY : string := "dibs:watches:terminal".
Definition EVENTS_KEY : string := "dibs:watch:events".
Definition LEADER_KEY : string := "dibs:recovery:leader".

Definition _key (watch_id : string) : string := KEY_PREFIX +:+ ":" +:+ watch_id.
Definition _runtime_key (watch_id : string) : string := _key watch_id +:+ ":runtime".
Definition _fence_key (watch_id : string) : string := _key watch_id +:+ ":fence".
Definition _claim_key (watch_id : string) : string := _key watch_id +:+ ":claim".
Definition _dispatch_fence_key (watch_id : string) : string := _key watch_id +:+ ":dispfence".

Definition dispatch_window_hash (sha1hex : string → string) (window_id : string) : string :=
  of_chars (take 16 (chars (sha1hex window_id))).

Definition _dispatch_key (sha1hex : string → string) (watch_id window_id : string) : string :=
  _key watch_id +:+ ":dispatch:" +:+ dispatch_window_hash sha1hex window_id.

Definition _RETENTION_GRACE_SECONDS : Z := seconds 3600.

(** ** Calls *)

Inductive redis_exn := ValidationError | ResponseError | RedisDown | TaskCancelled.

Inductive redis_op (R : Type) :=
| Exec (A : Type) (action : lua R A)
| Clock.
Arguments Exec {R} _ _.
Arguments Clock {R}.

Definition redis_ans {R} (o : redis_op R) : Type :=
  match o with Exec A _ => A | Clock => Z end.

Definition redis (R : Type) : sig := Sig (redis_op R) redis_ans redis_exn.

Definition server {R A} (action : lua R A) : prog (redis R) A :=
  perform (Σ := redis R) (Exec A action).

Definition clock {R} : prog (redis R) Z := perform (Σ := redis R) Clock.

Section repository.
Context `{RedisServer R, LuaHost, Documents}.
Context (sha1hex : string → string) (retention : Z).
Notation program := (prog (redis R)).

Definition validated {A} (x : option A) : program A :=
  match x with Some a => Ret a | None => Raise (Σ := redis R) ValidationError end.

(** ** Decoding *)

Definition _decode (watch_id : string) (raw : option string) : option Watch :=
  match raw ≫= parse_watch with
  | Some watch => if bool_decide (w_watch_id watch = watch_id) then Some watch else None
  | None => None
  end.

Definition _now_ms : program Z := now ← clock; Ret (_to_ms now).

(** ** The document surface *)

Definition save (watch : Watch) : program Watch :=
  let id := w_watch_id watch in
  server (lua_write (SET (_key id) (watch_json watch));;
          lua_write (SADD INDEX_KEY id);;
          lua_write (if bool_decide (w_status watch = ACTIVE) then SADD ACTIVE_INDEX_KEY id
                     else SREM ACTIVE_INDEX_KEY id));;
  Ret watch.

Definition get (watch_id : string) : program (option Watch) :=
  raw ← server (lua_read (GET (_key watch_id)));
  Ret (_decode watch_id raw).

(** A pipeline of [srem]s. *)
Fixpoint srem_all (key : string) (members : list string) : lua R () :=
  match members with
  | [] => mret ()
  | m :: members' => lua_write (SREM key m);; srem_all key members'
  end.

Definition prune (key : string) (stale : list string) : program () :=
  match stale with [] => Ret () | _ => server (srem_all key stale) end.

Definition newest_first (watches : list Watch) : list Watch :=
  sort_by (λ w, - w_created_at w) watches.

Definition _load_many (watch_ids : gset string) (prune_index : option string)
    : program (list Watch) :=
  let ordered_ids := sort_text id (elements watch_ids) in
  match ordered_ids with
  | [] => Ret []
  | _ =>
      raw_documents ← server (lua_read (λ r, map (λ i, GET (_key i) r) ordered_ids));
      let loaded := zip_with (λ i raw, (i, _decode i raw)) ordered_ids raw_documents in
      let watches := omap snd loaded in
      let stale := map fst (List.filter (λ p, is_none p.2) loaded) in
      match prune_index with Some key => prune key stale | None => Ret () end;;
      Ret (newest_first watches)
  end.

Definition list_all : program (list Watch) :=
  watch_ids ← server (lua_read (SMEMBERS INDEX_KEY));
  _load_many watch_ids (Some INDEX_KEY).

Definition list_active : program (list Watch) :=
  watch_ids ← server (lua_read (SMEMBERS ACTIVE_INDEX_KEY));
  watches ← _load_many watch_ids (Some ACTIVE_INDEX_KEY);
  let active := List.filter (λ w, bool_decide (w_status w = ACTIVE)) watches in
  let stale := List.filter (λ w, negb (bool_decide (w_status w = ACTIVE))) watches in
  prune ACTIVE_INDEX_KEY (map w_watch_id stale);;
  Ret active.

Definition delete_action (watch_id : string) : lua R bool :=
  existed ← lua_read (EXISTS (_key watch_id));
  lua_write (DEL (_key watch_id));;
  lua_write (DEL (_runtime_key watch_id));;
  lua_write (DEL (_fence_key watch_id));;
  lua_write (DEL (_claim_key watch_id));;
  lua_write (SREM INDEX_KEY watch_id);;
  lua_write (SREM ACTIVE_INDEX_KEY watch_id);;
  lua_write (ZREM SCHEDULE_INDEX_KEY watch_id);;
  lua_write (ZREM TERMINAL_INDEX_KEY watch_id);;
  mret existed.

Definition delete_watch (watch_id : string) : program bool := server (delete_action watch_id).

(** ** Sidecar and markers *)

Definition get_runtime (watch_id : string) : program (option WatchRuntime) :=
  raw ← server (lua_read (GET (_runtime_key watch_id)));
  Ret (raw ≫= parse_runtime).

Definition schedule_marker (watch_id : string) : program (option ScheduleMarker) :=
  score ← server (lua_read (ZSCORE SCHEDULE_INDEX_KEY watch_id));
  match score with
  | None => Ret None
  | Some score =>
      runtime ← get_runtime watch_id;
      Ret (match runtime ≫= rt_window_id with
           | Some win => Some (MkMarker watch_id win (_from_ms score))
           | None => None
           end)
  end.

Definition due_schedule_markers (now horizon lim : Z) : program (list ScheduleMarker) :=
  let cutoff_ms := _to_ms (now + horizon) in
  rows ← server (lua_read (λ r, limit (Z.max 0 lim) (ZRANGEBYSCORE SCHEDULE_INDEX_KEY cutoff_ms r)));
  for_fold rows [] (λ markers watch_id,
    runtime ← get_runtime watch_id;
    Ret (markers ++ match runtime with
                    | Some r => match marker_of watch_id r with Some m => [m] | None => [] end
                    | None => []
                    end)).

(** ** Dispatch leases *)

Definition dispatch_action (marker : ScheduleMarker) (owner_id : string) (lease now_ms : Z)
    : lua R dispatch_reply :=
  let id := mk_watch_id marker in
  CLAIM_DISPATCH (_key id) (_runtime_key id) (_dispatch_fence_key id)
    (_dispatch_key sha1hex id (mk_window_id marker)) SCHEDULE_INDEX_KEY
    id (mk_window_id marker) owner_id (lease_ms_of lease) now_ms.

Definition mark_action (claim : DispatchClaim) (redispatch_after now_ms : Z) : lua R bool :=
  MARK_DISPATCHED (_dispatch_key sha1hex (dc_watch_id claim) (dc_window_id claim))
    (dc_owner_id claim) (pretty (dc_generation claim)) (_to_ms redispatch_after) now_ms.

Definition release_dispatch_action (claim : DispatchClaim) : lua R bool :=
  RELEASE_DISPATCH (_dispatch_key sha1hex (dc_watch_id claim) (dc_window_id claim))
    (dc_owner_id claim) (pretty (dc_generation claim)).

Definition claim_dispatch (marker : ScheduleMarker) (owner_id : string) (lease : Z)
    : program DispatchResult :=
  now_ms ← _now_ms;
  out ← server (dispatch_action marker owner_id lease now_ms);
  Ret (match out with
       | DispatchRefused code => MkDispatchResult code None
       | DispatchClaimed generation expires =>
           MkDispatchResult CLAIMED
             (Some (MkDispatchClaim (mk_watch_id marker) (mk_window_id marker)
                      (mk_scheduled_for marker) owner_id generation (_from_ms expires)))
       end).

Definition mark_dispatched (claim : DispatchClaim) (redispatch_after : Z) : program bool :=
  now_ms ← _now_ms; server (mark_action claim redispatch_after now_ms).

Definition release_dispatch (claim : DispatchClaim) : program bool :=
  server (release_dispatch_action claim).

(** ** The state machine *)

Definition create_action (watch : Watch) (runtime : WatchRuntime) : lua R create_reply :=
  let id := w_watch_id watch in
  let scheduled_ms :=
    match rt_window_id runtime, rt_scheduled_for runtime with
    | Some _, Some due => Some (_to_ms due)
    | _, _ => None
    end in
  CREATE_WITH_SCHEDULE (_key id) (_runtime_key id) (_fence_key id)
    INDEX_KEY ACTIVE_INDEX_KEY SCHEDULE_INDEX_KEY
    id (watch_json watch) (runtime_json runtime) scheduled_ms.

Definition create_with_schedule (watch : Watch) (runtime : WatchRuntime) : program CreateResult :=
  out ← server (create_action watch runtime);
  match out with
  | CreateDone => Ret (MkCreateResult CREATED (Some watch) (Some runtime))
  | CreateExists w r =>
      stored ← validated (parse_watch w);
      stored_runtime ← validated (r ≫= parse_runtime);
      Ret (MkCreateResult ALREADY_EXISTS (Some stored) (Some stored_runtime))
  end.

Definition claim_action (watch_id window_id owner_id : string) (lease : Z)
    (ignore_schedule : bool) (now_ms : Z) : lua R claim_reply :=
  CLAIM_WINDOW (_key watch_id) (_runtime_key watch_id) (_fence_key watch_id)
    (_claim_key watch_id) SCHEDULE_INDEX_KEY
    watch_id window_id owner_id (lease_ms_of lease) now_ms ignore_schedule.

Definition claim_window (watch_id window_id owner_id : string) (lease : Z)
    (ignore_schedule : bool) : program ClaimResult :=
  now_ms ← _now_ms;
  out ← server (claim_action watch_id window_id owner_id lease ignore_schedule now_ms);
  match out with
  | ClaimRefused code => Ret (MkClaimResult code None)
  | ClaimOwned w r token expires =>
      watch ← validated (parse_watch w);
      runtime ← validated (parse_runtime r);
      Ret (MkClaimResult OWNED
             (Some (MkClaim watch runtime owner_id window_id token (_from_ms expires))))
  end.

Definition begin_action (claim : WindowClaim) (now_ms : Z) : lua R BookingPermitStatus :=
  let id := cl_watch_id claim in
  let booking_runtime := cl_runtime claim <| rt_phase := Some BOOKING |> in
  BEGIN_BOOKING (_key id) (_runtime_key id) (_claim_key id)
    id (pretty (rt_revision (cl_runtime claim))) (pretty (cl_token claim))
    (cl_owner_id claim) (runtime_json booking_runtime) now_ms.

Definition begin_booking (claim : WindowClaim) : program BookingPermit :=
  now_ms ← _now_ms;
  code ← server (begin_action claim now_ms);
  Ret (match code with
       | GRANTED =>
           MkPermit GRANTED (Some (cl_watch_id claim +:+ ":" +:+ pretty (cl_token claim)))
       | code => MkPermit code None
       end).

(** [_terminal_deadlines]: the deadline, its milliseconds, and the key TTL. *)
Definition _terminal_deadlines (now : Z) : Z * Z * Z :=
  let deadline := now + retention in
  (deadline, _to_ms deadline, _to_ms (retention + _RETENTION_GRACE_SECONDS)).

(** The sidecar [commit_window] stores. *)
Definition stored_runtime (claim : WindowClaim) (new_runtime : WatchRuntime)
    (delete_at : option Z) : WatchRuntime :=
  let stored := new_runtime <| rt_revision := rt_revision (cl_runtime claim) + 1 |>
                            <| rt_phase := None |> in
  match delete_at with
  | Some deadline => stored <| rt_terminal_delete_at := Some deadline |>
  | None => stored
  end.

Definition commit_event (claim : WindowClaim) (new_watch : Watch) : option string :=
  event_for sha1hex (cl_watch_id claim) (w_status new_watch)
    (rt_revision (cl_runtime claim) + 1).

Definition commit_action (claim : WindowClaim) (new_watch : Watch) (new_runtime : WatchRuntime)
    (deadlines : option (Z * Z * Z)) (now_ms : Z) : lua R CommitStatus :=
  let id := cl_watch_id claim in
  let ends := watch_terminal new_watch in
  let stored := stored_runtime claim new_runtime (fst ∘ fst <$> deadlines) in
  let next_scheduled_ms :=
    match ends, rt_window_id stored, rt_scheduled_for stored with
    | false, Some _, Some due => Some (_to_ms due)
    | _, _, _ => None
    end in
  COMMIT_WINDOW (_key id) (_runtime_key id) (_claim_key id)
    INDEX_KEY ACTIVE_INDEX_KEY SCHEDULE_INDEX_KEY TERMINAL_INDEX_KEY EVENTS_KEY
    id (pretty (rt_revision (cl_runtime claim))) (pretty (cl_token claim))
    (cl_owner_id claim) (watch_json new_watch) (runtime_json stored)
    ends next_scheduled_ms (snd ∘ fst <$> deadlines) (commit_event claim new_watch)
    (snd <$> deadlines) now_ms.

Definition commit_window (claim : WindowClaim) (new_watch : Watch) (new_runtime : WatchRuntime)
    : program CommitResult :=
  deadlines ← (if watch_terminal new_watch
               then now ← clock; Ret (Some (_terminal_deadlines now)) else Ret None);
  now_ms ← _now_ms;
  code ← server (commit_action claim new_watch new_runtime deadlines now_ms);
  Ret (match code with
       | COMMITTED => MkCommitResult COMMITTED (Some new_watch) (commit_event claim new_watch)
       | code => MkCommitResult code None None
       end).

Definition ended_watch_at (st : WatchStatus) (now : Z) (watch : Watch) : Watch :=
  watch <| w_status := st |> <| w_next_check_at := None |> <| w_updated_at := now |>.

Definition ended_runtime_at (deadline : Z) (runtime : WatchRuntime) : WatchRuntime :=
  runtime <| rt_revision := rt_revision runtime + 1 |> <| rt_window_id := None |>
          <| rt_scheduled_for := None |> <| rt_phase := None |>
          <| rt_cancel_requested := false |> <| rt_terminal_delete_at := Some deadline |>.

Definition cas_revision (runtime : option WatchRuntime) : option string :=
  (λ r, pretty (rt_revision r)) <$> runtime.

(** The server action of a cancellation, from what was read before it. *)
Definition cancel_pending_action (watch_id : string) (runtime : WatchRuntime)
    : lua R transition_reply :=
  CANCEL_IF_ACTIVE (_key watch_id) (_runtime_key watch_id) (_claim_key watch_id)
    ACTIVE_INDEX_KEY SCHEDULE_INDEX_KEY TERMINAL_INDEX_KEY
    watch_id (cas_revision (Some runtime)) true ""
    (Some (runtime_json (runtime <| rt_cancel_requested := true |>))) None None.

Definition cancel_action (watch_id : string) (watch : Watch) (runtime : option WatchRuntime)
    (now : Z) : lua R transition_reply :=
  let '(deadline, terminal_delete_ms, retention_ttl_ms) := _terminal_deadlines now in
  CANCEL_IF_ACTIVE (_key watch_id) (_runtime_key watch_id) (_claim_key watch_id)
    ACTIVE_INDEX_KEY SCHEDULE_INDEX_KEY TERMINAL_INDEX_KEY
    watch_id (cas_revision runtime) false (watch_json (ended_watch_at CANCELLED now watch))
    (runtime_json ∘ ended_runtime_at deadline <$> runtime)
    (Some terminal_delete_ms) (Some retention_ttl_ms).

(** One round of the retry loop; [None] is [continue]. *)
Definition cancel_round (watch_id : string) : program (option TransitionResult) :=
  watch ← get watch_id;
  match watch with
  | None => Ret (Some (MkTransition TS_UNKNOWN None None (-1)))
  | Some watch =>
      if watch_terminal watch then Ret (Some (MkTransition NOOP (Some watch) None (-1))) else
      runtime ← get_runtime watch_id;
      out ← (match runtime with
             | Some r =>
                 if bool_decide (rt_phase r = Some BOOKING)
                 then server (cancel_pending_action watch_id r)
                 else now ← clock; server (cancel_action watch_id watch (Some r) now)
             | None => now ← clock; server (cancel_action watch_id watch None now)
             end);
      match out with
      | TransitionRefused TS_FENCED => Ret None
      | TransitionApplied w =>
          cancelled ← validated (parse_watch w);
          Ret (Some (MkTransition APPLIED (Some cancelled) None (next_revision runtime)))
      | TransitionNotEligible _ => Ret (Some (MkTransition NOT_ELIGIBLE (Some watch) None (-1)))
      | TransitionNoop w =>
          stored ← validated (parse_watch w);
          Ret (Some (MkTransition NOOP (Some stored) None (-1)))
      | TransitionRefused _ => Ret (Some (MkTransition TS_UNKNOWN None None (-1)))
      end
  end.

(** [for _attempt in range(5)] *)
Definition cancel_if_active (watch_id : string) : program TransitionResult :=
  result ← for_first (seq 0 5) (λ _, cancel_round watch_id);
  Ret (match result with
       | Some res => res
       | None => MkTransition TS_FENCED None None (-1)
       end).

Definition expire_action (watch_id : string) (watch : Watch) (runtime : option WatchRuntime)
    (now : Z) : lua R transition_reply :=
  let '(deadline, terminal_delete_ms, retention_ttl_ms) := _terminal_deadlines now in
  EXPIRE_IF_ELIGIBLE (_key watch_id) (_runtime_key watch_id) (_claim_key watch_id)
    ACTIVE_INDEX_KEY SCHEDULE_INDEX_KEY TERMINAL_INDEX_KEY EVENTS_KEY
    watch_id (cas_revision runtime) (watch_json (ended_watch_at EXPIRED now watch))
    (runtime_json ∘ ended_runtime_at deadline <$> runtime)
    (event_for sha1hex watch_id EXPIRED (next_revision runtime))
    (Some terminal_delete_ms) (Some retention_ttl_ms).

Definition expire_if_eligible (watch_id : string) (expected_revision : option Z) (force : bool)
    : program TransitionResult :=
  watch ← get watch_id;
  match watch with
  | None => Ret (MkTransition TS_UNKNOWN None None (-1))
  | Some watch =>
      if watch_terminal watch then Ret (MkTransition NOOP (Some watch) None (-1)) else
      runtime ← get_runtime watch_id;
      if match expected_revision, runtime with
         | Some n, Some r => negb (rt_revision r =? n)
         | _, _ => false
         end
      then Ret (MkTransition TS_FENCED None None (-1)) else
      eligible ← (if force then Ret true else now ← clock; Ret (is_exhausted watch now));
      if negb eligible then Ret (MkTransition NOT_ELIGIBLE (Some watch) None (-1)) else
      now ← clock;
      out ← server (expire_action watch_id watch runtime now);
      match out with
      | TransitionApplied w =>
          expired ← validated (parse_watch w);
          Ret (MkTransition APPLIED (Some expired)
                 (event_for sha1hex watch_id EXPIRED (next_revision runtime))
                 (next_revision runtime))
      | TransitionNoop w =>
          stored ← validated (parse_watch w);
          Ret (MkTransition NOOP (Some stored) None (-1))
      | TransitionRefused TS_FENCED => Ret (MkTransition TS_FENCED None None (-1))
      | _ => Ret (MkTransition TS_UNKNOWN None None (-1))
      end
  end.

Definition release_action (claim : WindowClaim) : lua R bool :=
  RELEASE_CLAIM (_claim_key (cl_watch_id claim)) (cl_owner_id claim) (pretty (cl_token claim)).

Definition release_claim (claim : WindowClaim) : program bool := server (release_action claim).

Definition cleanup_action (now batch_size : Z) : lua R (Z * Z) :=
  CLEANUP_DUE TERMINAL_INDEX_KEY INDEX_KEY ACTIVE_INDEX_KEY SCHEDULE_INDEX_KEY
    (_to_ms now) batch_size KEY_PREFIX.

Definition cleanup_due (now batch_size : Z) : program CleanupResult :=
  out ← server (cleanup_action now batch_size);
  Ret (MkCleanupResult out.1 (0 <? out.2)).

(** ** Recovery *)

(** [SET NX PX] *)
Definition SET_NX_PX (k v : string) (px : Z) : lua R bool :=
  taken ← lua_read (EXISTS k);
  if taken : bool then mret false else call_SET_PX k v px;; mret true.

Definition leader_ms (lease : Z) : Z := Z.max 1 (lease_ms_of lease).

Definition acquire_leadership (owner_id : string) (lease : Z) : program bool :=
  server (SET_NX_PX LEADER_KEY owner_id (leader_ms lease)).

Definition renew_leadership (owner_id : string) (lease : Z) : program bool :=
  server (RENEW_LEADER LEADER_KEY owner_id (leader_ms lease)).

Definition release_leadership (owner_id : string) : program bool :=
  server (RELEASE_LEADER LEADER_KEY owner_id).

(** [text.rsplit("|", 1)[-1]] *)
Fixpoint after_last_bar (l acc : list ascii) : list ascii :=
  match l with
  | [] => rev acc
  | c :: l' => if Ascii.eqb c "|"%char then after_last_bar l' [] else after_last_bar l' (c :: acc)
  end.

Definition _claim_is_live (claim_raw : option string) (now_ms : Z) : bool :=
  match claim_raw with
  | None => false
  | Some text =>
      match int_of (after_last_bar (chars text) []) with
      | Some expires => now_ms <? expires
      | None => false
      end
  end.

Definition list_recovery_candidates : program (list RecoveryCandidate) :=
  members ← server (lua_read (SMEMBERS ACTIVE_INDEX_KEY));
  now_ms ← _now_ms;
  for_fold (sort_text id (elements members)) [] (λ candidates watch_id,
    raw ← server (lua_read (GET (_key watch_id)));
    runtime ← get_runtime watch_id;
    marker ← server (lua_read (ZSCORE SCHEDULE_INDEX_KEY watch_id));
    claim_raw ← server (lua_read (GET (_claim_key watch_id)));
    Ret (candidates ++ [MkCandidate watch_id (_decode watch_id raw) runtime
                          (has marker) (_claim_is_live claim_raw now_ms)])).

Definition prune_action (watch_id : string) (from_all : bool) : lua R () :=
  lua_write (SREM ACTIVE_INDEX_KEY watch_id);;
  lua_when from_all
    (lua_write (SREM INDEX_KEY watch_id);;
     lua_write (DEL (_runtime_key watch_id));;
     lua_write (DEL (_fence_key watch_id));;
     lua_write (DEL (_claim_key watch_id));;
     lua_write (ZREM SCHEDULE_INDEX_KEY watch_id)).

Definition prune_index_member (watch_id : string) (from_all : bool) : program () :=
  server (prune_action watch_id from_all).

Definition synthesize_action (watch_id : string) (runtime : WatchRuntime) (due now_ms : Z)
    : lua R bool :=
  SYNTHESIZE_MARKER (_key watch_id) (_runtime_key watch_id) (_fence_key watch_id)
    (_claim_key watch_id) SCHEDULE_INDEX_KEY
    watch_id (runtime_json runtime) (_to_ms due) now_ms.

Definition synthesize_marker (watch_id : string) (runtime : WatchRuntime) : program bool :=
  match rt_window_id runtime, rt_scheduled_for runtime with
  | Some _, Some due => now_ms ← _now_ms; server (synthesize_action watch_id runtime due now_ms)
  | _, _ => Ret false
  end.
End repository.
