(* ===== verification/RedisKeys.v ===== *)
(** * Keys, claim values and frames of the Redis watch repository

    The keys of one watch differ from each other, from those of every other
    watch, and from the index keys, provided watch ids carry no colon (they
    are hexadecimal [uuid4]s).  [moves P c] says that script [c] changes the
    server by steps of the preorder [P]; [frame] uses it to show that an
    action for one watch leaves every other watch alone. *)

From S2P Require Import Prelude Json Calendar CalendarFacts ClockTime Schemas Reservation Watch.
From S2P Require Import RedisServer WatchScripts RedisWatch.

(** ** Text without a delimiter *)

Definition free_of (c : ascii) (s : string) : bool := forallb (λ x, negb (Ascii.eqb x c)) (chars s).

Lemma free_of_spec c s : free_of c s = true ↔ c ∉ chars s.
Proof.
  unfold free_of. rewrite forallb_forall. split.
  - intros H Hin%list_elem_of_In. specialize (H _ Hin). by rewrite Ascii.eqb_refl in H.
  - intros Hn x Hx%list_elem_of_In. apply negb_true_iff, Ascii.eqb_neq. by intros ->.
Qed.

(** A watch id that is safe to embed in a key. *)
Definition plain_id (id : string) : bool := free_of ":" id && negb (id =? "events")%string.

(** An owner that is safe to embed in a claim value. *)
Definition plain_owner (owner : string) : bool := free_of "|" owner.

(** ** The keys of one watch *)

Inductive role := RDoc | RRuntime | RFence | RClaim | RDispatchFence | RDispatch (h : string).
#[export] Instance role_eq_dec : EqDecision role.
Proof. solve_decision. Defined.

Definition role_key (id : string) (ro : role) : string :=
  match ro with
  | RDoc => _key id
  | RRuntime => _runtime_key id
  | RFence => _fence_key id
  | RClaim => _claim_key id
  | RDispatchFence => _dispatch_fence_key id
  | RDispatch h => _key id +:+ ":dispatch:" +:+ h
  end.

Definition index_keys : list string :=
  [INDEX_KEY; ACTIVE_INDEX_KEY; SCHEDULE_INDEX_KEY; TERMINAL_INDEX_KEY; EVENTS_KEY; LEADER_KEY].

(** What follows the id in a key, closed by a colon. *)
Definition tail_of (ro : role) : list ascii :=
  match ro with
  | RDoc => []
  | RRuntime => chars "runtime:"
  | RFence => chars "fence:"
  | RClaim => chars "claim:"
  | RDispatchFence => chars "dispfence:"
  | RDispatch h => chars "dispatch:" ++ chars h ++ [":"%char]
  end.

Lemma role_key_chars id ro :
  chars (role_key id ro +:+ ":") = chars "dibs:watch:" ++ chars id ++ ":"%char :: tail_of ro.
Proof.
  assert (∀ s, chars (_key id +:+ s) = chars "dibs:watch:" ++ chars id ++ chars s) as Hk.
  { intros s. unfold _key, KEY_PREFIX. by rewrite !chars_app, <- !app_assoc. }
  destruct ro; cbn [role_key tail_of];
    unfold _runtime_key, _fence_key, _claim_key, _dispatch_fence_key;
    rewrite ?Hk; [done|..]; rewrite !chars_app; unfold _key, KEY_PREFIX;
    rewrite !chars_app; cbn; by rewrite <- !app_assoc.
Qed.

Lemma tail_of_inj a b : tail_of a = tail_of b → a = b.
Proof.
  destruct a as [| | | | |h], b as [| | | | |h']; cbn; try done.
  intros H. injection H as H. apply app_inv_tail in H. f_equal. by apply chars_inj.
Qed.

Lemma role_key_inj i j a b :
  plain_id i = true → plain_id j = true → role_key i a = role_key j b → i = j ∧ a = b.
Proof.
  unfold plain_id. rewrite !andb_true_iff, !free_of_spec. intros [Hi _] [Hj _] H.
  apply (f_equal (λ k, chars (k +:+ ":"))) in H. rewrite !role_key_chars in H.
  apply app_inv_head in H. apply delimited in H as [H1 H2]; [|done..].
  split; [by apply chars_inj|by apply tail_of_inj].
Qed.

Lemma role_key_other i j a b :
  plain_id i = true → plain_id j = true → i ≠ j → role_key i a ≠ role_key j b.
Proof. intros Hi Hj Hne [? _]%role_key_inj; done. Qed.

Lemma role_key_index id ro k : plain_id id = true → k ∈ index_keys → k ≠ role_key id ro.
Proof.
  unfold plain_id. rewrite andb_true_iff, free_of_spec, negb_true_iff, String.eqb_neq.
  intros [Hc Hne] Hk Heq.
  apply (f_equal (λ k, chars (k +:+ ":"))) in Heq. rewrite role_key_chars in Heq.
  unfold index_keys in Hk. repeat (apply elem_of_cons in Hk as [->|Hk]; [cbn in Heq; try done|]);
    [|set_solver].
  injection Heq as Heq.
  change ("e"%char :: "v"%char :: "e"%char :: "n"%char :: "t"%char :: "s"%char :: [":"%char])
    with (chars "events" ++ ":"%char :: []) in Heq.
  apply delimited in Heq as [Heq _]; [|vm_compute; set_solver|done].
  by apply Hne, chars_inj.
Qed.

Lemma decide_role {A} id a b (x y : A) : plain_id id = true →
  (if decide (role_key id a = role_key id b) then x else y) = if decide (a = b) then x else y.
Proof.
  intros Hp. destruct (decide (a = b)) as [->|Hne]; [by rewrite decide_True|].
  apply decide_False. by intros [_ ?]%role_key_inj.
Qed.

Lemma decide_role_other {A} i j a b (x y : A) : plain_id i = true → plain_id j = true → i ≠ j →
  (if decide (role_key i a = role_key j b) then x else y) = y.
Proof. intros. apply decide_False. by apply role_key_other. Qed.

Lemma decide_index {A} id ro k (x y : A) : plain_id id = true → k ∈ index_keys →
  (if decide (k = role_key id ro) then x else y) = y.
Proof. intros. apply decide_False. by apply role_key_index. Qed.

Lemma decide_index_r {A} id ro k (x y : A) : plain_id id = true → k ∈ index_keys →
  (if decide (role_key id ro = k) then x else y) = y.
Proof. intros. apply decide_False. symmetry. by apply role_key_index. Qed.

(** ** Claim values *)

Section claims.
Context `{LuaHost, !LuaLaws}.

Lemma find_bar_spec a b : "|"%char ∉ a → find_bar (a ++ "|"%char :: b) = Some (a, b).
Proof.
  induction a as [|c a IH]; cbn [find_bar app]; intros Ha; [done|].
  destruct (Ascii.eqb_spec c "|"%char) as [->|_]; [set_solver|].
  rewrite IH by set_solver. done.
Qed.

Lemma pretty_chars (c : ascii) (n : Z) : c ∉ chars "-0123456789" → c ∉ chars (pretty n).
Proof.
  intros Hc. assert (∀ m s, c ∉ chars s → c ∉ chars (pretty_N_go m s)) as Hgo.
  { intros m. induction (N.lt_wf_0 m) as [m _ IH]. intros s Hs.
    destruct (decide (0 < m)%N) as [Hm|Hm].
    - rewrite pretty_N_go_step by done. apply IH; [apply N.div_lt; lia|].
      cbn. apply not_elem_of_cons. split; [|done]. intros ->. apply Hc.
      unfold pretty_N_char. repeat case_match; vm_compute; set_solver.
    - replace m with 0%N by lia. by rewrite pretty_N_go_0. }
  assert (∀ m : N, c ∉ chars (pretty m)) as HN.
  { intros m. unfold pretty, pretty_N. case_decide.
    - intros Hin%list_elem_of_singleton. subst c. apply Hc. vm_compute. set_solver.
    - apply Hgo, not_elem_of_nil. }
  destruct n as [|p|p]; [apply (HN 0%N)|apply (HN (Npos p))|].
  change (pretty (Z.neg p)) with ("-" +:+ pretty (Npos p)).
  rewrite chars_app, not_elem_of_app. split; [|apply HN].
  intros Hin%list_elem_of_singleton. subst c. apply Hc. vm_compute. set_solver.
Qed.

Lemma pretty_free_of (n : Z) : "|"%char ∉ chars (pretty n).
Proof. apply pretty_chars. vm_compute. set_solver. Qed.

Lemma digits_val_go x s :
  digits_val (chars (pretty_N_go x s)) 0 = digits_val (chars s) (Z.of_N x).
Proof.
  revert s. induction (N.lt_wf_0 x) as [x _ IH]; intros s.
  destruct (decide (0 < x)%N) as [Hx|Hx].
  - rewrite pretty_N_go_step by done. rewrite IH by (apply N.div_lt; lia). cbn [chars].
    assert (x `mod` 10 < 10)%N as Hm by by apply N.mod_lt.
    assert (∀ d : N, (d < 10)%N → digit_val (pretty_N_char d) = Some (Z.of_N d)) as Hd.
    { intros d Hdl. assert (d ∈ [0;1;2;3;4;5;6;7;8;9]%N) as Hin.
      { rewrite !elem_of_cons. lia. }
      repeat (apply elem_of_cons in Hin as [->|Hin]; [done|]). by apply elem_of_nil in Hin. }
    change (chars (String (pretty_N_char (x `mod` 10)) s))
      with (pretty_N_char (x `mod` 10) :: chars s).
    cbn [digits_val]. rewrite Hd by done. f_equal. rewrite N2Z.inj_div, N2Z.inj_mod.
    change (Z.of_N 10) with 10. pose proof (Z.div_mod (Z.of_N x) 10). lia.
  - replace x with 0%N by lia. by rewrite pretty_N_go_0.
Qed.

Lemma int_of_pretty n : 0 <= n → int_of (chars (pretty n)) = Some n.
Proof.
  intros Hn. destruct n as [|p|p]; [done| |lia].
  pose proof (digits_val_go (Npos p) "") as Hd. change (pretty (Zpos p)) with (pretty_N_go (Npos p) "").
  unfold int_of. by destruct (chars (pretty_N_go (Npos p) "")) as [|c l].
Qed.

Lemma after_last_bar_app a b acc : "|"%char ∉ b →
  after_last_bar (a ++ "|"%char :: b) acc = b.
Proof.
  intros Hb.
  assert (∀ l acc, "|"%char ∉ l → after_last_bar l acc = rev acc ++ l) as Hl.
  { induction l as [|c l IH]; intros acc0 Hl0; cbn; [by rewrite app_nil_r|].
    destruct (Ascii.eqb_spec c "|"%char) as [->|_]; [set_solver|].
    rewrite IH by set_solver. cbn. by rewrite <- app_assoc. }
  revert acc. induction a as [|c a IH]; intros acc; cbn [after_last_bar app].
  - rewrite Ascii.eqb_refl. by rewrite Hl.
  - by destruct (Ascii.eqb c "|"%char).
Qed.

Lemma parse_claim_value owner token expires :
  plain_owner owner = true → lua_exact token → lua_exact expires →
  parse_claim (claim_value owner token expires) = Some (owner, pretty token, Some expires).
Proof.
  unfold plain_owner. rewrite free_of_spec. intros Ho Ht He. unfold parse_claim, claim_value.
  rewrite !chars_app, (lua_num_exact token), (lua_num_exact expires) by done.
  change (chars "|") with (["|"%char]). cbn [app].
  rewrite find_bar_spec by done. cbn [mbind option_bind].
  rewrite find_bar_spec by apply pretty_free_of. cbn [mbind option_bind].
  by rewrite !of_chars_chars, tonumber_pretty.
Qed.

(** What a script writes into a claim key is read back
    alike by the scripts (owner, token and expiry, cut at the first two bars)
    and by recovery in Python (the expiry after the last bar): recovery sees a
    live claim exactly when [claim_window] answers BUSY. *)
Theorem claim_value_roundtrip owner token expires now :
  plain_owner owner = true → lua_exact token → 0 <= expires → lua_exact expires →
  parse_claim (claim_value owner token expires) = Some (owner, pretty token, Some expires) ∧
  _claim_is_live (Some (claim_value owner token expires)) now = (now <? expires).
Proof.
  intros Ho Ht Hpos He. split; [by apply parse_claim_value|]. unfold _claim_is_live, claim_value.
  rewrite !chars_app, (lua_num_exact expires) by done. change (chars "|") with (["|"%char]).
  rewrite !app_assoc. cbn [app]. rewrite <- (app_assoc _ ["|"%char]). cbn [app].
  rewrite after_last_bar_app by apply pretty_free_of. by rewrite int_of_pretty.
Qed.
End claims.

(** ** Steps of a script *)

Definition moves {R A} (P : R → R → Prop) (c : lua R A) : Prop := ∀ r, P r (c r).2.

Section moves.
Context {R : Type} (P : R → R → Prop) `{!PreOrder P}.

Lemma moves_ret {A} (a : A) : moves P (mret a).
Proof. intros r. reflexivity. Qed.

Lemma moves_error {A} : moves P (lua_error (A := A)).
Proof. intros r. reflexivity. Qed.

Lemma moves_read {A} (f : R → A) : moves P (lua_read f).
Proof. intros r. reflexivity. Qed.

Lemma moves_write f : (∀ r, P r (f r)) → moves P (lua_write f).
Proof. intros Hf r. apply Hf. Qed.

Lemma moves_bind {A B} (c : lua R A) (f : A → lua R B) :
  moves P c → (∀ a, moves P (f a)) → moves P (c ≫= f).
Proof.
  intros Hc Hf r. unfold mbind, lua_bind. specialize (Hc r). destruct (c r) as [[a|] r']; cbn in *.
  - etrans; [done|]. apply Hf.
  - done.
Qed.

Lemma moves_when b (c : lua R ()) : moves P c → moves P (lua_when b c).
Proof. destruct b; [done|intros _; apply moves_ret]. Qed.
End moves.
