(* ===== verification/RedisHistory.v ===== *)
(** * Histories of the Redis watch repository

    What any number of clients can do to one server through the repository:
    [legal] lists the atomic actions of its methods with what their callers
    promise, [rworld] interleaves them with the expiry of keys, and the
    invariant [rinv] says what the keys of one watch hold at any moment and
    how they agree with the history so far.  The history is a log in the
    sense of [WatchLog], without permits: a cancellation is computed from
    documents read before it, so on Redis it may follow a granted permit. *)

From S2P Require Import Prelude Json Calendar ClockTime Schemas Reservation Watch WatchSpec WatchLog.
From S2P Require Import Prog RedisServer WatchScripts RedisWatch RedisKeys.

(** ** Frames *)

Section frame.
Context `{RedisLaws R}.
Implicit Types (r : R) (i j k : string).

(** The state of a watch: its document, sidecar, fence and claim. *)
Definition core_roles : list role := [RDoc; RRuntime; RFence; RClaim].

(** These keys of watch [i], and its place in the two indexes, are untouched. *)
Definition quiet i r r' : Prop :=
  (∀ ro, ro ∈ core_roles → at_ (role_key i ro) r' = at_ (role_key i ro) r) ∧
  (∀ k, k ∈ [INDEX_KEY; ACTIVE_INDEX_KEY] → (i ∈ SMEMBERS k r' ↔ i ∈ SMEMBERS k r)).

#[export] Instance quiet_preorder i : PreOrder (quiet i).
Proof.
  split; [by split|]. intros r1 r2 r3 [H1 H1'] [H2 H2']. split.
  - intros ro Hro. by rewrite H2, H1.
  - intros k Hk. by rewrite H2', H1'.
Qed.

(** A change of one key of another watch, or of a key that is not state. *)
Lemma quiet_key i j ro r r' : plain_id i = true → plain_id j = true →
  i ≠ j ∨ ro ∉ core_roles →
  (∀ k, k ≠ role_key j ro → at_ k r' = at_ k r) → quiet i r r'.
Proof.
  intros Hi Hj Hne Hat. split.
  - intros ro' Hro'. apply Hat. intros [-> ->]%role_key_inj; [|done..]. by destruct Hne.
  - intros k Hk. rewrite (SMEMBERS_same k r r'); [done|].
    apply Hat, role_key_index; [done|]. unfold index_keys. set_solver.
Qed.

(** A change of an index for another member. *)
Lemma quiet_index i k r r' : plain_id i = true → k ∈ index_keys →
  (∀ k', k' ≠ k → at_ k' r' = at_ k' r) →
  (k ∈ [INDEX_KEY; ACTIVE_INDEX_KEY] → (i ∈ SMEMBERS k r' ↔ i ∈ SMEMBERS k r)) → quiet i r r'.
Proof.
  intros Hi Hk Hat Hm. split.
  - intros ro _. apply Hat. intros Heq. by apply (role_key_index i ro k).
  - intros k' Hk'. destruct (decide (k' = k)) as [->|Hne]; [by apply Hm|].
    by rewrite (SMEMBERS_same k' r r') by by apply Hat.
Qed.

Lemma sadd_member k m i r : i ≠ m → (i ∈ SMEMBERS k (SADD k m r) ↔ i ∈ SMEMBERS k r).
Proof.
  intros Hne. unfold SMEMBERS. rewrite at_SADD, decide_True by done.
  destruct (at_ k r) as [[[s|s|s|s] b]|]; cbn; set_solver.
Qed.

Lemma srem_member k m i r : i ≠ m → (i ∈ SMEMBERS k (SREM k m r) ↔ i ∈ SMEMBERS k r).
Proof.
  intros Hne. unfold SMEMBERS. rewrite at_SREM, decide_True by done.
  destruct (at_ k r) as [[[s|s|s|s] b]|]; cbn; [done| |done..].
  case_decide as Hs; [|set_solver].
  split; [set_solver|]. intros Hi. assert (i ∈ s ∖ {[m]}) by set_solver. set_solver.
Qed.

(** One lemma per writing command. *)
Section quiet.
Context (i j : string) (Hi : plain_id i = true) (Hj : plain_id j = true) (Hne : i ≠ j).

Lemma quiet_SET ro v r : quiet i r (SET (role_key j ro) v r).
Proof. apply (quiet_key i j ro); try (done || by left). intros k Hk. by rewrite at_SET, decide_False. Qed.

Lemma quiet_DEL ro r : quiet i r (DEL (role_key j ro) r).
Proof. apply (quiet_key i j ro); try (done || by left). intros k Hk. by rewrite at_DEL, decide_False. Qed.

Lemma quiet_PEXPIRE ro ms r : quiet i r (PEXPIRE (role_key j ro) ms r).
Proof. apply (quiet_key i j ro); try (done || by left). intros k Hk. by rewrite at_PEXPIRE, decide_False. Qed.

Lemma quiet_INCR ro : moves (quiet i) (call_INCR (role_key j ro)).
Proof.
  intros r. unfold call_INCR. destruct (INCR (role_key j ro) r) as [[n|] r'] eqn:E; cbn.
  - apply (quiet_key i j ro); try (done || by left). intros k Hk. by rewrite (at_INCR _ _ _ _ _ E), decide_False.
  - apply (quiet_key i j ro); try (done || by left). intros k Hk. by apply (at_INCR_error _ _ _ _ E).
Qed.

Lemma quiet_SET_PX ro v px : moves (quiet i) (call_SET_PX (role_key j ro) v px).
Proof.
  unfold call_SET_PX. destruct (Z.leb_spec px 0); [apply moves_error, _|].
  apply moves_write. intros r. apply (quiet_key i j ro); try (done || by left).
  intros k Hk. by rewrite at_SET_PX, decide_False.
Qed.

Lemma quiet_SADD k r : k ∈ index_keys → quiet i r (SADD k j r).
Proof.
  intros Hk. apply (quiet_index i k); try done.
  - intros k' Hk'. by rewrite at_SADD, decide_False.
  - intros _. by apply sadd_member.
Qed.

Lemma quiet_SREM k r : k ∈ index_keys → quiet i r (SREM k j r).
Proof.
  intros Hk. apply (quiet_index i k); try done.
  - intros k' Hk'. by rewrite at_SREM, decide_False.
  - intros _. by apply srem_member.
Qed.
End quiet.

Lemma quiet_EVENTS i ev r : plain_id i = true → quiet i r (SADD EVENTS_KEY ev r).
Proof.
  intros Hi. apply (quiet_index i EVENTS_KEY); [done|set_solver|..].
  - intros k' Hk'. by rewrite at_SADD, decide_False.
  - intros Hk. exfalso. revert Hk. rewrite !elem_of_cons. intros [Hk|[Hk|Hk]]; [done..|set_solver].
Qed.

Lemma quiet_ZADD i k s m r : plain_id i = true → k ∈ [SCHEDULE_INDEX_KEY; TERMINAL_INDEX_KEY] →
  quiet i r (ZADD k s m r).
Proof.
  intros Hi Hk. apply (quiet_index i k); [done|unfold index_keys; set_solver|..].
  - intros k' Hk'. by rewrite at_ZADD, decide_False.
  - intros Hk'. exfalso. apply elem_of_cons in Hk as [->|Hk]; [|apply list_elem_of_singleton in Hk as ->];
      revert Hk'; rewrite !elem_of_cons; intros [Hk'|[Hk'|Hk']]; done || set_solver.
Qed.

Lemma quiet_ZREM i k m r : plain_id i = true → k ∈ [SCHEDULE_INDEX_KEY; TERMINAL_INDEX_KEY] →
  quiet i r (ZREM k m r).
Proof.
  intros Hi Hk. apply (quiet_index i k); [done|unfold index_keys; set_solver|..].
  - intros k' Hk'. by rewrite at_ZREM, decide_False.
  - intros Hk'. exfalso. apply elem_of_cons in Hk as [->|Hk]; [|apply list_elem_of_singleton in Hk as ->];
      revert Hk'; rewrite !elem_of_cons; intros [Hk'|[Hk'|Hk']]; done || set_solver.
Qed.
End frame.

(** ** What an action for one watch may touch *)

Record footprint {R} `{RedisServer R} (P : R → R → Prop) (j : string) : Prop := {
  fp_SET ro v r : P r (SET (role_key j ro) v r);
  fp_DEL ro r : P r (DEL (role_key j ro) r);
  fp_PEXPIRE ro ms r : P r (PEXPIRE (role_key j ro) ms r);
  fp_INCR ro : moves P (call_INCR (role_key j ro));
  fp_SET_PX ro v px : moves P (call_SET_PX (role_key j ro) v px);
  fp_SADD k r : k ∈ [INDEX_KEY; ACTIVE_INDEX_KEY] → P r (SADD k j r);
  fp_SREM k r : k ∈ [INDEX_KEY; ACTIVE_INDEX_KEY] → P r (SREM k j r);
  fp_EVENTS ev r : P r (SADD EVENTS_KEY ev r);
  fp_ZADD k s r : k ∈ [SCHEDULE_INDEX_KEY; TERMINAL_INDEX_KEY] → P r (ZADD k s j r);
  fp_ZREM k r : k ∈ [SCHEDULE_INDEX_KEY; TERMINAL_INDEX_KEY] → P r (ZREM k j r);
}.

Ltac key_member := first [by apply list_elem_of_here | by apply list_elem_of_further, list_elem_of_here].

(** Walk through a script command by command. *)
Ltac walk_write fp :=
  let r := fresh "r" in
  intros r;
  first
    [ exact (fp_SET _ _ fp RDoc _ r) | exact (fp_SET _ _ fp RRuntime _ r)
    | exact (fp_SET _ _ fp RFence _ r)
    | exact (fp_DEL _ _ fp RDoc r) | exact (fp_DEL _ _ fp RRuntime r)
    | exact (fp_DEL _ _ fp RFence r) | exact (fp_DEL _ _ fp RClaim r)
    | exact (fp_DEL _ _ fp (RDispatch _) r)
    | apply (fp_SADD _ _ fp); key_member | apply (fp_SREM _ _ fp); key_member
    | apply (fp_EVENTS _ _ fp)
    | apply (fp_ZADD _ _ fp); key_member | apply (fp_ZREM _ _ fp); key_member
    | etransitivity; [eapply (fp_PEXPIRE _ _ fp RDoc)|exact (fp_PEXPIRE _ _ fp RRuntime _ _)] ].

Ltac walk fp :=
  repeat first
    [ apply moves_ret; exact _ | apply moves_error; exact _ | apply moves_read; exact _
    | exact (fp_INCR _ _ fp RFence) | exact (fp_INCR _ _ fp RDispatchFence)
    | exact (fp_SET_PX _ _ fp RClaim _ _) | exact (fp_SET_PX _ _ fp (RDispatch _) _ _)
    | apply moves_write; walk_write fp
    | apply moves_when; [exact _|]
    | apply moves_bind; [exact _| |intros ?]
    | progress cbv beta zeta
    | case_match ].

Section footprints.
Context `{RedisServer R, LuaHost, Documents} (sha1hex : string → string) (retention : Z).
Context (P : R → R → Prop) `{!PreOrder P} (id : string) (fp : footprint P id).

Lemma lease_moves k now : moves P (lease_held k now).
Proof. unfold lease_held, lua_parse_claim, lua_number. walk fp. Qed.

Lemma guard_moves claim rraw rev tok owner now : moves P (claim_guard claim rraw rev tok owner now).
Proof. unfold claim_guard, lua_parse_claim, lua_number. walk fp. Qed.

#[local] Opaque lease_held claim_guard.

Lemma create_moves w r : w_watch_id w = id → moves P (create_action w r).
Proof. intros <-. unfold create_action, CREATE_WITH_SCHEDULE. walk fp. Qed.

Lemma claim_moves win owner lease ign now : moves P (claim_action id win owner lease ign now).
Proof.
  unfold claim_action, CLAIM_WINDOW. walk fp; apply lease_moves.
Qed.

Lemma begin_moves c now : cl_watch_id c = id → moves P (begin_action c now).
Proof.
  intros <-. unfold begin_action, BEGIN_BOOKING. walk fp; apply guard_moves.
Qed.

Lemma commit_moves c w r d now : cl_watch_id c = id → moves P (commit_action sha1hex c w r d now).
Proof.
  intros <-. unfold commit_action, COMMIT_WINDOW, when_given. walk fp; apply guard_moves.
Qed.

Lemma cancel_moves w r now : moves P (cancel_action retention id w r now).
Proof. unfold cancel_action, CANCEL_IF_ACTIVE, end_watch, when_given. cbn [_terminal_deadlines]. walk fp. Qed.

Lemma pending_moves r : moves P (cancel_pending_action id r).
Proof. unfold cancel_pending_action, CANCEL_IF_ACTIVE, end_watch, when_given. walk fp. Qed.

Lemma expire_moves w r now : moves P (expire_action sha1hex retention id w r now).
Proof. unfold expire_action, EXPIRE_IF_ELIGIBLE, end_watch, when_given. cbn [_terminal_deadlines]. walk fp. Qed.

Lemma release_moves c : cl_watch_id c = id → moves P (release_action c).
Proof. intros <-. unfold release_action, RELEASE_CLAIM, lua_parse_claim. walk fp. Qed.

Lemma synthesize_moves r due now : moves P (synthesize_action id r due now).
Proof. unfold synthesize_action, SYNTHESIZE_MARKER. walk fp; apply lease_moves. Qed.

Lemma prune_moves all : moves P (prune_action id all).
Proof. unfold prune_action. walk fp. Qed.

Lemma delete_moves : moves P (delete_action id).
Proof. unfold delete_action. walk fp. Qed.

Lemma dispatch_moves m owner lease now : mk_watch_id m = id →
  moves P (dispatch_action sha1hex m owner lease now).
Proof. intros <-. unfold dispatch_action, CLAIM_DISPATCH. walk fp; apply lease_moves. Qed.

Lemma mark_moves c redispatch now : dc_watch_id c = id →
  moves P (mark_action sha1hex c redispatch now).
Proof. intros <-. unfold mark_action, MARK_DISPATCHED, lua_parse_claim. walk fp. Qed.

Lemma release_dispatch_moves c : dc_watch_id c = id → moves P (release_dispatch_action sha1hex c).
Proof.
  intros <-. unfold release_dispatch_action, RELEASE_DISPATCH, RELEASE_CLAIM, lua_parse_claim. walk fp.
Qed.
End footprints.

(** ** The indexes hold sets, and only plain ids are scheduled for removal *)

Section good.
Context `{RedisLaws R}.
Implicit Types (r : R) (k : string).

Definition rgood r : Prop :=
  (∀ k, k ∈ [INDEX_KEY; ACTIVE_INDEX_KEY] → at_ k r = None ∨ ∃ s, at_ k r = Some (VSet s, false)) ∧
  (∀ m s, ZSCORE TERMINAL_INDEX_KEY m r = Some s → plain_id m = true).

Definition keeps r r' : Prop := rgood r → rgood r'.

#[export] Instance keeps_preorder : PreOrder keeps.
Proof. split; [intros r Hg; exact Hg|]. intros r1 r2 r3 H1 H2 Hg. by apply H2, H1. Qed.

Lemma keeps_at r r' :
  (∀ k, k ∈ [INDEX_KEY; ACTIVE_INDEX_KEY; TERMINAL_INDEX_KEY] → at_ k r' = at_ k r) → keeps r r'.
Proof.
  intros Hat [Hs Ht]. split.
  - intros k Hk. rewrite Hat; [by apply Hs|]. rewrite !elem_of_cons in *. tauto.
  - intros m s. rewrite (ZSCORE_at _ _ r r'); [apply Ht|]. apply Hat. rewrite !elem_of_cons. tauto.
Qed.

Lemma keeps_role j ro r r' : plain_id j = true →
  (∀ k, k ≠ role_key j ro → at_ k r' = at_ k r) → keeps r r'.
Proof.
  intros Hj Hat. apply keeps_at. intros k Hk. apply Hat, role_key_index; [done|].
  unfold index_keys. set_solver.
Qed.

Lemma keeps_set k r r' : k ∈ [INDEX_KEY; ACTIVE_INDEX_KEY] →
  (∀ k', k' ≠ k → at_ k' r' = at_ k' r) →
  (rgood r → at_ k r' = None ∨ ∃ s, at_ k r' = Some (VSet s, false)) → keeps r r'.
Proof.
  intros Hk Hat Hs Hg. split.
  - intros k' Hk'. destruct (decide (k' = k)) as [->|Hne]; [auto|]. rewrite Hat by done. by apply Hg.
  - intros m s. rewrite (ZSCORE_at _ _ r r'); [apply Hg|]. apply Hat. intros <-.
    revert Hk. rewrite !elem_of_cons. intros [Hk|[Hk|Hk]]; [done..|set_solver].
Qed.

Lemma keeps_zset k j r r' : plain_id j = true → k ∈ [SCHEDULE_INDEX_KEY; TERMINAL_INDEX_KEY] →
  (∀ k', k' ≠ k → at_ k' r' = at_ k' r) →
  (∀ m s, ZSCORE k m r' = Some s → m = j ∨ is_Some (ZSCORE k m r)) → keeps r r'.
Proof.
  intros Hj Hk Hat Hz [Hs Ht]. split.
  - intros k' Hk'. rewrite Hat; [by apply Hs|]. intros ->. revert Hk Hk'.
    rewrite !elem_of_cons. intros [->|[->|?]] [?|[?|?]]; done || set_solver.
  - intros m s Hm. destruct (decide (k = TERMINAL_INDEX_KEY)) as [->|Hne].
    + destruct (Hz m s Hm) as [->|[s' Hs']]; [done|]. by eapply Ht.
    + rewrite (ZSCORE_at _ _ r r') in Hm by (apply Hat; congruence). by eapply Ht.
Qed.

Lemma keeps_footprint j : plain_id j = true → footprint keeps j.
Proof.
  intros Hj. split.
  - intros ro v r. apply (keeps_role j ro); [done|]. intros k Hk. by rewrite at_SET, decide_False.
  - intros ro r. apply (keeps_role j ro); [done|]. intros k Hk. by rewrite at_DEL, decide_False.
  - intros ro ms r. apply (keeps_role j ro); [done|]. intros k Hk. by rewrite at_PEXPIRE, decide_False.
  - intros ro r. unfold call_INCR. destruct (INCR (role_key j ro) r) as [[n|] r'] eqn:E; cbn;
      apply (keeps_role j ro); try done; intros k Hk.
    + by rewrite (at_INCR _ _ _ _ _ E), decide_False.
    + by apply (at_INCR_error _ _ _ _ E).
  - intros ro v px. unfold call_SET_PX. destruct (Z.leb_spec px 0); [apply moves_error, _|].
    apply moves_write. intros r. apply (keeps_role j ro); [done|].
    intros k Hk. by rewrite at_SET_PX, decide_False.
  - intros k r Hk. apply (keeps_set k); [done|..].
    + intros k' Hk'. by rewrite at_SADD, decide_False.
    + intros [Hs _]. rewrite at_SADD, decide_True by done. right.
      destruct (Hs k Hk) as [->|[s ->]]; cbn; eauto.
  - intros k r Hk. apply (keeps_set k); [done|..].
    + intros k' Hk'. by rewrite at_SREM, decide_False.
    + intros [Hs _]. rewrite at_SREM, decide_True by done.
      destruct (Hs k Hk) as [->|[s ->]]; cbn; [by left|]. case_decide; eauto.
  - intros ev r. apply keeps_at. intros k Hk. rewrite at_SADD, decide_False; [done|]. intros <-.
    revert Hk. rewrite !elem_of_cons. intros [Hk|[Hk|[Hk|Hk]]]; done || set_solver.
  - intros k s r Hk. apply (keeps_zset k j); [done..|intros k' Hk'; by rewrite at_ZADD, decide_False|].
    intros m s'. unfold ZSCORE, scores_at. rewrite at_ZADD, decide_True by done.
    destruct (at_ k r) as [[[]]|]; cbn; eauto.
    + rewrite lookup_insert. case_decide; eauto.
    + rewrite lookup_singleton. case_decide; [by left|done].
  - intros k r Hk. apply (keeps_zset k j); [done..|intros k' Hk'; by rewrite at_ZREM, decide_False|].
    intros m s'. unfold ZSCORE, scores_at. rewrite at_ZREM, decide_True by done.
    destruct (at_ k r) as [[[|z|z|z]]|]; cbn; eauto. case_decide; cbn; [by rewrite lookup_empty|].
    rewrite lookup_delete. case_decide; [done|]. eauto.
Qed.

Lemma quiet_footprint i j : plain_id i = true → plain_id j = true → i ≠ j → footprint (quiet i) j.
Proof.
  intros Hi Hj Hne. split; intros.
  - by apply quiet_SET.
  - by apply quiet_DEL.
  - by apply quiet_PEXPIRE.
  - by apply quiet_INCR.
  - by apply quiet_SET_PX.
  - apply quiet_SADD; try done. unfold index_keys. set_solver.
  - apply quiet_SREM; try done. unfold index_keys. set_solver.
  - by apply quiet_EVENTS.
  - by apply quiet_ZADD.
  - by apply quiet_ZREM.
Qed.
End good.

(** ** Dispatch leases live outside the state of a watch *)

Section dispatch.
Context `{RedisLaws R, LuaHost, Documents} (sha1hex : string → string).
Context (i j : string) (Hi : plain_id i = true) (Hj : plain_id j = true).
Implicit Types (r : R).

Lemma quiet_dispatch_DEL h r : quiet i r (DEL (role_key j (RDispatch h)) r).
Proof.
  apply (quiet_key i j (RDispatch h)); [done..|right; set_solver|].
  intros k Hk. by rewrite at_DEL, decide_False.
Qed.

Lemma quiet_dispatch_SET_PX h v px : moves (quiet (R := R) i) (call_SET_PX (role_key j (RDispatch h)) v px).
Proof.
  unfold call_SET_PX. destruct (Z.leb_spec px 0); [apply moves_error, _|].
  apply moves_write. intros r. apply (quiet_key i j (RDispatch h)); [done..|right; set_solver|].
  intros k Hk. by rewrite at_SET_PX, decide_False.
Qed.

Lemma quiet_dispatch_INCR : moves (quiet (R := R) i) (call_INCR (role_key j RDispatchFence)).
Proof.
  intros r. unfold call_INCR. destruct (INCR (role_key j RDispatchFence) r) as [[n|] r'] eqn:E; cbn;
    (apply (quiet_key i j RDispatchFence); [done..|right; set_solver|]); intros k Hk.
  - by rewrite (at_INCR _ _ _ _ _ E), decide_False.
  - by apply (at_INCR_error _ _ _ _ E).
Qed.

Lemma lease_reads k now r : (lease_held (R := R) k now r).2 = r.
Proof.
  unfold lease_held, lua_parse_claim, lua_number, mbind, lua_bind, lua_read, mret, lua_ret. cbn.
  destruct (GET k r) as [v|]; [|done]. cbn. destruct (parse_claim v) as [[[? ?] [e|]]|]; done.
Qed.

#[local] Opaque lease_held.

Ltac dispatch_walk :=
  walk I;
  first [ exact quiet_dispatch_INCR | apply (quiet_dispatch_SET_PX (dispatch_window_hash sha1hex _))
        | apply moves_write, (quiet_dispatch_DEL (dispatch_window_hash sha1hex _)) ].

Lemma quiet_dispatch m owner lease now : mk_watch_id m = j →
  moves (quiet (R := R) i) (dispatch_action sha1hex m owner lease now).
Proof.
  intros E. unfold dispatch_action, CLAIM_DISPATCH. rewrite E. walk I.
  - intros r. by rewrite lease_reads.
  - exact quiet_dispatch_INCR.
  - apply (quiet_dispatch_SET_PX (dispatch_window_hash sha1hex _)).
Qed.

Lemma quiet_mark c redispatch now : dc_watch_id c = j →
  moves (quiet (R := R) i) (mark_action sha1hex c redispatch now).
Proof. intros E. unfold mark_action, MARK_DISPATCHED, lua_parse_claim. rewrite E. dispatch_walk. Qed.

Lemma quiet_release_dispatch c : dc_watch_id c = j →
  moves (quiet (R := R) i) (release_dispatch_action sha1hex c).
Proof.
  intros E. unfold release_dispatch_action, RELEASE_DISPATCH, RELEASE_CLAIM, lua_parse_claim.
  rewrite E.   dispatch_walk.
Qed.
End dispatch.

(** ** The keys of one watch *)

Section invariant.
Context `{RedisLaws R, LuaHost, !LuaLaws, Documents, !DocumentLaws}.
Context (sha1hex : string → string) (retention : Z).
Implicit Types (r : R) (l : list entry) (w : Watch) (rt : WatchRuntime) (c : WindowClaim).

(** An active watch: its sidecar is valid, sidecar and fence persist, no issued claim is newer
    than the sidecar or the fence, the claim key holds the newest token ever
    written, and both indexes list the watch. *)
Record rlive (id : string) w rt (n : Z) r l : Prop := {
  rl_open : open_log l;
  rl_runtime : at_ (_runtime_key id) r = Some (VString (runtime_json rt), false);
  rl_valid : runtime_ok rt = true;
  rl_revs : revs_below (rt_revision rt) l;
  rl_issued c : Issued c ∈ l →
    rev_of c <= rt_revision rt ∧ (rev_of c = rt_revision rt → cl_watch c = w) ∧ token_of c <= n ∧
    runtime_ok (cl_runtime c) = true;
  rl_fence : at_ (_fence_key id) r = Some (VString (pretty n), false);
  rl_claim : at_ (_claim_key id) r = None ∨
    ∃ owner t exp b, plain_owner owner = true ∧ lua_exact t ∧ lua_exact exp ∧ t <= n ∧
      at_ (_claim_key id) r = Some (VString (claim_value owner t exp), b) ∧
      ∀ c, Issued c ∈ l → token_of c <= t;
  rl_index k : k ∈ [INDEX_KEY; ACTIVE_INDEX_KEY] → id ∈ SMEMBERS k r;
}.

Record rinv (id : string) r l : Prop := {
  ri_log : log_ok sha1hex id l;
  ri_granted c : Granted c ∉ l;
  ri_fresh : Created ∉ l →
    l = [] ∧ ∀ ro, ro ∈ core_roles → at_ (role_key id ro) r = None;
  ri_doc e : at_ (_key id) r = Some e →
    ∃ w b, e = (VString (watch_json w), b) ∧ w_watch_id w = id ∧
      (watch_terminal w = false → b = false ∧ ∃ rt n, rlive id w rt n r l);
}.

(** No action of the repository revives this watch. *)
Definition rdead (id : string) r : Prop :=
  ∀ raw, GET (_key id) r = Some raw → is_active raw = false.

Lemma is_active_json w : is_active (watch_json w) = negb (watch_terminal w).
Proof.
  unfold is_active. rewrite cjson_status_json. unfold watch_terminal. by destruct (w_status w).
Qed.

Lemma rinv_get id r l raw : rinv id r l → GET (_key id) r = Some raw →
  ∃ w, raw = watch_json w ∧ w_watch_id w = id ∧
    (watch_terminal w = false → ∃ rt n, rlive id w rt n r l).
Proof.
  intros Hi [b Hb]%GET_at. destruct (ri_doc _ _ _ Hi _ Hb) as (w & b' & [= -> ->] & Hid & Hl).
  exists w. split_and!; [done..|]. intros Hw. by destruct (Hl Hw) as [_ ?].
Qed.

(** Nothing of this watch changed. *)
Lemma rinv_quiet id r r' l : rinv id r l → quiet id r r' → rinv id r' l.
Proof.
  intros [Hlog Hg Hf Hd] [Hat Hm]. split; [done|done|..].
  - intros Hc. destruct (Hf Hc) as [-> Hn]. split; [done|]. intros ro Hro. rewrite Hat by done. by apply Hn.
  - intros e. pose proof (Hat RDoc ltac:(set_solver)) as E. cbn in E. rewrite E. intros He.
    destruct (Hd e He) as (w & b & -> & Hid & Hl). exists w, b. split_and!; [done..|].
    intros Hw. destruct (Hl Hw) as (-> & rt & n & []). split; [done|]. exists rt, n.
    pose proof (Hat RRuntime ltac:(set_solver)) as E1. pose proof (Hat RFence ltac:(set_solver)) as E2.
    pose proof (Hat RClaim ltac:(set_solver)) as E3.
    cbn in E1, E2, E3. split; rewrite ?E1, ?E2, ?E3; try done.
    intros k Hk. by apply Hm, rl_index0.
Qed.

(** A watch that is gone or finished needs only a sound log. *)
Lemma rinv_closed id r l :
  log_ok sha1hex id l → (∀ c, Granted c ∉ l) → Created ∈ l →
  (∀ e, at_ (_key id) r = Some e →
     ∃ w b, e = (VString (watch_json w), b) ∧ w_watch_id w = id ∧ watch_terminal w = true) →
  rinv id r l.
Proof.
  intros Hl Hg Hc Hd. split; [done|done|done|]. intros e He.
  destruct (Hd e He) as (w & b & -> & Hid & Hw). exists w, b. split_and!; [done..|]. congruence.
Qed.

Lemma rinv_lapse id r r' l : rgood r → rinv id r l → lapse r r' → rinv id r' l.
Proof.
  intros [Hs _] Hi Hlapse. split; [by apply Hi|by apply Hi|..].
  - intros Hc. destruct (ri_fresh _ _ _ Hi Hc) as [-> Hn]. split; [done|]. intros ro Hro.
    destruct (lapse_at _ _ Hlapse (role_key id ro)) as [->|[_ ->]]; auto.
  - intros e He. destruct (lapse_at _ _ Hlapse (_key id)) as [E|[_ E]]; rewrite E in He; [|done].
    destruct (ri_doc _ _ _ Hi e He) as (w & b & -> & Hid & Hl). exists w, b. split_and!; [done..|].
    intros Hw. destruct (Hl Hw) as (-> & rt & n & [????? Hf Hc Hx]). split; [done|]. exists rt, n.
    assert (∀ k v, at_ k r = Some (v, false) → at_ k r' = Some (v, false)) as Hk.
    { intros k v Hk. rewrite <- Hk. apply lapse_lasting; [done|]. unfold volatile. by rewrite Hk. }
    split; auto.
    + destruct Hc as [Hn|(owner & t & exp & b & ? & ? & ? & ? & Hcl & ?)].
      * left. destruct (lapse_at _ _ Hlapse (_claim_key id)) as [->|[_ ->]]; done.
      * destruct (lapse_at _ _ Hlapse (_claim_key id)) as [E'|[_ E']]; [right|by left].
        exists owner, t, exp, b. by rewrite E'.
    + intros k Hk'. specialize (Hx k Hk'). destruct (Hs k Hk') as [E'|[s E']].
      * unfold SMEMBERS in Hx. rewrite E' in Hx. set_solver.
      * rewrite (SMEMBERS_same k r r'); [done|]. rewrite E'. by apply Hk.
Qed.
End invariant.
