(* ===== verification/RedisSteps.v ===== *)
(** * Every action of the Redis repository keeps the invariant

    One lemma per action: what it does to the keys of its own watch, given
    the invariant [rinv], and the entries it adds to the history. *)

From S2P Require Import Prelude Json Calendar ClockTime Schemas Reservation Watch WatchSpec WatchLog.
From S2P Require Import Prog RedisServer WatchScripts RedisWatch RedisKeys RedisHistory.

(** The entries of an action that answered; an error adds none. *)
Definition logged {A} (f : A → list entry) (out : option A) : list entry :=
  match out with Some a => f a | None => [] end.

Definition no_entries {A} (a : A) : list entry := [].

Ltac lua_step := unfold mbind, lua_bind, lua_read, lua_write, mret, lua_ret, lua_when, when_given; cbn.

(** Compute what a chain of writes leaves under the keys of one watch. *)
Ltac fold_roles :=
  repeat match goal with
  | |- context [_key ?i] => change (_key i) with (role_key i RDoc)
  | |- context [_runtime_key ?i] => change (_runtime_key i) with (role_key i RRuntime)
  | |- context [_fence_key ?i] => change (_fence_key i) with (role_key i RFence)
  | |- context [_claim_key ?i] => change (_claim_key i) with (role_key i RClaim)
  end.

Ltac role_decide :=
  repeat match goal with
  | |- context [decide (role_key ?i ?a = role_key ?i ?b)] => rewrite (decide_role i a b) by done
  | |- context [decide (?k = role_key ?i ?a)] => rewrite (decide_index i a k) by (done || key_member || (unfold index_keys; set_solver))
  | |- context [decide (role_key ?i ?a = ?k)] => rewrite (decide_index_r i a k) by (done || (unfold index_keys; set_solver))
  end;
  repeat match goal with
  | |- context [decide (@eq role ?a ?b)] =>
      first [rewrite (decide_True (P := a = b)) by done | rewrite (decide_False (P := a = b)) by done]
  end.

Ltac at_simp :=
  fold_roles; autorewrite with redis; role_decide.

(** What an ending script leaves under the key of the document. *)
Ltac doc_left := cbn; at_simp; cbn; try match goal with |- context [?a <=? 0] => destruct (a <=? 0) end; eauto.

Section steps.
Context `{RedisLaws R, LuaHost, !LuaLaws, Documents, !DocumentLaws}.
Context (sha1hex : string → string) (retention : Z).
Implicit Types (r : R) (l : list entry) (w : Watch) (rt : WatchRuntime) (c : WindowClaim).
Notation rinv := (rinv sha1hex).

(** ** Reading *)

Lemma valid_exact rt : runtime_ok rt = true → lua_exact (rt_revision rt).
Proof.
  unfold runtime_ok, in_range. rewrite !andb_true_iff, !Z.leb_le. unfold lua_exact, _MAX_COUNT. lia.
Qed.

Lemma live_runtime id w rt n r l : rlive id w rt n r l → GET (_runtime_key id) r = Some (runtime_json rt).
Proof. intros Hl. apply GET_at. eexists. by apply Hl. Qed.

Lemma live_revision id w rt n r l : rlive id w rt n r l →
  cjson_revision (runtime_json rt) = pretty (rt_revision rt).
Proof. intros Hl. apply cjson_revision_json, valid_exact. by apply Hl. Qed.

(** The claim key carries this owner and token, unexpired. *)
Definition holds (id : string) (token : Z) (owner : string) (now : Z) r : bool :=
  match GET (_claim_key id) r ≫= parse_claim with
  | Some (o, t, Some e) => bool_decide (o = owner) && bool_decide (t = pretty token) && (now <? e)
  | _ => false
  end.

(** The lease on the claim key is running. *)
Definition leased (id : string) (now : Z) r : bool :=
  match GET (_claim_key id) r ≫= parse_claim with
  | Some (_, _, Some e) => now <? e
  | _ => false
  end.

Lemma live_claim id w rt n r l : rlive id w rt n r l →
  GET (_claim_key id) r = None ∨
  ∃ owner t exp, GET (_claim_key id) r = Some (claim_value owner t exp) ∧
    parse_claim (claim_value owner t exp) = Some (owner, pretty t, Some exp) ∧
    t <= n ∧ ∀ c, Issued c ∈ l → token_of c <= t.
Proof.
  intros Hl. destruct (rl_claim _ _ _ _ _ _ Hl) as [Hn|(owner & t & exp & b & ? & ? & ? & ? & Hc & ?)].
  - left. unfold GET. by rewrite Hn.
  - right. exists owner, t, exp. split_and!; [|by apply parse_claim_value|done|done].
    apply GET_at. by eexists.
Qed.

Lemma lease_spec id w rt n r l now : rlive id w rt n r l →
  lease_held (_claim_key id) now r = (Some (leased id now r), r).
Proof.
  intros Hl. unfold lease_held, leased, lua_parse_claim, lua_number. lua_step.
  destruct (live_claim _ _ _ _ _ _ Hl) as [->|(owner & t & exp & -> & Hp & _)]; cbn; [done|].
  by rewrite Hp.
Qed.

Lemma guard_spec id w rt n r l rev token owner now : rlive id w rt n r l →
  claim_guard (_claim_key id) (runtime_json rt) (pretty (rev : Z)) (pretty token) owner now r =
    (Some (bool_decide (rt_revision rt = rev) && holds id token owner now r), r).
Proof.
  intros Hl. unfold claim_guard, holds, lua_parse_claim, lua_number.
  rewrite (live_revision _ _ _ _ _ _ Hl).
  rewrite (bool_decide_ext (pretty (rt_revision rt) = pretty rev) (rt_revision rt = rev)).
  2: { split; [apply (inj pretty)|by intros ->]. }
  destruct (bool_decide (rt_revision rt = rev)); [|done]. lua_step.
  destruct (live_claim _ _ _ _ _ _ Hl) as [->|(o & t & exp & -> & Hp & _)]; cbn; [done|].
  rewrite Hp. cbn. by destruct (bool_decide (o = owner)), (bool_decide (pretty t = pretty token)).
Qed.

Lemma holds_token id w rt n r l token owner now : rlive id w rt n r l →
  holds id token owner now r = true →
  ∃ exp, GET (_claim_key id) r = Some (claim_value owner token exp) ∧ now < exp ∧
    ∀ c, Issued c ∈ l → token_of c <= token.
Proof.
  intros Hl. unfold holds.
  destruct (live_claim _ _ _ _ _ _ Hl) as [->|(o & t & exp & -> & Hp & _ & Ht)]; cbn; [done|].
  rewrite Hp. rewrite !andb_true_iff, !bool_decide_eq_true, Z.ltb_lt.
  intros [[-> E%(inj pretty)] Hlt]. subst t. by exists exp.
Qed.

(** A claim that still holds its key on the revision it saw is the newest,
    and saw the document that is stored. *)
Lemma holds_newest id w rt n r l c now : rinv id r l → rlive id w rt n r l → Issued c ∈ l →
  rt_revision rt = rev_of c → holds id (token_of c) (cl_owner_id c) now r = true →
  newest c l ∧ cl_watch c = w.
Proof.
  intros Hi Hl Hc Hrev Hh. destruct (holds_token _ _ _ _ _ _ _ _ _ Hl Hh) as (exp & _ & _ & Ht).
  destruct (rl_issued _ _ _ _ _ _ Hl c Hc) as (_ & Hw & _ & _). split; [|auto]. split; [done|].
  intros c' Hc'. destruct (list_elem_of_split _ _ Hc) as (l1 & l2 & E).
  pose proof (ri_log _ _ _ _ Hi) as Hlog. rewrite E in Hlog.
  destruct (list_elem_of_split _ _ Hc') as (l3 & l4 & E').
  pose proof (ri_log _ _ _ _ Hi) as Hlog'. rewrite E' in Hlog'.
  apply log_ok_split in Hlog as (_ & _ & _ & Hb). apply log_ok_split in Hlog' as (_ & _ & _ & Hb').
  specialize (Ht c' Hc').
  rewrite E in Hc'. apply elem_of_app in Hc' as [Hin|[[= ->]|Hin]%elem_of_cons]; [|by left|right; auto].
  (* [c'] is later than [c] *)
  rewrite E' in Hc. apply elem_of_app in Hc as [Hin'|[[= ->]|Hin']%elem_of_cons]; [|by left|].
  - right. destruct (list_elem_of_split _ _ Hin) as (a & b & ->).
    pose proof (ri_log _ _ _ _ Hi) as Hlog. rewrite E, <- app_assoc in Hlog. cbn in Hlog.
    apply log_ok_split in Hlog as (_ & _ & _ & Hlt). specialize (Hlt c ltac:(set_solver)). lia.
  - specialize (Hb' c Hin'). lia.
Qed.

(** ** Actions on a watch that is not active change nothing *)

Lemma dead_get id r : rdead id r →
  GET (_key id) r = None ∨ ∃ raw, GET (_key id) r = Some raw ∧ is_active raw = false.
Proof. intros Hd. destruct (GET (_key id) r) as [raw|] eqn:E; [right|left; done]. eauto. Qed.

Lemma rinv_cases id r l : rinv id r l →
  rdead id r ∨ ∃ w rt n, at_ (_key id) r = Some (VString (watch_json w), false) ∧ w_watch_id w = id ∧
    watch_terminal w = false ∧ rlive id w rt n r l.
Proof.
  intros Hi. destruct (GET (_key id) r) as [raw|] eqn:E; [|left; intros raw E'; congruence].
  pose proof E as E0. apply GET_at in E as [b E].
  destruct (ri_doc _ _ _ _ Hi _ E) as (w & b' & [= -> ->] & Hid & Hl).
  destruct (watch_terminal w) eqn:Hw.
  - left. intros raw E'. rewrite E0 in E'. injection E' as <-. by rewrite is_active_json, Hw.
  - right. destruct (Hl eq_refl) as (-> & rt & n & ?). by exists w, rt, n.
Qed.

Lemma dead_claim id win owner lease ign now r : rdead id r →
  ∃ code, claim_action id win owner lease ign now r = (Some (ClaimRefused code), r).
Proof.
  intros [E|(raw & E & Ha)]%dead_get; unfold claim_action, CLAIM_WINDOW; lua_step; rewrite E; [eauto|].
  rewrite Ha. cbn. eauto.
Qed.

Lemma dead_begin c now r : rdead (cl_watch_id c) r → begin_action c now r = (Some BP_FENCED, r).
Proof.
  intros [E|(raw & E & Ha)]%dead_get; unfold begin_action, BEGIN_BOOKING; lua_step; rewrite E; [done|].
  by rewrite Ha.
Qed.

Lemma dead_commit c w rt d now r : rdead (cl_watch_id c) r →
  ∃ code, code ≠ COMMITTED ∧ commit_action sha1hex c w rt d now r = (Some code, r).
Proof.
  intros [E|(raw & E & Ha)]%dead_get; unfold commit_action, COMMIT_WINDOW; lua_step; rewrite E;
    [by exists CS_UNKNOWN|]. rewrite Ha. by exists CS_TERMINAL.
Qed.

Lemma dead_cancel id cas pending wd rd d1 d2 k1 k2 k3 k4 k5 r : rdead id r →
  ∃ out, (∀ x, out ≠ TransitionApplied x) ∧
    CANCEL_IF_ACTIVE (_key id) k1 k2 k3 k4 k5 id cas pending wd rd d1 d2 r = (Some out, r).
Proof.
  intros [E|(raw & E & Ha)]%dead_get; unfold CANCEL_IF_ACTIVE; lua_step; rewrite E.
  - by exists (TransitionRefused TS_UNKNOWN).
  - rewrite Ha. by exists (TransitionNoop raw).
Qed.

Lemma dead_expire id cas wd rd ev d1 d2 k1 k2 k3 k4 k5 k6 r : rdead id r →
  ∃ out, (∀ x, out ≠ TransitionApplied x) ∧
    EXPIRE_IF_ELIGIBLE (_key id) k1 k2 k3 k4 k5 k6 id cas wd rd ev d1 d2 r = (Some out, r).
Proof.
  intros [E|(raw & E & Ha)]%dead_get; unfold EXPIRE_IF_ELIGIBLE; lua_step; rewrite E.
  - by exists (TransitionRefused TS_UNKNOWN).
  - rewrite Ha. by exists (TransitionNoop raw).
Qed.

Lemma dead_synthesize id rt due now r : rdead id r →
  synthesize_action id rt due now r = (Some false, r).
Proof.
  intros [E|(raw & E & Ha)]%dead_get; unfold synthesize_action, SYNTHESIZE_MARKER; lua_step;
    rewrite E; [done|]. by rewrite Ha.
Qed.

(** ** Creation *)

Definition create_entries (out : create_reply) : list entry :=
  match out with CreateDone => [Created] | CreateExists _ _ => [] end.

Lemma SMEMBERS_SADD k m r : rgood r → k ∈ [INDEX_KEY; ACTIVE_INDEX_KEY] → m ∈ SMEMBERS k (SADD k m r).
Proof.
  intros [Hs _] Hk. unfold SMEMBERS. rewrite at_SADD, decide_True by done.
  destruct (Hs k Hk) as [->|[s ->]]; cbn; set_solver.
Qed.

Lemma good_keeps (A : Type) (c : lua R A) r : moves keeps c → rgood r → rgood (c r).2.
Proof. intros Hm. exact (Hm r). Qed.

Lemma indexed_SADDs id r : rgood r → ∀ k, k ∈ [INDEX_KEY; ACTIVE_INDEX_KEY] → plain_id id = true →
  id ∈ SMEMBERS k (SADD ACTIVE_INDEX_KEY id (SADD INDEX_KEY id r)).
Proof.
  intros Hg k Hk Hp. apply elem_of_cons in Hk as [->|Hk%list_elem_of_singleton].
  - rewrite (SMEMBERS_same _ (SADD INDEX_KEY id r)) by by rewrite at_SADD.
    apply SMEMBERS_SADD; [done|key_member].
  - subst k. apply SMEMBERS_SADD; [|key_member].
    apply (fp_SADD _ _ (keeps_footprint id Hp)); [key_member|done].
Qed.

Lemma rinv_created id w rt r l :
  plain_id id = true → w_watch_id w = id → watch_terminal w = false → rt_revision rt = 0 →
  runtime_ok rt = true → rgood r → rinv id r l → Created ∉ l →
  rinv id (create_action w rt r).2 (logged create_entries (create_action w rt r).1 ++ l).
Proof.
  intros Hp Hid Hw Hrev Hrok Hg Hi Hc. destruct (ri_fresh _ _ _ _ Hi Hc) as [-> Hn].
  assert (at_ (_key id) r = None) as Hd by (apply (Hn RDoc); set_solver).
  assert (at_ (_claim_key id) r = None) as Hcl by (apply (Hn RClaim); set_solver).
  unfold create_action, CREATE_WITH_SCHEDULE. rewrite Hid. lua_step. unfold EXISTS at 1 2. rewrite Hd. cbn.
  set (r1 := SET (_fence_key id) "0" (SET (_runtime_key id) (runtime_json rt) (SET (_key id) (watch_json w) r))).
  assert (rinv id (SADD ACTIVE_INDEX_KEY id (SADD INDEX_KEY id r1)) [Created]) as Hi2.
  { split; [done|set_solver|set_solver|]. intros e. unfold r1. at_simp. intros [= <-].
    exists w, false. split_and!; [done..|]. intros _. split; [done|]. exists rt, 0.
    split; try (at_simp; done).
    - split; [set_solver|]. intros ???? Hin. set_solver.
    - intros ???? Hin. set_solver.
    - set_solver.
    - left. at_simp. exact Hcl.
    - intros k Hk. apply indexed_SADDs; [|done..].
      pose proof (keeps_footprint (R := R) id Hp) as fp.
      apply (fp_SET _ _ fp RFence), (fp_SET _ _ fp RRuntime), (fp_SET _ _ fp RDoc), Hg. }
  assert (∀ ms, rinv id (ZADD SCHEDULE_INDEX_KEY ms id (SADD ACTIVE_INDEX_KEY id (SADD INDEX_KEY id r1))) [Created]) as Hz.
  { intros ms. eapply rinv_quiet; [done|]. apply quiet_ZADD; [done|key_member]. }
  destruct (rt_window_id rt), (rt_scheduled_for rt); cbn; first [exact Hi2|apply Hz].
Qed.

(** ** Claims *)

Definition claim_entries (win owner : string) (out : claim_reply) : list entry :=
  match out with
  | ClaimOwned w rt token expires =>
      match parse_watch w, parse_runtime rt with
      | Some w, Some rt => [Issued (MkClaim w rt owner win token (_from_ms expires))]
      | _, _ => []
      end
  | ClaimRefused _ => []
  end.

(** The fence of a live watch counts up; everything else is untouched. *)
Lemma live_incr id w rt n r r1 l token : plain_id id = true → rlive id w rt n r l →
  INCR (_fence_key id) r = (token, r1) →
  token = Some (n + 1) ∧ rlive id w rt (n + 1) r1 l ∧ at_ (_key id) r1 = at_ (_key id) r.
Proof.
  intros Hp Hl E. pose proof (INCR_next _ _ _ _ (rl_fence _ _ _ _ _ _ Hl)) as En. rewrite E in En.
  cbn in En. subst token.
  assert (∀ k, at_ k r1 = if decide (_fence_key id = k) then Some (VString (pretty (n + 1)), false)
                          else at_ k r) as Hat.
  { intros k. rewrite (at_INCR _ _ _ _ _ E). unfold volatile.
    by rewrite (rl_fence _ _ _ _ _ _ Hl). }
  assert (∀ k, k ∈ [INDEX_KEY; ACTIVE_INDEX_KEY] → at_ k r1 = at_ k r) as Hx.
  { intros k Hk. rewrite Hat. apply (decide_index_r id RFence); [done|].
    unfold index_keys. set_solver. }
  destruct Hl as [Ho Hr He Hv Hi Hf Hc Hm]. split_and!; [done| |rewrite Hat; by at_simp].
  split; try done; rewrite ?Hat.
  - at_simp. done.
  - intros c Hc'. destruct (Hi c Hc') as (? & ? & ? & ?). split_and!; [done..|lia|done].
  - at_simp. done.
  - revert Hc. at_simp. intros [Hc|(o & t & exp & b & ? & ? & ? & ? & Hc & ?)]; [by left|right].
    exists o, t, exp, b. split_and!; try done. lia.
  - intros k Hk. rewrite (SMEMBERS_same k r r1) by by apply Hx. by apply Hm.
Qed.

Lemma rinv_live id w rt n r l :
  at_ (_key id) r = Some (VString (watch_json w), false) → w_watch_id w = id →
  watch_terminal w = false → log_ok sha1hex id l → (∀ c, Granted c ∉ l) → rlive id w rt n r l →
  rinv id r l.
Proof.
  intros Hd Hid Hw Hlog Hg Hl. split; [done|done|..].
  - intros Hc. by destruct (rl_open _ _ _ _ _ _ Hl) as [? _].
  - intros e He. rewrite Hd in He. injection He as <-. exists w, false. split_and!; [done..|].
    intros _. split; [done|]. by exists rt, n.
Qed.

Lemma rinv_claimed id win owner lease ign now r l :
  plain_id id = true → plain_owner owner = true →
  (∀ n b, at_ (_fence_key id) r = Some (VString (pretty n), b) → lua_exact (n + 1)) →
  lua_exact (now + lease_ms_of lease) → rinv id r l →
  rinv id (claim_action id win owner lease ign now r).2
    (logged (claim_entries win owner) (claim_action id win owner lease ign now r).1 ++ l).
Proof.
  intros Hp Ho Hn He Hi.
  destruct (rinv_cases _ _ _ Hi) as [Hd|(w & rt & n & Ed & Hid & Hw & Hl)].
  { destruct (dead_claim id win owner lease ign now r Hd) as [code ->]. exact Hi. }
  unfold claim_action, CLAIM_WINDOW. lua_step. rewrite (proj2 (GET_at _ _ _) (ex_intro _ _ Ed)). cbn.
  rewrite is_active_json, Hw. cbn. rewrite (live_runtime _ _ _ _ _ _ Hl). cbn.
  rewrite cjson_window_json. case_bool_decide; [|exact Hi]. cbn.
  destruct (negb ign && _); [exact Hi|]. cbn.
  rewrite (lease_spec _ _ _ _ _ _ now Hl). cbn. destruct (leased id now r); [exact Hi|]. cbn.
  unfold call_INCR. destruct (INCR (_fence_key id) r) as [token r1] eqn:E.
  destruct (live_incr _ _ _ _ _ _ _ _ Hp Hl E) as (-> & Hl1 & Hd1).
  rewrite <- Hd1 in Ed.
  unfold call_SET_PX. destruct (Z.leb_spec (lease_ms_of lease) 0) as [|Hpx]; cbn.
  { apply (rinv_live id w rt (n + 1)); try done; by apply Hi. }
  set (r2 := SET_PX _ _ _ r1). set (exp := now + lease_ms_of lease).
  assert (∀ k, at_ k r2 = if decide (_claim_key id = k)
            then Some (VString (claim_value owner (n + 1) exp), true) else at_ k r1) as Hat.
  { intros k. unfold r2. by rewrite at_SET_PX. }
  assert (lua_exact (n + 1)) as Hn1 by (eapply Hn, Hl).
  assert (∀ l', open_log l' → log_ok sha1hex id l' → revs_below (rt_revision rt) l' →
            (∀ c, Issued c ∈ l' → Issued c ∈ l ∨ cl_watch c = w ∧ cl_runtime c = rt ∧ token_of c = n + 1 ∧ runtime_ok rt = true) →
            (∀ c, Granted c ∉ l') → rinv id r2 l') as Hfin.
  { intros l' Hop Hlog Hrevs Hiss Hgr. apply (rinv_live id w rt (n + 1)); try done.
    { rewrite Hat. by at_simp. }
    destruct Hl1 as [_ Hr1 He1 _ Hi1 Hf1 _ Hm1].
    split; try done; rewrite ?Hat; try (at_simp; done).
    - intros c [Hc|(<- & <- & -> & Hrok)]%Hiss; [by apply Hi1|]. unfold rev_of. split_and!; done || lia.
    - right. exists owner, (n + 1), exp, true. split_and!; try done; [by at_simp|].
      intros c [Hc|(_ & _ & -> & _)]%Hiss; [|lia]. by destruct (Hi1 c Hc) as (_ & _ & ? & _).
    - intros k Hk. rewrite (SMEMBERS_same k r1 r2); [by apply Hm1|]. rewrite Hat.
      apply (decide_index_r id RClaim); [done|]. unfold index_keys. set_solver. }
  pose proof (rl_open _ _ _ _ _ _ Hl) as Hop. pose proof (rl_revs _ _ _ _ _ _ Hl) as Hrv.
  destruct (parse_watch _) as [w'|] eqn:Epw; [|apply Hfin; auto; by apply Hi].
  destruct (parse_runtime _) as [rt'|] eqn:Epr; [|apply Hfin; auto; by apply Hi].
  apply parse_watch_json in Epw as ->. pose proof (parse_runtime_valid _ _ Epr) as Hrok. apply parse_runtime_json in Epr as ->.
  apply Hfin.
  - apply (open_log_cons sha1hex id); [done|]. intros ????. done.
  - split; [|by apply Hi]. cbn. split_and!; [done|exact Hid|done|].
    intros c Hc. destruct (rl_issued _ _ _ _ _ _ Hl c Hc) as (_ & _ & ? & _). unfold token_of in *. cbn. lia.
  - apply (revs_below_cons); [done|]. intros ????. done.
  - intros c [[= ->]|Hc]%elem_of_cons; [by right|by left].
  - intros c [?|Hc]%elem_of_cons; [done|]. by eapply ri_granted.
Qed.

(** ** Permits and pending cancellations: the sidecar of a live watch is rewritten *)

Lemma rinv_set_runtime id w rt rt' n r l : plain_id id = true → rinv id r l →
  at_ (_key id) r = Some (VString (watch_json w), false) → w_watch_id w = id →
  watch_terminal w = false → rlive id w rt n r l → rt_revision rt' = rt_revision rt →
  runtime_ok rt' = true → rinv id (SET (_runtime_key id) (runtime_json rt') r) l.
Proof.
  intros Hp Hi Hd Hid Hw [Ho Hr He Hv His Hf Hc Hx] Hrev Hrok.
  apply (rinv_live id w rt' n); try done; [by at_simp|by apply Hi|by apply Hi|].
  split; rewrite ?Hrev; try done; try (by at_simp).
  intros k Hk. rewrite (SMEMBERS_same k r); [by apply Hx|]. rewrite at_SET.
  apply (decide_index_r id RRuntime); [done|]. unfold index_keys. set_solver.
Qed.

Lemma rinv_begun c now r l : plain_id (cl_watch_id c) = true → rinv (cl_watch_id c) r l →
  Issued c ∈ l →
  rinv (cl_watch_id c) (begin_action c now r).2
    (logged no_entries (begin_action c now r).1 ++ l).
Proof.
  intros Hp Hi Hc.
  destruct (rinv_cases _ _ _ Hi) as [Hd|(w & rt & n & Ed & Hid & Hw & Hl)].
  { rewrite dead_begin by done. exact Hi. }
  unfold begin_action, BEGIN_BOOKING. lua_step. rewrite (proj2 (GET_at _ _ _) (ex_intro _ _ Ed)). cbn.
  rewrite is_active_json, Hw. cbn. rewrite (live_runtime _ _ _ _ _ _ Hl). cbn.
  rewrite (guard_spec _ _ _ _ _ _ _ _ _ now Hl). cbn.
  destruct (bool_decide _ && _) eqn:E; [|exact Hi]. cbn.
  apply andb_true_iff in E as [E%bool_decide_eq_true _].
  destruct (cjson_cancel_requested _); [exact Hi|]. cbn.
  destruct (rl_issued _ _ _ _ _ _ Hl c Hc) as (_ & _ & _ & Hok).
  by apply (rinv_set_runtime _ w rt _ n).
Qed.

(** ** Commits *)

Definition commit_entries c w (code : CommitStatus) : list entry :=
  match code with
  | COMMITTED => [Done (rev_of c + 1) (w_status w) (Some c) (commit_event sha1hex c w)]
  | _ => []
  end.

(** Writes that leave documents, sidecar, fence, claim and indexes alone. *)
Lemma quiet_when_given {A} id (x : option A) (f : A → R → R) : (∀ a r, quiet id r (f a r)) →
  ∀ r, ∃ r', when_given x f r = (Some (), r') ∧ quiet id r r'.
Proof. intros Hf r. destruct x as [a|]; eexists; (split; [done|]); [apply Hf|reflexivity]. Qed.

Lemma rinv_log_closed id w r l : plain_id id = true →
  log_ok sha1hex id l → (∀ c, Granted c ∉ l) → Created ∈ l → w_watch_id w = id →
  watch_terminal w = true → (∃ b, at_ (_key id) r = Some (VString (watch_json w), b)) ∨ at_ (_key id) r = None →
  rinv id r l.
Proof.
  intros Hp Hl Hg Hc Hid Hw Hd. apply rinv_closed; try done. intros e He.
  destruct Hd as [[b Hd]|Hd]; rewrite Hd in He; [|done]. injection He as <-. by exists w, b.
Qed.

Lemma commit_entry_ok id w w' rt n r l c : rinv id r l → rlive id w rt n r l →
  cl_watch_id c = id → newest c l → rt_revision rt = rev_of c →
  log_ok sha1hex id (commit_entries c w' COMMITTED ++ l).
Proof.
  intros Hi Hl Hid Hn Hrev. split; [|by apply Hi]. cbn. split_and!; [by apply Hl|..].
  - replace (rev_of c + 1 - 1) with (rt_revision rt) by lia. by apply Hl.
  - intros c' Hc'. destruct (rl_issued _ _ _ _ _ _ Hl c' Hc') as (? & _). lia.
  - unfold commit_event. by rewrite Hid.
  - done.
  - done.
Qed.

(** What the keys of a watch hold after its document was replaced. *)
Lemma rinv_replaced id w w' rt rt' n r l e : plain_id id = true → rinv id r l →
  rlive id w rt n r l → w_watch_id w' = id → watch_terminal w' = false →
  rt_revision rt' = rt_revision rt + 1 → runtime_ok rt' = true →
  log_ok sha1hex id (e :: l) → (∀ rev st by_claim ev, e = Done rev st by_claim ev → rev = rt_revision rt' ∧ is_terminal st = false) →
  (∀ c, e ≠ Issued c) → (∀ c, e ≠ Granted c) →
  rinv id (DEL (_claim_key id) (SET (_runtime_key id) (runtime_json rt')
             (SET (_key id) (watch_json w') r))) (e :: l).
Proof.
  intros Hp Hi [Ho Hr He Hv His Hf Hc Hx] Hid Hw Hrev Hex Hlog Hdone Hni Hng.
  apply (rinv_live id w' rt' n); try done.
  - by at_simp.
  - intros c [?|Hin]%elem_of_cons; [by eapply Hng|]. by apply (ri_granted _ _ _ _ Hi c).
  - split; try done; try (at_simp; by auto).
    + apply (open_log_cons sha1hex id); [done|]. intros ???? Heq. by apply Hdone in Heq as [_ ?].
    + apply revs_below_cons; [eapply revs_below_le; [done|lia]|].
      intros ???? Heq. apply Hdone in Heq as [-> _]. lia.
    + intros c [?|Hin]%elem_of_cons; [by destruct (Hni c)|].
      destruct (His c Hin) as (? & _ & ? & ?). split_and!; [lia|lia|done|done].
    + intros k Hk. rewrite (SMEMBERS_same k r); [by apply Hx|].
      assert (k ∈ index_keys) by (unfold index_keys; set_solver).
      rewrite at_DEL, (decide_index_r id RClaim), at_SET, (decide_index_r id RRuntime), at_SET,
        (decide_index_r id RDoc) by done. done.
Qed.

Lemma rinv_committed c w' rt' d now r l : plain_id (cl_watch_id c) = true →
  runtime_ok (stored_runtime c rt' (fst ∘ fst <$> d)) = true →
  rinv (cl_watch_id c) r l → Issued c ∈ l → w_watch_id w' = cl_watch_id c →
  rinv (cl_watch_id c) (commit_action sha1hex c w' rt' d now r).2
    (logged (commit_entries c w') (commit_action sha1hex c w' rt' d now r).1 ++ l).
Proof.
  intros Hp Hrok Hi Hc Hid'. set (id := cl_watch_id c) in *.
  destruct (rinv_cases _ _ _ Hi) as [Hd|(w & rt & n & Ed & Hid & Hw & Hl)].
  { destruct (dead_commit c w' rt' d now r Hd) as (code & Hcode & ->). by destruct code. }
  unfold commit_action, COMMIT_WINDOW. fold id. lua_step.
  rewrite (proj2 (GET_at _ _ _) (ex_intro _ _ Ed)). cbn.
  rewrite is_active_json, Hw. cbn. rewrite (live_runtime _ _ _ _ _ _ Hl). cbn.
  rewrite (guard_spec _ _ _ _ _ _ _ _ _ now Hl). cbn.
  destruct (bool_decide _ && _) eqn:E; [|exact Hi]. cbn.
  apply andb_true_iff in E as [E%bool_decide_eq_true Eh].
  destruct (holds_newest _ _ _ _ _ _ _ _ Hi Hl Hc E Eh) as [Hnew _].
  pose proof (commit_entry_ok id w w' rt n r l c Hi Hl eq_refl Hnew E) as Hlog.
  assert (∀ c', Granted c' ∉ commit_entries c w' COMMITTED ++ l) as Hgr.
  { intros c' [?|Hin]%elem_of_cons; [done|]. by apply (ri_granted _ _ _ _ Hi c'). }
  assert (Created ∈ commit_entries c w' COMMITTED ++ l) as Hcr by (apply elem_of_app; right; apply Hl).
  destruct (watch_terminal w') eqn:Hw'.
  - match goal with |- rinv _ (?X).2 _ => assert (∃ r', X = (Some COMMITTED, r') ∧
      ((∃ b, at_ (_key id) r' = Some (VString (watch_json w'), b)) ∨ at_ (_key id) r' = None)) as (r' & -> & Hdoc) end.
    { destruct d as [[[? ?] ms]|], (commit_event sha1hex c w'); eexists; (split; [reflexivity|]);
        cbn; at_simp; cbn; try destruct (ms <=? 0); eauto. }
    by apply (rinv_log_closed id w').
  - set (stored := stored_runtime c rt' (fst ∘ fst <$> d)).
    assert (rinv id (DEL (_claim_key id) (SET (_runtime_key id) (runtime_json stored)
              (SET (_key id) (watch_json w') r))) (commit_entries c w' COMMITTED ++ l)) as Hi'.
    { assert (rt_revision stored = rev_of c + 1) as Es.
      { unfold stored, stored_runtime. by destruct d. }
      apply (rinv_replaced id w w' rt stored n); try done.
      - rewrite Es. unfold rev_of. lia.
      - intros ???? [= <- <- <- <-]. by rewrite Es. }
    destruct (rt_window_id stored), (rt_scheduled_for stored); cbn;
      (eapply rinv_quiet; [exact Hi'|]);
      first [apply quiet_ZADD; [done|key_member] | apply quiet_ZREM; [done|key_member]].
Qed.

(** ** Cancellation and expiry *)

Definition ending_entries (st : WatchStatus) (rt : option WatchRuntime) (ev : option string)
    (out : transition_reply) : list entry :=
  match out with TransitionApplied _ => [Done (next_revision rt) st None ev] | _ => [] end.

Lemma revision_moved_spec id w rt n r l rt0 : rlive id w rt n r l → runtime_ok rt0 = true →
  revision_moved (GET (_runtime_key id) r) (Some (pretty (rt_revision rt0))) =
    negb (bool_decide (rt_revision rt = rt_revision rt0)).
Proof.
  intros Hl Hx. unfold revision_moved. rewrite (live_runtime _ _ _ _ _ _ Hl). cbn.
  rewrite (live_revision _ _ _ _ _ _ Hl). f_equal. apply bool_decide_ext.
  split; [apply (inj pretty)|by intros ->].
Qed.

Lemma ending_entry_ok id w rt rt0 n r l st : rinv id r l → rlive id w rt n r l →
  rt_revision rt = rt_revision rt0 → st = CANCELLED ∨ st = EXPIRED →
  log_ok sha1hex id (Done (rt_revision rt0 + 1) st None
                       (event_for sha1hex id st (rt_revision rt0 + 1)) :: l).
Proof.
  intros Hi Hl Hrev Hst. split; [|by apply Hi]. cbn. split_and!.
  - by apply (rl_open _ _ _ _ _ _ Hl).
  - replace (rt_revision rt0 + 1 - 1) with (rt_revision rt) by lia. by apply Hl.
  - intros c Hc. destruct (rl_issued _ _ _ _ _ _ Hl c Hc) as (? & _). lia.
  - done.
  - by destruct Hst as [-> | ->].
  - by destruct Hst as [-> | ->].
  - by destruct Hst as [-> | ->].
  - intros _ c Hc. by apply (ri_granted _ _ _ _ Hi) in Hc.
Qed.

(** The two ending actions, once their guards have passed. *)
Lemma rinv_ended id w w0 rt rt0 n r r' l st : plain_id id = true → rinv id r l →
  rlive id w rt n r l → rt_revision rt = rt_revision rt0 → st = CANCELLED ∨ st = EXPIRED →
  w_watch_id w0 = id → w_status w0 = st →
  (∃ b, at_ (_key id) r' = Some (VString (watch_json w0), b)) ∨ at_ (_key id) r' = None →
  rinv id r' (Done (rt_revision rt0 + 1) st None (event_for sha1hex id st (rt_revision rt0 + 1)) :: l).
Proof.
  intros Hp Hi Hl Hrev Hst Hid Hs Hd. apply (rinv_log_closed id w0); try done.
  - by eapply ending_entry_ok.
  - intros c [?|Hc]%elem_of_cons; [done|]. by apply (ri_granted _ _ _ _ Hi) in Hc.
  - apply elem_of_cons. right. by apply Hl.
  - unfold watch_terminal. rewrite Hs. by destruct Hst as [-> | ->].
Qed.

(** What a caller read before an ending action: the document of this watch,
    and a sidecar; a sidecar that was missing belongs to no active watch. *)
Definition seen (id : string) w0 (rt0 : option WatchRuntime) r : Prop :=
  w_watch_id w0 = id ∧
  match rt0 with Some rt0 => runtime_ok rt0 = true | None => rdead id r end.

Lemma rinv_cancelled id w0 (rt0 : option WatchRuntime) now r l : plain_id id = true → rinv id r l → seen id w0 rt0 r →
  rinv id (cancel_action retention id w0 rt0 now r).2
    (logged (ending_entries CANCELLED rt0 None) (cancel_action retention id w0 rt0 now r).1 ++ l).
Proof.
  intros Hp Hi [Hid0 Hs]. unfold cancel_action. cbn [_terminal_deadlines].
  destruct (rinv_cases _ _ _ Hi) as [Hd|(w & rt & n & Ed & Hid & Hw & Hl)].
  { edestruct (dead_cancel id) as (out & Hout & ->); [exact Hd|]. by destruct out; [..|destruct (Hout watch)]. }
  destruct rt0 as [rt0|].
  2: { assert (is_active (watch_json w) = false) as Ha by (apply Hs, GET_at; eauto).
       by rewrite is_active_json, Hw in Ha. }
  unfold CANCEL_IF_ACTIVE, end_watch. lua_step. rewrite (proj2 (GET_at _ _ _) (ex_intro _ _ Ed)). cbn.
  rewrite is_active_json, Hw. cbn. rewrite (revision_moved_spec _ _ _ _ _ _ _ Hl Hs). cbn.
  case_bool_decide as Hrev; cbn; [|exact Hi]. rewrite (live_runtime _ _ _ _ _ _ Hl). cbn.
  refine (rinv_ended id w (ended_watch_at CANCELLED now w0) rt rt0 n r _ l CANCELLED
            Hp Hi Hl Hrev (or_introl eq_refl) Hid0 eq_refl _). doc_left.
Qed.

Lemma rinv_expired id w0 (rt0 : option WatchRuntime) now r l : plain_id id = true → rinv id r l → seen id w0 rt0 r →
  rinv id (expire_action sha1hex retention id w0 rt0 now r).2
    (logged (ending_entries EXPIRED rt0 (event_for sha1hex id EXPIRED (next_revision rt0)))
       (expire_action sha1hex retention id w0 rt0 now r).1 ++ l).
Proof.
  intros Hp Hi [Hid0 Hs]. unfold expire_action. cbn [_terminal_deadlines].
  destruct (rinv_cases _ _ _ Hi) as [Hd|(w & rt & n & Ed & Hid & Hw & Hl)].
  { edestruct (dead_expire id) as (out & Hout & ->); [exact Hd|]. by destruct out; [..|destruct (Hout watch)]. }
  destruct rt0 as [rt0|].
  2: { assert (is_active (watch_json w) = false) as Ha by (apply Hs, GET_at; eauto).
       by rewrite is_active_json, Hw in Ha. }
  unfold EXPIRE_IF_ELIGIBLE, end_watch. lua_step. rewrite (proj2 (GET_at _ _ _) (ex_intro _ _ Ed)). cbn.
  rewrite is_active_json, Hw. cbn. rewrite (revision_moved_spec _ _ _ _ _ _ _ Hl Hs). cbn.
  case_bool_decide as Hrev; cbn; [|exact Hi]. rewrite (live_runtime _ _ _ _ _ _ Hl). cbn.
  refine (rinv_ended id w (ended_watch_at EXPIRED now w0) rt rt0 n r _ l EXPIRED
            Hp Hi Hl Hrev (or_intror eq_refl) Hid0 eq_refl _). doc_left.
Qed.

Lemma rinv_pending id rt0 r l : plain_id id = true → rinv id r l → runtime_ok rt0 = true →
  rinv id (cancel_pending_action id rt0 r).2
    (logged (ending_entries CANCELLED (Some rt0) None) (cancel_pending_action id rt0 r).1 ++ l).
Proof.
  intros Hp Hi Hx. unfold cancel_pending_action.
  destruct (rinv_cases _ _ _ Hi) as [Hd|(w & rt & n & Ed & Hid & Hw & Hl)].
  { edestruct (dead_cancel id) as (out & Hout & ->); [exact Hd|]. by destruct out; [..|destruct (Hout watch)]. }
  unfold CANCEL_IF_ACTIVE, end_watch. lua_step. rewrite (proj2 (GET_at _ _ _) (ex_intro _ _ Ed)). cbn.
  rewrite is_active_json, Hw. cbn. rewrite (revision_moved_spec _ _ _ _ _ _ _ Hl Hx). cbn.
  case_bool_decide as Hrev; cbn; [|exact Hi]. rewrite (live_runtime _ _ _ _ _ _ Hl). cbn.
  by apply (rinv_set_runtime id w rt _ n).
Qed.

(** ** Release and repair *)

Lemma rinv_claim_dropped id r r' l : plain_id id = true → rinv id r l →
  at_ (_key id) r' = at_ (_key id) r →
  (∀ k, k ≠ _claim_key id → at_ k r' = at_ k r) →
  at_ (_claim_key id) r' = at_ (_claim_key id) r ∨ at_ (_claim_key id) r' = None →
  rinv id r' l.
Proof.
  intros Hp [Hlog Hg Hf Hd] Hdoc Hat Hcl. split; [done|done|..].
  - intros Hc. destruct (Hf Hc) as [-> Hn]. split; [done|]. intros ro Hro.
    destruct (decide (ro = RClaim)) as [->|Hne].
    + destruct Hcl as [E|E]; cbn; rewrite E; [by apply (Hn RClaim)|done].
    + rewrite Hat; [by apply Hn|]. by intros [_ ?]%(role_key_inj id id ro RClaim).
  - intros e. rewrite Hdoc. intros He. destruct (Hd e He) as (w & b & -> & Hid & Hl).
    exists w, b. split_and!; [done..|]. intros Hw. destruct (Hl Hw) as (-> & rt & n & [Ho Hr Hx Hv Hi Hfe Hc Hm]).
    split; [done|]. exists rt, n.
    assert (∀ ro, ro ≠ RClaim → at_ (role_key id ro) r' = at_ (role_key id ro) r) as Hro.
    { intros ro Hro. apply Hat. by intros [_ ?]%(role_key_inj id id ro RClaim). }
    pose proof (Hro RRuntime) as E1. pose proof (Hro RFence) as E2. cbn in E1, E2.
    split; rewrite ?E1, ?E2 by done; try done.
    + destruct Hcl as [-> | ->]; [done|by left].
    + intros k Hk. rewrite (SMEMBERS_same k r r'); [by apply Hm|]. apply Hat.
      apply (role_key_index id RClaim); [done|]. unfold index_keys. set_solver.
Qed.

Lemma release_effect k owner token r :
  (RELEASE_CLAIM k owner token r).2 = r ∨ (RELEASE_CLAIM k owner token r).2 = DEL k r.
Proof.
  unfold RELEASE_CLAIM, lua_parse_claim. lua_step. destruct (GET k r) as [v|]; [|by left]. cbn.
  destruct (parse_claim v) as [[[o t] e]|]; [|by left]. cbn.
  destruct (bool_decide (o = owner) && bool_decide (t = token)); [by right|by left].
Qed.

Lemma rinv_released c r l : plain_id (cl_watch_id c) = true → rinv (cl_watch_id c) r l →
  rinv (cl_watch_id c) (release_action c r).2 l.
Proof.
  intros Hp Hi. unfold release_action.
  destruct (release_effect (_claim_key (cl_watch_id c)) (cl_owner_id c) (pretty (cl_token c)) r) as [-> | ->];
    [done|].
  apply (rinv_claim_dropped _ r); try done.
  - by at_simp.
  - intros k Hk. by rewrite at_DEL, decide_False.
  - right. by at_simp.
Qed.

(** A repaired sidecar carries the revision of the one it replaces. *)
Definition repairs_at (id : string) rt r : Prop :=
  ∀ rt0 b, at_ (_runtime_key id) r = Some (VString (runtime_json rt0), b) →
    ZSCORE SCHEDULE_INDEX_KEY id r = None → rt_revision rt = rt_revision rt0.

Lemma rinv_synthesized id rt due now r l : plain_id id = true → rinv id r l →
  repairs_at id rt r → runtime_ok rt = true → rinv id (synthesize_action id rt due now r).2 l.
Proof.
  intros Hp Hi Hrep Hrok.
  destruct (rinv_cases _ _ _ Hi) as [Hd|(w & rt0 & n & Ed & Hid & Hw & Hl)].
  { by rewrite dead_synthesize by done. }
  unfold synthesize_action, SYNTHESIZE_MARKER. lua_step.
  rewrite (proj2 (GET_at _ _ _) (ex_intro _ _ Ed)). cbn.
  rewrite is_active_json, Hw. cbn. rewrite (lease_spec _ _ _ _ _ _ now Hl). cbn.
  destruct (leased id now r); [exact Hi|]. cbn.
  destruct (ZSCORE SCHEDULE_INDEX_KEY id r) as [s|] eqn:Es; [exact Hi|]. cbn.
  assert (EXISTS (_fence_key id) (SET (_runtime_key id) (runtime_json rt) r) = true) as ->.
  { unfold EXISTS. at_simp. cbn. by rewrite (rl_fence _ _ _ _ _ _ Hl). }
  cbn. eapply rinv_quiet; [|apply quiet_ZADD; [done|key_member]].
  apply (rinv_set_runtime id w rt0 rt n); try done.
  eapply Hrep; [by apply Hl|done].
Qed.

(** ** Pruning and removal *)

Lemma rinv_dead id r r' l : rinv id r l → rdead id r → Created ∈ l →
  at_ (_key id) r' = at_ (_key id) r → rinv id r' l.
Proof.
  intros Hi Hd Hc Hat. apply rinv_closed; [by apply Hi..|done|]. intros e. rewrite Hat. intros He.
  destruct (ri_doc _ _ _ _ Hi e He) as (w & b & -> & Hid & _). exists w, b. split_and!; [done..|].
  specialize (Hd (watch_json w)). rewrite is_active_json in Hd. apply negb_false_iff, Hd, GET_at. by eexists.
Qed.

Lemma rinv_pruned id all r l : plain_id id = true → rinv id r l → rdead id r → Created ∈ l →
  rinv id (prune_action id all r).2 l.
Proof.
  intros Hp Hi Hd Hc. apply (rinv_dead id r); try done.
  unfold prune_action. lua_step. destruct all; lua_step; by at_simp.
Qed.

(** A watch whose four keys are gone. *)
Lemma rinv_gone id r r' l : rinv id r l →
  (∀ ro, ro ∈ core_roles → at_ (role_key id ro) r' = None) → rinv id r' l.
Proof.
  intros Hi Hn. split; [by apply Hi|by apply Hi|..].
  - intros Hc. by destruct (ri_fresh _ _ _ _ Hi Hc) as [-> _].
  - intros e. pose proof (Hn RDoc ltac:(set_solver)) as E. cbn in E. by rewrite E.
Qed.

Ltac core_cases :=
  let ro := fresh "ro" in let Hro := fresh "Hro" in
  intros ro Hro; unfold core_roles in Hro;
  repeat (apply elem_of_cons in Hro as [->|Hro]; [by at_simp|]); by apply elem_of_nil in Hro.

Lemma rinv_deleted id r l : plain_id id = true → rinv id r l → rinv id (delete_action id r).2 l.
Proof.
  intros Hp Hi. apply (rinv_gone id r); [done|]. unfold delete_action. lua_step. core_cases.
Qed.

Lemma cleanup_members_ok due removed r :
  (∀ m, m ∈ due → plain_id m = true) → rgood r →
  let r' := (cleanup_members TERMINAL_INDEX_KEY INDEX_KEY ACTIVE_INDEX_KEY SCHEDULE_INDEX_KEY
               KEY_PREFIX due removed r).2 in
  rgood r' ∧ ∀ id, plain_id id = true →
    (∀ l, rinv id r l → rinv id r' l) ∧
    (at_ (_key id) r' = at_ (_key id) r ∨ at_ (_key id) r' = None).
Proof.
  revert removed r. induction due as [|m due IH]; intros removed r Hdue Hg; cbn zeta; [by auto|].
  assert (plain_id m = true) as Hm by (apply Hdue; set_solver).
  cbn [cleanup_members]. lua_step. change (KEY_PREFIX +:+ ":" +:+ m) with (_key m).
  change (_key m +:+ ":runtime") with (_runtime_key m). change (_key m +:+ ":fence") with (_fence_key m).
  change (_key m +:+ ":claim") with (_claim_key m).
  set (gone := match GET (_key m) r with Some d => negb (is_active d) | None => false end).
  pose proof (keeps_footprint (R := R) m Hm) as fp.
  destruct gone eqn:Egone; lua_step.
  - match goal with |- context [cleanup_members _ _ _ _ _ due _ ?r1] => set (r' := r1) end.
    assert (rgood r') as Hg'.
    { apply (fp_ZREM _ _ fp); [key_member|]. apply (fp_ZREM _ _ fp); [key_member|].
      apply (fp_SREM _ _ fp); [key_member|]. apply (fp_SREM _ _ fp); [key_member|].
      apply (fp_DEL _ _ fp RClaim), (fp_DEL _ _ fp RFence), (fp_DEL _ _ fp RRuntime),
        (fp_DEL _ _ fp RDoc), Hg. }
    destruct (IH (removed + 1) r' ltac:(set_solver) Hg') as [Hg2 Hi2]. split; [done|].
    intros id Hp. destruct (Hi2 id Hp) as [Hl2 Hd2]. destruct (decide (id = m)) as [->|Hne].
    + split; [intros l Hi; apply Hl2, (rinv_gone m r); [done|]; unfold r'; core_cases|].
      right. destruct Hd2 as [-> | ->]; [|done]. unfold r'. by at_simp.
    + pose proof (quiet_footprint (R := R) id m Hp Hm Hne) as fq.
      assert (quiet id r r') as Hq; [|split; [intros l Hi; eapply Hl2, rinv_quiet; done|]].
      2: { pose proof (proj1 Hq RDoc ltac:(set_solver)) as E. cbn in E. by rewrite <- E. }
      unfold r'. repeat (etrans; [|first [apply (fp_ZREM _ _ fq); key_member
        | apply (fp_SREM _ _ fq); key_member | apply (fp_DEL _ _ fq RClaim)
        | apply (fp_DEL _ _ fq RFence) | apply (fp_DEL _ _ fq RRuntime) | apply (fp_DEL _ _ fq RDoc)]]).
      reflexivity.
  - destruct (IH removed (ZREM TERMINAL_INDEX_KEY m r) ltac:(set_solver)) as [Hg2 Hi2].
    { apply (fp_ZREM _ _ fp); [key_member|done]. }
    split; [done|]. intros id Hp. destruct (Hi2 id Hp) as [Hl2 Hd2].
    pose proof (quiet_ZREM id TERMINAL_INDEX_KEY m r Hp ltac:(key_member)) as Hq.
    split; [intros l Hi; eapply Hl2, rinv_quiet; done|].
    pose proof (proj1 Hq RDoc ltac:(set_solver)) as E. cbn in E. by rewrite <- E.
Qed.

Lemma cleanup_ok now batch r : rgood r →
  rgood (cleanup_action now batch r).2 ∧ ∀ id, plain_id id = true →
    (∀ l, rinv id r l → rinv id (cleanup_action now batch r).2 l) ∧
    (at_ (_key id) (cleanup_action now batch r).2 = at_ (_key id) r ∨
     at_ (_key id) (cleanup_action now batch r).2 = None).
Proof.
  intros Hg. unfold cleanup_action, CLEANUP_DUE. lua_step.
  set (due := limit batch _).
  assert (∀ m, m ∈ due → plain_id m = true) as Hdue.
  { intros m Hm. assert (m ∈ ZRANGEBYSCORE TERMINAL_INDEX_KEY (_to_ms now) r) as Hm'.
    { revert Hm. unfold due, limit. destruct (batch <? 0); [done|]. intros Hm. apply (elem_of_sublist _ _ _ Hm), sublist_take. }
    apply ZRANGEBYSCORE_spec in Hm' as (s & Hs & _). destruct Hg as [_ Ht]. by eapply Ht. }
  pose proof (cleanup_members_ok due 0 r Hdue Hg) as Hc. cbn zeta in Hc.
  destruct (cleanup_members _ _ _ _ _ due 0 r) as [[n|] r']; cbn in *; exact Hc.
Qed.
End steps.
