(* ===== verification/RedisTheorems.v ===== *)
(** * Properties of the Redis watch repository

    [legal] lists the atomic actions that the methods of the repository
    issue, each with what its caller promises; [rtrace] interleaves them, by
    any number of clients with arbitrary clocks, with the expiry of keys. *)

From S2P Require Import Prelude Json Calendar ClockTime Schemas Reservation Watch WatchSpec WatchLog.
From S2P Require Import Prog RedisServer WatchScripts RedisWatch RedisKeys RedisHistory RedisSteps.

Section system.
Context `{RedisLaws R, LuaHost, !LuaLaws, Documents, !DocumentLaws}.
Context (sha1hex : string → string) (retention : Z).
Implicit Types (r : R) (L : log) (w : Watch) (c : WindowClaim).

(** Created before and finished or gone: nothing revives it. *)
Definition finished (id : string) r L : Prop := Created ∈ log_of id L ∧ rdead id r.

(** What was read before an ending action. *)
Definition was_seen (id : string) w (rt : option WatchRuntime) r L : Prop :=
  w_watch_id w = id ∧
  match rt with Some rt => runtime_ok rt = true | None => finished id r L end.

(** [legal r L action id entries]: the action is one of the repository's,
    for watch [id], with the promises of its caller; [entries] is what its
    answer adds to the history of [id]. *)
Inductive legal r L : ∀ A, lua R A → string → (A → list entry) → Prop :=
| legal_read A (f : R → A) id : legal r L A (lua_read f) id no_entries
| legal_create w rt : plain_id (w_watch_id w) = true → watch_terminal w = false →
    rt_revision rt = 0 → runtime_ok rt = true → Created ∉ log_of (w_watch_id w) L →
    legal r L _ (create_action w rt) (w_watch_id w) create_entries
| legal_claim id win owner lease ign now : plain_id id = true → plain_owner owner = true →
    (∀ n b, at_ (_fence_key id) r = Some (VString (pretty n), b) → lua_exact (n + 1)) →
    lua_exact (now + lease_ms_of lease) →
    legal r L _ (claim_action id win owner lease ign now) id (claim_entries win owner)
| legal_begin c now : plain_id (cl_watch_id c) = true → Issued c ∈ log_of (cl_watch_id c) L →
    legal r L _ (begin_action c now) (cl_watch_id c) no_entries
| legal_commit c w rt d now : plain_id (cl_watch_id c) = true →
    Issued c ∈ log_of (cl_watch_id c) L → w_watch_id w = cl_watch_id c →
    runtime_ok (stored_runtime c rt (fst ∘ fst <$> d)) = true →
    legal r L _ (commit_action sha1hex c w rt d now) (cl_watch_id c) (commit_entries sha1hex c w)
| legal_cancel id w rt now : plain_id id = true → was_seen id w rt r L →
    legal r L _ (cancel_action retention id w rt now) id (ending_entries CANCELLED rt None)
| legal_pending id rt : plain_id id = true → runtime_ok rt = true →
    legal r L _ (cancel_pending_action id rt) id (ending_entries CANCELLED (Some rt) None)
| legal_expire id w rt now : plain_id id = true → was_seen id w rt r L →
    legal r L _ (expire_action sha1hex retention id w rt now) id
      (ending_entries EXPIRED rt (event_for sha1hex id EXPIRED (next_revision rt)))
| legal_release c : plain_id (cl_watch_id c) = true →
    legal r L _ (release_action c) (cl_watch_id c) no_entries
| legal_synthesize id rt due now : plain_id id = true → repairs_at id rt r → runtime_ok rt = true →
    legal r L _ (synthesize_action id rt due now) id no_entries
| legal_prune id all : plain_id id = true → finished id r L →
    legal r L _ (prune_action id all) id no_entries
| legal_unlist k stale id : k ∈ [INDEX_KEY; ACTIVE_INDEX_KEY] →
    (∀ m, m ∈ stale → plain_id m = true ∧ finished m r L) →
    legal r L _ (srem_all k stale) id no_entries
| legal_delete id : plain_id id = true → legal r L _ (delete_action id) id no_entries
| legal_cleanup now batch id : legal r L _ (cleanup_action now batch) id no_entries
| legal_dispatch m owner lease now : plain_id (mk_watch_id m) = true →
    legal r L _ (dispatch_action sha1hex m owner lease now) (mk_watch_id m) no_entries
| legal_mark dc redispatch now : plain_id (dc_watch_id dc) = true →
    legal r L _ (mark_action sha1hex dc redispatch now) (dc_watch_id dc) no_entries
| legal_release_dispatch dc : plain_id (dc_watch_id dc) = true →
    legal r L _ (release_dispatch_action sha1hex dc) (dc_watch_id dc) no_entries
| legal_acquire owner ms id : legal r L _ (SET_NX_PX LEADER_KEY owner ms) id no_entries
| legal_renew owner ms id : legal r L _ (RENEW_LEADER LEADER_KEY owner ms) id no_entries
| legal_resign owner id : legal r L _ (RELEASE_LEADER LEADER_KEY owner) id no_entries.

Definition extend {A} (id : string) (es : A → list entry) (out : option A) L : log :=
  map (pair id) (logged es out) ++ L.

Inductive rtrace : R → log → Prop :=
| rtrace_init r : (∀ id ro, plain_id id = true → at_ (role_key id ro) r = None) → rgood r → rtrace r []
| rtrace_act r L A (c : lua R A) id es : rtrace r L → legal r L A c id es →
    rtrace (c r).2 (extend id es (c r).1 L)
| rtrace_lapse r r' L : rtrace r L → lapse r r' → rtrace r' L.

(** ** The invariant holds in every history *)

Definition rsound r L : Prop :=
  rgood r ∧ ∀ id, plain_id id = true → rinv sha1hex id r (log_of id L).

Lemma log_of_extend {A} id id0 (es : A → list entry) out L :
  log_of id (extend id0 es out L) = (if decide (id = id0) then logged es out else []) ++ log_of id L.
Proof.
  unfold extend. rewrite log_of_app. f_equal. case_decide as Hid; [subst; apply log_of_own|].
  by apply log_of_other.
Qed.

(** An action that moves only the keys of one watch. *)
Lemma sound_own {A} (c : lua R A) id0 (es : A → list entry) r L :
  rsound r L → plain_id id0 = true → moves keeps c →
  (∀ i, plain_id i = true → i ≠ id0 → moves (quiet i) c) →
  (rinv sha1hex id0 r (log_of id0 L) →
     rinv sha1hex id0 (c r).2 (logged es (c r).1 ++ log_of id0 L)) →
  rsound (c r).2 (extend id0 es (c r).1 L).
Proof.
  intros [Hg Hi] Hp Hk Hq Hown. split; [by apply Hk|]. intros id Hid. rewrite log_of_extend.
  case_decide as E; [subst; auto|]. cbn. eapply rinv_quiet; [by apply Hi|]. by apply Hq.
Qed.

(** An action without entries after which every watch is as before. *)
Lemma sound_silent {A} (c : lua R A) id0 r L :
  rsound r L → rgood (c r).2 →
  (∀ id, plain_id id = true → rinv sha1hex id r (log_of id L) → rinv sha1hex id (c r).2 (log_of id L)) →
  rsound (c r).2 (extend id0 no_entries (c r).1 L).
Proof.
  intros [Hg Hi] Hg' Hs. split; [done|]. intros id Hid. rewrite log_of_extend.
  replace (if decide (id = id0) then logged no_entries (c r).1 else []) with (@nil entry)
    by (case_decide; [destruct (c r).1|]; done). apply Hs; auto.
Qed.

Lemma unlist_ok k stale r : k ∈ [INDEX_KEY; ACTIVE_INDEX_KEY] →
  (∀ m, m ∈ stale → plain_id m = true) → rgood r →
  rgood (srem_all k stale r).2 ∧
  (∀ ro id, plain_id id = true → at_ (role_key id ro) (srem_all k stale r).2 = at_ (role_key id ro) r) ∧
  (∀ id, plain_id id = true → id ∉ stale → quiet id r (srem_all k stale r).2).
Proof.
  intros Hk. revert r. induction stale as [|m stale IH]; intros r Hp Hg.
  { split_and!; [done|done|]. intros. reflexivity. }
  assert (plain_id m = true) as Hm by (apply Hp; set_solver).
  pose proof (fp_SREM _ _ (keeps_footprint (R := R) m Hm) k r Hk Hg) as Hg1.
  destruct (IH (SREM k m r)) as (Hg2 & Ha2 & Hq2); [set_solver|done|].
  cbn [srem_all]. unfold mbind, lua_bind, lua_write. cbn. split_and!; [done|..].
  - intros ro id Hid. rewrite Ha2 by done. rewrite at_SREM. apply decide_index; [done|].
    unfold index_keys. set_solver.
  - intros id Hid Hni. apply not_elem_of_cons in Hni as [Hne Hni].
    etrans; [|by apply Hq2]. apply (fp_SREM _ _ (quiet_footprint (R := R) id m Hid Hm Hne)); done.
Qed.

(** The leader key is nobody's. *)
Lemma leader_ok {A} (c : lua R A) r :
  (∀ k, k ≠ LEADER_KEY → at_ k (c r).2 = at_ k r) → rgood r →
  rgood (c r).2 ∧ ∀ i, plain_id i = true → quiet i r (c r).2.
Proof.
  intros Hat Hg. split.
  - eapply keeps_at; [|exact Hg]. intros k Hk. apply Hat. intros ->.
    revert Hk. rewrite !elem_of_cons. intros [Hk|[Hk|[Hk|Hk]]]; done || set_solver.
  - intros i Hi. apply (quiet_index i LEADER_KEY); [done|unfold index_keys; set_solver|done|].
    intros Hk. exfalso. revert Hk. rewrite !elem_of_cons. intros [Hk|[Hk|Hk]]; done || set_solver.
Qed.

Lemma set_px_elsewhere k v px r k' : k' ≠ k → at_ k' (call_SET_PX k v px r).2 = at_ k' r.
Proof.
  intros Hne. unfold call_SET_PX. destruct (Z.leb_spec px 0); [done|]. cbn.
  by rewrite at_SET_PX, decide_False.
Qed.

Lemma leader_elsewhere r owner ms k : k ≠ LEADER_KEY →
  at_ k (SET_NX_PX LEADER_KEY owner ms r).2 = at_ k r ∧
  at_ k (RENEW_LEADER LEADER_KEY owner ms r).2 = at_ k r ∧
  at_ k (RELEASE_LEADER LEADER_KEY owner r).2 = at_ k r.
Proof.
  intros Hne. pose proof (set_px_elsewhere LEADER_KEY owner ms r k Hne) as Hs. split_and!.
  - unfold SET_NX_PX, mbind, lua_bind, lua_read, mret, lua_ret. destruct (EXISTS LEADER_KEY r); [done|].
    by destruct (call_SET_PX LEADER_KEY owner ms r) as [[]].
  - unfold RENEW_LEADER, mbind, lua_bind, lua_read, mret, lua_ret. case_bool_decide; [|done].
    by destruct (call_SET_PX LEADER_KEY owner ms r) as [[]].
  - unfold RELEASE_LEADER, mbind, lua_bind, lua_read, lua_write, mret, lua_ret.
    case_bool_decide; [|done]. cbn. by rewrite at_DEL, decide_False.
Qed.

(** Frame and good indexes follow from the footprint of the action. *)
Lemma sound_footprint {A} (c : lua R A) id0 (es : A → list entry) r L :
  rsound r L → plain_id id0 = true →
  (∀ P, PreOrder P → footprint P id0 → moves P c) →
  (rgood r → rinv sha1hex id0 r (log_of id0 L) →
     rinv sha1hex id0 (c r).2 (logged es (c r).1 ++ log_of id0 L)) →
  rsound (c r).2 (extend id0 es (c r).1 L).
Proof.
  intros Hs Hp Hm Hown. apply sound_own; [done|done|..].
  - apply Hm; [exact _|by apply keeps_footprint].
  - intros i Hi Hne. apply Hm; [exact _|by apply quiet_footprint].
  - apply Hown. by apply Hs.
Qed.

(** The same for an action that adds nothing to the history. *)
Lemma sound_unlogged {A} (c : lua R A) id0 r L :
  rsound r L → plain_id id0 = true →
  (∀ P, PreOrder P → footprint P id0 → moves P c) →
  (rinv sha1hex id0 r (log_of id0 L) → rinv sha1hex id0 (c r).2 (log_of id0 L)) →
  rsound (c r).2 (extend id0 no_entries (c r).1 L).
Proof.
  intros Hs Hp Hm Hown. apply sound_footprint; [done..|]. intros _ Hi.
  by destruct (c r).1; apply Hown.
Qed.

Lemma sound_act r L A (c : lua R A) id es : rsound r L → legal r L A c id es →
  rsound (c r).2 (extend id es (c r).1 L).
Proof.
  intros Hs Hl. pose proof Hs as [Hg Hi].
  destruct Hl as [A f id|w rt Hp Hw Hrev Hrok Hc|id win owner lease ign now Hp Ho Hf He
    |c now Hp Hc|c w rt d now Hp Hc Hid Hrok|id w rt now Hp [Hid Hseen]|id rt Hp Hrok
    |id w rt now Hp [Hid Hseen]|c Hp|id rt due now Hp Hrep Hrok|id all Hp [Hc Hd]
    |k stale id Hk Hst|id Hp|now batch id|m owner lease now Hp|dc redispatch now Hp|dc Hp
    |owner ms id|owner ms id|owner id].
  - by apply sound_silent.
  - apply sound_footprint; [done..|intros P ? fp; by apply (create_moves P _ fp)|]. intros. by apply rinv_created.
  - apply sound_footprint; [done..|intros P ? fp; by apply (claim_moves P _ fp)|]. intros. by apply rinv_claimed.
  - apply sound_footprint; [done..|intros P ? fp; by apply (begin_moves P _ fp)|]. intros. by apply rinv_begun.
  - apply sound_footprint; [done..|intros P ? fp; by apply (commit_moves sha1hex P _ fp)|]. intros. by apply rinv_committed.
  - apply sound_footprint; [done..|intros P ? fp; by apply (cancel_moves retention P _ fp)|]. intros. apply rinv_cancelled; [done..|].
    split; [done|]. destruct rt; [done|]. by destruct Hseen.
  - apply sound_footprint; [done..|intros P ? fp; by apply (pending_moves P _ fp)|]. intros. by apply rinv_pending.
  - apply sound_footprint; [done..|intros P ? fp; by apply (expire_moves sha1hex retention P _ fp)|]. intros. apply rinv_expired; [done..|].
    split; [done|]. destruct rt; [done|]. by destruct Hseen.
  - apply sound_unlogged; [done..|intros P ? fp; by apply (release_moves P _ fp)|]. by apply rinv_released.
  - apply sound_unlogged; [done..|intros P ? fp; by apply (synthesize_moves P _ fp)|]. intros. by apply rinv_synthesized.
  - apply sound_unlogged; [done..|intros P ? fp; by apply (prune_moves P _ fp)|]. intros. by apply rinv_pruned.
  - destruct (unlist_ok k stale r Hk) as (Hg' & Ha & Hq); [by intros m Hm; apply Hst|done|].
    apply sound_silent; [done..|]. intros i Hp Hinv.
    destruct (decide (i ∈ stale)) as [Hin|Hni]; [|eapply rinv_quiet; [done|by apply Hq]].
    destruct (Hst i Hin) as (_ & Hc & Hd). apply (rinv_dead _ i r); try done. by apply (Ha RDoc).
  - apply sound_unlogged; [done..|intros P ? fp; by apply (delete_moves P _ fp)|]. by apply rinv_deleted.
  - destruct (cleanup_ok sha1hex now batch r Hg) as [Hg' Hc]. apply sound_silent; [done..|]. intros i Hp. by apply Hc.
  - apply sound_silent; [done|exact (dispatch_moves sha1hex keeps _ (keeps_footprint _ Hp) m owner lease now eq_refl r Hg)|].
    intros i Hp' Hinv. eapply rinv_quiet; [done|]. exact (quiet_dispatch sha1hex i _ Hp' Hp m owner lease now eq_refl r).
  - apply sound_silent; [done|exact (mark_moves sha1hex keeps _ (keeps_footprint _ Hp) dc redispatch now eq_refl r Hg)|].
    intros i Hp' Hinv. eapply rinv_quiet; [done|]. exact (quiet_mark sha1hex i _ Hp' Hp dc redispatch now eq_refl r).
  - apply sound_silent; [done|exact (release_dispatch_moves sha1hex keeps _ (keeps_footprint _ Hp) dc eq_refl r Hg)|].
    intros i Hp' Hinv. eapply rinv_quiet; [done|]. exact (quiet_release_dispatch sha1hex i _ Hp' Hp dc eq_refl r).
  - destruct (leader_ok (SET_NX_PX LEADER_KEY owner ms) r) as [Hg' Hq]; [|done|].
    { intros k Hk. by apply leader_elsewhere. }
    apply sound_silent; [done..|]. intros. eapply rinv_quiet; eauto.
  - destruct (leader_ok (RENEW_LEADER LEADER_KEY owner ms) r) as [Hg' Hq]; [|done|].
    { intros k Hk. by apply leader_elsewhere. }
    apply sound_silent; [done..|]. intros. eapply rinv_quiet; eauto.
  - destruct (leader_ok (RELEASE_LEADER LEADER_KEY owner) r) as [Hg' Hq]; [|done|].
    { intros k Hk. by apply (leader_elsewhere r owner 1). }
    apply sound_silent; [done..|]. intros. eapply rinv_quiet; eauto.
Qed.

Lemma rtrace_sound r L : rtrace r L → rsound r L.
Proof.
  induction 1 as [r Hn Hg|r L A c id es _ Hs Hl|r r' L _ [Hg Hi] Hlapse].
  - split; [done|]. intros id Hid. split; [done|set_solver|..].
    + intros _. split; [done|]. intros ro _. by apply Hn.
    + intros e He. pose proof (Hn id RDoc Hid) as E. cbn in E. congruence.
  - by apply sound_act.
  - split; [|intros id Hid; eapply rinv_lapse; [exact Hg|by apply Hi|done]]. destruct Hg as [Hs Ht]. split.
    + intros k Hk. destruct (lapse_at _ _ Hlapse k) as [->|[Hv _]]; [by apply Hs|].
      unfold volatile in Hv. destruct (Hs k Hk) as [E|[s E]]; by rewrite E in Hv.
    + intros m s. unfold ZSCORE, scores_at.
      destruct (lapse_at _ _ Hlapse TERMINAL_INDEX_KEY) as [->|[_ ->]]; [apply Ht|].
      by rewrite lookup_empty.
Qed.

(** ** Properties *)

Lemma rtrace_log r L id : rtrace r L → plain_id id = true → log_ok sha1hex id (log_of id L).
Proof. intros [_ Hi]%rtrace_sound Hp. by apply Hi. Qed.

(** C20 (Redis: no lost update). On Redis, too, a committed poll was claimed
    before, no other transition of the watch happened between its claim and
    its commit, a claim commits at most once, and a terminal transition is the
    last of its watch - whatever the clocks of the workers read, whichever
    keys expired, and although each cancellation and expiry is computed from
    documents read earlier. *)
Theorem redis_no_lost_update r L id l1 rev st by_claim ev l2 :
  rtrace r L → plain_id id = true →
  log_of id L = l1 ++ Done rev st by_claim ev :: l2 →
  (∀ c, by_claim = Some c →
     (∃ l3 l4, l2 = l3 ++ Issued c :: l4 ∧ rev = rev_of c + 1 ∧
        ∀ rev' st' by' ev', Done rev' st' by' ev' ∉ l3) ∧
     (∀ rev' st' ev', Done rev' st' (Some c) ev' ∉ l1 ++ l2)) ∧
  (is_terminal st = true → l1 = [] ∧ ev = event_for sha1hex id st rev).
Proof.
  intros Ht Hp Hl. pose proof (rtrace_log _ _ _ Ht Hp) as Hok. rewrite Hl in Hok. split.
  - intros c ->. split; [by eapply history_commit|]. intros rev' st' ev' [Hin|Hin]%elem_of_app.
    + destruct (list_elem_of_split _ _ Hin) as (a & b & ->). rewrite <- app_assoc in Hok.
      cbn in Hok. apply (history_once _ _ _ _ _ _ rev st ev Hok). set_solver.
    + by apply (history_once _ _ _ _ _ _ rev' st' ev' Hok).
  - intros Hst. assert (l1 = []) as -> by by eapply history_terminal. split; [done|].
    by destruct Hok as [(_ & _ & _ & -> & _) _].
Qed.

(** What a commit of claim [c] finds under the keys of its watch. *)
Definition commit_allowed c now r : Prop :=
  GET (_key (cl_watch_id c)) r = Some (watch_json (cl_watch c)) ∧
  watch_terminal (cl_watch c) = false ∧
  (∃ rt, GET (_runtime_key (cl_watch_id c)) r = Some (runtime_json rt) ∧ rt_revision rt = rev_of c) ∧
  holds (cl_watch_id c) (token_of c) (cl_owner_id c) now r = true.

Lemma commit_allowed_live c w rt n now r l : rinv sha1hex (cl_watch_id c) r l →
  rlive (cl_watch_id c) w rt n r l → Issued c ∈ l → watch_terminal w = false →
  at_ (_key (cl_watch_id c)) r = Some (VString (watch_json w), false) →
  commit_allowed c now r ↔
    bool_decide (rt_revision rt = rev_of c) && holds (cl_watch_id c) (token_of c) (cl_owner_id c) now r = true.
Proof.
  intros Hi Hl Hc Hw Ed. unfold commit_allowed. rewrite andb_true_iff, bool_decide_eq_true.
  rewrite (live_runtime _ _ _ _ _ _ Hl). split.
  - intros (_ & _ & (rt' & [= E] & <-) & Hh). split; [|done].
    pose proof (parse_runtime_ok rt (rl_valid _ _ _ _ _ _ Hl)) as Hpr. rewrite E in Hpr.
    by apply parse_runtime_json in Hpr as ->.
  - intros [E Hh]. destruct (holds_newest _ _ _ _ _ _ _ _ _ Hi Hl Hc E Hh) as [_ ->].
    split_and!; [apply GET_at; eauto|done|eauto|done].
Qed.

(** A commit on a live watch that keeps it active. *)
Lemma commit_live c w w0 rt rt0 n d now r l : rlive (cl_watch_id c) w0 rt0 n r l →
  plain_id (cl_watch_id c) = true → watch_terminal w0 = false → watch_terminal w = false →
  at_ (_key (cl_watch_id c)) r = Some (VString (watch_json w0), false) →
  commit_action sha1hex c w rt d now r =
    if bool_decide (rt_revision rt0 = rev_of c) && holds (cl_watch_id c) (token_of c) (cl_owner_id c) now r
    then (Some COMMITTED, (commit_action sha1hex c w rt d now r).2)
    else (Some CS_FENCED, r).
Proof.
  intros Hl Hp Hw0 Hw Ed. unfold commit_action, COMMIT_WINDOW. lua_step.
  rewrite (proj2 (GET_at _ _ _) (ex_intro _ _ Ed)). cbn. rewrite !is_active_json, Hw0. cbn.
  rewrite (live_runtime _ _ _ _ _ _ Hl). cbn.
  rewrite (guard_spec _ _ _ _ _ _ _ _ _ now Hl). cbn. unfold rev_of, token_of.
  destruct (bool_decide _ && _); cbn; [|done]. rewrite Hw. cbn.
  set (stored := stored_runtime c rt _). by destruct (rt_window_id stored), (rt_scheduled_for stored).
Qed.

Lemma commit_effect c w rt d now r : plain_id (cl_watch_id c) = true → watch_terminal w = false →
  (commit_action sha1hex c w rt d now r).1 = Some COMMITTED →
  let r' := (commit_action sha1hex c w rt d now r).2 in
  GET (_key (cl_watch_id c)) r' = Some (watch_json w) ∧
  GET (_runtime_key (cl_watch_id c)) r' =
    Some (runtime_json (stored_runtime c rt (fst ∘ fst <$> d))) ∧
  GET (_claim_key (cl_watch_id c)) r' = None.
Proof.
  intros Hp Hw. cbn zeta. unfold commit_action, COMMIT_WINDOW. lua_step.
  set (id := cl_watch_id c) in *. set (stored := stored_runtime c rt (fst ∘ fst <$> d)).
  destruct (GET (_key id) r) as [raw|]; [|done]. cbn. destruct (is_active raw); [|done]. cbn.
  destruct (GET (_runtime_key id) r) as [rraw|]; [|done]. cbn.
  assert (∀ k r1, (claim_guard (_claim_key id) rraw k (pretty (cl_token c)) (cl_owner_id c) now r1).2 = r1) as Hg.
  { intros k r1. unfold claim_guard, lua_parse_claim, lua_number. destruct (negb _); [done|]. lua_step.
    destruct (GET (_claim_key id) r1) as [v|]; [|done]. cbn.
    destruct (parse_claim v) as [[[? ?] e]|]; [|done]. cbn.
    by destruct (negb _ || negb _), e. }
  specialize (Hg (pretty (rt_revision (cl_runtime c))) r).
  destruct (claim_guard _ _ _ _ _ _ r) as [[[]|] r1]; cbn in *; subst r1; [|done..]. rewrite Hw. cbn.
  destruct (rt_window_id stored), (rt_scheduled_for stored); cbn; intros _; unfold GET; at_simp; done.
Qed.

(** In every history, the commit of an issued
    claim is accepted exactly when the stored document is active and is still
    the one the claim saw, the sidecar has the revision it saw, and the claim
    key carries its owner and token with time left; then document and sidecar
    become the new ones and the claim is given up.  Otherwise nothing changes
    and the status says whether the watch is gone, finished, or fenced. *)
Theorem redis_commit_decision r L c w rt d now :
  rtrace r L → plain_id (cl_watch_id c) = true →
  Issued c ∈ log_of (cl_watch_id c) L → watch_terminal w = false →
  let '(code, r') := commit_action sha1hex c w rt d now r in
  (code = Some COMMITTED ↔ commit_allowed c now r) ∧
  (commit_allowed c now r →
     GET (_key (cl_watch_id c)) r' = Some (watch_json w) ∧
     GET (_runtime_key (cl_watch_id c)) r' =
       Some (runtime_json (stored_runtime c rt (fst ∘ fst <$> d))) ∧
     GET (_claim_key (cl_watch_id c)) r' = None) ∧
  (¬ commit_allowed c now r → r' = r ∧
     code = Some (match GET (_key (cl_watch_id c)) r with
                  | None => CS_UNKNOWN
                  | Some raw => if is_active raw then CS_FENCED else CS_TERMINAL
                  end)).
Proof.
  intros Ht Hp Hc Hw'. apply rtrace_sound in Ht as [_ Hi]. specialize (Hi _ Hp).
  destruct (commit_action sha1hex c w rt d now r) as [code r'] eqn:Ec.
  pose proof (commit_effect c w rt d now r Hp Hw') as Heff. rewrite Ec in Heff. cbn zeta in Heff.
  destruct (rinv_cases _ _ _ _ Hi) as [Hd|(w0 & rt0 & n & Ed & Hid & Hw & Hl)].
  - assert (¬ commit_allowed c now r) as Hno.
    { intros (E & Hcw & _). apply Hd in E. by rewrite is_active_json, Hcw in E. }
    revert Ec. destruct (dead_get _ _ Hd) as [E|(raw & E & Ha)];
      unfold commit_action, COMMIT_WINDOW; lua_step; rewrite E; cbn; rewrite ?Ha; cbn;
      intros [= <- <-]; naive_solver.
  - pose proof (commit_allowed_live c w0 rt0 n now r _ Hi Hl Hc Hw Ed) as Hiff.
    rewrite (commit_live c w w0 rt rt0 n d now r _ Hl Hp Hw Hw' Ed) in Ec.
    rewrite (proj2 (GET_at _ _ _) (ex_intro _ _ Ed)), is_active_json, Hw.
    destruct (bool_decide _ && _); injection Ec as <- Er; naive_solver.
Qed.

(** At any moment at most one of all the claims
    ever issued on a watch would be let through by the guard of a commit,
    whatever each worker reads off its clock. *)
Theorem redis_single_owner r L id c1 c2 now1 now2 :
  rtrace r L → plain_id id = true →
  Issued c1 ∈ log_of id L → Issued c2 ∈ log_of id L →
  commit_allowed c1 now1 r → commit_allowed c2 now2 r → c1 = c2.
Proof.
  intros Ht Hp Hc1 Hc2 Ha1 Ha2. pose proof (rtrace_log _ _ _ Ht Hp) as Hlog.
  apply rtrace_sound in Ht as [_ Hi]. specialize (Hi _ Hp).
  assert (∀ c, Issued c ∈ log_of id L → cl_watch_id c = id) as Hid.
  { intros c Hc. destruct (list_elem_of_split _ _ Hc) as (a & b & El). rewrite El in Hlog.
    by apply log_ok_split in Hlog as (_ & ? & _). }
  assert (∀ c now, Issued c ∈ log_of id L → commit_allowed c now r → newest c (log_of id L)) as Hnew.
  { intros c now Hc Ha. pose proof (Hid c Hc) as Ec. subst id.
    destruct (rinv_cases _ _ _ _ Hi) as [Hd|(w & rt & n & Ed & _ & Hw & Hl)].
    - destruct Ha as (E & Hcw & _). apply Hd in E. by rewrite is_active_json, Hcw in E.
    - apply (commit_allowed_live c w rt n now r _ Hi Hl Hc Hw Ed), andb_true_iff in Ha
        as [E%bool_decide_eq_true Hh]. by eapply holds_newest. }
  destruct (Hnew _ _ Hc1 Ha1) as [_ N1], (Hnew _ _ Hc2 Ha2) as [_ N2].
  destruct (N1 _ Hc2), (N2 _ Hc1); congruence || lia.
Qed.

(** C22 (Redis: nothing is forgotten). In every history an active watch has a
    valid sidecar and a fence that no expiry can take away, and both indexes
    list it, so recovery and every listing find it. *)
Theorem redis_active_is_found r L id raw :
  rtrace r L → plain_id id = true → GET (_key id) r = Some raw → is_active raw = true →
  ∃ w rt, raw = watch_json w ∧ w_watch_id w = id ∧ watch_terminal w = false ∧
    GET (_runtime_key id) r = Some (runtime_json rt) ∧ parse_runtime (runtime_json rt) = Some rt ∧
    id ∈ SMEMBERS ACTIVE_INDEX_KEY r ∧ id ∈ SMEMBERS INDEX_KEY r ∧
    ∀ r', lapse r r' → GET (_key id) r' = Some raw ∧
      GET (_runtime_key id) r' = GET (_runtime_key id) r ∧ GET (_fence_key id) r' = GET (_fence_key id) r.
Proof.
  intros Ht Hp Hraw Ha. apply rtrace_sound in Ht as [_ Hi]. specialize (Hi _ Hp).
  destruct (rinv_cases _ _ _ _ Hi) as [Hd|(w & rt & n & Ed & Hid & Hw & Hl)].
  { apply Hd in Hraw. congruence. }
  pose proof (proj2 (GET_at _ _ _) (ex_intro _ _ Ed)) as E. rewrite E in Hraw. injection Hraw as <-.
  exists w, rt. split_and!; try done.
  - by eapply live_runtime.
  - by eapply parse_runtime_ok, rl_valid.
  - apply (rl_index _ _ _ _ _ _ Hl). key_member.
  - apply (rl_index _ _ _ _ _ _ Hl). key_member.
  - intros r' Hlapse.
    assert (∀ k v, at_ k r = Some (v, false) → at_ k r' = at_ k r) as Hk.
    { intros k v Hk. apply lapse_lasting; [done|]. unfold volatile. by rewrite Hk. }
    rewrite <- E. split_and!; apply GET_same.
    + by eapply Hk.
    + eapply Hk, Hl.
    + eapply Hk, Hl.
Qed.

(** ** Nothing revives a finished watch *)

Lemma extend_keeps {A} id0 (es : A → list entry) out L id e :
  e ∈ log_of id L → e ∈ log_of id (extend id0 es out L).
Proof. rewrite log_of_extend. set_solver. Qed.

Lemma rdead_same id r r' : rdead id r → GET (_key id) r' = GET (_key id) r ∨ GET (_key id) r' = None →
  rdead id r'.
Proof. intros Hd [E|E] raw; rewrite E; [apply Hd|done]. Qed.

Lemma rdead_at id r r' : rdead id r → at_ (_key id) r' = at_ (_key id) r → rdead id r'.
Proof. intros Hd E. eapply rdead_same; [done|left; by apply GET_same]. Qed.


Lemma finished_act r L A (c : lua R A) id0 es id : rsound r L → legal r L A c id0 es →
  plain_id id = true → finished id r L → finished id (c r).2 (extend id0 es (c r).1 L).
Proof.
  intros Hs Hl Hp [Hc Hd]. split; [by apply extend_keeps|].
  assert (∀ j, plain_id j = true → id ≠ j → (∀ P, PreOrder P → footprint P j → moves P c) →
    rdead id (c r).2) as Hother.
  { intros j Hj Hne Hm. eapply rdead_at; [done|].
    apply (proj1 (Hm (quiet id) _ (quiet_footprint id j Hp Hj Hne) r) RDoc). set_solver. }
  assert (quiet id r (c r).2 → rdead id (c r).2) as Hquiet.
  { intros Hq. eapply rdead_at; [done|]. apply (proj1 Hq RDoc). set_solver. }
  destruct Hs as [Hg Hi].
  destruct Hl as [A f i|w rt Hj Hw Hrev Hrok Hcr|i win owner lease ign now Hj Ho Hf He
    |cl now Hj Hcl|cl w rt d now Hj Hcl Hid Hrok|i w rt now Hj [Hid Hseen]|i rt Hj Hrok
    |i w rt now Hj [Hid Hseen]|cl Hj|i rt due now Hj Hrep Hrok|i all Hj [Hcr Hdi]
    |k stale i Hk Hst|i Hj|now batch i|m owner lease now Hj|dc redispatch now Hj|dc Hj
    |owner ms i|owner ms i|owner i].
  - done.
  - destruct (decide (id = w_watch_id w)) as [->|Hne]; [done|].
    apply (Hother _ Hj Hne). intros P ? fp. by apply (create_moves P _ fp).
  - destruct (decide (id = i)) as [->|Hne].
    + by destruct (dead_claim i win owner lease ign now r Hd) as [code ->].
    + apply (Hother _ Hj Hne). intros P ? fp. by apply (claim_moves P _ fp).
  - destruct (decide (id = cl_watch_id cl)) as [->|Hne]; [by rewrite dead_begin|].
    apply (Hother _ Hj Hne). intros P ? fp. by apply (begin_moves P _ fp).
  - destruct (decide (id = cl_watch_id cl)) as [->|Hne].
    + by destruct (dead_commit sha1hex cl w rt d now r Hd) as (code & _ & ->).
    + apply (Hother _ Hj Hne). intros P ? fp. by apply (commit_moves sha1hex P _ fp).
  - destruct (decide (id = i)) as [->|Hne].
    + unfold cancel_action. cbn [_terminal_deadlines].
      edestruct (dead_cancel i) as (out & _ & ->); [exact Hd|]. done.
    + apply (Hother _ Hj Hne). intros P ? fp. by apply (cancel_moves retention P _ fp).
  - destruct (decide (id = i)) as [->|Hne].
    + unfold cancel_pending_action. edestruct (dead_cancel i) as (out & _ & ->); [exact Hd|]. done.
    + apply (Hother _ Hj Hne). intros P ? fp. by apply (pending_moves P _ fp).
  - destruct (decide (id = i)) as [->|Hne].
    + unfold expire_action. cbn [_terminal_deadlines].
      edestruct (dead_expire i) as (out & _ & ->); [exact Hd|]. done.
    + apply (Hother _ Hj Hne). intros P ? fp. by apply (expire_moves sha1hex retention P _ fp).
  - eapply rdead_at; [done|]. unfold release_action.
    destruct (release_effect (_claim_key (cl_watch_id cl)) (cl_owner_id cl) (pretty (cl_token cl)) r)
      as [-> | ->]; [done|]. rewrite at_DEL. apply decide_False.
    by intros [_ ?]%(role_key_inj _ _ RClaim RDoc).
  - destruct (decide (id = i)) as [->|Hne]; [by rewrite dead_synthesize|].
    apply (Hother _ Hj Hne). intros P ? fp. by apply (synthesize_moves P _ fp).
  - destruct (decide (id = i)) as [->|Hne].
    + eapply rdead_at; [done|]. unfold prune_action. lua_step. destruct all; lua_step; by at_simp.
    + apply (Hother _ Hj Hne). intros P ? fp. by apply (prune_moves P _ fp).
  - destruct (unlist_ok k stale r Hk) as (_ & Ha & _); [by intros m Hm; apply Hst|done|].
    eapply rdead_at; [done|]. by apply (Ha RDoc).
  - destruct (decide (id = i)) as [->|Hne].
    + eapply rdead_same; [done|right]. unfold delete_action, GET. lua_step. by at_simp.
    + apply (Hother _ Hj Hne). intros P ? fp. by apply (delete_moves P _ fp).
  - destruct (cleanup_ok sha1hex now batch r Hg) as [_ Hc'].
    destruct (Hc' id Hp) as [_ [E|E]]; [by eapply rdead_at|].
    eapply rdead_same; [done|right]. unfold GET. by rewrite E.
  - apply Hquiet. exact (quiet_dispatch sha1hex id _ Hp Hj m owner lease now eq_refl r).
  - apply Hquiet. exact (quiet_mark sha1hex id _ Hp Hj dc redispatch now eq_refl r).
  - apply Hquiet. exact (quiet_release_dispatch sha1hex id _ Hp Hj dc eq_refl r).
  - apply Hquiet, leader_ok; [|done|done]. intros k Hk. by apply leader_elsewhere.
  - apply Hquiet, leader_ok; [|done|done]. intros k Hk. by apply leader_elsewhere.
  - apply Hquiet, leader_ok; [|done|done]. intros k Hk. by apply (leader_elsewhere r owner 1).
Qed.

Lemma finished_lapse r r' L id : finished id r L → lapse r r' → finished id r' L.
Proof.
  intros [Hc Hd] Hl. split; [done|]. eapply rdead_same; [done|].
  destruct (lapse_GET r r' (_key id) Hl) as [|[_ ?]]; auto.
Qed.
End system.
