(* ===== verification/RedisMethods.v ===== *)
(** * The methods of the Redis repository under interference

    [cancel_if_active] and [expire_if_eligible] read documents in one call
    and write in a later one.  Here such a method runs against a server on
    which any other client may act between two calls, and answers may be
    lost.  [careful p K Q] says that [p], knowing [K] of the server and its
    history, issues only legal actions and ends knowing [Q]; the knowledge
    must be stable.  [asking t p Q] says the same of the run itself: each
    action is warranted by the answers [t] the run got so far. *)

From S2P Require Import Prelude Json Calendar ClockTime Schemas Reservation Watch WatchSpec WatchLog.
From S2P Require Import Prog RedisServer WatchScripts RedisWatch RedisKeys RedisHistory RedisSteps RedisTheorems.

Section methods.
Context `{RedisLaws R, LuaHost, !LuaLaws, Documents, !DocumentLaws}.
Context (sha1hex : string → string) (retention : Z).
Implicit Types (r : R) (L : log).
Notation program := (prog (redis R)).
Notation legal := (legal sha1hex retention).
Notation rtrace := (rtrace sha1hex retention).

(** ** The world of a method *)

Definition rworld : Type := R * log.

(** Any other client, or time. *)
Inductive rinterferes : rworld → rworld → Prop :=
| rinterfere r L A (c : lua R A) id es : legal r L A c id es →
    rinterferes (r, L) ((c r).2, extend id es (c r).1 L)
| rexpire r r' L : lapse r r' → rinterferes (r, L) (r', L).

(** A call is answered, or its answer is lost after or before it took
    effect. *)
Inductive rserved : ∀ o : redis_op R, rworld → outcome redis_exn (redis_ans o) → rworld → Prop :=
| rserved_ok r L A (c : lua R A) id es a : legal r L A c id es → (c r).1 = Some a →
    rserved (Exec A c) (r, L) (Ok a) ((c r).2, extend id es (c r).1 L)
| rserved_error r L A (c : lua R A) id es x : legal r L A c id es →
    rserved (Exec A c) (r, L) (Exc x) ((c r).2, extend id es (c r).1 L)
| rserved_down r L A (c : lua R A) x : rserved (Exec A c) (r, L) (Exc x) (r, L)
| rserved_clock w now : rserved Clock w (Ok now) w
| rserved_cancelled w x : rserved Clock w (Exc x) w.

(** ** Knowledge *)

Definition stable (K : R → log → Prop) : Prop :=
  ∀ r L r' L', rtrace r L → rinterferes (r, L) (r', L') → K r L → K r' L'.

Fixpoint careful {A} (p : program A) (K : R → log → Prop) (Q : A → R → log → Prop) : Prop :=
  match p with
  | Ret a => ∀ r L, rtrace r L → K r L → Q a r L
  | Raise _ => True
  | Call o k =>
      match o as o return ((outcome redis_exn (redis_ans o) → program A) → _) with
      | Clock => λ k, ∀ out, careful (k out) K Q
      | Exec B c => λ k,
          (∀ r L, rtrace r L → K r L → ∃ id es, legal r L B c id es) ∧
          (∀ x, careful (k (Exc x)) K Q) ∧
          (∀ a, ∃ K' : R → log → Prop, stable K' ∧ careful (k (Ok a)) K' Q ∧
             ∀ r L id es, rtrace r L → K r L → legal r L B c id es → (c r).1 = Some a →
               K' (c r).2 (extend id es (c r).1 L))
      end k
  end.

Lemma interferes_rtrace r L r' L' : rtrace r L → rinterferes (r, L) (r', L') → rtrace r' L'.
Proof. intros Ht Hi. inversion Hi; subst; [by apply rtrace_act|by eapply rtrace_lapse]. Qed.

Lemma stable_true : stable (λ _ _, True).
Proof. by intros r L r' L'. Qed.

Lemma stable_logged id e : stable (λ _ L, e ∈ log_of id L).
Proof.
  intros r L r' L' _ Hi. inversion Hi; subst; [|done]. by apply extend_keeps.
Qed.

Lemma stable_finished id : plain_id id = true → stable (finished id).
Proof.
  intros Hp r L r' L' Ht Hi Hf. inversion Hi; subst.
  - eapply finished_act; [by eapply rtrace_sound|done..].
  - by eapply finished_lapse.
Qed.

(** One step of the method or of its surroundings. *)
Lemma careful_step {A} (p p' : program A) K Q r L r' L' :
  pstep (Σ := redis R) rserved rinterferes (p, (r, L)) (p', (r', L')) →
  rtrace r L → stable K → K r L → careful p K Q →
  ∃ K', stable K' ∧ K' r' L' ∧ rtrace r' L' ∧ careful p' K' Q.
Proof.
  intros Hst Ht Hs HK Hc. inversion Hst as [q s s' Hi|o k s out s' Hcall]; subst.
  - exists K. split_and!; [done|by eapply Hs|by eapply interferes_rtrace|done].
  - destruct o as [B c|].
    + destruct Hc as (Hl & Hx & Ha).
      (* [rserved] at an [Exec] call *)
      assert (∀ (o : redis_op R) (w : rworld) out (w' : rworld), rserved o w out w' →
        match o as o return outcome redis_exn (redis_ans o) → Prop with
        | Exec B c => λ out,
            (∃ x, out = Exc x ∧ (w' = w ∨ ∃ id es, legal w.1 w.2 B c id es ∧
               w' = ((c w.1).2, extend id es (c w.1).1 w.2))) ∨
            (∃ a id es, out = Ok a ∧ legal w.1 w.2 B c id es ∧ (c w.1).1 = Some a ∧
               w' = ((c w.1).2, extend id es (c w.1).1 w.2))
        | Clock => λ _, w' = w
        end out) as Hinv.
      { intros o w out0 w' []; cbn; eauto 10. }
      specialize (Hinv _ _ _ _ Hcall). cbn in Hinv.
      destruct Hinv as [(x & -> & [[= -> ->]|(id & es & Hleg & [= -> ->])])
                       |(a & id & es & -> & Hleg & Ea & [= -> ->])].
      * by exists K.
      * exists K. split_and!; [done| |by apply rtrace_act|done]. eapply Hs; [done| |done]. by constructor.
      * destruct (Ha a) as (K' & Hs' & Hc' & HK'). exists K'.
        split_and!; [done|by apply HK'|by apply rtrace_act|done].
    + assert ((r', L') = (r, L)) as [= -> ->].
      { clear -Hcall. remember Clock as o. revert Heqo. by destruct Hcall. }
      exists K. by split_and!.
Qed.

Lemma careful_steps {A} (p p' : program A) K Q r L r' L' :
  rtc (pstep (Σ := redis R) rserved rinterferes) (p, (r, L)) (p', (r', L')) →
  rtrace r L → stable K → K r L → careful p K Q →
  ∃ K', stable K' ∧ K' r' L' ∧ rtrace r' L' ∧ careful p' K' Q.
Proof.
  intros Hst. remember (p, (r, L)) as x eqn:Ex. remember (p', (r', L')) as y eqn:Ey.
  revert p r L K Ex. induction Hst as [x|x [p1 [r1 L1]] y Hs _ IH]; intros p r L K -> Ht HS HK Hc.
  - injection Ey as -> -> ->. by exists K.
  - destruct (careful_step _ _ _ _ _ _ _ _ Hs Ht HS HK Hc) as (K1 & ? & ? & ? & ?). by eapply IH.
Qed.

(** ** Rules *)

Lemma careful_mono {A} (p : program A) (K K' : R → log → Prop) Q :
  careful p K Q → (∀ r L, rtrace r L → K' r L → K r L) → careful p K' Q.
Proof.
  revert K K'. induction p as [a|x|o k IH]; intros K K' Hc HK; [|done|].
  { intros r L Ht Hk. apply Hc; [done|]. by apply HK. }
  destruct o as [B c|]; cbn in *.
  - destruct Hc as (Hl & Hx & Ha). split_and!.
    + intros r L Ht Hk. by apply Hl, HK.
    + intros x. by eapply IH.
    + intros a. destruct (Ha a) as (K1 & Hs & Hc & Hk). exists K1. split_and!; [done..|].
      intros r L id es Ht Hk' Hleg E. by apply Hk; [|apply HK|..].
  - intros out. by eapply IH.
Qed.

Lemma careful_bind {A B} (p : program A) (f : A → program B) K Q Q' :
  careful p K Q' → (∀ a, careful (f a) (Q' a) Q) → careful (p ≫= f) K Q.
Proof.
  revert K. induction p as [a|x|o k IH]; intros K Hc Hf; [by apply (careful_mono _ _ _ _ (Hf a))|done|].
  destruct o as [C c|]; cbn in *.
  - destruct Hc as (Hl & Hx & Ha). split_and!; [done|..].
    + intros x. apply IH; auto.
    + intros a. destruct (Ha a) as (K1 & Hs & Hc & Hk). exists K1. split_and!; [done| |done]. apply IH; auto.
  - intros out. apply IH; auto.
Qed.

Lemma careful_read {A B} (f : R → A) (k : outcome redis_exn A → program B) K Q
    (K' : A → R → log → Prop) :
  (∀ a, stable (K' a)) → (∀ a, careful (k (Ok a)) (K' a) Q) → (∀ x, careful (k (Exc x)) K Q) →
  (∀ r L, rtrace r L → K r L → K' (f r) r L) →
  careful (Call (Σ := redis R) (Exec A (lua_read f)) k) K Q.
Proof.
  intros Hs Hg Hx HK. cbn. split_and!; [|done|].
  - intros r L _ _. exists ""%string, no_entries. constructor.
  - intros a. exists (K' a). split_and!; [done..|]. intros r L id es Ht Hk Hl [= <-].
    eapply Hs; [exact Ht|exact (rinterfere r L A (lua_read f) id es Hl)|]. by apply HK.
Qed.

Lemma careful_server {A} (c : lua R A) (K : R → log → Prop) (Q : A → R → log → Prop) :
  (∀ r L, rtrace r L → K r L → ∃ id es, legal r L A c id es) → (∀ a, stable (Q a)) →
  (∀ r L a id es, rtrace r L → K r L → legal r L A c id es → (c r).1 = Some a →
     Q a (c r).2 (extend id es (c r).1 L)) →
  careful (server c) K Q.
Proof.
  intros Hl Hs HQ. cbn. split_and!; [done|done|]. intros a. exists (Q a). split_and!; [done|done|].
  intros r L id es. apply HQ.
Qed.

Lemma careful_clock {B} (g : Z → program B) K Q :
  (∀ now, careful (g now) K Q) → careful (clock ≫= g) K Q.
Proof. intros Hg [now|x]; cbn; [apply Hg|done]. Qed.

Lemma careful_for_first {A B} (l : list A) (body : A → program (option B)) K (Q : B → R → log → Prop) :
  (∀ x, careful (body x) K (λ o, match o with Some b => Q b | None => K end)) →
  careful (for_first l body) K (λ o, match o with Some b => Q b | None => K end).
Proof.
  intros Hb. induction l as [|x l IH]; [by intros r L|]. cbn [for_first].
  eapply careful_bind; [apply Hb|]. intros [b|]; [by intros r L|exact IH].
Qed.

(** ** Reading a document, then its sidecar *)

(** A document that decoded was written by a creation before; one that has
    ended is finished. *)
Definition doc_known (id : string) (w : option Watch) r L : Prop :=
  match w with
  | Some w => if watch_terminal w then finished id r L else Created ∈ log_of id L
  | None => True
  end.

Lemma stable_doc id w : plain_id id = true → stable (doc_known id w).
Proof.
  intros Hp r L r' L' Ht Hi. destruct w as [w|]; [|done]. cbn.
  destruct (watch_terminal w); [by eapply stable_finished|by eapply stable_logged].
Qed.

Lemma read_doc_known id r L : plain_id id = true → rtrace r L →
  doc_known id (_decode id (GET (_key id) r)) r L.
Proof.
  intros Hp Ht. pose proof (rtrace_sound _ _ _ _ Ht) as [_ Hi]. specialize (Hi id Hp).
  destruct (_decode id (GET (_key id) r)) as [w|] eqn:Ew; [|done].
  assert (Created ∈ log_of id L) as Hc.
  { destruct (decide (Created ∈ log_of id L)) as [|Hn]; [done|exfalso].
    destruct (ri_fresh _ _ _ _ Hi Hn) as [_ Hno]. specialize (Hno RDoc ltac:(set_solver)). cbn in Hno.
    unfold _decode, GET in Ew. by rewrite Hno in Ew. }
  unfold doc_known. destruct (watch_terminal w) eqn:Et; [split|]; [done| |done].
  unfold _decode in Ew. destruct (GET (_key id) r) as [raw|] eqn:Eg; [|done]. cbn in Ew.
  destruct (rinv_get _ _ _ _ _ Hi Eg) as (w' & -> & _ & _).
  destruct (parse_watch (watch_json w')) as [w1|] eqn:Ep; [|done]. apply parse_watch_json in Ep as ->.
  cbn in Ew. case_bool_decide; [|done]. injection Ew as ->.
  intros raw E'. rewrite Eg in E'. injection E' as <-. by rewrite is_active_json, Et.
Qed.

Lemma careful_get {B} id (g : option Watch → program B) K Q : plain_id id = true →
  (∀ w, (∀ w', w = Some w' → w_watch_id w' = id) → careful (g w) (doc_known id w) Q) →
  careful (get id ≫= g) K Q.
Proof.
  intros Hp Hg. unfold get.
  apply (careful_read _ _ K Q (λ raw, doc_known id (_decode id raw))); [..|done|].
  - intros raw. by apply stable_doc.
  - intros raw. apply Hg. intros w'. unfold _decode. destruct (raw ≫= parse_watch); [|done].
    case_bool_decide; naive_solver.
  - intros r L Ht _. by apply read_doc_known.
Qed.

(** A sidecar that was missing belongs to a finished watch. *)
Definition pair_known (id : string) (rt : option WatchRuntime) r L : Prop :=
  Created ∈ log_of id L ∧
  match rt with Some rt => runtime_ok rt = true | None => finished id r L end.

Lemma stable_pair id rt : plain_id id = true → stable (pair_known id rt).
Proof.
  intros Hp r L r' L' Ht Hi [Hc Hk]. split; [by eapply stable_logged|].
  destruct rt as [rt|]; [done|]. by eapply stable_finished.
Qed.

Lemma careful_get_runtime {B} id (g : option WatchRuntime → program B) Q : plain_id id = true →
  (∀ rt, careful (g rt) (pair_known id rt) Q) →
  careful (get_runtime id ≫= g) (λ _ L, Created ∈ log_of id L) Q.
Proof.
  intros Hp Hg. unfold get_runtime.
  apply (careful_read _ _ _ _ (λ raw : option string, pair_known id (raw ≫= parse_runtime))); [..|done|].
  - intros raw. by apply stable_pair.
  - intros raw. apply Hg.
  - intros r L Ht Hc. split; [done|]. apply rtrace_sound in Ht as [_ Hi]. specialize (Hi id Hp).
    destruct (GET (_runtime_key id) r ≫= parse_runtime) as [rt|] eqn:E; cbn.
    + destruct (GET (_runtime_key id) r) as [raw|]; [|done]. by eapply parse_runtime_valid.
    + split; [done|]. destruct (rinv_cases _ _ _ _ Hi) as [|(w & rt & n & _ & _ & _ & Hl)]; [done|].
      rewrite (live_runtime _ _ _ _ _ _ Hl) in E. cbn in E.
      by rewrite (parse_runtime_ok rt (rl_valid _ _ _ _ _ _ Hl)) in E.
Qed.

(** From a decoded active document to its sidecar. *)
Lemma careful_sidecar {B} id w (g : option WatchRuntime → program B) Q : plain_id id = true →
  watch_terminal w = false →
  (∀ rt, careful (g rt) (pair_known id rt) Q) →
  careful (get_runtime id ≫= g) (doc_known id (Some w)) Q.
Proof.
  intros Hp Hw Hg. apply (careful_mono _ (λ _ L, Created ∈ log_of id L)); [by apply careful_get_runtime|].
  intros r L _. cbn. by rewrite Hw.
Qed.

Lemma careful_validated {A B} (x : option A) (f : A → B) K (Q : B → R → log → Prop) :
  (∀ a r L, K r L → Q (f a) r L) → careful (a ← validated x; Ret (f a)) K Q.
Proof. intros HQ. destruct x as [a|]; cbn; [|done]. intros r L _. apply HQ. Qed.

(** ** What a reply of an ending script says *)

Definition reply_known (id : string) (out : transition_reply) r L : Prop :=
  match out with TransitionApplied _ | TransitionNoop _ => finished id r L | _ => True end.

Lemma stable_reply id out : plain_id id = true → stable (reply_known id out).
Proof.
  intros Hp r L r' L' Ht Hi. destruct out; try done; by apply (stable_finished id Hp r L r' L' Ht Hi).
Qed.

(** The document an ending script leaves is not active. *)
Definition leaves_dead (id : string) (c : lua R transition_reply) : Prop :=
  ∀ r, match (c r).1 with
       | Some (TransitionApplied _ | TransitionNoop _) => rdead id (c r).2
       | _ => True
       end.

Lemma dead_doc id d r :
  (∃ b, at_ (_key id) r = Some (VString d, b)) ∨ at_ (_key id) r = None →
  is_active d = false → rdead id r.
Proof.
  intros [[b E]|E] Hd raw [b' Eg]%GET_at; rewrite E in Eg; [|done]. by injection Eg as <- _.
Qed.

Lemma cancel_leaves_dead id w rt now : plain_id id = true → leaves_dead id (cancel_action retention id w rt now).
Proof.
  intros Hp r. unfold cancel_action, CANCEL_IF_ACTIVE, end_watch. cbn [_terminal_deadlines]. lua_step.
  destruct (GET (_key id) r) as [raw|] eqn:E; [|done].
  destruct (is_active raw) eqn:Ea; cbn.
  - destruct (revision_moved _ _); cbn; [done|].
    destruct (has (GET (_runtime_key id) r)); cbn;
      (eapply (dead_doc id (watch_json (ended_watch_at CANCELLED now w))); [doc_left|by rewrite is_active_json]).
  - intros raw' E'. congruence.
Qed.

Lemma expire_leaves_dead id w rt now : plain_id id = true → leaves_dead id (expire_action sha1hex retention id w rt now).
Proof.
  intros Hp r. unfold expire_action, EXPIRE_IF_ELIGIBLE, end_watch. cbn [_terminal_deadlines]. lua_step.
  destruct (GET (_key id) r) as [raw|] eqn:E; [|done].
  destruct (is_active raw) eqn:Ea; cbn.
  - destruct (revision_moved _ _); cbn; [done|].
    destruct (has (GET (_runtime_key id) r)), (event_for sha1hex id EXPIRED (next_revision rt)); cbn;
      (eapply (dead_doc id (watch_json (ended_watch_at EXPIRED now w))); [doc_left|by rewrite is_active_json]).
  - intros raw' E'. congruence.
Qed.

Lemma pending_leaves_dead id rt : leaves_dead id (cancel_pending_action id rt).
Proof.
  intros r. unfold cancel_pending_action, CANCEL_IF_ACTIVE. lua_step.
  destruct (GET (_key id) r) as [raw|] eqn:E; [|done].
  destruct (is_active raw) eqn:Ea; cbn.
  - destruct (revision_moved _ _); cbn; [done|]. by destruct (has _).
  - intros raw' E'. congruence.
Qed.

Lemma careful_ending id rt (c : lua R transition_reply) : plain_id id = true → leaves_dead id c →
  (∀ r L, rtrace r L → pair_known id rt r L → ∃ es, legal r L _ c id es) →
  careful (server c) (pair_known id rt) (reply_known id).
Proof.
  intros Hp Hd Hl. apply careful_server.
  - intros r L Ht HK. exists id. by apply Hl.
  - intros out. by apply stable_reply.
  - intros r L out i es Ht HK Hleg E. pose proof (Hd r) as Hdr. rewrite E in Hdr.
    assert (Created ∈ log_of id (extend i es (c r).1 L)) as Hc by (by apply extend_keeps, HK).
    by destruct out.
Qed.

(** ** The read-then-write methods *)

(** An answer that the watch has ended stays true. *)
Definition settled (id : string) (res : TransitionResult) r L : Prop :=
  match tr_status res with APPLIED | NOOP => finished id r L | _ => True end.

Definition round_settled (id : string) (o : option TransitionResult) : R → log → Prop :=
  match o with Some res => settled id res | None => λ _ _, True end.

Lemma careful_cancel_round id : plain_id id = true →
  careful (cancel_round retention id) (λ _ _, True) (round_settled id).
Proof.
  intros Hp. unfold cancel_round. apply careful_get; [done|]. intros [w|] Hid; [|done].
  destruct (watch_terminal w) eqn:Ht; [cbn; by rewrite Ht|].
  apply careful_sidecar; [done..|]. intros rt. eapply (careful_bind _ _ _ _ (reply_known id)).
  - assert (∀ rt, careful (now ← clock; server (cancel_action retention id w rt now)) (pair_known id rt)
      (reply_known id)) as Hc.
    { intros rt0. apply careful_clock. intros now. apply careful_ending; [done|by apply cancel_leaves_dead|].
      intros r L _ [_ HK]. eexists. apply legal_cancel; [done|]. split; [by apply Hid|done]. }
    destruct rt as [rt|]; [|apply Hc]. case_bool_decide; [|apply Hc].
    apply careful_ending; [done|apply pending_leaves_dead|].
    intros r L _ [_ HK]. eexists. by apply legal_pending.
  - intros [[]| | |]; try done; by apply careful_validated.
Qed.

Lemma careful_cancel id : plain_id id = true →
  careful (cancel_if_active retention id) (λ _ _, True) (settled id).
Proof.
  intros Hp. unfold cancel_if_active.
  eapply (careful_bind _ _ _ _ (round_settled id)).
  - eapply (careful_for_first _ _ (λ _ _, True) (settled id)). intros _. by apply careful_cancel_round.
  - by intros [res|] r L.
Qed.

Lemma careful_expire id expected force : plain_id id = true →
  careful (expire_if_eligible sha1hex retention id expected force) (λ _ _, True) (settled id).
Proof.
  intros Hp. unfold expire_if_eligible. apply careful_get; [done|]. intros [w|] Hid; [|done].
  destruct (watch_terminal w) eqn:Ht; [cbn; by rewrite Ht|].
  apply careful_sidecar; [done..|]. intros rt. case_match; [done|].
  assert (careful (now ← clock; out ← server (expire_action sha1hex retention id w rt now);
      match out with
      | TransitionApplied w =>
          expired ← validated (parse_watch w);
          Ret (MkTransition APPLIED (Some expired)
                 (event_for sha1hex id EXPIRED (next_revision rt)) (next_revision rt))
      | TransitionNoop w =>
          stored ← validated (parse_watch w); Ret (MkTransition NOOP (Some stored) None (-1))
      | TransitionRefused TS_FENCED => Ret (MkTransition TS_FENCED None None (-1))
      | _ => Ret (MkTransition TS_UNKNOWN None None (-1))
      end) (pair_known id rt) (settled id)) as Hend.
  { apply careful_clock. intros now. eapply (careful_bind _ _ _ _ (reply_known id)).
    - apply careful_ending; [done|by apply expire_leaves_dead|]. intros r L _ [_ HK]. eexists.
      apply legal_expire; [done|]. split; [by apply Hid|done].
    - intros [[]| | |]; try done; by apply careful_validated. }
  destruct force; [exact Hend|]. cbn. intros [now|x]; [|done]. cbn. by destruct (is_exhausted w now).
Qed.
(** ** What a method may ask of the server

    The other half of the contract is about the method itself: an ending
    action is warranted only by what this very run read just before it. *)

Notation trace := (list (event (redis R))).

Definition read_document (id : string) (raw : option string) : event (redis R) :=
  Ev (Σ := redis R) (Exec _ (lua_read (GET (_key id)))) (Ok raw).
Definition read_sidecar (id : string) (raw : option string) : event (redis R) :=
  Ev (Σ := redis R) (Exec _ (lua_read (GET (_runtime_key id)))) (Ok raw).
Definition read_clock (now : Z) : event (redis R) := Ev (Σ := redis R) Clock (Ok now).
Definition replied (c : lua R transition_reply) (out : transition_reply) : event (redis R) :=
  Ev (Σ := redis R) (Exec transition_reply c) (Ok out).

(** The last two calls returned the document [w] of an active watch and its
    sidecar. *)
Definition has_read (id : string) (t : trace) w (rt : option WatchRuntime) : Prop :=
  ∃ t0 raw raw', t = t0 ++ [read_document id raw; read_sidecar id raw'] ∧
    _decode id raw = Some w ∧ w_status w = ACTIVE ∧ (raw' ≫= parse_runtime) = rt.

(** A cancellation: a booking in flight, as just read, is only told about it;
    otherwise the watch just read ends, at the time just read. *)
Definition may_cancel (id : string) (t : trace) (c : lua R transition_reply) : Prop :=
  (∃ w rt, has_read id t w (Some rt) ∧ rt_phase rt = Some BOOKING ∧ c = cancel_pending_action id rt) ∨
  (∃ t0 w rt now, t = t0 ++ [read_clock now] ∧ has_read id t0 w rt ∧
     (∀ x, rt = Some x → rt_phase x ≠ Some BOOKING) ∧ c = cancel_action retention id w rt now).

(** An expiry: the sidecar just read has the expected revision, and, unless
    forced, the document just read has used up its attempts or its time. *)
Definition may_expire (id : string) (expected : option Z) (force : bool) (t : trace)
    (c : lua R transition_reply) : Prop :=
  ∃ t0 w rt now, has_read id t0 w rt ∧
    (∀ n x, expected = Some n → rt = Some x → rt_revision x = n) ∧
    (if force then t = t0 ++ [read_clock now]
     else ∃ now0, t = t0 ++ [read_clock now0; read_clock now] ∧
            (w_max_attempts w <= w_attempts w ∨ w_expires_at w <= now0)) ∧
    c = expire_action sha1hex retention id w rt now.

(** The calls of a method: it reads the document, then the sidecar of an
    active watch, then acts. *)
Inductive warranted (id : string) (ending : trace → lua R transition_reply → Prop) (t : trace)
    : ∀ B, lua R B → Prop :=
| warranted_document : warranted id ending t _ (lua_read (GET (_key id)))
| warranted_sidecar t0 raw w : t = t0 ++ [read_document id raw] → _decode id raw = Some w →
    w_status w = ACTIVE → warranted id ending t _ (lua_read (GET (_runtime_key id)))
| warranted_ending c : ending t c → warranted id ending t _ c.

(** [APPLIED] is answered only to the reply of such an action. *)
Definition answered (ending : trace → lua R transition_reply → Prop) (res : TransitionResult)
    (t : trace) : Prop :=
  tr_status res = APPLIED → ∃ t0 c text, t = t0 ++ [replied c (TransitionApplied text)] ∧
    ending t0 c ∧ is_Some (tr_watch res) ∧ tr_watch res = parse_watch text.

Inductive method (id : string) : program TransitionResult → (trace → lua R transition_reply → Prop) → Prop :=
| method_cancel : method id (cancel_if_active retention id) (may_cancel id)
| method_expire expected force :
    method id (expire_if_eligible sha1hex retention id expected force) (may_expire id expected force).

(** *** The methods keep to it *)

Section asks.
Context (id : string) (ending : trace → lua R transition_reply → Prop).

Definition asks : monitor (redis R) :=
  tracing (Σ := redis R) (λ t o, match o with Exec B c => warranted id ending t B c | Clock => True end).

(** A program in the middle of a method, and what it answers. *)
Definition asking {A} (t : trace) (p : program A) (Q : A → trace → Prop) : Prop :=
  safe asks t p (λ out t, match out with Ok a => Q a t | Exc _ => True end).

Lemma asking_ret {A} t (a : A) (Q : A → trace → Prop) : Q a t → asking t (Ret a) Q.
Proof. done. Qed.

Lemma asking_bind {A B} t (p : program A) (f : A → program B) Q :
  asking t p (λ a t, asking t (f a) Q) → asking t (p ≫= f) Q.
Proof. intros Hp. apply (safe_bind asks). eapply (safe_mono asks); [exact Hp|]. by intros []. Qed.

Lemma asking_get {B} t (g : option Watch → program B) Q :
  (∀ raw, asking (t ++ [read_document id raw]) (g (_decode id raw)) Q) →
  asking t (get id ≫= g) Q.
Proof. intros Hg. split; [constructor|]. intros [raw|x] _; [exact (Hg raw)|exact I]. Qed.

Lemma asking_sidecar {B} t raw w (g : option WatchRuntime → program B) Q :
  _decode id raw = Some w → w_status w = ACTIVE →
  (∀ rt t', has_read id t' w rt → asking t' (g rt) Q) →
  asking (t ++ [read_document id raw]) (get_runtime id ≫= g) Q.
Proof.
  intros Hd Hw Hg. split; [by eapply warranted_sidecar|]. intros [raw'|x] _; [|exact I].
  apply (Hg (raw' ≫= parse_runtime) ((t ++ [read_document id raw]) ++ [read_sidecar id raw'])).
  exists t, raw, raw'. by rewrite <-app_assoc.
Qed.

Lemma asking_clock {B} t (g : Z → program B) Q :
  (∀ now, asking (t ++ [read_clock now]) (g now) Q) → asking t (clock ≫= g) Q.
Proof. intros Hg. split; [exact I|]. intros [now|x] _; [exact (Hg now)|exact I]. Qed.

Lemma asking_server t c (Q : transition_reply → trace → Prop) :
  ending t c → (∀ out, Q out (t ++ [replied c out])) → asking t (server c) Q.
Proof.
  intros Hc HQ. split; [by apply warranted_ending|]. intros [out|x] _; [exact (HQ out)|exact I].
Qed.

Lemma asking_validated {A B} t (x : option A) (f : A → B) (Q : B → trace → Prop) :
  (∀ a, x = Some a → Q (f a) t) → asking t (a ← validated x; Ret (f a)) Q.
Proof. intros HQ. destruct x as [a|]; cbn; [by apply HQ|done]. Qed.

(** The reply decides the answer. *)
Definition reply_of (out : transition_reply) (t : trace) : Prop :=
  ∃ t0 c, t = t0 ++ [replied c out] ∧ ending t0 c.

Lemma reply_applied text w ev rev t : reply_of (TransitionApplied text) t →
  parse_watch text = Some w → answered ending (MkTransition APPLIED (Some w) ev rev) t.
Proof. intros (t0 & c & -> & Hc) Hw _. exists t0, c, text. cbn. rewrite Hw. eauto. Qed.
End asks.

Lemma asking_cancel_round id t :
  asking id (may_cancel id) t (cancel_round retention id)
    (λ o t, match o with Some res => answered (may_cancel id) res t | None => True end).
Proof.
  unfold cancel_round. apply asking_get. intros raw. destruct (_decode id raw) as [w|] eqn:Hd; [|by apply asking_ret].
  destruct (watch_terminal w) eqn:Hw; [by apply asking_ret|]. apply watch_terminal_false in Hw.
  eapply asking_sidecar; [done..|]. intros rt t' Hread. apply asking_bind.
  eapply (safe_mono (asks id (may_cancel id)) _ _ (λ res t, match res with Ok out => reply_of (may_cancel id) out t | Exc _ => True end)).
  - assert ((∀ x, rt = Some x → rt_phase x ≠ Some BOOKING) →
      asking id (may_cancel id) t' (now ← clock; server (cancel_action retention id w rt now)) (reply_of (may_cancel id))) as Hc.
    { intros Hrt. apply asking_clock. intros now.
      assert (may_cancel id (t' ++ [read_clock now]) (cancel_action retention id w rt now)) as Hm by (right; eauto 10).
      apply asking_server; [exact Hm|]. intros out. by eexists _, _. }
    destruct rt as [rt|]; [|by apply Hc]. case_bool_decide as Hb; [|by apply Hc; intros x [= <-]].
    assert (may_cancel id t' (cancel_pending_action id rt)) as Hm by (left; eauto).
    apply asking_server; [exact Hm|]. intros out. by eexists _, _.
  - intros [out|x] t1 Hr; [|exact I]. destruct out as [code|text|text|text].
    + by destruct code; apply asking_ret.
    + apply asking_validated. by intros.
    + by apply asking_ret.
    + apply asking_validated. intros c Hc. by eapply reply_applied.
Qed.

Lemma asking_cancel id :
  asking id (may_cancel id) [] (cancel_if_active retention id) (answered (may_cancel id)).
Proof.
  unfold cancel_if_active. apply asking_bind.
  apply (safe_for_first (asks id (may_cancel id))) with (I := λ _, True); [done| |by intros].
  intros _ t _ _. eapply (safe_mono (asks id (may_cancel id))); [apply asking_cancel_round|].
  by intros [[res|]|x] t'.
Qed.

Lemma asking_expire id expected force :
  asking id (may_expire id expected force) [] (expire_if_eligible sha1hex retention id expected force)
    (answered (may_expire id expected force)).
Proof.
  unfold expire_if_eligible. set (may := may_expire id expected force).
  apply asking_get. intros raw. destruct (_decode id raw) as [w|] eqn:Hd; [|by apply asking_ret].
  destruct (watch_terminal w) eqn:Hw; [by apply asking_ret|]. apply watch_terminal_false in Hw.
  eapply asking_sidecar; [done..|]. intros rt t Hread.
  destruct (match expected, rt with Some n, Some x => negb (rt_revision x =? n) | _, _ => false end) eqn:Hrev;
    [by apply asking_ret|].
  assert (∀ n x, expected = Some n → rt = Some x → rt_revision x = n) as Hexp.
  { intros n x -> ->. by apply negb_false_iff, Z.eqb_eq in Hrev. }
  assert (∀ t', (∀ now, may (t' ++ [read_clock now]) (expire_action sha1hex retention id w rt now)) →
    asking id may t' (now ← clock; out ← server (expire_action sha1hex retention id w rt now);
      match out with
      | TransitionApplied w =>
          expired ← validated (parse_watch w);
          Ret (MkTransition APPLIED (Some expired)
                 (event_for sha1hex id EXPIRED (next_revision rt)) (next_revision rt))
      | TransitionNoop w =>
          stored ← validated (parse_watch w); Ret (MkTransition NOOP (Some stored) None (-1))
      | TransitionRefused TS_FENCED => Ret (MkTransition TS_FENCED None None (-1))
      | _ => Ret (MkTransition TS_UNKNOWN None None (-1))
      end) (answered may)) as Hend.
  { intros t' Hmay. apply asking_clock. intros now. apply asking_bind, asking_server; [apply Hmay|].
    intros [code|text|text|text].
    - by destruct code; apply asking_ret.
    - apply asking_validated. by intros.
    - by apply asking_ret.
    - apply asking_validated. intros c Hc. eapply reply_applied; [|exact Hc]. eexists _, _. split; [done|apply Hmay]. }
  destruct force.
  - apply (Hend t). intros now. exists t, w, rt, now. by split_and!.
  - cbn [negb]. apply asking_bind, asking_clock. intros now0. apply asking_ret.
    destruct (is_exhausted w now0) eqn:Hx; cbn [negb]; [|by apply asking_ret].
    apply Hend. intros now. exists t, w, rt, now. split_and!; [done|done| |done].
    exists now0. rewrite <-app_assoc. split; [done|].
    unfold is_exhausted in Hx. apply orb_true_iff in Hx. rewrite !Z.leb_le in Hx. exact Hx.
Qed.

(** ** Both at once: a method on a server others use *)

(** The world with the calls the method made so far and their answers. *)
Definition recorded (o : redis_op R) (s : rworld * trace) (out : outcome redis_exn (redis_ans o))
    (s' : rworld * trace) : Prop :=
  rserved o s.1 out s'.1 ∧ s'.2 = s.2 ++ [Ev (Σ := redis R) o out].
Definition recorded_interferes (s s' : rworld * trace) : Prop :=
  rinterferes s.1 s'.1 ∧ s'.2 = s.2.

Lemma recorded_forget {A} (p p' : program A) w t w' t' :
  rtc (pstep (Σ := redis R) recorded recorded_interferes) (p, (w, t)) (p', (w', t')) →
  rtc (pstep (Σ := redis R) rserved rinterferes) (p, w) (p', w').
Proof.
  intros Hst. remember (p, (w, t)) as x eqn:Ex. remember (p', (w', t')) as y eqn:Ey.
  revert p w t Ex. induction Hst as [x|x [p1 [w1 t1]] y Hs _ IH]; intros p w t ->.
  - by injection Ey as -> -> ->.
  - eapply rtc_l; [|by eapply IH]. inversion Hs as [q s s' [Hi _]|o k s out s' [Hc _]]; subst.
    + by apply pstep_env.
    + by apply pstep_call.
Qed.

Lemma method_asks id p ending : method id p ending → asking id ending [] p (answered ending).
Proof. intros []; [apply asking_cancel|apply asking_expire]. Qed.

Lemma method_careful id p ending : plain_id id = true → method id p ending →
  careful p (λ _ _, True) (settled id).
Proof. intros Hp []; [by apply careful_cancel|by apply careful_expire]. Qed.

(** A server that nobody else uses, at one time. *)
Definition serve_alone (now : Z) (o : redis_op R) r : outcome redis_exn (redis_ans o) * R :=
  match o as o return outcome redis_exn (redis_ans o) * R with
  | Exec A c => (match (c r).1 with Some a => Ok a | None => Exc ResponseError end, (c r).2)
  | Clock => (Ok now, r)
  end.

(** Its runs are interleavings. *)
Lemma careful_alone {A} (p : program A) K Q now r L t :
  rtrace r L → stable K → K r L → careful p K Q →
  ∃ L' t', rtc (pstep (Σ := redis R) recorded recorded_interferes) (p, ((r, L), t))
    (of_outcome (run (Σ := redis R) (serve_alone now) p r).1,
     (((run (Σ := redis R) (serve_alone now) p r).2, L'), t')).
Proof.
  revert K r L t. induction p as [a|x|o k IH]; intros K r L t Ht Hs HK Hc; [by eexists _, _|by eexists _, _|].
  destruct o as [B c|]; cbn in Hc |- *.
  - destruct Hc as (Hl & Hx & Ha). destruct (Hl r L Ht HK) as (id & es & Hleg).
    destruct (c r).1 as [a|] eqn:E; pose proof (rtrace_act _ _ _ _ _ _ _ _ Ht Hleg) as Ht'.
    + destruct (Ha a) as (K' & Hs' & Hc' & HK').
      assert (K' (c r).2 (extend id es (c r).1 L)) as HK1 by by apply HK'.
      destruct (IH (Ok a) K' _ _ (t ++ [Ev (Σ := redis R) (Exec B c) (Ok a)]) Ht' Hs' HK1 Hc') as (L' & t' & Hrtc).
      exists L', t'. eapply rtc_l; [|exact Hrtc]. apply pstep_call. split; [|done]. cbn.
      by apply rserved_ok.
    + assert (K (c r).2 (extend id es (c r).1 L)) as HK1 by
        by apply (Hs r L); [|apply rinterfere|].
      destruct (IH (Exc ResponseError) K _ _ (t ++ [Ev (Σ := redis R) (Exec B c) (Exc ResponseError)]) Ht' Hs HK1 (Hx _))
        as (L' & t' & Hrtc).
      exists L', t'. eapply rtc_l; [|exact Hrtc]. apply pstep_call. split; [|done]. cbn.
      by apply rserved_error.
  - destruct (IH (Ok now) K r L (t ++ [Ev (Σ := redis R) Clock (Ok now)]) Ht Hs HK (Hc _)) as (L' & t' & Hrtc).
    exists L', t'. eapply rtc_l; [|exact Hrtc]. apply pstep_call. split; [|done]. by apply rserved_clock.
Qed.

Lemma method_alone id p ending now r L : rtrace r L → plain_id id = true → method id p ending →
  ∃ L' t', rtc (pstep (Σ := redis R) recorded recorded_interferes) (p, ((r, L), []))
    (of_outcome (run (Σ := redis R) (serve_alone now) p r).1,
     (((run (Σ := redis R) (serve_alone now) p r).2, L'), t')).
Proof.
  intros Ht Hp Hm. by apply (careful_alone p (λ _ _, True) (settled id)); [| |done|by eapply method_careful].
Qed.

(** C21 (Redis: cancellation and expiry). However a cancellation or an expiry is
    interleaved with other clients, with the loss of its calls and with the
    expiry of keys, the history stays a legal one.  Every action the method is
    about to issue is legal at that moment - what it read before is never
    trusted beyond what the compare-and-set of its script checks - and is
    warranted by what this run just read: it ends a watch only on the document
    of an active watch and its sidecar, a cancellation only tells a booking in
    flight about itself, and an expiry without force needs a document that has
    used up its attempts or its time and, when a revision is expected, a
    sidecar of that revision.  It answers [APPLIED] only if the server applied
    its action, and [APPLIED] or [NOOP] only if the watch is finished, which it
    stays. *)
Theorem redis_methods_are_legal (p p' : program TransitionResult) id ending r L r' L' t :
  rtrace r L → plain_id id = true → method id p ending →
  rtc (pstep (Σ := redis R) recorded recorded_interferes) (p, ((r, L), [])) (p', ((r', L'), t)) →
  rtrace r' L' ∧
  (∀ B (c : lua R B) k, p' = Call (Σ := redis R) (Exec B c) k →
     (∃ i es, legal r' L' B c i es) ∧ warranted id ending t B c) ∧
  (∀ res, p' = Ret res → settled id res r' L' ∧ answered ending res t).
Proof.
  intros Ht Hp Hm Hsteps.
  destruct (careful_steps _ _ _ _ _ _ _ _ (recorded_forget _ _ _ _ _ _ Hsteps) Ht stable_true I
              (method_careful _ _ _ Hp Hm)) as (K & Hs & HK & Ht' & Hc').
  destruct (safe_pstep (asks id ending) recorded recorded_interferes (λ σ s, σ = s.2) p p' [] _ _ _
    ltac:(by intros σ o s out s' -> _ [_ ->]) ltac:(by intros σ s s' -> [_ ->]) Hsteps eq_refl
    (method_asks _ _ _ Hm)) as (σ & Hσ & Hs'). cbn in Hσ. subst σ.
  split_and!; [done| |].
  - intros B c k ->. split; [by apply Hc'|apply Hs'].
  - intros res ->. split; [by apply Hc'|exact Hs'].
Qed.
End methods.
