(* ===== verification/RedisModel.v ===== *)
(** * An executable server

    A finite map from keys to values meets [RedisLaws], decimal text meets
    [LuaLaws], and a codec for sidecars and for a finite set of documents
    meets [DocumentLaws]: the assumptions of the Redis development can hold
    together, and its witnesses run on this server. *)

From S2P Require Import Prelude Sorting Calendar CalendarFacts ClockTime Json Schemas Reservation Watch.
From S2P Require Import RedisServer WatchScripts RedisWatch RedisKeys.

Definition keyspace : Type := gmap string (value * bool).

Definition with_key (k : string) (f : entry_at → entry_at) (r : keyspace) : keyspace :=
  partial_alter f k r.

(** A signed decimal integer, as [int] and [tonumber] read it. *)
Definition decimal (s : string) : option Z :=
  match chars s with
  | "-"%char :: l => Z.opp <$> int_of l
  | l => int_of l
  end.

Definition members_below (max : Z) (z : gmap string Z) : list string :=
  map fst (sort_by snd (List.filter (λ p, p.2 <=? max) (map_to_list z))).

#[export] Instance keyspace_server : RedisServer keyspace := {
  at_ k r := r !! k;
  SET k v r := with_key k (λ _, Some (VString v, false)) r;
  SET_PX k v px r := with_key k (λ _, Some (VString v, true)) r;
  DEL k r := with_key k (λ _, None) r;
  INCR k r :=
    match r !! k with
    | None => (Some 1, with_key k (λ _, Some (VString (pretty 1), false)) r)
    | Some (VString s, b) =>
        match decimal s with
        | Some n => (Some (n + 1), with_key k (λ _, Some (VString (pretty (n + 1)), b)) r)
        | None => (None, r)
        end
    | Some _ => (None, r)
    end;
  PEXPIRE k ms r := with_key k (pexpire ms) r;
  SADD k m r := with_key k (sadd m) r;
  SREM k m r := with_key k (srem m) r;
  ZADD k s m r := with_key k (zadd s m) r;
  ZREM k m r := with_key k (zrem m) r;
  ZRANGEBYSCORE k max r :=
    match r !! k with Some (VZset z, _) => members_below max z | _ => [] end;
  lapse r r' := ∃ gone : gset string,
    (∀ k, k ∈ gone → match r !! k with Some (_, b) => b | None => false end = true) ∧
    ∀ k, r' !! k = if decide (k ∈ gone) then None else r !! k;
}.

(** ** Decimal text *)

Lemma decimal_pretty n : decimal (pretty n) = Some n.
Proof.
  assert (∀ p, decimal (pretty (Npos p)) = Some (Zpos p)) as Hp.
  { intros p. pose proof (int_of_pretty (Zpos p) ltac:(lia)) as Hi. unfold decimal.
    change (pretty (Z.pos p)) with (pretty (Npos p)) in Hi.
    destruct (chars (pretty (Npos p))) as [|c l]; [done|].
    destruct (decide (c = "-"%char)) as [->|Hne]; [done|]. by destruct c as [[][][][][][][][]]. }
  destruct n as [|p|p]; [done|apply Hp|].
  change (Z.opp <$> int_of (chars (pretty (Npos p))) = Some (Z.neg p)).
  change (pretty (Npos p)) with (pretty (Zpos p)). by rewrite int_of_pretty by lia.
Qed.

#[export] Instance decimal_host : LuaHost := { lua_num := pretty; tonumber := decimal }.

#[export] Instance decimal_laws : LuaLaws.
Proof. split; intros n _; [done|apply decimal_pretty]. Qed.

(** ** The laws of the server *)

Lemma members_below_spec max z m :
  m ∈ members_below max z ↔ ∃ s, z !! m = Some s ∧ s <= max.
Proof.
  unfold members_below. rewrite list_elem_of_In, in_map_iff. setoid_rewrite <- list_elem_of_In.
  setoid_rewrite elem_of_sort_by. setoid_rewrite list_elem_of_In. setoid_rewrite filter_In.
  setoid_rewrite <- list_elem_of_In. split.
  - intros ([m' s] & <- & Hin & Hle%Z.leb_le). exists s. cbn in *. split; [|done].
    by apply elem_of_map_to_list.
  - intros (s & Hs & Hle). exists (m, s). split; [done|]. split; [by apply elem_of_map_to_list|].
    by apply Z.leb_le.
Qed.

Lemma filtered_keys_NoDup (P : string * Z → bool) (l : list (string * Z)) :
  NoDup l.*1 → NoDup (map fst (List.filter P l)).
Proof.
  induction l as [|x l IH]; cbn; [intros; constructor|]. rewrite NoDup_cons. intros [Hx Hl].
  destruct (P x); cbn; [|auto]. apply NoDup_cons. split; [|auto].
  rewrite list_elem_of_In, in_map_iff. intros (y & Hy & [Hin _]%filter_In). apply Hx.
  rewrite list_elem_of_fmap. exists y. split; [done|]. by apply list_elem_of_In.
Qed.

Lemma members_below_NoDup max z : NoDup (members_below max z).
Proof.
  unfold members_below.
  assert (map fst (sort_by snd (List.filter (λ p, p.2 <=? max) (map_to_list z)))
            ≡ₚ map fst (List.filter (λ p, p.2 <=? max) (map_to_list z))) as ->
    by (apply Permutation_map, sort_by_perm).
  apply filtered_keys_NoDup, NoDup_fst_map_to_list.
Qed.

Lemma members_below_sorted max z i j mi mj si sj : (i <= j)%nat →
  members_below max z !! i = Some mi → members_below max z !! j = Some mj →
  z !! mi = Some si → z !! mj = Some sj → si <= sj.
Proof.
  unfold members_below. set (l := sort_by snd _). intros Hij Hi Hj Hsi Hsj.
  assert (∀ n m s, map fst l !! n = Some m → z !! m = Some s → l !! n = Some (m, s)) as Hl.
  { intros n m s Hn Hm. change (map fst l) with (fst <$> l) in Hn.
    rewrite list_lookup_fmap in Hn. destruct (l !! n) as [[m' s']|] eqn:E; [|done].
    injection Hn as ->. apply list_elem_of_lookup_2 in E as Hin. unfold l in Hin.
    rewrite elem_of_sort_by, list_elem_of_In, filter_In, <- list_elem_of_In in Hin.
    destruct Hin as [Hin _]. apply elem_of_map_to_list in Hin. congruence. }
  pose proof (Hl _ _ _ Hi Hsi) as Ei. pose proof (Hl _ _ _ Hj Hsj) as Ej.
  destruct (decide (i = j)) as [->|Hne]; [rewrite Ei in Ej; by injection Ej as -> ->; lia|].
  pose proof (sort_by_sorted snd (List.filter (λ p, p.2 <=? max) (map_to_list z))) as Hs. fold l in Hs.
  rewrite <- (take_drop j l) in Hs.
  apply (sorted_app_le snd _ _ (mi, si) (mj, sj) Hs).
  - apply (list_elem_of_lookup_2 _ i). rewrite lookup_take. rewrite decide_True by lia. done.
  - apply (list_elem_of_lookup_2 _ 0%nat). rewrite lookup_drop. by rewrite Nat.add_0_r.
Qed.

Lemma at_with_key k f k' (r : keyspace) :
  with_key k f r !! k' = if decide (k = k') then f (r !! k) else r !! k'.
Proof.
  unfold with_key. case_decide as E; [subst; apply lookup_partial_alter_eq|].
  by apply lookup_partial_alter_ne.
Qed.

#[export] Instance keyspace_laws : RedisLaws keyspace.
Proof.
  split; unfold SET, SET_PX, DEL, PEXPIRE, SADD, SREM, ZADD, ZREM, at_, keyspace_server.
  - intros. apply at_with_key.
  - intros. apply at_with_key.
  - intros. apply at_with_key.
  - intros k r E. cbn. by rewrite E.
  - intros k n b r E. cbn. by rewrite E, decimal_pretty.
  - intros k n k' r r'. unfold INCR, volatile, at_. cbn.
    destruct (r !! k) as [[[s|s|s|s] b]|]; [destruct (decimal s)|..]; intros [= <- <-]; apply at_with_key.
  - intros k k' r r'. unfold INCR. cbn.
    destruct (r !! k) as [[[s|s|s|s] b]|]; [destruct (decimal s)|..]; by intros [= <-].
  - intros. apply at_with_key.
  - intros. apply at_with_key.
  - intros. apply at_with_key.
  - intros. apply at_with_key.
  - intros. apply at_with_key.
  - intros k max r m. unfold ZRANGEBYSCORE, ZSCORE, scores_at, at_. cbn.
    destruct (r !! k) as [[[s|s|z|s] b]|]; [..| |apply members_below_spec| |];
      split; try (by intros Hm; apply elem_of_nil in Hm); by intros (? & Hl & _).
  - intros k max r. unfold ZRANGEBYSCORE. cbn.
    destruct (r !! k) as [[[s|s|z|s] b]|]; try apply NoDup_nil_2. apply members_below_NoDup.
  - intros k max r i j mi mj si sj. unfold ZRANGEBYSCORE, ZSCORE, scores_at, at_. cbn.
    destruct (r !! k) as [[[s|s|z|s] b]|]; try done. apply members_below_sorted.
  - intros r r' (gone & Hv & Hat) k. unfold at_, volatile. cbn. rewrite Hat.
    case_decide; [right|by left]. split; [|done]. by apply Hv.
Qed.

(** ** A codec for sidecars

    Nine fields without a comma, then the window id. *)

Fixpoint cut (c : ascii) (l : list ascii) : option (list ascii * list ascii) :=
  match l with
  | [] => None
  | x :: l' => if Ascii.eqb x c then Some ([], l') else '(a, b) ← cut c l'; Some (x :: a, b)
  end.

Lemma cut_spec c a b : c ∉ a → cut c (a ++ c :: b) = Some (a, b).
Proof.
  induction a as [|x a IH]; cbn [cut app]; intros Ha; [by rewrite Ascii.eqb_refl|].
  destruct (Ascii.eqb_spec x c) as [->|_]; [set_solver|]. by rewrite IH by set_solver.
Qed.

Fixpoint encode (fields : list string) (last : string) : list ascii :=
  match fields with
  | [] => chars last
  | f :: fields' => chars f ++ ","%char :: encode fields' last
  end.

Fixpoint decode (n : nat) (l : list ascii) : option (list string * string) :=
  match n with
  | O => Some ([], of_chars l)
  | S n' => '(f, rest) ← cut "," l; '(fields, last) ← decode n' rest; Some (of_chars f :: fields, last)
  end.

Lemma decode_encode fields last : Forall (λ f, ","%char ∉ chars f) fields →
  decode (length fields) (encode fields last) = Some (fields, last).
Proof.
  induction 1 as [|f fields Hf _ IH]; cbn [decode encode length]; [by rewrite of_chars_chars|].
  rewrite cut_spec by done. cbn [mbind option_bind]. rewrite IH. cbn. by rewrite of_chars_chars.
Qed.

Definition flag_text (b : bool) : string := if b then "t" else "f".
Definition flag_of (s : string) : option bool :=
  if (s =? "t")%string then Some true else if (s =? "f")%string then Some false else None.

Definition opt_text {A} (f : A → string) (o : option A) : string :=
  match o with None => "" | Some a => String "s" (f a) end.
Definition opt_of {A} (f : string → option A) (s : string) : option (option A) :=
  match s with String _ s' => Some <$> f s' | EmptyString => Some None end.

Definition phase_text (p : RuntimePhase) : string := match p with POLLING => "P" | BOOKING => "B" end.
Definition phase_of (s : string) : option RuntimePhase :=
  if (s =? "P")%string then Some POLLING else if (s =? "B")%string then Some BOOKING else None.

Definition runtime_fields (r : WatchRuntime) : list string :=
  [pretty (rt_revision r); flag_text (rt_cancel_requested r); pretty (rt_required_attempts r);
   flag_text (rt_supports_deadline r); pretty (rt_consecutive_outages r);
   pretty (rt_cadence_sequence r); opt_text pretty (rt_scheduled_for r);
   opt_text phase_text (rt_phase r); opt_text pretty (rt_terminal_delete_at r)].

Definition encode_runtime (r : WatchRuntime) : string :=
  of_chars (encode (runtime_fields r) (opt_text id (rt_window_id r))).

Definition decode_runtime (s : string) : option WatchRuntime :=
  match decode 9 (chars s) with
  | Some ([rev; cancel; req; sup; out; cad; sched; phase; del], win) =>
      rev ← decimal rev; cancel ← flag_of cancel; req ← decimal req; sup ← flag_of sup;
      out ← decimal out; cad ← decimal cad; sched ← opt_of decimal sched;
      phase ← opt_of phase_of phase; del ← opt_of decimal del; win ← opt_of Some win;
      Some (MkRuntime rev req sup out cad win sched phase cancel del)
  | _ => None
  end.

Lemma opt_of_text {A} (f : A → string) g o : (∀ a, g (f a) = Some a) → opt_of g (opt_text f o) = Some o.
Proof. intros Hg. destruct o; cbn; [by rewrite Hg|done]. Qed.

Lemma comma_pretty (n : Z) : ","%char ∉ chars (pretty n).
Proof. apply pretty_chars. vm_compute. set_solver. Qed.

Lemma comma_opt (o : option Z) : ","%char ∉ chars (opt_text pretty o).
Proof.
  destruct o as [n|]; cbn; [|apply not_elem_of_nil].
  apply not_elem_of_cons. split; [done|apply comma_pretty].
Qed.

Lemma comma_flag b : ","%char ∉ chars (flag_text b).
Proof. destruct b; vm_compute; set_solver. Qed.

Lemma runtime_fields_plain r : Forall (λ f, ","%char ∉ chars f) (runtime_fields r).
Proof.
  unfold runtime_fields. repeat constructor; try first [apply comma_pretty | apply comma_flag | apply comma_opt].
  destruct (rt_phase r) as [[]|]; vm_compute; set_solver.
Qed.

Lemma decode_encode_runtime r : decode_runtime (encode_runtime r) = Some r.
Proof.
  unfold decode_runtime, encode_runtime. rewrite chars_of_chars.
  change 9%nat with (length (runtime_fields r)).
  rewrite decode_encode by apply runtime_fields_plain. unfold runtime_fields.
  rewrite !decimal_pretty. cbn [mbind option_bind].
  assert (∀ b, flag_of (flag_text b) = Some b) as Hf by by intros [].
  rewrite !Hf. cbn [mbind option_bind].
  rewrite !(opt_of_text pretty) by apply decimal_pretty. cbn [mbind option_bind].
  rewrite (opt_of_text phase_text phase_of) by (intros []; done). cbn [mbind option_bind].
  rewrite (opt_of_text id Some) by done. by destruct r.
Qed.

(** ** A codec for the documents of a table *)

Section documents.
Context (table : list Watch).

Definition table_name (w : Watch) : string :=
  match list_find (w =.) table with Some (i, _) => pretty (Z.of_nat i) | None => "?" end.

Definition encode_watch (w : Watch) : string :=
  of_chars (encode [status_value (w_status w)] (table_name w)).

Definition decode_watch (s : string) : option Watch :=
  snd <$> list_find (λ w, encode_watch w = s) table.

Lemma encode_watch_inj w w' : w' ∈ table → encode_watch w' = encode_watch w → w' = w.
Proof.
  intros Hin E%(f_equal chars). unfold encode_watch in E. rewrite !chars_of_chars in E. cbn in E.
  apply delimited in E as [_ E%chars_inj]; [|by destruct (w_status w'); vm_compute; set_solver
                                             |by destruct (w_status w); vm_compute; set_solver].
  unfold table_name in E.
  destruct (list_find (w' =.) table) as [[i x]|] eqn:E1.
  2: { by apply list_find_None, Forall_forall with (x := w') in E1. }
  apply list_find_Some in E1 as (E1 & <- & _).
  destruct (list_find (w =.) table) as [[j y]|] eqn:E2.
  - apply list_find_Some in E2 as (E2 & <- & _). apply (inj pretty), Nat2Z.inj in E as ->. congruence.
  - exfalso. apply (pretty_chars "?"%char (Z.of_nat i)); [vm_compute; set_solver|].
    rewrite E. vm_compute. set_solver.
Qed.

#[local] Instance model_documents : Documents := {
  watch_json := encode_watch;
  parse_watch := decode_watch;
  runtime_json := encode_runtime;
  parse_runtime s := r ← decode_runtime s; if runtime_ok r then Some r else None;
  cjson_status s := match cut "," (chars s) with Some (st, _) => of_chars st | None => "" end;
  cjson_window_id s := r ← decode_runtime s; rt_window_id r;
  cjson_revision s := match decode_runtime s with Some r => pretty (rt_revision r) | None => "" end;
  cjson_cancel_requested s :=
    match decode_runtime s with Some r => rt_cancel_requested r | None => false end;
}.

#[local] Opaque decode_runtime encode_runtime.

#[local] Instance model_document_laws : DocumentLaws.
Proof.
  split; cbn.
  - intros w w'. unfold decode_watch. destruct (list_find _ table) as [[i x]|] eqn:E; [|done].
    intros [= ->]. apply list_find_Some in E as (E & Ex & _).
    by apply encode_watch_inj, Ex; eapply list_elem_of_lookup_2.
  - intros r r'. rewrite decode_encode_runtime. cbn. destruct (runtime_ok r); congruence.
  - intros s r. destruct (decode_runtime s) as [r0|]; [|done]. cbn.
    destruct (runtime_ok r0) eqn:E; [|done]. by intros [= <-].
  - intros r Hr. rewrite decode_encode_runtime. cbn. by rewrite Hr.
  - intros w. unfold encode_watch. rewrite chars_of_chars. cbn.
    rewrite cut_spec by (destruct (w_status w); vm_compute; set_solver). by rewrite of_chars_chars.
  - intros r. rewrite decode_encode_runtime. done.
  - intros r _. by rewrite decode_encode_runtime.
  - intros r. by rewrite decode_encode_runtime.
Qed.
End documents.
