(* ===== verification/RedisExamples.v ===== *)
(** * Histories on the executable server

    A watch is created, claimed, missed, claimed again and finished; and a
    cancellation whose script runs after another worker was granted its
    booking permit. *)

From S2P Require Import Prelude Calendar Schemas Reservation Watch WatchSpec WatchLog WatchStore WatchStoreTheorems.
From S2P Require Import Prog RedisServer WatchScripts RedisWatch RedisKeys RedisHistory RedisSteps.
From S2P Require Import RedisTheorems RedisMethods RedisModel.

Definition demo_booked : Watch :=
  demo_watch_1 <| w_status := BOOKED |> <| w_next_check_at := None |> <| w_attempts := 2 |>.

Definition demo_table : list Watch :=
  [demo_watch; demo_watch_1; demo_expired; demo_booked; ended_watch CANCELLED (seconds 275) demo_watch_1].

#[local] Instance demo_documents : Documents := model_documents demo_table.
#[local] Instance demo_document_laws : DocumentLaws := model_document_laws demo_table.

Definition demo_id : string := "watch_1".

Notation legal := (legal demo_sha demo_retention).
Notation rtrace := (rtrace demo_sha demo_retention).

(** ** Running actions *)

Definition act {A} (c : lua keyspace A) (es : A → list entry) (w : keyspace * log) : keyspace * log :=
  ((c w.1).2, extend demo_id es (c w.1).1 w.2).

Definition w0 : keyspace * log := (∅, []).
Definition w1 := act (create_action demo_watch demo_runtime) create_entries w0.
Definition demo_claiming (now : Z) (win owner : string) :=
  claim_action (R := keyspace) demo_id win owner (seconds 120) false (_to_ms now).
Definition w2 := act (demo_claiming (seconds 90) "watch_1:0" "worker-a") (claim_entries "watch_1:0" "worker-a") w1.
Definition demo_committing := commit_action (R := keyspace) demo_sha demo_claim_1 demo_watch_1 demo_runtime_1 None (_to_ms (seconds 95)).
Definition w3 := act demo_committing (commit_entries demo_sha demo_claim_1 demo_watch_1) w2.
Definition w4 := act (demo_claiming (seconds 270) "watch_1:1" "worker-b") (claim_entries "watch_1:1" "worker-b") w3.
Definition demo_ending_runtime : WatchRuntime :=
  demo_runtime_1 <| rt_window_id := None |> <| rt_scheduled_for := None |>.
Definition demo_deadlines : option (Z * Z * Z) := Some (_terminal_deadlines demo_retention (seconds 280)).
Definition demo_finishing := commit_action (R := keyspace) demo_sha demo_claim_2 demo_expired demo_ending_runtime demo_deadlines (_to_ms (seconds 280)).
Definition w5 := act demo_finishing (commit_entries demo_sha demo_claim_2 demo_expired) w4.

Lemma w4_log : log_of demo_id w4.2 =
  [Issued demo_claim_2; Done 1 ACTIVE (Some demo_claim_1) None; Issued demo_claim_1; Created].
Proof. vm_compute. reflexivity. Qed.

Lemma w5_log : log_of demo_id w5.2 =
  [] ++ Done 2 EXPIRED (Some demo_claim_2) (Some "sha1:watch_1:EXPIRED:2"%string) ::
  [Issued demo_claim_2; Done 1 ACTIVE (Some demo_claim_1) None; Issued demo_claim_1; Created].
Proof. vm_compute. reflexivity. Qed.

(** ** The history is legal *)

Lemma w0_trace : rtrace w0.1 w0.2.
Proof.
  apply rtrace_init; [done|]. split.
  - intros k _. by left.
  - intros m s. unfold ZSCORE, scores_at.
    change (at_ TERMINAL_INDEX_KEY w0.1) with (@None (value * bool)).
    intros Hm. discriminate Hm.
Qed.

(** The fence of the example holds a small number. *)
Lemma small_fence (r : keyspace) (s : string) (k : Z) : at_ (_fence_key demo_id) r = Some (VString s, false) →
  s = pretty k → 0 <= k < 1000 →
  ∀ n b, at_ (_fence_key demo_id) r = Some (VString (pretty n), b) → lua_exact (n + 1).
Proof.
  intros E -> Hk n b Hn. rewrite E in Hn. injection Hn as Hn%(inj pretty) _. subst n.
  unfold lua_exact. lia.
Qed.

Lemma w1_trace : rtrace w1.1 w1.2.
Proof.
  refine (rtrace_act _ _ _ _ _ _ _ create_entries w0_trace _).
  refine (legal_create _ _ _ _ _ _ _ _ _ _ _); try (vm_compute; reflexivity).
  intros Hin. by apply elem_of_nil in Hin.
Qed.

Lemma w1_fence : at_ (_fence_key demo_id) w1.1 = Some (VString "0", false).
Proof. vm_compute. reflexivity. Qed.

Lemma w3_fence : at_ (_fence_key demo_id) w3.1 = Some (VString "1", false).
Proof. vm_compute. reflexivity. Qed.

Lemma demo_exact now : 0 <= now < 10 ^ 12 → lua_exact (now + lease_ms_of (seconds 120)).
Proof. replace (lease_ms_of (seconds 120)) with 120000 by (vm_compute; reflexivity). unfold lua_exact. lia. Qed.

Lemma w2_trace : rtrace w2.1 w2.2.
Proof.
  refine (rtrace_act _ _ _ _ _ _ _ (claim_entries _ _) w1_trace _).
  apply legal_claim; [vm_compute; reflexivity..| |].
  - by apply (small_fence _ "0" 0 w1_fence).
  - apply demo_exact. vm_compute. split; congruence.
Qed.

Lemma w2_log : log_of demo_id w2.2 = [Issued demo_claim_1; Created].
Proof. vm_compute. reflexivity. Qed.

Lemma w3_trace : rtrace w3.1 w3.2.
Proof.
  refine (rtrace_act _ _ _ _ _ _ _ (commit_entries demo_sha demo_claim_1 demo_watch_1) w2_trace _).
  apply legal_commit; [vm_compute; reflexivity| |vm_compute; reflexivity..].
  change (cl_watch_id demo_claim_1) with demo_id. rewrite w2_log. key_member.
Qed.

Lemma w4_trace : rtrace w4.1 w4.2.
Proof.
  refine (rtrace_act _ _ _ _ _ _ _ (claim_entries _ _) w3_trace _).
  apply legal_claim; [vm_compute; reflexivity..| |].
  - by apply (small_fence _ "1" 1 w3_fence).
  - apply demo_exact. vm_compute. split; congruence.
Qed.

Lemma w5_trace : rtrace w5.1 w5.2.
Proof.
  refine (rtrace_act _ _ _ _ _ _ _ (commit_entries demo_sha demo_claim_2 demo_expired) w4_trace _).
  apply legal_commit; [vm_compute; reflexivity| |vm_compute; reflexivity..].
  change (cl_watch_id demo_claim_2) with demo_id. rewrite w4_log. key_member.
Qed.

(** ** Witnesses *)

Lemma demo_plain : plain_id demo_id = true.
Proof. vm_compute. reflexivity. Qed.

Lemma redis_no_lost_update_witness :
  [] = (@nil entry) ∧ Some "sha1:watch_1:EXPIRED:2"%string = event_for demo_sha demo_id EXPIRED 2.
Proof.
  exact (proj2 (redis_no_lost_update demo_sha demo_retention _ _ demo_id _ 2 EXPIRED _ _ _
                  w5_trace demo_plain w5_log) eq_refl).
Defined.

Lemma demo_holds : commit_allowed demo_claim_2 (_to_ms (seconds 300)) w4.1.
Proof.
  split_and!.
  - vm_compute. reflexivity.
  - reflexivity.
  - exists (demo_runtime_1 <| rt_revision := 1 |>). split; vm_compute; reflexivity.
  - vm_compute. reflexivity.
Qed.

Lemma w4_issued : Issued demo_claim_2 ∈ log_of (cl_watch_id demo_claim_2) w4.2.
Proof. change (cl_watch_id demo_claim_2) with demo_id. rewrite w4_log. key_member. Qed.

Lemma redis_commit_decision_witness :
  ∃ code r', commit_action demo_sha demo_claim_2 demo_watch_1 demo_runtime_1 None
               (_to_ms (seconds 300)) w4.1 = (code, r') ∧ code = Some COMMITTED.
Proof.
  pose proof (redis_commit_decision demo_sha demo_retention _ _ demo_claim_2 demo_watch_1
                demo_runtime_1 None (_to_ms (seconds 300)) w4_trace demo_plain w4_issued eq_refl) as Hd.
  destruct (commit_action _ _ _ _ _ _ _) as [code r']. exists code, r'. split; [reflexivity|].
  exact (proj2 (proj1 Hd) demo_holds).
Defined.

Lemma redis_single_owner_witness : demo_claim_2 = demo_claim_2.
Proof.
  exact (redis_single_owner demo_sha demo_retention _ _ demo_id _ _ _ _ w4_trace demo_plain
           w4_issued w4_issued demo_holds demo_holds).
Defined.

Lemma w4_document : GET (_key demo_id) w4.1 = Some (watch_json demo_watch_1).
Proof. vm_compute. reflexivity. Qed.

Lemma redis_active_is_found_witness : ∃ w, watch_json demo_watch_1 = watch_json w ∧
  demo_id ∈ SMEMBERS ACTIVE_INDEX_KEY w4.1.
Proof.
  destruct (redis_active_is_found demo_sha demo_retention _ _ demo_id _ w4_trace demo_plain
              w4_document (is_active_json demo_watch_1)) as (w & rt & E & _ & _ & _ & _ & Hin & _).
  exists w. exact (conj E Hin).
Defined.

Lemma claim_value_roundtrip_witness :
  parse_claim (claim_value "worker-a" 7 1772323200123) = Some ("worker-a"%string, "7"%string, Some 1772323200123) ∧
  _claim_is_live (Some (claim_value "worker-a" 7 1772323200123)) 1772323200123 = false.
Proof.
  exact (claim_value_roundtrip "worker-a" 7 1772323200123 1772323200123 eq_refl
           (conj eq_refl eq_refl) ltac:(lia) (conj eq_refl eq_refl)).
Defined.

(** The watch of [w4] is cancelled, nobody interfering: the run reads the
    document, the sidecar and the clock, ends the watch and says so. *)
Definition demo_cancel : outcome redis_exn TransitionResult * keyspace :=
  run (Σ := redis keyspace) (serve_alone (seconds 275)) (cancel_if_active demo_retention demo_id) w4.1.

Definition demo_cancelled : TransitionResult :=
  MkTransition APPLIED (Some (ended_watch CANCELLED (seconds 275) demo_watch_1)) None 2.

Definition demo_cancelling p' L' t : Prop :=
  rtc (pstep (Σ := redis keyspace) (recorded demo_sha demo_retention) (recorded_interferes demo_sha demo_retention))
    (cancel_if_active demo_retention demo_id, (w4.1, w4.2, [])) (p', (demo_cancel.2, L', t)).

Lemma demo_cancel_outcome : demo_cancel.1 = Ok demo_cancelled.
Proof. vm_compute. reflexivity. Qed.

Lemma redis_methods_are_legal_witness :
  ∃ L' t, demo_cancelling (Ret (Σ := redis keyspace) demo_cancelled) L' t ∧
    rtrace demo_cancel.2 L' ∧ finished demo_id demo_cancel.2 L' ∧
    ∃ t0 c text, t = t0 ++ [replied c (TransitionApplied text)] ∧ may_cancel demo_retention demo_id t0 c.
Proof.
  destruct (method_alone demo_sha demo_retention demo_id _ _ (seconds 275) _ _ w4_trace demo_plain
              (method_cancel demo_sha demo_retention demo_id)) as (L' & t & Hsteps).
  assert (demo_cancelling (of_outcome (Σ := redis keyspace) demo_cancel.1) L' t) as Hc by exact Hsteps.
  rewrite demo_cancel_outcome in Hc. clear Hsteps. exists L', t.
  destruct (redis_methods_are_legal demo_sha demo_retention _ _ _ _ _ _ _ _ _ w4_trace demo_plain
              (method_cancel demo_sha demo_retention demo_id) Hc) as (Ht & _ & Hret).
  destruct (Hret demo_cancelled eq_refl) as [Hs Ha].
  destruct (Ha eq_refl) as (t0 & c & text & E & Hm & _).
  split; [exact Hc|]. split; [exact Ht|]. split; [exact Hs|]. by exists t0, c, text.
Defined.

(** ** A cancellation between reading and writing

    A server that other clients use: before the n-th call of the method, the
    n-th change of the schedule takes place. *)

Definition interleaved (now : Z) (o : redis_op keyspace) (s : list (keyspace → keyspace) * keyspace)
    : outcome redis_exn (redis_ans o) * (list (keyspace → keyspace) * keyspace) :=
  match o as o return outcome redis_exn (redis_ans o) * _ with
  | Clock => (Ok now, s)
  | Exec A c =>
      let r := match s.1 with f :: _ => f s.2 | [] => s.2 end in
      let '(a, r') := c r in
      (match a with Some a => Ok a | None => Exc ResponseError end, (tail s.1, r'))
  end.

Definition unhindered (r : keyspace) : keyspace := r.

(** The other client is granted the permit of its booking. *)
Definition permit_granted (now : Z) (r : keyspace) : keyspace :=
  (begin_action demo_claim_2 (_to_ms now) r).2.

Definition race : outcome redis_exn TransitionResult * (list (keyspace → keyspace) * keyspace) :=
  run (Σ := redis keyspace) (interleaved (seconds 275)) (cancel_if_active demo_retention demo_id)
    ([unhindered; unhindered; permit_granted (seconds 274)], w4.1).

(** On Redis a cancellation can
    be applied while a booking call is in flight, which the in-memory store
    excludes: [begin_booking] keeps the revision, so a cancellation that read
    the sidecar before the permit was granted passes its compare-and-set; the
    watch ends CANCELLED and the commit of the reservation the provider then
    confirms is refused as TERMINAL. *)
Theorem redis_cancel_overtakes_permit :
  rtrace w4.1 w4.2 ∧
  (begin_action demo_claim_2 (_to_ms (seconds 274)) w4.1).1 = Some GRANTED ∧
  race.1 = Ok (MkTransition APPLIED (Some (ended_watch CANCELLED (seconds 275) demo_watch_1)) None 2) ∧
  (commit_action demo_sha demo_claim_2 demo_booked demo_ending_runtime demo_deadlines
     (_to_ms (seconds 280)) race.2.2).1 = Some CS_TERMINAL.
Proof.
  split; [exact w4_trace|]. split_and!; vm_compute; reflexivity.
Qed.

(** The document and the sidecar are read by two calls: a miss committed in
    between leaves the cancellation with the revision of the new sidecar and
    the fields of the old document, whose attempt is then lost. *)
Definition stale : outcome redis_exn TransitionResult * (list (keyspace → keyspace) * keyspace) :=
  run (Σ := redis keyspace) (interleaved (seconds 100)) (cancel_if_active demo_retention demo_id)
    ([unhindered; λ r, (demo_committing r).2], w2.1).

Lemma redis_cancel_loses_an_attempt :
  GET (_key demo_id) w3.1 = Some (watch_json demo_watch_1) ∧ w_attempts demo_watch_1 = 1 ∧
  GET (_key demo_id) stale.2.2 = Some (watch_json (ended_watch CANCELLED (seconds 100) demo_watch)) ∧
  w_attempts demo_watch = 0.
Proof. split_and!; vm_compute; reflexivity. Qed.
