(* ===== verification/MockScripts.v ===== *)
(** * The shared mock state on Redis
    ([backend/db/repositories/mock_booking_scripts.py] and
    [RedisMockBookingStateRepository] of [mock_booking.py])

    The four scripts as atomic functions of the server and the repository's
    methods as programs over server calls.  Arguments a script passes through
    [tonumber] are integers.  Every key lives under [prefix]. *)

From S2P Require Import Prelude Calendar Reservation Watch Prog Effects RedisServer WatchScripts.

(** ** Keys *)

Section keys.
Context (prefix : string).
Definition pin_key : string := prefix +:+ ":pin".
Definition pinowner_key : string := prefix +:+ ":pinowner".
Definition pinop_key (op : string) : string := prefix +:+ ":pinop:" +:+ op.
Definition slot_key (sid : string) : string := prefix +:+ ":slot:" +:+ sid.
Definition all_key : string := prefix +:+ ":all".
Definition lru_key : string := prefix +:+ ":lru".
Definition booked_key (sid : string) : string := prefix +:+ ":booked:" +:+ sid.
Definition booking_key (key : string) : string := prefix +:+ ":booking:" +:+ key.
Definition bookexp_key : string := prefix +:+ ":bookexp".
Definition tombexp_key : string := prefix +:+ ":tombexp".
End keys.

(** A tombstone: the text before the first bar and the number after it. *)
Definition parse_tombstone `{LuaHost} (tomb : string) : option (string * Z) :=
  '(key, rest) ← find_bar (chars tomb);
  expires ← tonumber (of_chars rest);
  Some (of_chars key, expires).

Inductive book_reply :=
| Replied_EXISTING (booking : string)
| Replied_UNAVAILABLE
| Replied_NOTFOUND
| Replied_BOOKED (conf : string).

Section scripts.
Context `{RedisServer R, !RedisMore R, LuaHost}.
Context (prefix : string).
Notation pin_key := (pin_key prefix).
Notation pinowner_key := (pinowner_key prefix).
Notation pinop_key := (pinop_key prefix).
Notation slot_key := (slot_key prefix).
Notation all_key := (all_key prefix).
Notation lru_key := (lru_key prefix).
Notation booked_key := (booked_key prefix).
Notation booking_key := (booking_key prefix).
Notation bookexp_key := (bookexp_key prefix).
Notation tombexp_key := (tombexp_key prefix).

(** Indexing a [nil] position and comparing [nil] are errors. *)
Definition lua_tombstone (tomb : string) : lua R (string * Z) :=
  match parse_tombstone tomb with Some p => mret p | None => lua_error end.

(** ** [_RECONCILE_PINS] *)

(** [if owner then SREM pinop; HDEL pinowner end] *)
Definition disown (sid : string) : lua R () :=
  owner ← lua_read (HGET pinowner_key sid);
  match owner with
  | Some owner =>
      lua_write (SREM (pinop_key owner) sid);;
      lua_write (HDEL pinowner_key sid)
  | None => mret ()
  end.

(** A slot that still exists returns to the eviction index. *)
Definition evictable_again (sid : string) : lua R () :=
  there ← lua_read (EXISTS (slot_key sid));
  if there : bool then
    score ← lua_read (ZSCORE all_key sid);
    match score with
    | Some score => lua_write (ZADD lru_key score sid)
    | None => mret ()
    end
  else mret ().

Definition reconcile_pin (sid : string) : lua R () :=
  lua_write (ZREM pin_key sid);;
  disown sid;;
  evictable_again sid.

Definition reconcile_pins (now : Z) : lua R () :=
  stale ← lua_read (ZRANGEBYSCORE pin_key now);
  lua_each reconcile_pin stale.

(** ** [PUBLISH_AND_FILTER] *)

Definition pin (op : string) (now pin_ttl : Z) (sid : string) : lua R () :=
  lua_write (ZREM lru_key sid);;
  owner ← lua_read (HGET pinowner_key sid);
  match owner with
  | Some owner =>
      lua_when (negb (bool_decide (owner = op))) (lua_write (SREM (pinop_key owner) sid))
  | None => mret ()
  end;;
  lua_write (HSET pinowner_key sid op);;
  lua_write (SADD (pinop_key op) sid);;
  lua_write (ZADD pin_key (now + pin_ttl) sid);;
  lua_write (PEXPIRE (pinop_key op) pin_ttl).

(** The slot was booked and is still protected. *)
Definition tombstoned (sid : string) (now : Z) : lua R bool :=
  tomb ← lua_read (GET (booked_key sid));
  match tomb with
  | Some tomb => '(_, expires) ← lua_tombstone tomb; mret (now <? expires)
  | None => mret false
  end.

(** An unbooked slot goes: by eviction, or when idle. *)
Definition remove_slot (sid : string) : lua R () :=
  lua_write (ZREM lru_key sid);;
  lua_write (ZREM all_key sid);;
  lua_write (DEL (slot_key sid)).

(** Room for one more slot, by evicting the oldest unpinned one if need be. *)
Definition enter_slot (capacity : Z) : lua R bool :=
  count ← lua_read (ZCARD all_key);
  if capacity <=? count then
    oldest ← lua_read (ZRANGE_0_0 lru_key);
    match oldest with
    | None => mret false
    | Some victim =>
        remove_slot victim;;
        mret true
    end
  else mret true.

(** One round of the loop over the candidates: what joins the result. *)
Definition publish_one (op : string) (now pin_ttl capacity : Z) (sid sjson : string)
    : lua R (option string) :=
  skip ← tombstoned sid now;
  if skip : bool then mret None else
  there ← lua_read (EXISTS (slot_key sid));
  if there : bool then
    lua_write (ZADD all_key now sid);;
    stored ← lua_read (GET (slot_key sid));
    match stored with
    | Some stored => pin op now pin_ttl sid;; mret (Some stored)
    | None => lua_error
    end
  else
    room ← enter_slot capacity;
    if room : bool then
      lua_write (SET (slot_key sid) sjson);;
      lua_write (ZADD all_key now sid);;
      pin op now pin_ttl sid;;
      mret (Some sjson)
    else mret None.

Fixpoint publish_loop (op : string) (now pin_ttl capacity : Z) (candidates : list (string * string))
    : lua R (list string) :=
  match candidates with
  | [] => mret []
  | (sid, sjson) :: candidates' =>
      one ← publish_one op now pin_ttl capacity sid sjson;
      rest ← publish_loop op now pin_ttl capacity candidates';
      mret (option_list one ++ rest)
  end.

Definition PUBLISH_AND_FILTER (op : string) (now pin_ttl capacity : Z)
    (candidates : list (string * string)) : lua R (list string) :=
  reconcile_pins now;;
  publish_loop op now pin_ttl capacity candidates.

(** ** [BOOK_SLOT] *)

(** The booking of [key] while it is protected. *)
Definition protected_booking (key : string) (now : Z) : lua R (option string) :=
  booking ← lua_read (GET (booking_key key));
  match booking with
  | Some booking =>
      pexp ← lua_read (ZSCORE bookexp_key key);
      mret (match pexp with
            | Some pexp => if now <? pexp then Some booking else None
            | None => None
            end)
  | None => mret None
  end.

(** Another key's tombstone protects the slot. *)
Definition taken (sid key : string) (now : Z) : lua R bool :=
  tomb ← lua_read (GET (booked_key sid));
  match tomb with
  | Some tomb =>
      '(tkey, tpexp) ← lua_tombstone tomb;
      mret ((now <? tpexp) && negb (bool_decide (tkey = key)))
  | None => mret false
  end.

Definition store_booking (sid key conf : string) (pms now grace : Z) : lua R () :=
  lua_write (SET (booking_key key) conf);;
  lua_write (ZADD bookexp_key pms key);;
  lua_write (SET (booked_key sid) (key +:+ "|" +:+ lua_num pms));;
  lua_write (ZADD tombexp_key pms sid);;
  lua_write (DEL (slot_key sid));;
  lua_write (ZREM all_key sid);;
  lua_write (ZREM lru_key sid);;
  lua_write (ZREM pin_key sid);;
  disown sid;;
  let ttl := Z.max 1 (pms + grace - now) in
  lua_write (PEXPIRE (booking_key key) ttl);;
  lua_write (PEXPIRE (booked_key sid) ttl).

Definition BOOK_SLOT (sid key conf : string) (pms now grace : Z) : lua R book_reply :=
  booking ← protected_booking key now;
  match booking with
  | Some booking => mret (Replied_EXISTING booking)
  | None =>
      tomb ← taken sid key now;
      if tomb : bool then mret Replied_UNAVAILABLE else
      there ← lua_read (EXISTS (slot_key sid));
      if negb there then mret Replied_NOTFOUND else
      store_booking sid key conf pms now grace;;
      mret (Replied_BOOKED conf)
  end.

(** ** [RELEASE_OPERATION] *)

Definition release_one (op sid : string) : lua R () :=
  owner ← lua_read (HGET pinowner_key sid);
  if bool_decide (owner = Some op) then
    lua_write (ZREM pin_key sid);;
    lua_write (HDEL pinowner_key sid);;
    evictable_again sid
  else mret ().

Definition RELEASE_OPERATION (op : string) : lua R () :=
  slots ← lua_read (SMEMBERS (pinop_key op));
  lua_each (release_one op) (elements slots);;
  lua_write (DEL (pinop_key op)).

(** ** [CLEANUP] *)

(** [LIMIT 0 batch]: a negative count is no limit. *)
Definition limit (batch : Z) (l : list string) : list string :=
  if batch <? 0 then l else take (Z.to_nat batch) l.

Definition drop_booking (key : string) : lua R () :=
  lua_write (DEL (booking_key key));;
  lua_write (ZREM bookexp_key key).

Definition drop_tombstone (sid : string) : lua R () :=
  lua_write (DEL (booked_key sid));;
  lua_write (ZREM tombexp_key sid).

Definition CLEANUP (now idle_cutoff batch : Z) : lua R (Z * Z) :=
  reconcile_pins now;;
  idle ← lua_read (λ r, limit batch (ZRANGEBYSCORE lru_key idle_cutoff r));
  lua_each remove_slot idle;;
  ekeys ← lua_read (λ r, limit batch (ZRANGEBYSCORE bookexp_key now r));
  lua_each drop_booking ekeys;;
  etombs ← lua_read (λ r, limit batch (ZRANGEBYSCORE tombexp_key now r));
  lua_each drop_tombstone etombs;;
  mret (Z.of_nat (length idle), Z.of_nat (length ekeys)).
End scripts.

(** ** [RedisMockBookingStateRepository]

    [MExec] is one atomic server action; slots and confirmations travel as
    JSON text, whose codec is pydantic's. *)

Class SlotDocuments := {
  slot_json : AvailabilitySlot → string;
  parse_slot : string → option AvailabilitySlot;              (* [None]: ValidationError *)
  confirmation_json : BookingConfirmation → string;
  parse_confirmation : string → option BookingConfirmation;
}.

Inductive mock_op (R : Type) := MExec (A : Type) (action : lua R A).
Arguments MExec {R} _ _.
Definition mock_ans {R} (o : mock_op R) : Type := match o with MExec A _ => A end.
Definition mock_redis (R : Type) : sig := Sig (mock_op R) mock_ans exn.
Definition on_server {R A} (action : lua R A) : prog (mock_redis R) A :=
  perform (Σ := mock_redis R) (MExec A action).

(** One atomic action on a server, an error reply being an exception. *)
Definition serve {R} (o : mock_op R) : R → outcome exn (mock_ans o) * R :=
  match o with
  | MExec A action => λ r, match action r with
                           | (Some a, r') => (Ok a, r')
                           | (None, r') => (Exc (OtherError "ResponseError"), r')
                           end
  end.

Definition _CLEANUP_GRACE_SECONDS : Z := seconds 3600.
Definition MOCK_KEY_PREFIX : string := "dibs:mock".

Section repository.
Context `{RedisServer R, !RedisMore R, LuaHost, SlotDocuments}.
Context (prefix : string) (capacity idle_ttl_ms retention_ms pin_ms grace_ms : Z).
Notation program := (prog (mock_redis R)).

Definition ValidationError : exn := OtherError "ValidationError".

Definition valid {A} (x : option A) : program A :=
  match x with Some a => Ret a | None => Raise (Σ := mock_redis R) ValidationError end.

(** [[f(x) for x in xs]] *)
Fixpoint valid_all {A} (f : string → option A) (l : list string) : program (list A) :=
  match l with
  | [] => Ret []
  | raw :: l' => a ← valid (f raw); rest ← valid_all f l'; Ret (a :: rest)
  end.

Definition publish_and_filter (candidates : list AvailabilitySlot) (operation_id : string) (now : Z)
    : program (list AvailabilitySlot) :=
  out ← on_server (PUBLISH_AND_FILTER prefix operation_id (_to_ms now) pin_ms capacity
                     (map (λ s, (sl_slot_id s, slot_json s)) candidates));
  valid_all parse_slot out.

Definition get_booking (key : string) (now : Z) : program (option BookingConfirmation) :=
  raw ← on_server (lua_read (GET (booking_key prefix key)));
  match raw with
  | None => Ret None
  | Some raw =>
      score ← on_server (lua_read (ZSCORE (bookexp_key prefix) key));
      match score with
      | None => Ret None
      | Some score =>
          if score <=? _to_ms now then Ret None
          else c ← valid (parse_confirmation raw); Ret (Some c)
      end
  end.

Definition reconcile_booking (key : string) (booking_permit_id : option string) (now : Z)
    : program ReconciliationResult :=
  booking ← get_booking key now;
  Ret match booking with
      | Some _ => MkReconciliation RC_CONFIRMED booking
      | None => MkReconciliation RC_DEFINITIVELY_ABSENT None
      end.

Definition book_slot (slot_id key : string) (confirmation_factory : AvailabilitySlot → BookingConfirmation)
    (now : Z) : program BookingConfirmation :=
  raw ← on_server (lua_read (GET (slot_key prefix slot_id)));
  confirmation ← match raw with
                 | None => Ret ""
                 | Some raw => slot ← valid (parse_slot raw);
                               Ret (confirmation_json (confirmation_factory slot))
                 end;
  out ← on_server (BOOK_SLOT prefix slot_id key confirmation (_to_ms now + retention_ms) (_to_ms now) grace_ms);
  match out with
  | Replied_BOOKED raw | Replied_EXISTING raw => valid (parse_confirmation raw)
  | Replied_UNAVAILABLE =>
      Raise (Σ := mock_redis R) (SlotUnavailableError ("Mock slot is already booked: " +:+ slot_id))
  | Replied_NOTFOUND =>
      Raise (Σ := mock_redis R) (SlotNotFoundError ("Unknown mock slot: " +:+ slot_id))
  end.

Definition release_operation (operation_id : string) : program () :=
  on_server (RELEASE_OPERATION prefix operation_id).

Definition cleanup (now batch_size : Z) : program (Z * Z) :=
  let now_ms := _to_ms now in
  on_server (CLEANUP prefix now_ms (now_ms - idle_ttl_ms) batch_size).
End repository.
