(* ===== verification/MockKeys.v ===== *)
(** * Keys and values of the Redis mock state

    The keys of the mock state have different names, a key holds one kind of
    value, and a command changes one key.  [wp c E Q r] says that script [c],
    run on server [r], ends with [Q], or with an error reply and [E]. *)

From S2P Require Import Prelude Calendar Reservation Watch RedisServer WatchScripts RedisKeys MockScripts.

(** ** Names *)

Inductive mkey :=
| KPin | KPinOwner | KAll | KLru | KBookExp | KTombExp
| KPinOp (op : string) | KSlot (sid : string) | KBooked (sid : string) | KBooking (key : string).
#[export] Instance mkey_eq_dec : EqDecision mkey.
Proof. solve_decision. Defined.

Definition tail (k : mkey) : string :=
  match k with
  | KPin => ":pin"
  | KPinOwner => ":pinowner"
  | KAll => ":all"
  | KLru => ":lru"
  | KBookExp => ":bookexp"
  | KTombExp => ":tombexp"
  | KPinOp op => ":pinop:" +:+ op
  | KSlot sid => ":slot:" +:+ sid
  | KBooked sid => ":booked:" +:+ sid
  | KBooking key => ":booking:" +:+ key
  end.

Lemma tail_inj a b : tail a = tail b → a = b.
Proof. destruct a, b; cbn; intros Heq; try done; by simplify_eq. Qed.

Section wp.
Context {R : Type}.
Definition wp {A} (c : lua R A) (E : R → Prop) (Q : A → R → Prop) (r : R) : Prop :=
  match c r with (Some a, r') => Q a r' | (None, r') => E r' end.

Lemma wp_bind {A B} (c : lua R A) (f : A → lua R B) E Q r :
  wp c E (λ a, wp (f a) E Q) r → wp (c ≫= f) E Q r.
Proof. unfold wp, mbind, lua_bind. by destruct (c r) as [[a|] r']. Qed.

Lemma wp_mono {A} (c : lua R A) (E : R → Prop) (Q Q' : A → R → Prop) r :
  wp c E Q r → (∀ a r, Q a r → Q' a r) → wp c E Q' r.
Proof. unfold wp. intros H HQ. destruct (c r) as [[a|] r']; auto. Qed.

Lemma wp_read {A} (f : R → A) E (Q : A → R → Prop) r : Q (f r) r → wp (lua_read f) E Q r.
Proof. done. Qed.
Lemma wp_write (f : R → R) E (Q : () → R → Prop) r : Q () (f r) → wp (lua_write f) E Q r.
Proof. done. Qed.
Lemma wp_ret {A} (a : A) E (Q : A → R → Prop) r : Q a r → wp (mret a) E Q r.
Proof. done. Qed.
Lemma wp_error {A} (E : R → Prop) (Q : A → R → Prop) r : E r → wp lua_error E Q r.
Proof. done. Qed.

(** A script that only reads. *)
Definition reads {A} (c : lua R A) : Prop := ∀ r, (c r).2 = r.

Lemma reads_bind {A B} (c : lua R A) (f : A → lua R B) : reads c → (∀ a, reads (f a)) → reads (c ≫= f).
Proof.
  intros Hc Hf r. unfold mbind, lua_bind. specialize (Hc r). destruct (c r) as [[a|] r']; cbn in *; subst; [apply Hf|done].
Qed.

Lemma wp_reads {A} (c : lua R A) (E : R → Prop) (Q : A → R → Prop) r :
  reads c → E r → (∀ a, c r = (Some a, r) → Q a r) → wp c E Q r.
Proof. intros Hc HE HQ. unfold wp. specialize (Hc r). destruct (c r) as [[a|] r']; cbn in *; subst; auto. Qed.

Lemma wp_each {A} (c : A → lua R ()) (l : list A) (I : R → Prop) E r :
  (∀ x r, x ∈ l → I r → wp (c x) E (λ _, I) r) → I r → wp (lua_each c l) E (λ _, I) r.
Proof.
  revert r. induction l as [|x l IH]; intros r Hc Hr; cbn [lua_each]; [by apply wp_ret|].
  apply wp_bind. eapply wp_mono; [apply Hc; [left|done]|]. intros a r' Hr'; cbn in Hr'.
  apply IH; [|done]. intros y r2 Hy. apply Hc. by right.
Qed.

(** The same with an invariant of the members still to come. *)
Lemma wp_each_rest {A} (c : A → lua R ()) (l : list A) (I : list A → R → Prop) E r :
  (∀ x l r, I (x :: l) r → wp (c x) E (λ _, I l) r) → I l r → wp (lua_each c l) E (λ _, I []) r.
Proof.
  intros Hc. revert r. induction l as [|x l IH]; intros r Hr; cbn [lua_each]; [by apply wp_ret|].
  apply wp_bind. eapply wp_mono; [by apply Hc|]. intros a r' Hr'. by apply IH.
Qed.

(** A script that keeps [I] whatever it answers. *)
Definition keeps {A} (I : R → Prop) (c : lua R A) : Prop := ∀ r, I r → wp c I (λ _, I) r.

Lemma keeps_after {A} I (c : lua R A) r : keeps I c → I r → I (c r).2.
Proof. intros Hc Hr. specialize (Hc r Hr). unfold wp in Hc. by destruct (c r) as [[a|] r']. Qed.

Lemma keeps_bind {A B} I (c : lua R A) (f : A → lua R B) :
  keeps I c → (∀ a, keeps I (f a)) → keeps I (c ≫= f).
Proof. intros Hc Hf r Hr. apply wp_bind. eapply wp_mono; [by apply Hc|]. intros a r' Hr'. by apply Hf. Qed.

Lemma keeps_read {A} I (f : R → A) : keeps I (lua_read f).
Proof. by intros r Hr. Qed.
Lemma keeps_ret {A} I (a : A) : keeps I (mret a).
Proof. by intros r Hr. Qed.
Lemma keeps_error {A} I : keeps I (lua_error (A := A)).
Proof. by intros r Hr. Qed.
Lemma keeps_write I (f : R → R) : (∀ r, I r → I (f r)) → keeps I (lua_write f).
Proof. intros Hf r Hr. by apply Hf. Qed.
Lemma keeps_each {A} I (c : A → lua R ()) l : (∀ x, x ∈ l → keeps I (c x)) → keeps I (lua_each c l).
Proof. intros Hc r Hr. apply wp_each; [|done]. intros x r' Hx Hr'. by apply Hc. Qed.
End wp.

Create HintDb keeps discriminated.
#[export] Hint Resolve keeps_bind keeps_read keeps_ret keeps_error : keeps.

(** ** One key, one kind of value *)

Section cells.
Context `{RedisLaws R, !RedisMore R, !RedisMoreLaws R} (prefix : string).
Implicit Types (r : R) (k : mkey).

Definition name k : string := prefix +:+ tail k.

Lemma name_inj a b : name a = name b → a = b.
Proof. intros Heq. by apply (inj (String.append prefix)), tail_inj in Heq. Qed.

Lemma decide_name {A} a b (x y : A) :
  (if decide (name a = name b) then x else y) = if decide (a = b) then x else y.
Proof.
  destruct (decide (a = b)) as [->|Hne]; [by rewrite decide_True|].
  apply decide_False. by intros ?%name_inj.
Qed.

Definition is_zset k : bool :=
  match k with KPin | KAll | KLru | KBookExp | KTombExp => true | _ => false end.

Definition kind_ok k (e : entry_at) : Prop :=
  match e with
  | None => True
  | Some (v, b) =>
      match k, v with
      | (KPin | KAll | KLru | KBookExp | KTombExp), VZset _ => b = false
      | KPinOwner, VHash _ => b = false
      | KPinOp _, VSet _ => True
      | KSlot _, VString _ => b = false
      | (KBooked _ | KBooking _), VString _ => True
      | _, _ => False
      end
  end.

Definition typed r : Prop := ∀ k, kind_ok k (at_ (name k) r).

(** [f] changes at most key [k]. *)
Definition only k (f : R → R) : Prop :=
  ∀ r, (∀ k', k' ≠ k → at_ (name k') (f r) = at_ (name k') r) ∧ only_deadline (name k) r (f r).

Ltac solve_only k lem :=
  intros r; split; [|by apply lem];
  intros k' Hne; autorewrite with redis; rewrite ?at_HSET, ?at_HDEL, decide_name; by rewrite decide_False.

Lemma only_SET k v : only k (SET (name k) v).
Proof. solve_only k deadline_SET. Qed.
Lemma only_DEL k : only k (DEL (name k)).
Proof. solve_only k deadline_DEL. Qed.
Lemma only_PEXPIRE k ms : only k (PEXPIRE (name k) ms).
Proof. solve_only k deadline_PEXPIRE. Qed.
Lemma only_SADD k m : only k (SADD (name k) m).
Proof. solve_only k deadline_SADD. Qed.
Lemma only_SREM k m : only k (SREM (name k) m).
Proof. solve_only k deadline_SREM. Qed.
Lemma only_ZADD k s m : only k (ZADD (name k) s m).
Proof. solve_only k deadline_ZADD. Qed.
Lemma only_ZREM k m : only k (ZREM (name k) m).
Proof. solve_only k deadline_ZREM. Qed.
Lemma only_HSET k f v : only k (HSET (name k) f v).
Proof. solve_only k deadline_HSET. Qed.
Lemma only_HDEL k f : only k (HDEL (name k) f).
Proof. solve_only k deadline_HDEL. Qed.
End cells.

#[export] Hint Resolve only_SET only_DEL only_PEXPIRE only_SADD only_SREM only_ZADD only_ZREM
  only_HSET only_HDEL : keeps.
