(* ===== verification/MockInvariant.v ===== *)
(** * The invariant of the Redis mock state

    Each slot id has a cell: whether its document exists and what the four
    indexes say of it.  A published slot is listed in [all], and either pinned
    by the search that owns it or listed in [lru], the slots that may be
    evicted; nothing else is listed.  Every script keeps this and the bound on
    the number of published slots, however it is interleaved and whatever
    lapses. *)
From S2P Require Import Prelude Prog Calendar Reservation Watch Effects RedisServer.
From S2P Require Import WatchScripts RedisKeys MockScripts MockKeys.

Section invariant.
Context `{RedisLaws R, !RedisMore R, !RedisMoreLaws R, LuaHost} (prefix : string) (capacity : Z).
Notation name := (name prefix).
Notation typed := (typed (R := R) prefix).
Notation only := (only (R := R) prefix).
Implicit Types (r : R) (k : mkey) (sid : string).

(** ** Values keep their kind *)

Lemma typed_only k f r : only k f → typed r → kind_ok k (at_ (name k) (f r)) → typed (f r).
Proof.
  intros Ho Ht Hk k'. destruct (decide (k' = k)) as [->|Hne]; [done|].
  rewrite (proj1 (Ho r) k' Hne). apply Ht.
Qed.

Ltac solve_typed :=
  intros Ht; eapply typed_only; [eauto with keeps|done|];
  autorewrite with redis; rewrite ?at_HSET, ?at_HDEL, ?decide_name, ?decide_True by done;
  match goal with |- context [at_ (name ?k) ?r] => specialize (Ht k); revert Ht; destruct (at_ (name k) r) as [[[] []]|] | _ => idtac end;
  cbn; try done; repeat case_match; try done.

Definition holds_text k : bool := match k with KSlot _ | KBooked _ | KBooking _ => true | _ => false end.
Definition expiring k : bool := match k with KPinOp _ | KBooked _ | KBooking _ => true | _ => false end.

Lemma typed_SET k v r : holds_text k = true → typed r → typed (SET (name k) v r).
Proof. intros Hk. solve_typed; destruct k; cbn in *; done. Qed.
Lemma typed_DEL k r : typed r → typed (DEL (name k) r).
Proof. solve_typed. Qed.
Lemma typed_PEXPIRE k ms r : expiring k = true → typed r → typed (PEXPIRE (name k) ms r).
Proof. intros Hk. solve_typed; destruct k; cbn in *; try done. Qed.
Lemma typed_SADD op m r : typed r → typed (SADD (name (KPinOp op)) m r).
Proof. solve_typed. Qed.
Lemma typed_SREM op m r : typed r → typed (SREM (name (KPinOp op)) m r).
Proof. solve_typed. Qed.
Lemma typed_ZADD k s m r : is_zset k = true → typed r → typed (ZADD (name k) s m r).
Proof. intros Hk. solve_typed; destruct k; cbn in *; try done. Qed.
Lemma typed_ZREM k m r : typed r → typed (ZREM (name k) m r).
Proof. solve_typed. Qed.
Lemma typed_HSET f v r : typed r → typed (HSET (name KPinOwner) f v r).
Proof. solve_typed. Qed.
Lemma typed_HDEL f r : typed r → typed (HDEL (name KPinOwner) f r).
Proof. solve_typed. Qed.

Lemma typed_lapse r r' : lapse r r' → typed r → typed r'.
Proof. intros Hl Ht k. destruct (lapse_at r r' Hl (name k)) as [->|[_ ->]]; [apply Ht|done]. Qed.

(** ** The cell of a slot id *)

Record cell := MkCell {
  c_slot : bool;                (* its document exists *)
  c_all : option Z;
  c_lru : option Z;
  c_pin : option Z;
  c_owner : option string;
}.
#[local] Instance cell_eta : Eta cell := λ c, MkCell (c_slot c) (c_all c) (c_lru c) (c_pin c) (c_owner c).

Definition cell_at r sid : cell :=
  MkCell (EXISTS (name (KSlot sid)) r) (ZSCORE (name KAll) sid r) (ZSCORE (name KLru) sid r)
    (ZSCORE (name KPin) sid r) (HGET (name KPinOwner) sid r).

(** [f] changes the cell of [sid] by [g] and no other. *)
Definition updates sid (g : cell → cell) (f : R → R) : Prop :=
  ∀ r, typed r → ∀ sid', cell_at (f r) sid' = if decide (sid = sid') then g (cell_at r sid) else cell_at r sid'.

(** Keys no cell speaks of. *)
Definition silent k : bool :=
  match k with KBookExp | KTombExp | KPinOp _ | KBooked _ | KBooking _ => true | _ => false end.

Lemma silent_cell k f r sid : silent k = true → only k f → cell_at (f r) sid = cell_at r sid.
Proof.
  intros Hk Ho. assert (∀ k', silent k' = false → at_ (name k') (f r) = at_ (name k') r) as Hat.
  { intros k' Hk'. apply (proj1 (Ho r)). congruence. }
  unfold cell_at, EXISTS, ZSCORE, scores_at, HGET. by rewrite !Hat.
Qed.

Lemma scores_ZADD k s m r k' : is_zset k = true → typed r →
  scores_at (name k') (ZADD (name k) s m r) =
    if decide (k = k') then <[m := s]> (scores_at (name k) r) else scores_at (name k') r.
Proof.
  intros Hk Ht. unfold scores_at. rewrite at_ZADD, decide_name. case_decide; [|done]. subst k'.
  specialize (Ht k). destruct k; try done;
    destruct (at_ _ r) as [[[] []]|]; cbn in *; try done; by rewrite insert_empty.
Qed.

Lemma scores_ZREM k m r k' :
  scores_at (name k') (ZREM (name k) m r) =
    if decide (k = k') then delete m (scores_at (name k) r) else scores_at (name k') r.
Proof.
  unfold scores_at. rewrite at_ZREM, decide_name. case_decide; [|done]. subst k'.
  destruct (at_ _ r) as [[[] []]|]; cbn; rewrite ?delete_empty; try done; by case_decide.
Qed.

Lemma HGET_HSET f v r f' : typed r →
  HGET (name KPinOwner) f' (HSET (name KPinOwner) f v r) =
    if decide (f = f') then Some v else HGET (name KPinOwner) f' r.
Proof.
  intros Ht. unfold HGET. rewrite at_HSET, decide_True by done. specialize (Ht KPinOwner).
  destruct (at_ _ r) as [[[] []]|]; cbn in *; try done; [by rewrite lookup_insert|].
  by rewrite lookup_singleton.
Qed.

Lemma HGET_HDEL f r f' :
  HGET (name KPinOwner) f' (HDEL (name KPinOwner) f r) =
    if decide (f = f') then None else HGET (name KPinOwner) f' r.
Proof.
  unfold HGET. rewrite at_HDEL, decide_True by done.
  destruct (at_ _ r) as [[[] []]|]; cbn; try by case_decide.
  - destruct (decide (delete f fields = ∅)) as [E|]; cbn; rewrite <- lookup_delete; [by rewrite E, lookup_empty|done].
  - destruct (decide (delete f fields = ∅)) as [E|]; cbn; rewrite <- lookup_delete; [by rewrite E, lookup_empty|done].
Qed.

Lemma EXISTS_only k f r k' : only k f → k' ≠ k → EXISTS (name k') (f r) = EXISTS (name k') r.
Proof. intros Ho Hne. unfold EXISTS. by rewrite (proj1 (Ho r)). Qed.

Lemma scores_only k f r k' : only k f → k' ≠ k → scores_at (name k') (f r) = scores_at (name k') r.
Proof. intros Ho Hne. unfold scores_at. by rewrite (proj1 (Ho r)). Qed.

Lemma HGET_only k f r f' : only k f → k ≠ KPinOwner →
  HGET (name KPinOwner) f' (f r) = HGET (name KPinOwner) f' r.
Proof. intros Ho Hne. unfold HGET. by rewrite (proj1 (Ho r)) by congruence. Qed.

(** Comparisons of given keys. *)
Ltac settle :=
  repeat match goal with |- context [decide (?a = ?b :> mkey)] =>
    first [rewrite (decide_True (P := a = b)) by done | rewrite (decide_False (P := a = b)) by done] end.

Ltac solve_updates k lem :=
  intros r Ht sid'; unfold cell_at, ZSCORE; cbn;
  rewrite ?scores_ZADD, ?scores_ZREM by done; settle;
  rewrite ?(EXISTS_only k), ?(HGET_only k), ?(scores_only k) by (done || apply lem);
  rewrite ?lookup_insert, ?lookup_delete; case_decide; by subst.

Lemma updates_ZREM_lru sid : updates sid (λ c, c <| c_lru := None |>) (ZREM (name KLru) sid).
Proof. solve_updates KLru only_ZREM. Qed.
Lemma updates_ZREM_pin sid : updates sid (λ c, c <| c_pin := None |>) (ZREM (name KPin) sid).
Proof. solve_updates KPin only_ZREM. Qed.
Lemma updates_ZREM_all sid : updates sid (λ c, c <| c_all := None |>) (ZREM (name KAll) sid).
Proof. solve_updates KAll only_ZREM. Qed.
Lemma updates_ZADD_lru s sid : updates sid (λ c, c <| c_lru := Some s |>) (ZADD (name KLru) s sid).
Proof. solve_updates KLru only_ZADD. Qed.
Lemma updates_ZADD_pin s sid : updates sid (λ c, c <| c_pin := Some s |>) (ZADD (name KPin) s sid).
Proof. solve_updates KPin only_ZADD. Qed.
Lemma updates_ZADD_all s sid : updates sid (λ c, c <| c_all := Some s |>) (ZADD (name KAll) s sid).
Proof. solve_updates KAll only_ZADD. Qed.

Lemma EXISTS_SET sid v r sid' :
  EXISTS (name (KSlot sid')) (SET (name (KSlot sid)) v r) =
    if decide (sid = sid') then true else EXISTS (name (KSlot sid')) r.
Proof.
  unfold EXISTS. rewrite at_SET, decide_name. destruct (decide (sid = sid')) as [->|Hne].
  - by rewrite decide_True.
  - by rewrite decide_False by congruence.
Qed.

Lemma EXISTS_DEL sid r sid' :
  EXISTS (name (KSlot sid')) (DEL (name (KSlot sid)) r) =
    if decide (sid = sid') then false else EXISTS (name (KSlot sid')) r.
Proof.
  unfold EXISTS. rewrite at_DEL, decide_name. destruct (decide (sid = sid')) as [->|Hne].
  - by rewrite decide_True.
  - by rewrite decide_False by congruence.
Qed.

Lemma updates_SET sid v : updates sid (λ c, c <| c_slot := true |>) (SET (name (KSlot sid)) v).
Proof.
  intros r Ht sid'. unfold cell_at, ZSCORE. cbn. rewrite EXISTS_SET.
  rewrite !(HGET_only (KSlot sid)), !(scores_only (KSlot sid)) by (done || apply only_SET).
  case_decide; by subst.
Qed.

Lemma updates_DEL sid : updates sid (λ c, c <| c_slot := false |>) (DEL (name (KSlot sid))).
Proof.
  intros r Ht sid'. unfold cell_at, ZSCORE. cbn. rewrite EXISTS_DEL.
  rewrite !(HGET_only (KSlot sid)), !(scores_only (KSlot sid)) by (done || apply only_DEL).
  case_decide; by subst.
Qed.

Lemma updates_HSET sid v : updates sid (λ c, c <| c_owner := Some v |>) (HSET (name KPinOwner) sid v).
Proof.
  intros r Ht sid'. unfold cell_at, ZSCORE. cbn. rewrite HGET_HSET by done.
  rewrite !(EXISTS_only KPinOwner), !(scores_only KPinOwner) by (done || apply only_HSET).
  case_decide; by subst.
Qed.

Lemma updates_HDEL sid : updates sid (λ c, c <| c_owner := None |>) (HDEL (name KPinOwner) sid).
Proof.
  intros r Ht sid'. unfold cell_at, ZSCORE. cbn. rewrite HGET_HDEL.
  rewrite !(EXISTS_only KPinOwner), !(scores_only KPinOwner) by (done || apply only_HDEL).
  case_decide; by subst.
Qed.

Lemma updates_silent sid k f : silent k = true → only k f → updates sid id f.
Proof. intros Hk Ho r _ sid'. rewrite (silent_cell k) by done. case_decide; by subst. Qed.

(** ** Scripts that work on one slot *)

Definition does {A} sid (g : cell → cell) (c : lua R A) : Prop :=
  ∀ r, typed r → ∃ a r', c r = (Some a, r') ∧ typed r' ∧
    ∀ sid', cell_at r' sid' = if decide (sid = sid') then g (cell_at r sid) else cell_at r sid'.

Lemma does_bind {A B} sid g g' (c : lua R A) (f : A → lua R B) :
  does sid g c → (∀ a, does sid g' (f a)) → does sid (λ x, g' (g x)) (c ≫= f).
Proof.
  intros Hc Hf r Ht. destruct (Hc r Ht) as (a & r1 & E1 & Ht1 & Hr1).
  destruct (Hf a r1 Ht1) as (b & r2 & E2 & Ht2 & Hr2).
  exists b, r2. unfold mbind, lua_bind. rewrite E1. split_and!; [exact E2|done|].
  intros sid'. rewrite Hr2, !Hr1, (decide_True (P := sid = sid)) by done. by case_decide.
Qed.

Lemma does_write sid g f : updates sid g f → (∀ r, typed r → typed (f r)) → does sid g (lua_write f).
Proof. intros Hf Ht r Hr. exists (), (f r). split_and!; [done|by apply Ht|]. intros sid'. by apply Hf. Qed.

Lemma does_ret {A} sid (a : A) : does sid id (mret a).
Proof. intros r Ht. exists a, r. split_and!; [done..|]. intros sid'. case_decide; by subst. Qed.

(** A script that reads [f r] and goes on with it. *)
Lemma does_read {A B} sid (g : A → cell → cell) h (f : R → A) (c : A → lua R B) :
  (∀ a, does sid (g a) (c a)) → (∀ r, typed r → g (f r) (cell_at r sid) = h (cell_at r sid)) →
  does sid h (lua_read f ≫= c).
Proof.
  intros Hc Hg r Ht. destruct (Hc (f r) r Ht) as (b & r' & E & Ht' & Hr'). exists b, r'.
  split_and!; [done..|]. intros sid'. rewrite Hr'. case_decide; [by apply Hg|done].
Qed.

Lemma does_id {A} sid g g' (c : lua R A) : (∀ x, g x = g' x) → does sid g c → does sid g' c.
Proof.
  intros Hg Hc r Ht. destruct (Hc r Ht) as (a & r' & ? & ? & Hr). exists a, r'. split_and!; [done..|].
  intros sid'. by rewrite Hr, Hg.
Qed.

Lemma does_SREM sid op : does sid id (lua_write (SREM (name (KPinOp op)) sid)).
Proof. apply does_write; [apply (updates_silent _ (KPinOp op)); [done|apply only_SREM]|intros; by apply (typed_SREM op)]. Qed.

Lemma does_disown sid : does sid (λ c, c <| c_owner := None |>) (disown prefix sid).
Proof.
  apply (does_read _ (λ o c, match o with Some _ => c <| c_owner := None |> | None => c end)).
  - intros [owner|]; [|apply does_ret].
    apply (does_bind _ id (λ c, c <| c_owner := None |>)); [apply does_SREM|].
    intros _. apply does_write; [apply updates_HDEL|intros; by apply typed_HDEL].
  - intros r Ht. unfold cell_at. cbn. change (name KPinOwner) with (pinowner_key prefix).
    by destruct (HGET (pinowner_key prefix) sid r).
Qed.

Definition back (c : cell) : cell :=
  if c_slot c then match c_all c with Some s => c <| c_lru := Some s |> | None => c end else c.

Lemma does_evictable_again sid : does sid back (evictable_again prefix sid).
Proof.
  apply (does_read _ (λ b c, if b : bool then match c_all c with Some s => c <| c_lru := Some s |> | None => c end else c)).
  - intros [|]; [|apply does_ret].
    apply (does_read _ (λ a c, match a with Some s => c <| c_lru := Some s |> | None => c end)).
    + intros [s|]; [|apply does_ret].
      apply does_write; [apply updates_ZADD_lru|intros; by apply (typed_ZADD KLru)].
    + done.
  - done.
Qed.

Lemma does_reconcile_pin sid :
  does sid (λ c, back (c <| c_pin := None |> <| c_owner := None |>)) (reconcile_pin prefix sid).
Proof.
  apply (does_bind _ (λ c, c <| c_pin := None |>) (λ c, back (c <| c_owner := None |>))).
  - apply does_write; [apply updates_ZREM_pin|intros; by apply (typed_ZREM KPin)].
  - intros _. apply (does_bind _ _ _ _ _ (does_disown sid)). intros _. apply does_evictable_again.
Qed.

Lemma does_pin op now ttl sid :
  does sid (λ c, c <| c_lru := None |> <| c_owner := Some op |> <| c_pin := Some (now + ttl) |>)
    (pin prefix op now ttl sid).
Proof.
  unfold pin.
  apply (does_bind _ (λ c, c <| c_lru := None |>) (λ c, c <| c_owner := Some op |> <| c_pin := Some (now + ttl) |>)).
  { apply does_write; [apply updates_ZREM_lru|intros; by apply (typed_ZREM KLru)]. }
  intros _. apply (does_read _ (λ _ c, c <| c_owner := Some op |> <| c_pin := Some (now + ttl) |>)); [|done].
  intros owner. apply (does_bind _ id (λ c, c <| c_owner := Some op |> <| c_pin := Some (now + ttl) |>)).
  { destruct owner as [owner|]; [|apply does_ret].
    destruct (negb _); [apply does_SREM|apply does_ret]. }
  intros _. apply (does_bind _ (λ c, c <| c_owner := Some op |>) (λ c, c <| c_pin := Some (now + ttl) |>)).
  { apply does_write; [apply updates_HSET|intros; by apply typed_HSET]. }
  intros _. apply (does_bind _ id (λ c, c <| c_pin := Some (now + ttl) |>)).
  { apply does_write; [apply (updates_silent _ (KPinOp op)); [done|apply only_SADD]|intros; by apply (typed_SADD op)]. }
  intros _. apply (does_bind _ (λ c, c <| c_pin := Some (now + ttl) |>) id).
  { apply does_write; [apply updates_ZADD_pin|intros; by apply (typed_ZADD KPin)]. }
  intros _. apply does_write; [apply (updates_silent _ (KPinOp op)); [done|apply only_PEXPIRE]|].
  intros; by apply (typed_PEXPIRE (KPinOp op)).
Qed.

(** ** The invariant *)

Definition good (c : cell) : Prop :=
  c_slot c = bool_decide (is_Some (c_all c)) ∧
  c_lru c = match c_pin c with Some _ => None | None => c_all c end ∧
  (is_Some (c_pin c) → is_Some (c_all c)) ∧
  (is_Some (c_owner c) ↔ is_Some (c_pin c)).




Definition inv (room : Z) r : Prop :=
  typed r ∧ (∀ sid, good (cell_at r sid)) ∧ ZCARD (name KAll) r + room <= capacity.

(** How the number of published slots follows one cell. *)
Definition one {A} (o : option A) : Z := match o with Some _ => 1 | None => 0 end.

Lemma size_at (m m' : gmap string Z) i : (∀ j, j ≠ i → m' !! j = m !! j) →
  Z.of_nat (size m') = Z.of_nat (size m) + one (m' !! i) - one (m !! i).
Proof.
  intros Hm. destruct (m' !! i) as [x|] eqn:E'; cbn.
  - assert (m' = <[i := x]> m) as ->.
    { apply map_eq. intros j. destruct (decide (j = i)) as [->|Hne]; [by rewrite lookup_insert, decide_True|].
      rewrite lookup_insert, decide_False by done. by apply Hm. }
    rewrite map_size_insert. destruct (m !! i); cbn; lia.
  - assert (m' = delete i m) as ->.
    { apply map_eq. intros j. destruct (decide (j = i)) as [->|Hne]; [by rewrite lookup_delete, decide_True|].
      rewrite lookup_delete, decide_False by done. by apply Hm. }
    rewrite map_size_delete. destruct (m !! i) eqn:E; cbn; [|lia].
    assert (size m ≠ 0%nat) by (rewrite map_size_non_empty_iff; intros ->; by rewrite lookup_empty in E). lia.
Qed.

Lemma card_does r r' sid g :
  (∀ sid', cell_at r' sid' = if decide (sid = sid') then g (cell_at r sid) else cell_at r sid') →
  ZCARD (name KAll) r' = ZCARD (name KAll) r + one (c_all (g (cell_at r sid))) - one (c_all (cell_at r sid)).
Proof.
  intros Hc. unfold ZCARD. rewrite (size_at (scores_at (name KAll) r) _ sid).
  - specialize (Hc sid). rewrite decide_True in Hc by done. rewrite <- Hc. done.
  - intros j Hne. specialize (Hc j). rewrite decide_False in Hc by done. by apply (f_equal c_all) in Hc.
Qed.

Lemma inv_cells sid g room room' r r' : inv room r → typed r' →
  (∀ sid', cell_at r' sid' = if decide (sid = sid') then g (cell_at r sid) else cell_at r sid') →
  good (g (cell_at r sid)) →
  room' + one (c_all (g (cell_at r sid))) <= room + one (c_all (cell_at r sid)) → inv room' r'.
Proof.
  intros (_ & Hg & Hn) Ht Hc Hgood Hroom. split_and!; [done| |].
  - intros sid'. rewrite Hc. by case_decide.
  - rewrite (card_does r r' sid g) by done. lia.
Qed.

Lemma inv_does {A} sid g (c : lua R A) room room' r E :
  does sid g c → inv room r → good (g (cell_at r sid)) →
  room' + one (c_all (g (cell_at r sid))) <= room + one (c_all (cell_at r sid)) →
  wp c E (λ _ r', inv room' r' ∧
    ∀ sid', cell_at r' sid' = if decide (sid = sid') then g (cell_at r sid) else cell_at r sid') r.
Proof.
  intros Hc Hi Hgood Hroom. destruct (Hc r (proj1 Hi)) as (a & r' & Er & Ht' & Hr'). unfold wp. rewrite Er.
  split; [|done]. by eapply inv_cells.
Qed.

Lemma good_reconciled c : good c → good (back (c <| c_pin := None |> <| c_owner := None |>)).
Proof.
  destruct c as [e a l p o]. unfold good, back. cbn. intros (-> & -> & Hp & Ho).
  destruct a as [s|]; cbn; [split_and!; try done; by intros []|].
  destruct p; [by destruct Hp|]. split_and!; try done; by intros [].
Qed.

Lemma all_back c : c_all (back c) = c_all c.
Proof. unfold back. destruct (c_slot c); [|done]. by destruct (c_all c) eqn:E; cbn. Qed.

(** ** Every script keeps the invariant *)

Lemma inv_reconcile_pin room sid E r : inv room r →
  wp (reconcile_pin prefix sid) E (λ _ r', inv room r' ∧
    ∀ sid', cell_at r' sid' = if decide (sid = sid')
      then back (cell_at r sid <| c_pin := None |> <| c_owner := None |>) else cell_at r sid') r.
Proof.
  intros Hi. eapply wp_mono; [eapply inv_does; [apply does_reconcile_pin|done|..]|].
  - apply good_reconciled, Hi.
  - instantiate (1 := room). cbv beta. rewrite all_back. cbn. lia.
  - done.
Qed.

Lemma inv_reconcile room now E r : inv room r →
  wp (reconcile_pins prefix now) E
    (λ _ r', inv room r' ∧ (∀ sid e, c_pin (cell_at r' sid) = Some e → now < e) ∧
       ∀ sid e, c_pin (cell_at r sid) = Some e → now < e → cell_at r' sid = cell_at r sid) r.
Proof.
  intros Hi. unfold reconcile_pins. apply wp_bind, wp_read.
  eapply wp_mono; [apply (wp_each_rest _ _ (λ rest r', inv room r' ∧
    (∀ sid e, c_pin (cell_at r' sid) = Some e → e <= now → sid ∈ rest) ∧
    (∀ sid, sid ∈ rest → sid ∈ ZRANGEBYSCORE (pin_key prefix) now r) ∧
    (∀ sid e, c_pin (cell_at r sid) = Some e → now < e → cell_at r' sid = cell_at r sid)))|].
  - intros sid rest r1 (Hi1 & Hr1 & Hin & Hk). eapply wp_mono; [by apply inv_reconcile_pin|].
    intros _ r2 [Hi2 Hc]. split_and!; [done|..].
    + intros sid' e. rewrite Hc. case_decide as Hs.
      * subst sid'. unfold back. by destruct (cell_at r1 sid) as [[] [] ? ? ?].
      * intros He Hle. specialize (Hr1 _ _ He Hle). apply elem_of_cons in Hr1 as [->|]; done.
    + intros sid' Hs. apply Hin. by right.
    + intros sid' e He Hlt. rewrite Hc. case_decide as Hs; [|by eapply Hk]. subst sid'.
      assert (sid ∈ ZRANGEBYSCORE (pin_key prefix) now r) as (s & Hs & Hle)%ZRANGEBYSCORE_spec by (apply Hin; left).
      change (c_pin (cell_at r sid)) with (ZSCORE (pin_key prefix) sid r) in He. rewrite He in Hs. simplify_eq. lia.
  - split_and!; [done| |done|done]. intros sid e He Hle. apply ZRANGEBYSCORE_spec. by exists e.
  - cbn. intros _ r' (Hi' & Hr' & _ & Hk). split_and!; [done| |done]. intros sid e He.
    destruct (decide (e <= now)) as [Hle|]; [|lia]. by specialize (Hr' _ _ He Hle) as ?%elem_of_nil.
Qed.

(** Pinned slots stay pinned. *)
Definition pins_stay r r' : Prop := ∀ sid, is_Some (c_pin (cell_at r sid)) → is_Some (c_pin (cell_at r' sid)).
#[local] Instance pins_stay_preorder : PreOrder pins_stay.
Proof. split; [by intros r sid|]. intros r1 r2 r3 H12 H23 sid Hs. by apply H23, H12. Qed.

Definition pinned_cell op now ttl (c : cell) : cell :=
  c <| c_lru := None |> <| c_owner := Some op |> <| c_pin := Some (now + ttl) |>.

Lemma good_pinned op now ttl c : c_slot c = true → is_Some (c_all c) → good (pinned_cell op now ttl c).
Proof.
  destruct c as [e a l p o]. cbn. intros -> [s ->]. unfold good. cbn. split_and!; try done; eauto.
Qed.

Lemma does_remove sid :
  does sid (λ c, c <| c_lru := None |> <| c_all := None |> <| c_slot := false |>) (remove_slot prefix sid).
Proof.
  apply (does_bind _ (λ c, c <| c_lru := None |>) (λ c, c <| c_all := None |> <| c_slot := false |>)).
  { apply does_write; [apply updates_ZREM_lru|intros; by apply (typed_ZREM KLru)]. }
  intros _. apply (does_bind _ (λ c, c <| c_all := None |>) (λ c, c <| c_slot := false |>)).
  { apply does_write; [apply updates_ZREM_all|intros; by apply (typed_ZREM KAll)]. }
  intros _. apply does_write; [apply updates_DEL|intros; by apply (typed_DEL (KSlot sid))].
Qed.

Lemma good_removed c : good c → c_pin c = None → good (c <| c_lru := None |> <| c_all := None |> <| c_slot := false |>).
Proof.
  destruct c as [e a l p o]. unfold good. cbn. intros (_ & _ & _ & Ho) ->. by split_and!.
Qed.

Lemma listed_unpinned room r sid t : inv room r → c_lru (cell_at r sid) = Some t →
  c_pin (cell_at r sid) = None ∧ c_all (cell_at r sid) = Some t.
Proof.
  intros (_ & Hg & _) Hl. destruct (Hg sid) as (_ & E & _). rewrite Hl in E. by destruct (c_pin _).
Qed.

(** Removing a slot that may be evicted makes room for one. *)
Lemma inv_remove room sid t E r : inv room r → c_lru (cell_at r sid) = Some t →
  wp (remove_slot prefix sid) E (λ _ r', inv (room + 1) r' ∧
    (∀ sid', sid' ≠ sid → cell_at r' sid' = cell_at r sid') ∧
    ∀ sid', c_pin (cell_at r' sid') = c_pin (cell_at r sid')) r.
Proof.
  intros Hi Hl. destruct (listed_unpinned _ _ _ _ Hi Hl) as [Hp Ha].
  eapply wp_mono; [eapply inv_does; [apply does_remove|done|..]|].
  - apply good_removed; [|done]. apply Hi.
  - instantiate (1 := room + 1). cbv beta. rewrite Ha. cbn. lia.
  - intros _ r' [Hi' Hc]. split_and!; [done|..]; intros sid'; rewrite Hc; by case_decide; subst.
Qed.

Lemma inv_admit E r : inv 0 r →
  wp (enter_slot prefix capacity) E (λ room r', inv (if room then 1 else 0) r' ∧ pins_stay r r') r.
Proof.
  intros Hi. unfold enter_slot. apply wp_bind, wp_read. destruct (capacity <=? _) eqn:Hcap.
  - apply wp_bind, wp_read. destruct (ZRANGE_0_0 _ r) as [victim|] eqn:Hv; [|by apply wp_ret].
    destruct (ZRANGE_0_0_some _ _ _ Hv) as (t & Ht & _). apply wp_bind.
    eapply wp_mono; [by apply (inv_remove 0 _ t)|]. intros a r' (Hi' & Hc & _). apply wp_ret. split; [done|].
    intros sid Hs. rewrite Hc; [done|]. intros ->. destruct (listed_unpinned _ _ _ _ Hi Ht) as [Hp _].
    rewrite Hp in Hs. by destruct Hs.
  - apply wp_ret. split; [|done]. destruct Hi as (? & ? & Hn). split_and!; [done..|].
    change (all_key prefix) with (name KAll) in Hcap. lia.
Qed.

Lemma slot_text sid r : typed r → EXISTS (name (KSlot sid)) r = true → ∃ s, GET (name (KSlot sid)) r = Some s.
Proof.
  intros Ht. specialize (Ht (KSlot sid)). unfold EXISTS, GET. destruct (at_ _ r) as [[[] []]|]; cbn in *; try done; eauto.
Qed.

Lemma inv_publish_one op now ttl sid json r : inv 0 r →
  wp (publish_one prefix op now ttl capacity sid json) (λ r', inv 0 r' ∧ pins_stay r r') (λ _ r', inv 0 r' ∧ pins_stay r r') r.
Proof.
  intros Hi. unfold publish_one. apply wp_bind, wp_reads; [|done|].
  { apply reads_bind; [done|]. intros [tomb|]; [|done]. unfold lua_tombstone. by destruct (parse_tombstone tomb) as [[]|]. }
  intros [] _; [by apply wp_ret|]. apply wp_bind, wp_read. change (slot_key prefix sid) with (name (KSlot sid)).
  pose proof (proj1 Hi) as Ht. destruct (EXISTS _ r) eqn:Hex.
  - apply wp_bind, wp_write, wp_bind, wp_read. change (all_key prefix) with (name KAll).
    destruct (slot_text sid (ZADD (name KAll) now sid r)) as [s ->].
    { by apply (typed_ZADD KAll). }
    { by rewrite (EXISTS_only KAll) by (done || apply only_ZADD). }
    apply wp_bind. destruct (does_pin op now ttl sid (ZADD (name KAll) now sid r)) as (a & r2 & E2 & Ht2 & Hr2);
      [by apply (typed_ZADD KAll)|].
    unfold wp at 1. rewrite E2. apply wp_ret.
    pose proof (updates_ZADD_all now sid r Ht) as Hr1.
    assert (∀ sid', cell_at r2 sid' = if decide (sid = sid')
      then pinned_cell op now ttl (cell_at r sid <| c_all := Some now |>) else cell_at r sid') as Hc.
    { intros sid'. rewrite Hr2, !Hr1, (decide_True (P := sid = sid)) by done. by case_decide. }
    split; [|intros sid' Hs; rewrite Hc; case_decide; [by eexists|done]].
    apply (inv_cells sid (λ c, pinned_cell op now ttl (c <| c_all := Some now |>)) 0 _ r); [done..|by apply (good_pinned op now ttl (cell_at r sid <| c_all := Some now |>)); [|eexists]|].
    destruct (proj1 (proj2 Hi) sid) as (Es & _). change (c_slot (cell_at r sid)) with (EXISTS (name (KSlot sid)) r) in Es.
    rewrite Hex in Es. symmetry in Es. apply bool_decide_eq_true in Es as [t Hs]. rewrite Hs. cbn. lia.
  - apply wp_bind. eapply wp_mono; [by apply inv_admit|]. intros [|] r1 [Hi1 Hp1]; [|by apply wp_ret].
    assert (does sid (λ c, pinned_cell op now ttl (c <| c_slot := true |> <| c_all := Some now |>))
      (lua_write (SET (name (KSlot sid)) json);; lua_write (ZADD (name KAll) now sid);;
       pin prefix op now ttl sid;; mret (Some json))) as Hd.
    { apply (does_bind _ (λ c, c <| c_slot := true |>) (λ c, pinned_cell op now ttl (c <| c_all := Some now |>))).
      { apply does_write; [apply updates_SET|intros; by apply (typed_SET (KSlot sid))]. }
      intros _. apply (does_bind _ (λ c, c <| c_all := Some now |>) (pinned_cell op now ttl)).
      { apply does_write; [apply updates_ZADD_all|intros; by apply (typed_ZADD KAll)]. }
      intros _. apply (does_bind _ (pinned_cell op now ttl) id); [apply does_pin|]. intros _. apply does_ret. }
    eapply wp_mono; [eapply inv_does; [exact Hd|done|..]|].
    + apply (good_pinned op now ttl (cell_at r1 sid <| c_slot := true |> <| c_all := Some now |>)); [done|by eexists].
    + instantiate (1 := 0). cbn. unfold ZSCORE. destruct (scores_at _ r1 !! sid); cbn; lia.
    + intros a r2 [Hi2 Hc]. split; [done|]. intros sid' Hs%Hp1. rewrite Hc. case_decide; [by eexists|done].
Qed.

Lemma inv_publish_loop op now ttl candidates r : inv 0 r →
  wp (publish_loop prefix op now ttl capacity candidates) (λ r', inv 0 r' ∧ pins_stay r r')
    (λ _ r', inv 0 r' ∧ pins_stay r r') r.
Proof.
  revert r. induction candidates as [|[sid json] l IH]; intros r Hi; [by apply wp_ret|].
  cbn [publish_loop]. apply wp_bind. specialize (inv_publish_one op now ttl sid json r Hi). unfold wp at 1 2.
  destruct (publish_one _ _ _ _ _ _ _ r) as [[one|] r1]; [|done]. intros [Hi1 Hp1].
  apply wp_bind. specialize (IH r1 Hi1). revert IH. unfold wp at 1 2.
  destruct (publish_loop _ _ _ _ _ _ r1) as [[rest|] r2]; (intros [Hi2 Hp2]; split; [done|by etrans]).
Qed.

(** A pin that runs beyond [now] keeps its slot published. *)
Lemma inv_publish op now ttl candidates r : inv 0 r →
  inv 0 (PUBLISH_AND_FILTER prefix op now ttl capacity candidates r).2 ∧
  ∀ sid e, c_pin (cell_at r sid) = Some e → now < e →
    is_Some (c_pin (cell_at (PUBLISH_AND_FILTER prefix op now ttl capacity candidates r).2 sid)).
Proof.
  intros Hi. unfold PUBLISH_AND_FILTER, mbind, lua_bind.
  pose proof (inv_reconcile 0 now (λ _, False) r Hi) as H1'. unfold wp in H1'.
  destruct (reconcile_pins prefix now r) as [[a|] r1]; [|done]. destruct H1' as (Hi1 & _ & Hk).
  pose proof (inv_publish_loop op now ttl candidates r1 Hi1) as H2'. unfold wp in H2'.
  assert (inv 0 (publish_loop prefix op now ttl capacity candidates r1).2 ∧
    pins_stay r1 (publish_loop prefix op now ttl capacity candidates r1).2) as [Hi2 Hp2]
    by by destruct (publish_loop _ _ _ _ _ _ r1) as [[rest|] r2].
  split; [done|]. intros sid e He Hlt. apply Hp2. rewrite (Hk sid e) by done. by eexists.
Qed.

Lemma does_silent sid k f : silent k = true → only k f → (∀ r, typed r → typed (f r)) → does sid id (lua_write f).
Proof. intros Hk Ho Ht. apply does_write; [by apply (updates_silent _ k)|done]. Qed.

Definition booked_cell : cell := MkCell false None None None None.

Lemma does_store_booking sid key conf pms now grace :
  does sid (λ _, booked_cell) (store_booking prefix sid key conf pms now grace).
Proof.
  eapply does_id; cycle 1.
  - eapply does_bind; [apply (does_silent _ (KBooking key)); [done|apply only_SET|intros; by apply (typed_SET (KBooking key))]|intros _].
    eapply does_bind; [apply (does_silent _ KBookExp); [done|apply only_ZADD|intros; by apply (typed_ZADD KBookExp)]|intros _].
    eapply does_bind; [apply (does_silent _ (KBooked sid)); [done|apply only_SET|intros; by apply (typed_SET (KBooked sid))]|intros _].
    eapply does_bind; [apply (does_silent _ KTombExp); [done|apply only_ZADD|intros; by apply (typed_ZADD KTombExp)]|intros _].
    eapply does_bind; [apply does_write; [apply updates_DEL|intros; by apply (typed_DEL (KSlot sid))]|intros _].
    eapply does_bind; [apply does_write; [apply updates_ZREM_all|intros; by apply (typed_ZREM KAll)]|intros _].
    eapply does_bind; [apply does_write; [apply updates_ZREM_lru|intros; by apply (typed_ZREM KLru)]|intros _].
    eapply does_bind; [apply does_write; [apply updates_ZREM_pin|intros; by apply (typed_ZREM KPin)]|intros _].
    eapply does_bind; [apply does_disown|intros _].
    eapply does_bind; [apply (does_silent _ (KBooking key)); [done|apply only_PEXPIRE|intros; by apply (typed_PEXPIRE (KBooking key))]|intros _].
    apply (does_silent _ (KBooked sid)); [done|apply only_PEXPIRE|intros; by apply (typed_PEXPIRE (KBooked sid))].
  - done.
Qed.

Lemma reads_protected key now : reads (protected_booking (R := R) prefix key now).
Proof. apply reads_bind; [done|]. intros [b|]; [|done]. by apply reads_bind. Qed.

Lemma reads_taken sid key now : reads (taken (R := R) prefix sid key now).
Proof.
  apply reads_bind; [done|]. intros [tomb|]; [|done]. unfold lua_tombstone.
  by destruct (parse_tombstone tomb) as [[]|].
Qed.

Lemma inv_book sid key conf pms now grace : keeps (inv 0) (BOOK_SLOT prefix sid key conf pms now grace).
Proof.
  intros r Hi. unfold BOOK_SLOT. apply wp_bind, wp_reads; [apply reads_protected|done|].
  intros [b|] _; [by apply wp_ret|]. apply wp_bind, wp_reads; [apply reads_taken|done|].
  intros [] _; [by apply wp_ret|]. apply wp_bind, wp_read. destruct (negb _); [by apply wp_ret|].
  apply wp_bind. eapply wp_mono; [eapply inv_does; [apply does_store_booking|done|..]|].
  - unfold good, booked_cell. cbn. by split_and!.
  - instantiate (1 := 0). unfold cell_at, ZSCORE. cbn. destruct (scores_at _ r !! sid); cbn; lia.
  - intros _ r' [Hi' _]. by apply wp_ret.
Qed.

Lemma inv_silent k f r : silent k = true → only k f → (∀ r, typed r → typed (f r)) → inv 0 r →
  inv 0 (f r) ∧ ∀ sid, cell_at (f r) sid = cell_at r sid.
Proof.
  intros Hk Ho Ht Hi. assert (∀ sid, cell_at (f r) sid = cell_at r sid) as Hc by (intros; by apply (silent_cell k)).
  split; [|done]. apply (inv_cells "" id 0 _ r); [done|by apply Ht, Hi|..|apply Hi|done].
  intros sid'. rewrite Hc. by case_decide; subst.
Qed.

Lemma does_release_one op sid :
  does sid (λ c, if bool_decide (c_owner c = Some op) then back (c <| c_pin := None |> <| c_owner := None |>) else c)
    (release_one prefix op sid).
Proof.
  apply (does_read _ (λ o c, if bool_decide (o = Some op) then back (c <| c_pin := None |> <| c_owner := None |>) else c)).
  - intros o. destruct (bool_decide _); [|apply does_ret].
    apply (does_bind _ (λ c, c <| c_pin := None |>) (λ c, back (c <| c_owner := None |>))).
    { apply does_write; [apply updates_ZREM_pin|intros; by apply (typed_ZREM KPin)]. }
    intros _. apply (does_bind _ (λ c, c <| c_owner := None |>) back); [|intros _; apply does_evictable_again].
    apply does_write; [apply updates_HDEL|intros; by apply typed_HDEL].
  - done.
Qed.

Lemma inv_release op : keeps (inv 0) (RELEASE_OPERATION prefix op).
Proof.
  apply keeps_bind; [apply keeps_read|intros slots].
  apply keeps_bind; [|intros a r Hi; apply wp_write; by apply (inv_silent (KPinOp op)); [..|intros; apply (typed_DEL (KPinOp op))|]; [|apply only_DEL|..]].
  apply keeps_each. intros sid _ r Hi. pose proof (proj1 (proj2 Hi) sid) as Hg.
  eapply wp_mono; [eapply inv_does; [apply does_release_one|done|..]|by intros _ r' [Hi' _]].
  - cbv beta. case_bool_decide; [by apply good_reconciled|done].
  - cbv beta. case_bool_decide; [rewrite all_back|]; cbn; lia.
Qed.

Lemma inv_drop_idle room idle r E : inv room r → NoDup idle → (∀ sid, sid ∈ idle → is_Some (c_lru (cell_at r sid))) →
  wp (lua_each (remove_slot prefix) idle) E (λ _ r', inv (room + Z.of_nat (length idle)) r' ∧
    (∀ sid, sid ∉ idle → cell_at r' sid = cell_at r sid) ∧
    ∀ sid, c_pin (cell_at r' sid) = c_pin (cell_at r sid)) r.
Proof.
  revert room r. induction idle as [|sid idle IH]; intros room r Hi Hnd Hl; cbn [lua_each].
  - apply wp_ret. by rewrite Z.add_0_r.
  - apply NoDup_cons in Hnd as [Hn Hnd]. destruct (Hl sid ltac:(left)) as [t Ht]. apply wp_bind.
    eapply wp_mono; [by apply (inv_remove room _ t)|]. intros _ r1 (Hi1 & Hc & Hp).
    eapply wp_mono; [apply (IH (room + 1)); [done..|]|].
    + intros sid' Hin. rewrite Hc by set_solver. apply Hl. by right.
    + intros a r2 (Hi2 & Hc2 & Hp2). split_and!; [by replace (room + Z.of_nat (length (sid :: idle)))
        with (room + 1 + Z.of_nat (length idle)) by (cbn [length]; lia)| |intros sid'; by rewrite Hp2, Hp].
      intros sid' [Hne Hin]%not_elem_of_cons. by rewrite Hc2, Hc.
Qed.

Lemma inv_room room r : 0 <= room → inv room r → inv 0 r.
Proof. intros Hr (? & ? & ?). split_and!; [done..|lia]. Qed.

Lemma elem_of_limit x batch l : x ∈ limit batch l → x ∈ l.
Proof. unfold limit. case_match; [done|]. intros Hx. by eapply elem_of_sublist, sublist_take. Qed.
Lemma NoDup_limit batch l : NoDup l → NoDup (limit batch l).
Proof. unfold limit. case_match; [done|]. intros Hl. by eapply sublist_NoDup, sublist_take. Qed.

(** Removing expired records says nothing of the slots. *)
Lemma inv_drop_records (k : string → mkey) k' l (c : string → lua R ()) r E : inv 0 r →
  (∀ x, silent (k x) = true) → silent k' = true → is_zset k' = true →
  (∀ x, c x = (lua_write (DEL (name (k x)));; lua_write (ZREM (name k') x))) →
  wp (lua_each c l) E (λ _ r', inv 0 r' ∧ ∀ sid, cell_at r' sid = cell_at r sid) r.
Proof.
  intros Hi Hk Hk' Hz Hc. apply wp_each; [|done]. intros x r1 _ [Hi1 Hc1]. rewrite Hc.
  destruct (inv_silent (k x) (DEL (name (k x))) r1) as [Hi2 Hc2];
    [done|apply only_DEL|intros; by apply typed_DEL|done|].
  destruct (inv_silent k' (ZREM (name k') x) (DEL (name (k x)) r1)) as [Hi3 Hc3];
    [done|apply only_ZREM|intros; by apply typed_ZREM|done|].
  apply wp_bind, wp_write, wp_write. split; [done|]. intros sid. by rewrite Hc3, Hc2, Hc1.
Qed.

(** Cleanup leaves only pins that run beyond [now], and those untouched. *)
Lemma inv_cleanup now cutoff batch r : inv 0 r →
  inv 0 (CLEANUP prefix now cutoff batch r).2 ∧
  (∀ sid e, c_pin (cell_at (CLEANUP prefix now cutoff batch r).2 sid) = Some e → now < e) ∧
  ∀ sid e, c_pin (cell_at r sid) = Some e → now < e →
    cell_at (CLEANUP prefix now cutoff batch r).2 sid = cell_at r sid.
Proof.
  intros Hi. enough (wp (CLEANUP prefix now cutoff batch) (λ _, False) (λ _ r', inv 0 r' ∧
    (∀ sid e, c_pin (cell_at r' sid) = Some e → now < e) ∧
    ∀ sid e, c_pin (cell_at r sid) = Some e → now < e → cell_at r' sid = cell_at r sid) r) as Hwp.
  { revert Hwp. unfold wp. by destruct (CLEANUP _ _ _ _ r) as [[?|] ?]. }
  unfold CLEANUP. apply wp_bind. eapply wp_mono; [by apply inv_reconcile|]. intros [] r1 (Hi1 & Hp1 & Hk1).
  apply wp_bind, wp_read. apply wp_bind. set (idle := limit _ _).
  assert (∀ sid, sid ∈ idle → is_Some (c_lru (cell_at r1 sid))) as Hidle.
  { intros sid Hin%elem_of_limit. apply ZRANGEBYSCORE_spec in Hin as (s & Hs & _). by exists s. }
  eapply wp_mono; [apply (inv_drop_idle 0); [done| |done]|]; [apply NoDup_limit, ZRANGEBYSCORE_NoDup|].
  intros a r2 (Hi2 & Hc2 & Hp2). apply inv_room in Hi2; [|lia]. apply wp_bind, wp_read, wp_bind.
  eapply wp_mono; [by apply (inv_drop_records KBooking KBookExp)|]. intros b r3 [Hi3 Hc3]. apply wp_bind, wp_read, wp_bind.
  eapply wp_mono; [by apply (inv_drop_records KBooked KTombExp)|]. intros c r4 [Hi4 Hc4]. apply wp_ret.
  assert (∀ sid, is_Some (c_pin (cell_at r1 sid)) → sid ∉ idle) as Hpinned.
  { intros sid Hs Hin. destruct (Hidle sid Hin) as [t Ht]. destruct (listed_unpinned _ _ _ _ Hi1 Ht) as [Hn _].
    rewrite Hn in Hs. by destruct Hs. }
  split_and!; [done|..].
  - intros sid e. rewrite Hc4, Hc3, Hp2. apply Hp1.
  - intros sid e He Hlt. rewrite Hc4, Hc3, Hc2 by (apply Hpinned; rewrite (Hk1 sid e) by done; by eexists).
    by apply (Hk1 sid e).
Qed.
Lemma inv_lapse r r' : lapse r r' → inv 0 r → inv 0 r'.
Proof.
  intros Hl (Ht & Hg & Hn). pose proof (typed_lapse _ _ Hl Ht) as Ht'.
  assert (∀ k, silent k = false → at_ (name k) r' = at_ (name k) r) as Hat.
  { intros k Hk. apply (lapse_lasting _ _ _ Hl). specialize (Ht k). unfold volatile.
    destruct k; try done; destruct (at_ _ r) as [[[] []]|]; cbn in *; done. }
  split_and!; [done| |].
  - intros sid. specialize (Hg sid). revert Hg. unfold cell_at, EXISTS, ZSCORE, scores_at, HGET. by rewrite !Hat.
  - revert Hn. unfold ZCARD, scores_at. by rewrite Hat.
Qed.

(** ** Histories *)

Section history.
Context (pin_ttl retention grace : Z).

Inductive mock_action :=
| APublish (op : string) (now : Z) (candidates : list (string * string))
| ABook (sid key conf : string) (now : Z)
| ARelease (op : string)
| ACleanup (now cutoff batch : Z).

Definition run_action (a : mock_action) r : R :=
  match a with
  | APublish op now candidates => (PUBLISH_AND_FILTER prefix op now pin_ttl capacity candidates r).2
  | ABook sid key conf now => (BOOK_SLOT prefix sid key conf (now + retention) now grace r).2
  | ARelease op => (RELEASE_OPERATION prefix op r).2
  | ACleanup now cutoff batch => (CLEANUP prefix now cutoff batch r).2
  end.

(** Any client runs a script, or time passes. *)
Inductive mock_step (ok : mock_action → R → Prop) r : R → Prop :=
| step_action a : ok a r → mock_step ok r (run_action a r)
| step_lapse r' : lapse r r' → mock_step ok r r'.

Lemma inv_action a r : inv 0 r → inv 0 (run_action a r).
Proof.
  destruct a; intros Hi; cbn; [by apply inv_publish|by apply keeps_after; [apply inv_book|]|by apply keeps_after; [apply inv_release|]|by apply inv_cleanup].
Qed.

Lemma inv_steps ok r r' : rtc (mock_step ok) r r' → inv 0 r → inv 0 r'.
Proof.
  induction 1 as [|r1 r2 r3 Hs _ IH]; [done|]. intros Hi. apply IH.
  destruct Hs; [by apply inv_action|by eapply inv_lapse].
Qed.

Lemma inv_empty r : 0 <= capacity → (∀ k : string, at_ k r = None) → inv 0 r.
Proof.
  intros Hc He. split_and!.
  - intros k. unfold kind_ok. by rewrite He.
  - intros sid. unfold cell_at, EXISTS, ZSCORE, scores_at, HGET. rewrite !He. unfold good. cbn. rewrite !lookup_empty. by split_and!.
  - unfold ZCARD, scores_at. rewrite He. rewrite map_size_empty. lia.
Qed.
End history.
End invariant.

(** ** What the Redis mock state promises

    For any interleaving of the four scripts with lapsing keys: the store is
    bounded, searches keep their slots, and a booking is protected until its
    time as long as the clocks of the clients agree up to half the grace. *)

Section bounds.
Context `{RedisLaws R, !RedisMore R, !RedisMoreLaws R, LuaHost} (prefix : string).
Context (capacity pin_ttl retention grace : Z).
Notation act := (run_action prefix capacity pin_ttl retention grace).
Notation step := (mock_step prefix capacity pin_ttl retention grace).

(** C29 (Redis mock: bounded state). In every history of the store at most
    [capacity] slots are published; exactly the published slots have a document;
    each of them may be evicted unless it is pinned, and none that is pinned
    may; no search and no cleanup before a pin runs out removes its slot, and
    after a cleanup only pins that run on are left, so a search that crashed
    holds no slot for good. *)
Theorem redis_mock_bounded ok r0 r now :
  0 <= capacity → (∀ k : string, at_ k r0 = None) → rtc (step ok) r0 r →
  ZCARD (all_key prefix) r <= capacity ∧
  (∀ sid, EXISTS (slot_key prefix sid) r = bool_decide (is_Some (ZSCORE (all_key prefix) sid r))) ∧
  (∀ sid, ZSCORE (lru_key prefix) sid r =
     match ZSCORE (pin_key prefix) sid r with Some _ => None | None => ZSCORE (all_key prefix) sid r end) ∧
  (∀ sid e a, ZSCORE (pin_key prefix) sid r = Some e → now < e →
     (∃ op l, a = APublish op now l) ∨ (∃ cutoff batch, a = ACleanup now cutoff batch) →
     EXISTS (slot_key prefix sid) (act a r) = true) ∧
  ∀ cutoff batch sid e, ZSCORE (pin_key prefix) sid (act (ACleanup now cutoff batch) r) = Some e → now < e.
Proof.
  intros Hcap He Hr. apply (inv_steps prefix capacity) in Hr as Hi; [|by apply inv_empty].
  assert (∀ r sid, inv prefix capacity 0 r → is_Some (c_pin (cell_at prefix r sid)) →
    EXISTS (slot_key prefix sid) r = true) as Hslot.
  { intros r1 sid (_ & Hg & _) Hs. destruct (Hg sid) as (Es & _ & Hp & _).
    change (EXISTS _ r1) with (c_slot (cell_at prefix r1 sid)). rewrite Es. by apply bool_decide_eq_true, Hp. }
  split_and!.
  - destruct Hi as (_ & _ & Hn). rewrite Z.add_0_r in Hn. exact Hn.
  - intros sid. apply (proj1 (proj2 Hi) sid).
  - intros sid. apply (proj1 (proj2 Hi) sid).
  - intros sid e a Hp Hlt [(op & l & ->)|(cutoff & batch & ->)]; apply Hslot.
    + by apply inv_publish.
    + exact (proj2 (inv_publish prefix capacity op now pin_ttl l r Hi) sid e Hp Hlt).
    + by apply inv_cleanup.
    + destruct (inv_cleanup prefix capacity now cutoff batch r Hi) as (_ & _ & Hk).
      unfold run_action. rewrite (Hk sid e) by done. by eexists.
  - intros cutoff batch sid e. by apply (inv_cleanup prefix capacity now cutoff batch r Hi).
Qed.
End bounds.
