(* ===== verification/MockProtection.v ===== *)
(** * Bookings on Redis are protected

    What keeps a booking: its record and the tombstone of its slot, with their
    entries in the two expiry indexes.  Cleanup goes by the indexes and the
    clock of its client, the backstop expiry by the clock of the server; the
    grace separates the two. *)

From S2P Require Import Prelude Calendar CalendarFacts ClockTime Json Reservation Watch Prog Effects.
From S2P Require Import RedisServer WatchScripts RedisKeys MockScripts MockKeys MockInvariant.

Section protection.
Context `{RedisLaws R, !RedisMore R, !RedisMoreLaws R, LuaHost, !LuaLaws} (prefix : string).
Context (capacity pin_ttl retention grace : Z).
Notation name := (name prefix).
Notation typed := (typed (R := R) prefix).
Notation only := (only (R := R) prefix).
Notation act := (run_action prefix capacity pin_ttl retention grace).
Notation step := (mock_step prefix capacity pin_ttl retention grace).
Implicit Types (r : R).

(** ** Scripts write named keys *)

Lemma pin_name : pin_key prefix = name KPin.
Proof. done. Qed.
Lemma pinowner_name : pinowner_key prefix = name KPinOwner.
Proof. done. Qed.
Lemma all_name : all_key prefix = name KAll.
Proof. done. Qed.
Lemma lru_name : lru_key prefix = name KLru.
Proof. done. Qed.
Lemma bookexp_name : bookexp_key prefix = name KBookExp.
Proof. done. Qed.
Lemma tombexp_name : tombexp_key prefix = name KTombExp.
Proof. done. Qed.
Lemma pinop_name op : pinop_key prefix op = name (KPinOp op).
Proof. done. Qed.
Lemma slot_name sid : slot_key prefix sid = name (KSlot sid).
Proof. done. Qed.
Lemma booked_name sid : booked_key prefix sid = name (KBooked sid).
Proof. done. Qed.
Lemma booking_name key : booking_key prefix key = name (KBooking key).
Proof. done. Qed.

Ltac named := rewrite ?pin_name, ?pinowner_name, ?all_name, ?lru_name, ?bookexp_name, ?tombexp_name,
  ?pinop_name, ?slot_name, ?booked_name, ?booking_name.

Ltac an_only := first [apply only_SET | apply only_DEL | apply only_PEXPIRE | apply only_SADD | apply only_SREM
  | apply only_ZADD | apply only_ZREM | apply only_HSET | apply only_HDEL].

(** Reading a script command by command. *)
Ltac walk write :=
  repeat first
    [ apply keeps_bind; [|intros ?] | apply keeps_read | apply keeps_ret | apply keeps_error
    | apply keeps_each; intros ? _
    | apply keeps_write; intros ? ?; named; write
    | progress cbv beta zeta | progress unfold lua_when | case_match ].

(** ** The clock of the server *)

Definition at_time (t : Z) r : Prop := server_now r = t.

Lemma at_time_only t k f r : only k f → at_time t r → at_time t (f r).
Proof. intros Ho Ht. unfold at_time. by rewrite (proj1 (proj2 (Ho r))). Qed.

Ltac clockwork := walk ltac:(eapply at_time_only; [an_only|done]).

Lemma time_act t a r : at_time t r → at_time t (act a r).
Proof.
  destruct a; cbn; apply keeps_after;
    unfold PUBLISH_AND_FILTER, BOOK_SLOT, RELEASE_OPERATION, CLEANUP, reconcile_pins, reconcile_pin, disown,
      evictable_again, protected_booking, taken, lua_tombstone, store_booking, release_one, remove_slot,
      drop_booking, drop_tombstone; clockwork.
  induction candidates as [|[sid json] l IH]; cbn [publish_loop]; [apply keeps_ret|].
  apply keeps_bind; [|intros; apply keeps_bind; [done|intros; apply keeps_ret]].
  unfold publish_one, pin, tombstoned, enter_slot, remove_slot, lua_tombstone. clockwork.
Qed.

Lemma now_steps ok r r' : rtc (step ok) r r' → server_now r <= server_now r'.
Proof.
  induction 1 as [|r1 r2 r3 Hs _ IH]; [done|]. etrans; [|exact IH]. destruct Hs as [a _|r2 Hl].
  - by rewrite (time_act (server_now r1) a r1).
  - by apply lapse_now.
Qed.

(** ** A protected booking *)

Section booking.
Context (sid key conf : string) (pms D : Z).

Definition tombstone : string := key +:+ "|" +:+ lua_num pms.

Record guarded r : Prop := {
  gd_typed : typed r;
  gd_booking : at_ (name (KBooking key)) r = Some (VString conf, true);
  gd_booking_until : deadline (name (KBooking key)) r = Some D;
  gd_booked : at_ (name (KBooked sid)) r = Some (VString tombstone, true);
  gd_booked_until : deadline (name (KBooked sid)) r = Some D;
  gd_exp : scores_at (name KBookExp) r !! key = Some pms;
  gd_tomb : scores_at (name KTombExp) r !! sid = Some pms;
}.

(** Writing another key, or another member of an expiry index. *)
Lemma guarded_only k f r : only k f → typed (f r) →
  k ≠ KBooking key → k ≠ KBooked sid → k ≠ KBookExp → k ≠ KTombExp → guarded r → guarded (f r).
Proof.
  intros Ho Ht H1' H2' H3' H4' []. destruct (Ho r) as [Hat [_ Hd]].
  split; [done|..]; first [rewrite Hat by done; done | rewrite (scores_only prefix k) by done; done
    | rewrite Hd; [done|intros ?%name_inj; congruence]].
Qed.

Lemma guarded_zset k m f r : only k f → typed (f r) → k = KBookExp ∨ k = KTombExp →
  (∀ m', m' ≠ m → scores_at (name k) (f r) !! m' = scores_at (name k) r !! m') →
  (k = KBookExp → m ≠ key) → (k = KTombExp → m ≠ sid) → guarded r → guarded (f r).
Proof.
  intros Ho Ht Hk Hm H1' H2' []. destruct (Ho r) as [Hat [_ Hd]].
  split; [done|..];
    first [rewrite Hat by (destruct Hk; congruence); done
          |rewrite Hd; [done|intros ?%name_inj; destruct Hk; congruence]|idtac].
  - destruct (decide (k = KBookExp)) as [->|]; [rewrite Hm; [done|]|by rewrite (scores_only prefix k)].
    intros ->. by apply H1'.
  - destruct (decide (k = KTombExp)) as [->|]; [rewrite Hm; [done|]|by rewrite (scores_only prefix k)].
    intros ->. by apply H2'.
Qed.

Ltac a_typed := first [apply typed_DEL | apply typed_ZREM | apply typed_SREM | apply typed_SADD | apply typed_HSET
  | apply typed_HDEL | apply typed_SET; [done|] | apply typed_PEXPIRE; [done|] | apply typed_ZADD; [done|]];
  by eapply gd_typed.

Ltac guarding := walk ltac:(eapply guarded_only; [an_only|a_typed|congruence..|done]).

Lemma guarded_publish op now candidates :
  keeps guarded (PUBLISH_AND_FILTER prefix op now pin_ttl capacity candidates).
Proof.
  unfold PUBLISH_AND_FILTER, reconcile_pins, reconcile_pin, disown, evictable_again. guarding.
  induction candidates as [|[sid' json] l IH]; cbn [publish_loop]; [apply keeps_ret|].
  apply keeps_bind; [|intros; apply keeps_bind; [done|intros; apply keeps_ret]].
  unfold publish_one, pin, tombstoned, enter_slot, remove_slot, lua_tombstone. guarding.
Qed.

Lemma guarded_release op : keeps guarded (RELEASE_OPERATION prefix op).
Proof. unfold RELEASE_OPERATION, release_one, evictable_again. guarding. Qed.

Lemma guarded_ZADD k s m r : is_zset k = true → (k = KBookExp → m ≠ key) → (k = KTombExp → m ≠ sid) →
  guarded r → guarded (ZADD (name k) s m r).
Proof.
  intros Hz H1' H2' Hg. destruct (decide (k = KBookExp ∨ k = KTombExp)) as [Hk|Hk].
  - apply (guarded_zset k m); [apply only_ZADD|by apply typed_ZADD, gd_typed|done| |done..].
    intros m' Hne. rewrite scores_ZADD by (done || by apply gd_typed). rewrite decide_True by done. by apply lookup_insert_ne.
  - apply (guarded_only k); [apply only_ZADD|by apply typed_ZADD, gd_typed|..]; try done;
      intros ->; (done || by apply Hk; auto).
Qed.

Lemma guarded_ZREM k m r : (k = KBookExp → m ≠ key) → (k = KTombExp → m ≠ sid) → is_zset k = true →
  guarded r → guarded (ZREM (name k) m r).
Proof.
  intros H1' H2' Hz Hg. destruct (decide (k = KBookExp ∨ k = KTombExp)) as [Hk|Hk].
  - apply (guarded_zset k m); [apply only_ZREM|by apply typed_ZREM, gd_typed|done| |done..].
    intros m' Hne. rewrite scores_ZREM, decide_True by done. by apply lookup_delete_ne.
  - apply (guarded_only k); [apply only_ZREM|by apply typed_ZREM, gd_typed|..]; try done;
      intros ->; (done || by apply Hk; auto).
Qed.

Lemma guarded_store sid' key' conf' pms' now : sid' ≠ sid → key' ≠ key →
  keeps guarded (store_booking prefix sid' key' conf' pms' now grace).
Proof.
  intros Hs Hk. unfold store_booking, disown.
  walk ltac:(first [eapply guarded_only; [an_only|a_typed|congruence..|done]
    | apply guarded_ZADD; (done || congruence) | apply guarded_ZREM; (done || congruence)]).
Qed.

(** ** What the scripts answer *)

Context (Hplain : plain_owner key = true) (Hexact : lua_exact pms).

Lemma tombstone_parsed : parse_tombstone tombstone = Some (key, pms).
Proof.
  apply free_of_spec in Hplain. unfold parse_tombstone, tombstone. rewrite !chars_app. change (chars "|") with (["|"%char]). cbn [app].
  rewrite find_bar_spec by done. cbn [mbind option_bind]. rewrite lua_num_exact by done.
  by rewrite !of_chars_chars, tonumber_pretty.
Qed.

Lemma guarded_replays now r sid' conf' pms' : now < pms → guarded r →
  BOOK_SLOT prefix sid' key conf' pms' now grace r = (Some (Replied_EXISTING conf), r).
Proof.
  intros Hlt []. unfold BOOK_SLOT, protected_booking, mbind, lua_bind, lua_read.
  rewrite booking_name, bookexp_name. unfold GET, ZSCORE. rewrite gd_booking0. rewrite gd_exp0.
  by rewrite (proj2 (Z.ltb_lt now pms) Hlt).
Qed.

Lemma guarded_refuses now r key' conf' pms' : now < pms → guarded r → key' ≠ key →
  BOOK_SLOT prefix sid key' conf' pms' now grace r = (Some Replied_UNAVAILABLE, r) ∨
  ∃ b, BOOK_SLOT prefix sid key' conf' pms' now grace r = (Some (Replied_EXISTING b), r).
Proof.
  intros Hlt [] Hne. unfold BOOK_SLOT, mbind, lua_bind.
  pose proof (reads_protected prefix key' now r) as Hr.
  destruct (protected_booking prefix key' now r) as [[[b|]|] r'] eqn:E; cbn in Hr; subst r'.
  - right. by exists b.
  - left. unfold taken, mbind, lua_bind, lua_read, GET. rewrite booked_name, gd_booked0. unfold lua_tombstone.
    rewrite tombstone_parsed. cbn. rewrite (proj2 (Z.ltb_lt now pms) Hlt), bool_decide_eq_false_2 by done. done.
  - exfalso. revert E. unfold protected_booking, mbind, lua_bind, lua_read. by destruct (GET _ r).
Qed.

Lemma guarded_skips op now ttl json r : now < pms → guarded r →
  publish_one prefix op now ttl capacity sid json r = (Some None, r).
Proof.
  intros Hlt []. unfold publish_one, tombstoned, mbind, lua_bind, lua_read, GET. rewrite booked_name, gd_booked0.
  unfold lua_tombstone. rewrite tombstone_parsed. cbn. by rewrite (proj2 (Z.ltb_lt now pms) Hlt).
Qed.

Lemma guarded_book sid' key' conf' now : now < pms →
  keeps guarded (BOOK_SLOT prefix sid' key' conf' (now + retention) now grace).
Proof.
  intros Hlt r Hg. destruct (decide (key' = key)) as [->|Hk].
  { unfold wp. by rewrite guarded_replays. }
  destruct (decide (sid' = sid)) as [->|Hs].
  { unfold wp. destruct (guarded_refuses now r key' conf' (now + retention)) as [->|[b ->]]; done. }
  unfold BOOK_SLOT. apply wp_bind, wp_reads; [apply reads_protected|done|]. intros [b|] _; [done|].
  apply wp_bind, wp_reads; [apply reads_taken|done|]. intros [] _; [done|].
  apply wp_bind, wp_read. destruct (negb _); [done|]. apply wp_bind.
  eapply wp_mono; [by apply guarded_store|]. done.
Qed.

Lemma guarded_drop_booking k : k ≠ key → keeps guarded (drop_booking prefix k).
Proof.
  intros Hk. unfold drop_booking.
  walk ltac:(first [apply guarded_ZREM; (done || congruence) | eapply guarded_only; [an_only|a_typed|congruence..|done]]).
Qed.

Lemma guarded_drop_tombstone k : k ≠ sid → keeps guarded (drop_tombstone prefix k).
Proof.
  intros Hk. unfold drop_tombstone.
  walk ltac:(first [apply guarded_ZREM; (done || congruence) | eapply guarded_only; [an_only|a_typed|congruence..|done]]).
Qed.

Lemma guarded_cleanup now cutoff batch : now < pms → keeps guarded (CLEANUP prefix now cutoff batch).
Proof.
  intros Hlt. unfold CLEANUP, reconcile_pins, reconcile_pin, disown, evictable_again, remove_slot.
  apply keeps_bind; [guarding|intros []]. apply keeps_bind; [apply keeps_read|intros idle].
  apply keeps_bind; [guarding|intros []]. intros r Hg. apply wp_bind, wp_read, wp_bind. eapply wp_mono.
  { apply wp_each; [|exact Hg]. intros k r1 Hin%elem_of_limit Hg1. 
    assert (k ≠ key) as Hk.
    { intros ->. apply ZRANGEBYSCORE_spec in Hin as (s & Hs & Hle). unfold ZSCORE in Hs.
      rewrite bookexp_name, (gd_exp _ Hg) in Hs. simplify_eq. lia. }
    by apply guarded_drop_booking. }
  intros a r2 Hg2. apply wp_bind, wp_read, wp_bind. eapply wp_mono.
  { apply wp_each; [|exact Hg2]. intros k r1 Hin%elem_of_limit Hg1. 
    assert (k ≠ sid) as Hk.
    { intros ->. apply ZRANGEBYSCORE_spec in Hin as (s & Hs & Hle). unfold ZSCORE in Hs.
      rewrite tombexp_name, (gd_tomb _ Hg2) in Hs. simplify_eq. lia. }
    by apply guarded_drop_tombstone. }
  intros b r3 Hg3. by apply wp_ret.
Qed.

(** ** From the booking on *)

Lemma guarded_lapse r r' : lapse r r' → server_now r' < D → guarded r → guarded r'.
Proof.
  intros Hl Hd []. 
  destruct (lapse_deadline r r' (name (KBooking key)) D Hl gd_booking_until0 Hd) as [E1 E2].
  destruct (lapse_deadline r r' (name (KBooked sid)) D Hl gd_booked_until0 Hd) as [E3 E4].
  assert (∀ k, k = KBookExp ∨ k = KTombExp → at_ (name k) r' = at_ (name k) r) as Hat.
  { intros k Hk. apply (lapse_lasting _ _ _ Hl). specialize (gd_typed0 k). unfold volatile.
    destruct Hk as [-> | ->]; destruct (at_ _ r) as [[[] []]|]; cbn in *; done. }
  split; [by eapply typed_lapse|congruence..| |]; unfold scores_at in *; by rewrite Hat by auto.
Qed.

Definition reading (a : mock_action) : option Z :=
  match a with APublish _ now _ | ABook _ _ _ now | ACleanup now _ _ => Some now | ARelease _ => None end.

(** No client's clock has reached the end of the protection. *)
Definition before (a : mock_action) (r : R) : Prop :=
  match reading a with Some now => now < pms | None => True end.

Lemma guarded_steps r r' : rtc (step before) r r' → server_now r' < D → guarded r → guarded r'.
Proof.
  induction 1 as [|r1 r2 r3 Hs Hr IH]; [done|]. intros Hd Hg. apply IH; [done|].
  destruct Hs as [a Ha|r2 Hl].
  - destruct a; cbn in Ha |- *; (apply keeps_after; [|done]);
      [apply guarded_publish|by apply guarded_book|apply guarded_release|by apply guarded_cleanup].
  - apply (guarded_lapse r1); [done| |done]. eapply Z.le_lt_trans; [by eapply now_steps|done].
Qed.

(** The four keys of a booking. *)
Definition record_keys : list mkey := [KBooking key; KBooked sid; KBookExp; KTombExp].

Definition recorded (r0 : R) r : Prop :=
  typed r ∧ server_now r = server_now r0 ∧ ∀ k, k ∈ record_keys → at_ (name k) r = at_ (name k) r0.

Lemma recorded_only r0 k f r : only k f → typed (f r) → k ∉ record_keys → recorded r0 r → recorded r0 (f r).
Proof.
  intros Ho Ht Hk (_ & Hn & Hr). destruct (Ho r) as [Hat [Hn' _]]. split_and!; [done|by rewrite Hn'|].
  intros k' Hk'. rewrite Hat; [by apply Hr|]. by intros ->.
Qed.

Ltac settle :=
  repeat match goal with |- context [decide (?a = ?b :> mkey)] =>
    first [rewrite (decide_True (P := a = b)) by done | rewrite (decide_False (P := a = b)) by done] end.

Ltac a_record := unfold record_keys; rewrite !elem_of_cons; auto 6.

(** The part of the script that forgets the published slot. *)
Lemma recorded_middle r0 sid' : keeps (recorded r0)
  (lua_write (DEL (slot_key prefix sid'));; lua_write (ZREM (all_key prefix) sid');;
   lua_write (ZREM (lru_key prefix) sid');; lua_write (ZREM (pin_key prefix) sid');; disown prefix sid').
Proof.
  assert (∀ k f, only k f → (∀ r, typed r → typed (f r)) → k ∉ record_keys → keeps (recorded r0) (lua_write f)) as Hw.
  { intros k f Ho Ht Hk r Hr. apply wp_write. apply (recorded_only r0 k); [done|apply Ht, Hr|done|done]. }
  unfold disown.
  repeat first [apply keeps_bind; [|intros ?] | apply keeps_read | apply keeps_ret | case_match];
    named; (eapply Hw; [an_only| |unfold record_keys; set_solver]); intros; first
      [by apply typed_DEL | by apply typed_ZREM | by apply typed_SREM | by apply typed_HDEL].
Qed.

Lemma guarded_stored now r : typed r → D = server_now r + Z.max 1 (pms + grace - now) →
  wp (store_booking prefix sid key conf pms now grace) (λ _, True) (λ _, guarded) r.
Proof.
  intros Ht HD. unfold store_booking. do 4 (apply wp_bind, wp_write; named). fold tombstone.
  set (r4 := ZADD _ _ _ _).
  assert (typed r4) as Ht4.
  { unfold r4. apply typed_ZADD; [done|]. apply typed_SET; [done|]. apply typed_ZADD; [done|]. by apply typed_SET. }
  assert (server_now r4 = server_now r) as Hn4.
  { unfold r4. by rewrite (proj1 (deadline_ZADD _ _ _ _)), (proj1 (deadline_SET _ _ _)),
      (proj1 (deadline_ZADD _ _ _ _)), (proj1 (deadline_SET _ _ _)). }
  assert (at_ (name (KBooking key)) r4 = Some (VString conf, false) ∧
          at_ (name (KBooked sid)) r4 = Some (VString tombstone, false) ∧
          scores_at (name KBookExp) r4 !! key = Some pms ∧ scores_at (name KTombExp) r4 !! sid = Some pms)
    as (Hb & Ht' & He & Htb).
  { unfold r4. split_and!.
    - autorewrite with redis. rewrite !decide_name. settle. done.
    - autorewrite with redis. rewrite !decide_name. settle. done.
    - rewrite scores_ZADD; [|done|]; [|apply typed_SET; [done|]; apply typed_ZADD; [done|]; by apply typed_SET].
      settle. rewrite (scores_only prefix (KBooked sid)) by (done || apply only_SET).
      rewrite scores_ZADD by (done || by apply typed_SET). settle. by rewrite lookup_insert_eq.
    - rewrite scores_ZADD; [|done|]; [|apply typed_SET; [done|]; apply typed_ZADD; [done|]; by apply typed_SET].
      settle. by rewrite lookup_insert_eq. }
  clearbody r4.
  assert (recorded r4 r4) as Hr4 by by split_and!.
  pose proof (recorded_middle r4 sid r4 Hr4) as Hmid.
  revert Hmid. named. unfold mbind, lua_bind, lua_write, wp. cbn [lua_write].
  destruct (disown prefix sid _) as [[[]|] r5]; intros (Ht5 & Hn5 & Hk5); [|done].
  set (ttl := Z.max 1 (pms + grace - now)) in *. assert (0 < ttl) as Httl by lia.
  assert (∀ k, k ∈ record_keys → at_ (name k) (PEXPIRE (name (KBooked sid)) ttl (PEXPIRE (name (KBooking key)) ttl r5))
    = if decide (KBooked sid = k) then pexpire ttl (at_ (name k) r4)
      else if decide (KBooking key = k) then pexpire ttl (at_ (name k) r4) else at_ (name k) r4) as Hat.
  { intros k Hk. rewrite at_PEXPIRE, decide_name. case_decide; [subst k|].
    - rewrite at_PEXPIRE, decide_name. settle. by rewrite Hk5.
    - rewrite at_PEXPIRE, decide_name. case_decide; [subst k|]; by rewrite Hk5. }
  pose proof (deadline_PEXPIRE_eq (name (KBooking key)) ttl r5) as Hd1.
  pose proof (deadline_PEXPIRE_eq (name (KBooked sid)) ttl (PEXPIRE (name (KBooking key)) ttl r5)) as Hd2.
  destruct (deadline_PEXPIRE (name (KBooking key)) ttl r5) as [Hn6 Hf6].
  destruct (deadline_PEXPIRE (name (KBooked sid)) ttl (PEXPIRE (name (KBooking key)) ttl r5)) as [Hn7 Hf7].
  split.
  - by do 2 (apply typed_PEXPIRE; [done|]).
  - rewrite Hat by a_record. settle. rewrite Hb. cbn. by rewrite (proj2 (Z.leb_gt ttl 0)).
  - rewrite Hf7 by (intros E%name_inj; done). rewrite Hd1; [by rewrite HD, Hn5, Hn4| |done].
    by rewrite Hk5, Hb by a_record.
  - rewrite Hat by a_record. settle. rewrite Ht'. cbn. by rewrite (proj2 (Z.leb_gt ttl 0)).
  - rewrite Hd2; [by rewrite HD, Hn6, Hn5, Hn4| |done].
    rewrite at_PEXPIRE, decide_name. settle. by rewrite Hk5, Ht' by a_record.
  - unfold scores_at in *. rewrite Hat by a_record. settle. done.
  - unfold scores_at in *. rewrite Hat by a_record. settle. done.
Qed.

(** The reply [BOOKED] leaves a protected booking. *)
Lemma guarded_booked now r r' : typed r → D = server_now r + Z.max 1 (pms + grace - now) →
  BOOK_SLOT prefix sid key conf pms now grace r = (Some (Replied_BOOKED conf), r') → guarded r'.
Proof.
  intros Ht HD HB.
  assert (wp (BOOK_SLOT prefix sid key conf pms now grace) (λ _, True)
    (λ reply r', reply = Replied_BOOKED conf → guarded r') r) as Hwp.
  { unfold BOOK_SLOT. apply wp_bind, wp_reads; [apply reads_protected|done|]. intros [b|] _; [done|].
    apply wp_bind, wp_reads; [apply reads_taken|done|]. intros [] _; [done|].
    apply wp_bind, wp_read. destruct (negb _); [done|]. apply wp_bind.
    eapply wp_mono; [by apply (guarded_stored now)|]. intros a r2 Hg. by apply wp_ret. }
  unfold wp in Hwp. rewrite HB in Hwp. by apply Hwp.
Qed.
End booking.

(** ** The guarantee *)

Section clocks.
Context `{SlotDocuments}.
Context (offset drift : Z).

(** A client's clock is within [drift] of the server's plus a constant. *)
Definition timely (now : Z) r : Prop := Z.abs (now - (server_now r + offset)) <= drift.

(** C28 (Redis mock: protected bookings). Once a script has booked a slot for a
    key, and as long as no client's clock has reached the end of the
    protection, whatever scripts run and whatever keys lapse: every further
    booking under the key is answered with the same confirmation, every
    booking of the slot under another key is refused, searches skip the slot,
    and a lookup finds the confirmation - provided the clients' clocks differ
    from the server's by a constant up to half the grace of the backstop
    expiry. *)
Theorem redis_booking_is_protected ok r0 r1 r2 r3 sid key conf now moment :
  0 <= capacity → 0 <= retention → 2 * drift <= grace → plain_owner key = true → lua_exact (now + retention) →
  (∀ k : string, at_ k r0 = None) → rtc (step ok) r0 r1 → timely now r1 →
  BOOK_SLOT prefix sid key conf (now + retention) now grace r1 = (Some (Replied_BOOKED conf), r2) →
  rtc (step (before (now + retention))) r2 r3 → timely (_to_ms moment) r3 → _to_ms moment < now + retention →
  let now' := _to_ms moment in
  (∀ sid' conf' pms, BOOK_SLOT prefix sid' key conf' pms now' grace r3 = (Some (Replied_EXISTING conf), r3)) ∧
  (∀ key' conf' pms, key' ≠ key →
     BOOK_SLOT prefix sid key' conf' pms now' grace r3 = (Some Replied_UNAVAILABLE, r3) ∨
     ∃ b, BOOK_SLOT prefix sid key' conf' pms now' grace r3 = (Some (Replied_EXISTING b), r3)) ∧
  (∀ op json, publish_one prefix op now' pin_ttl capacity sid json r3 = (Some None, r3)) ∧
  run (Σ := mock_redis R) serve (get_booking prefix key moment) r3 =
    (match parse_confirmation conf with Some c => Ok (Some c) | None => Exc ValidationError end, r3).
Proof.
  intros Hcap Hret Hdrift Hplain Hexact He Hr1 Ht1 HB Hr3 Ht3 Hlt.
  pose proof (inv_steps prefix capacity _ _ _ ok r0 r1 Hr1 (inv_empty prefix capacity r0 Hcap He)) as Hi.
  set (D := server_now r1 + Z.max 1 (now + retention + grace - now)).
  assert (guarded sid key conf (now + retention) D r2) as Hg2 by (eapply guarded_booked; try done; apply Hi).
  assert (guarded sid key conf (now + retention) D r3) as Hg.
  { eapply guarded_steps; [done..| |done]. unfold timely in *. lia. }
  split_and!.
  - intros sid' conf' pms. by eapply guarded_replays.
  - intros key' conf' pms Hne. by eapply guarded_refuses.
  - intros op json. by eapply guarded_skips.
  - unfold get_booking, on_server. cbn. rewrite booking_name, bookexp_name. unfold GET. rewrite (gd_booking _ _ _ _ _ _ Hg). cbn.
    unfold ZSCORE. rewrite (gd_exp _ _ _ _ _ _ Hg). cbn. rewrite (proj2 (Z.leb_gt _ _) Hlt).
    by destruct (parse_confirmation conf).
Qed.
End clocks.
End protection.
