(* ===== verification/MockModel.v ===== *)
(** * An executable server with a clock

    The server of [RedisModel] with a clock and a deadline per key meets the
    laws the mock state relies on; the witnesses of [MockInvariant] and
    [MockProtection] run on it, and two short histories in which the Redis
    state and the in-memory one, or two clients, disagree. *)

From S2P Require Import Prelude Dict Sorting Calendar CalendarFacts ClockTime Json Schemas Reservation Watch Prog Effects.
From S2P Require Import MockState RedisServer WatchScripts RedisKeys RedisModel MockScripts MockKeys MockInvariant MockProtection.

Record timed := MkTimed { td_keys : keyspace; td_deadlines : gmap string Z; td_now : Z }.
#[local] Instance timed_eta : Eta timed := λ t, MkTimed (td_keys t) (td_deadlines t) (td_now t).

Definition on_keys (f : keyspace → keyspace) (t : timed) : timed := t <| td_keys := f (td_keys t) |>.

#[export] Instance timed_server : RedisServer timed := {
  at_ k t := td_keys t !! k;
  SET k v t := on_keys (SET k v) t <| td_deadlines := delete k (td_deadlines t) |>;
  SET_PX k v px t := on_keys (SET_PX k v px) t <| td_deadlines := <[k := td_now t + px]> (td_deadlines t) |>;
  DEL k t := on_keys (DEL k) t <| td_deadlines := delete k (td_deadlines t) |>;
  INCR k t := let '(n, ks) := INCR k (td_keys t) in (n, on_keys (λ _, ks) t);
  PEXPIRE k ms t :=
    let t' := on_keys (PEXPIRE k ms) t in
    match td_keys t !! k with
    | Some _ => if 0 <? ms then t' <| td_deadlines := <[k := td_now t + ms]> (td_deadlines t) |> else t'
    | None => t'
    end;
  SADD k m := on_keys (SADD k m);
  SREM k m := on_keys (SREM k m);
  ZADD k s m := on_keys (ZADD k s m);
  ZREM k m := on_keys (ZREM k m);
  ZRANGEBYSCORE k max t := ZRANGEBYSCORE k max (td_keys t);
  lapse t t' := td_now t <= td_now t' ∧ ∃ gone : gset string,
    (∀ k, k ∈ gone → volatile k (td_keys t) = true ∧ ∀ d, td_deadlines t !! k = Some d → d <= td_now t') ∧
    (∀ k, td_keys t' !! k = if decide (k ∈ gone) then None else td_keys t !! k) ∧
    ∀ k, k ∉ gone → td_deadlines t' !! k = td_deadlines t !! k;
}.

(** The least member by score, then by name. *)
Definition lesser (a b : string * Z) : string * Z :=
  if (a.2 <? b.2) || ((a.2 =? b.2) && String.leb a.1 b.1) then a else b.

Definition least (l : list (string * Z)) : option (string * Z) :=
  match l with [] => None | x :: l' => Some (fold_left lesser l' x) end.

#[export] Instance timed_more : RedisMore timed := {
  HSET k f v := on_keys (with_key k (hset f v));
  HDEL k f := on_keys (with_key k (hdel f));
  ZRANGE_0_0 k t := fst <$> least (map_to_list (scores_at k (td_keys t)));
  server_now := td_now;
  deadline k t := td_deadlines t !! k;
}.

Lemma INCR_timed k (t : timed) :
  INCR k t = let '(n, ks) := INCR k (td_keys t) in (n, on_keys (λ _, ks) t).
Proof. done. Qed.

#[export] Instance timed_laws : RedisLaws timed.
Proof.
  split.
  - intros k v k' t. exact (at_SET k v k' (td_keys t)).
  - intros k v px k' t Hpx. exact (at_SET_PX k v px k' (td_keys t) Hpx).
  - intros k k' t. exact (at_DEL k k' (td_keys t)).
  - intros k t E. change (at_ k (td_keys t) = None) in E. rewrite INCR_timed, <- (INCR_new k (td_keys t) E). by destruct (INCR k (td_keys t)).
  - intros k n b t E. change (at_ k (td_keys t) = Some (VString (pretty n), b)) in E. rewrite INCR_timed, <- (INCR_next k n b (td_keys t) E). by destruct (INCR k (td_keys t)).
  - intros k n k' t t'. rewrite INCR_timed. destruct (INCR k (td_keys t)) as [m ks] eqn:E. intros [= -> <-].
    exact (at_INCR k n k' (td_keys t) ks E).
  - intros k k' t t'. rewrite INCR_timed. destruct (INCR k (td_keys t)) as [m ks] eqn:E. intros [= -> <-].
    exact (at_INCR_error k k' (td_keys t) ks E).
  - intros k ms k' t. transitivity (at_ k' (PEXPIRE k ms (td_keys t))); [|exact (at_PEXPIRE k ms k' (td_keys t))].
    cbn. destruct (td_keys t !! k); [by destruct (0 <? ms)|done].
  - intros k m k' t. exact (at_SADD k m k' (td_keys t)).
  - intros k m k' t. exact (at_SREM k m k' (td_keys t)).
  - intros k s m k' t. exact (at_ZADD k s m k' (td_keys t)).
  - intros k m k' t. exact (at_ZREM k m k' (td_keys t)).
  - intros k max t m. exact (ZRANGEBYSCORE_spec k max (td_keys t) m).
  - intros k max t. exact (ZRANGEBYSCORE_NoDup k max (td_keys t)).
  - intros k max t. exact (ZRANGEBYSCORE_sorted k max (td_keys t)).
  - intros t t' (_ & gone & Hv & Hat & _) k. cbn. rewrite Hat. case_decide as Hk; [right|by left].
    split; [by apply Hv|done].
Qed.

(** ** The least member *)

Lemma lesser_cases a b : lesser a b = a ∨ lesser a b = b.
Proof. unfold lesser. case_match; auto. Qed.

Definition ordered (a b : string * Z) : Prop := a.2 < b.2 ∨ (a.2 = b.2 ∧ String.leb a.1 b.1 = true).

Lemma leb_trans a b c : String.leb a b = true → String.leb b c = true → String.leb a c = true.
Proof.
  unfold String.leb. revert b c. induction a as [|x a IH]; intros [|y b] [|z c]; cbn; try done.
  unfold Ascii.compare. specialize (IH b c).
  destruct (N.compare_spec (N_of_ascii x) (N_of_ascii y)) as [Hxy|Hxy|Hxy]; try done;
  destruct (N.compare_spec (N_of_ascii y) (N_of_ascii z)) as [Hyz|Hyz|Hyz]; try done; intros H1 H2.
  - rewrite (proj2 (N.compare_eq_iff _ _)) by congruence. auto.
  - by rewrite (proj2 (N.compare_lt_iff _ _)) by lia.
  - by rewrite (proj2 (N.compare_lt_iff _ _)) by lia.
  - by rewrite (proj2 (N.compare_lt_iff _ _)) by lia.
Qed.

Lemma ordered_trans a b c : ordered a b → ordered b c → ordered a c.
Proof.
  intros [H1|[H1 H1']] [H2|[H2 H2']]; [left; lia..|right]. split; [lia|by eapply leb_trans].
Qed.

Lemma lesser_ordered a b : ordered (lesser a b) a ∧ ordered (lesser a b) b.
Proof.
  assert (∀ s, String.leb s s = true) as Hrefl by (intros s; by destruct (String.leb_total s s)).
  assert (∀ c, ordered c c) as Hc by (intros; right; split; [done|apply Hrefl]).
  unfold lesser. destruct (_ || _) eqn:E.
  - split; [apply Hc|]. apply orb_true_iff in E as [E|[E1 E2]%andb_true_iff]; [left; lia|right]. split; [lia|done].
  - split; [|apply Hc]. apply orb_false_iff in E as [E1 E2]. destruct (b.2 <? a.2) eqn:E3; [left; lia|].
    right. assert (a.2 = b.2) as E4 by lia. split; [done|]. rewrite E4, Z.eqb_refl in E2. cbn in E2.
    destruct (String.leb_total a.1 b.1); congruence.
Qed.

Lemma fold_lesser l x : fold_left lesser l x ∈ x :: l ∧ ∀ y, y ∈ x :: l → ordered (fold_left lesser l x) y.
Proof.
  revert x. induction l as [|z l IH]; intros x; cbn.
  - split; [left|]. intros y ->%list_elem_of_singleton. right. split; [done|]. by destruct (String.leb_total x.1 x.1).
  - destruct (IH (lesser x z)) as [Hin Hle]. destruct (lesser_ordered x z) as [H1 H2]. split.
    + apply elem_of_cons in Hin as [Hin|Hin]; [|by do 2 right]. rewrite Hin.
      destruct (lesser_cases x z) as [-> | ->]; [left|right; left].
    + pose proof (Hle (lesser x z) ltac:(left)) as H3.
      intros y [->|[->|Hy]%elem_of_cons]%elem_of_cons; [by eapply ordered_trans..|apply Hle; by right].
Qed.

Lemma least_spec l m : least l = Some m → m ∈ l ∧ ∀ y, y ∈ l → ordered m y.
Proof. destruct l as [|x l]; [done|]. intros [= <-]. apply fold_lesser. Qed.

#[export] Instance timed_more_laws : RedisMoreLaws timed.
Proof.
  assert (∀ k (t t' : timed), td_now t' = td_now t → (∀ k', k' ≠ k → td_deadlines t' !! k' = td_deadlines t !! k') →
    only_deadline k t t') as Hod by by split.
  split.
  - intros k f v k' t. exact (at_with_key k (hset f v) k' (td_keys t)).
  - intros k f k' t. exact (at_with_key k (hdel f) k' (td_keys t)).
  - intros k t Hn. cbn in Hn. apply fmap_None in Hn. change (scores_at k t) with (scores_at k (td_keys t)).
    destruct (map_to_list (scores_at k (td_keys t))) eqn:E; [|done]. by apply map_to_list_empty_iff.
  - intros k t m Hm. cbn in Hm. apply fmap_Some in Hm as ([m' s] & Hm & ->).
    apply least_spec in Hm as [Hin Hle]. exists s. split; [by apply elem_of_map_to_list|].
    intros m'' s'' Hs. apply (Hle (m'', s'')). by apply elem_of_map_to_list.
  - intros k v t. apply Hod; [done|]. intros k' Hne. cbn. by apply lookup_delete_ne.
  - intros k t. apply Hod; [done|]. intros k' Hne. cbn. by apply lookup_delete_ne.
  - intros k ms t. apply Hod; cbn; destruct (td_keys t !! k); try done; destruct (0 <? ms); try done.
    intros k' Hne. by apply lookup_insert_ne.
  - intros k ms t Hat Hms. cbn in *. destruct (td_keys t !! k); [|done].
    rewrite (proj2 (Z.ltb_lt 0 ms)) by done. apply lookup_insert_eq.
  - intros. by apply Hod.
  - intros. by apply Hod.
  - intros. by apply Hod.
  - intros. by apply Hod.
  - intros. by apply Hod.
  - intros. by apply Hod.
  - by intros t t' [Hn _].
  - intros t t' k d (_ & gone & Hv & Hat & Hdl) Hd Hlt. cbn in *.
    assert (k ∉ gone) as Hk by (intros [_ Hg]%Hv; specialize (Hg d Hd); lia).
    rewrite Hat, decide_False, Hdl by done. done.
Qed.

(** ** A history *)

Definition demo_prefix : string := "m".
Definition demo_retention : Z := 604_800_000.
Definition demo_grace : Z := 3_600_000.
Notation demo_act := (run_action demo_prefix 2 120_000 demo_retention demo_grace).
Notation demo_step := (mock_step demo_prefix 2 120_000 demo_retention demo_grace).

Definition d0 : timed := MkTimed ∅ ∅ 1000.
Definition d1 : timed := demo_act (APublish "op" 1000 [("a", "A"); ("b", "B")]%string) d0.
Definition demo_book : option book_reply * timed :=
  BOOK_SLOT demo_prefix "a" "k" "CONF" (1000 + demo_retention) 1000 demo_grace d1.
Definition d2 : timed := demo_book.2.
(** A week less an hour later, *)
Definition d3 : timed := d2 <| td_now := 600_000_000 |>.
Definition d4 : timed := demo_act (ACleanup 600_000_000 599_000_000 10) d3.

Lemma d0_empty (k : string) : at_ k d0 = None.
Proof. apply lookup_empty. Qed.

Lemma d1_steps ok : ok (APublish "op" 1000 [("a", "A"); ("b", "B")]%string) d0 → rtc (demo_step ok) d0 d1.
Proof. intros Hok. apply rtc_once. by apply step_action. Qed.

Lemma demo_reply : demo_book.1 = Some (Replied_BOOKED "CONF").
Proof. vm_compute. reflexivity. Qed.

Lemma demo_booked : demo_book = (Some (Replied_BOOKED "CONF"), d2).
Proof. rewrite (surjective_pairing demo_book), demo_reply. reflexivity. Qed.

Lemma d4_steps : rtc (demo_step (before (1000 + demo_retention))) d2 d4.
Proof.
  apply rtc_l with d3.
  - apply step_lapse. split; [vm_compute; done|]. exists ∅. split_and!; [set_solver|done..].
  - apply rtc_once. apply (step_action _ _ _ _ _ _ d3 (ACleanup 600_000_000 599_000_000 10)). vm_compute. done.
Qed.

Lemma redis_mock_bounded_witness :
  ZCARD (all_key demo_prefix) d1 <= 2 ∧
  (∃ op l, APublish "op" 2000 [("c", "C")]%string = APublish op 2000 l) ∧
  EXISTS (slot_key demo_prefix "a") (demo_act (APublish "op" 2000 [("c", "C")]%string) d1) = true.
Proof.
  destruct (redis_mock_bounded demo_prefix 2 120_000 demo_retention demo_grace (λ _ _, True) d0 d1 2000
    ltac:(lia) d0_empty (d1_steps _ I)) as (Hn & _ & _ & Hp & _).
  split; [exact Hn|]. split; [by eexists _, _|].
  apply (Hp "a"%string 121_000); [vm_compute; reflexivity|lia|left; by eexists _, _].
Defined.

Definition demo_slot : AvailabilitySlot :=
  MkSlot "a" "mock" "Venue" RESTAURANT "2026-03-01" "18:00" None 2 4.
Definition demo_confirmation : BookingConfirmation :=
  MkConfirmation "mock_booking_k" "mock" MOCK_CONFIRMED demo_slot 0.

#[local] Instance demo_documents : SlotDocuments := {
  slot_json s := sl_slot_id s;
  parse_slot _ := Some demo_slot;
  confirmation_json c := bc_booking_id c;
  parse_confirmation s := if (s =? "")%string then None else Some demo_confirmation;
}.

Lemma redis_booking_is_protected_witness :
  BOOK_SLOT demo_prefix "b" "k" "OTHER" 0 600_000_000 demo_grace d4 = (Some (Replied_EXISTING "CONF"), d4) ∧
  run (Σ := mock_redis timed) serve (get_booking demo_prefix "k" 600_000_000_000) d4
    = (Ok (Some demo_confirmation), d4).
Proof.
  assert (_to_ms 600_000_000_000 = 600_000_000) as Hms by (vm_compute; reflexivity).
  destruct (redis_booking_is_protected demo_prefix 2 120_000 demo_retention demo_grace 0 0 (λ _ _, True)
    d0 d1 d2 d4 "a" "k" "CONF" 1000 600_000_000_000 ltac:(lia) ltac:(vm_compute; done) ltac:(vm_compute; done)
    ltac:(vm_compute; reflexivity) ltac:(vm_compute; done) d0_empty (d1_steps _ I) ltac:(vm_compute; done)
    demo_booked d4_steps ltac:(rewrite Hms; vm_compute; done) ltac:(rewrite Hms; vm_compute; done))
    as (Hsame & _ & _ & Hget).
  split; [|exact Hget]. rewrite <- Hms. apply Hsame.
Defined.

(** ** Where clients and stores disagree *)

(** A booking whose slot is published between the read and the script stores
    the empty confirmation: the caller gets a [ValidationError], the slot is
    gone, and until the protection ends every lookup under the key fails alike. *)
Definition booking_program : prog (mock_redis timed) BookingConfirmation :=
  book_slot demo_prefix demo_retention demo_grace "a" "k" (λ _, demo_confirmation) 1_000_000.
Definition publishes (t t' : timed) : Prop :=
  ∃ a, t' = demo_act a t.
Definition answers (o : mock_op timed) (t : timed) (r : outcome exn (mock_ans o)) (t' : timed) : Prop :=
  serve o t = (r, t').

Lemma late_publication_empties_the_booking :
  ∃ t, rtc (pstep (Σ := mock_redis timed) answers publishes) (booking_program, d0)
         (Raise (Σ := mock_redis timed) ValidationError, t) ∧
    GET (booking_key demo_prefix "k") t = Some ""%string ∧
    EXISTS (slot_key demo_prefix "a") t = false ∧
    (run (Σ := mock_redis timed) serve (get_booking demo_prefix "k" 2_000_000) t).1 = Exc ValidationError.
Proof.
  exists (BOOK_SLOT demo_prefix "a" "k" "" (1000 + demo_retention) 1000 demo_grace d1).2.
  split; [|vm_compute; done].
  eapply rtc_l; [apply (pstep_call (Σ := mock_redis timed) answers publishes
    (MExec (option string) (lua_read (GET (slot_key demo_prefix "a")))) _ d0 (Ok None) d0); reflexivity|].
  eapply rtc_l; [apply (pstep_env (Σ := mock_redis timed) answers publishes _ d0 d1); by eexists|].
  eapply rtc_l; [eapply (pstep_call (Σ := mock_redis timed) answers publishes
    (MExec book_reply (BOOK_SLOT demo_prefix "a" "k" "" (_to_ms 1_000_000 + demo_retention) (_to_ms 1_000_000) demo_grace))
    _ d1 (Ok (Replied_BOOKED "")) (BOOK_SLOT demo_prefix "a" "k" "" (1000 + demo_retention) 1000 demo_grace d1).2);
    vm_compute; reflexivity|apply rtc_refl].
Qed.

(** Two slots of one search are equally old; the in-memory store evicts the
    one published first, the script the one whose id is first in the alphabet. *)
Definition slot_named (i : string) : AvailabilitySlot :=
  MkSlot i "mock" "Venue" RESTAURANT "2026-03-01" "18:00" None 2 4.

Definition memory_after : mock_state :=
  let s := (Mock.publish_and_filter 2 120_000 [slot_named "b"; slot_named "a"] "op" 1000 empty_mock).2 in
  (Mock.publish_and_filter 2 120_000 [slot_named "c"] "op2" 2000 (Mock.release_operation "op" s)).2.

Definition redis_after : timed :=
  demo_act (APublish "op2" 2000 [("c", "C")]%string)
    (demo_act (ARelease "op") (demo_act (APublish "op" 1000 [("b", "B"); ("a", "A")]%string) d0)).

Lemma eviction_victims_differ :
  keys (ms_slots memory_after) = ["a"; "c"]%string ∧
  filter (λ i, EXISTS (slot_key demo_prefix i) redis_after = true) ["a"; "b"; "c"]%string = ["b"; "c"]%string.
Proof. split; vm_compute; reflexivity. Qed.
