(* ===== verification/Throttle.v ===== *)
(** * The sliding-window throttle ([SlidingWindowThrottle],
    [backend/services/throttle.py])

    Failed logins and paid prompts are counted per key in a window of fixed
    length.  [self._clock()] reads a monotonic clock, possibly several times in
    one operation: [clock i] is its [i]-th reading, the throttle counts the
    readings it made; [uuid i] is the [i]-th [uuid4().hex].  Readings are
    integers; the rounding of a float difference is not modelled. *)

From stdpp Require Import functions.
From S2P Require Import Prelude Dict Calendar Prog.

Definition _MAX_TRACKED_KEYS : Z := 10_000.

(** One counted event: when, and the token that can release it. *)
Definition attempt_at : Type := Z * string.

Record throttle := MkThrottle {
  th_failures : dict (list attempt_at);
  th_ticks : nat;                      (* clock readings so far *)
  th_uuids : nat;                      (* tokens drawn so far *)
}.
#[export] Instance throttle_eta : Eta throttle := λ th,
  MkThrottle (th_failures th) (th_ticks th) (th_uuids th).

Definition new_throttle : throttle := MkThrottle ∅ 0 0.

Section throttle.
Context {X : Type} (on_limit : X).
Context (max_events window : Z) (clock : nat → Z) (uuid : nat → string).
Implicit Types (th : throttle) (key token : string).

(** [self._clock()] *)
Definition tick th : Z * throttle :=
  (clock (th_ticks th), th <| th_ticks := S (th_ticks th) |>).

(** [while attempts and attempts[0][0] <= cutoff: attempts.popleft()] *)
Fixpoint popleft (cutoff : Z) (attempts : list attempt_at) : list attempt_at :=
  match attempts with
  | (t, token) :: attempts' => if t <=? cutoff then popleft cutoff attempts' else attempts
  | [] => []
  end.

Definition _live key th : option (list attempt_at) * throttle :=
  match th_failures th !! key with
  | None => (None, th)
  | Some attempts =>
      let '(now, th) := tick th in
      match popleft (now - window) attempts with
      | [] => (None, th <| th_failures := delete key (th_failures th) |>)
      | attempts => (Some attempts, th <| th_failures := <[key := attempts]> (th_failures th) |>)
      end
  end.

Definition _sweep th : throttle :=
  fold_left (λ th key, (_live key th).2) (keys (th_failures th)) th.

Definition check key th : outcome X () * throttle :=
  let '(attempts, th) := _live key th in
  match attempts with
  | Some attempts =>
      if max_events <=? Z.of_nat (length attempts) then (Exc on_limit, th) else (Ok (), th)
  | None => (Ok (), th)
  end.

(** [token = uuid4().hex; attempts.append((self._clock(), token))] *)
Definition append_event key (attempts : list attempt_at) th : option string * throttle :=
  let token := uuid (th_uuids th) in
  let th := th <| th_uuids := S (th_uuids th) |> in
  let '(now, th) := tick th in
  (Some token, th <| th_failures := <[key := attempts ++ [(now, token)]]> (th_failures th) |>).

Definition record key th : option string * throttle :=
  let '(attempts, th) := _live key th in
  match attempts with
  | Some attempts => append_event key attempts th
  | None =>
      let th := if _MAX_TRACKED_KEYS <=? dict_len (th_failures th) then _sweep th else th in
      if _MAX_TRACKED_KEYS <=? dict_len (th_failures th) then (None, th)
      else append_event key [] th
  end.

Definition reset key th : throttle := th <| th_failures := delete key (th_failures th) |>.

(** [aconsume]: no other task runs between the check and the reservation. *)
Definition aconsume key th : outcome X (option string) * throttle :=
  match check key th with
  | (Exc x, th) => (Exc x, th)
  | (Ok _, th) => let '(token, th) := record key th in (Ok token, th)
  end.

(** Removing the first event with this token. *)
Fixpoint remove_token token (attempts : list attempt_at) : list attempt_at :=
  match attempts with
  | (t, token') :: attempts' =>
      if (token' =? token)%string then attempts' else (t, token') :: remove_token token attempts'
  | [] => []
  end.

Definition arelease key (token : option string) th : throttle :=
  let '(attempts, th) := _live key th in
  match attempts, token with
  | Some attempts, Some token =>
      th <| th_failures := <[key := remove_token token attempts]> (th_failures th) |>
  | _, _ => th
  end.

(** ** Histories

    What the clients of one throttle do, and the events that count: granted,
    not released, not forgotten by a reset. *)

Inductive action :=
| DoCheck (key : string)
| DoConsume (key : string)
| DoRelease (key : string) (token : option string)
| DoReset (key : string).

Record world := MkWorld { w_throttle : throttle; w_counted : string → list attempt_at }.

Definition new_world : world := MkWorld new_throttle (λ _, []).

(** The counted event a grant adds carries the reading it was stored with. *)
Definition grant key (r : outcome X (option string)) th (counted : string → list attempt_at)
    : string → list attempt_at :=
  match r with
  | Ok (Some token) => <[key := counted key ++ [(clock (pred (th_ticks th)), token)]]> counted
  | _ => counted
  end.

Definition act (a : action) (w : world) : world :=
  match a with
  | DoCheck key => MkWorld (check key (w_throttle w)).2 (w_counted w)
  | DoConsume key =>
      let '(r, th) := aconsume key (w_throttle w) in
      MkWorld th (grant key r th (w_counted w))
  | DoRelease key token =>
      MkWorld (arelease key token (w_throttle w))
        match token with
        | Some token => <[key := remove_token token (w_counted w key)]> (w_counted w)
        | None => w_counted w
        end
  | DoReset key => MkWorld (reset key (w_throttle w)) (<[key := []]> (w_counted w))
  end.

Definition history (l : list action) : world := fold_left (λ w a, act a w) l new_world.

(** How many of [l] lie in the window that ends at [t]. *)
Definition in_window (t : Z) (e : attempt_at) : bool := (t - window <? e.1) && (e.1 <=? t).
Definition spent (t : Z) (l : list attempt_at) : Z :=
  Z.of_nat (length (filter (λ e, in_window t e = true) l)).

(** The last reading before the next one. *)
Definition last_reading th : Z := clock (pred (th_ticks th)).
End throttle.
