(* ===== verification/ThrottleTheorems.v ===== *)
(** * The sliding-window throttle: theorems

    Whatever its clients do, a throttle grants at most [max_events] within any
    window, refuses only a key that has spent them, and stays bounded. *)

From stdpp Require Import functions sorting.
From Stdlib Require Import Sorted.
From S2P Require Import Prelude Dict Calendar Prog Throttle.

Section facts.
Context {X : Type} (on_limit : X).
Context (max_events window : Z) (clock : nat → Z) (uuid : nat → string).
Context (Hmax : 1 <= max_events) (Hwindow : 0 <= window).
Context (Hclock : ∀ i j, (i <= j)%nat → clock i <= clock j) (Huuid : Inj (=) (=) uuid).
Implicit Types (th : throttle) (key token : string).

Local Abbreviation live := (_live window clock).
Local Abbreviation last := (last_reading clock).
Local Abbreviation in_win := (in_window window).

(** The events a throttle holds for a key. *)
Definition held th key : list attempt_at := default [] (th_failures th !! key).

(** [th'] is [th] some readings later, with expired events dropped. *)
Record aged th th' : Prop := MkAged {
  aged_ticks : (th_ticks th <= th_ticks th')%nat;
  aged_uuids : th_uuids th' = th_uuids th;
  aged_wf : dict_wf (th_failures th) → dict_wf (th_failures th');
  aged_len : dict_len (th_failures th') <= dict_len (th_failures th);
  aged_held key : ∃ dropped, held th key = dropped ++ held th' key ∧
    ∀ e, e ∈ dropped → e.1 <= last th' - window;
}.

Lemma last_mono th th' : (th_ticks th <= th_ticks th')%nat → last th <= last th'.
Proof. intros. apply Hclock. lia. Qed.

#[local] Instance aged_preorder : PreOrder aged.
Proof.
  split.
  - intros th. split; [lia|done|done|lia|]. intros key. exists []. split; [done|set_solver].
  - intros th1 th2 th3 [] []. split; [lia|congruence|auto|lia|]. intros key.
    destruct (aged_held0 key) as (d1 & E1 & H1), (aged_held1 key) as (d2 & E2 & H2).
    exists (d1 ++ d2). rewrite E1, E2, app_assoc. split; [done|].
    intros e [He|He]%elem_of_app; [|by apply H2].
    specialize (H1 _ He). pose proof (last_mono th2 th3 ltac:(lia)). lia.
Qed.

Lemma popleft_spec cutoff l :
  ∃ dropped, l = dropped ++ popleft cutoff l ∧ ∀ e, e ∈ dropped → e.1 <= cutoff.
Proof.
  induction l as [|[t token] l (d & E & H)]; cbn; [exists []; set_solver|].
  destruct (t <=? cutoff) eqn:Ht; [|exists []; set_solver].
  exists ((t, token) :: d). split; [cbn; by f_equal|].
  intros e [->|He]%elem_of_cons; [cbn; lia|auto].
Qed.

Lemma dict_len_replace key (l l' : list attempt_at) (d : dict (list attempt_at)) :
  d !! key = Some l → dict_len (<[key := l']> d) = dict_len d.
Proof. intros E. rewrite dict_len_insert. by rewrite (proj2 (dict_mem_spec _ _)) by eauto. Qed.

(** Reading the live events of a key. *)
Lemma live_spec key th :
  aged th (live key th).2 ∧ th_failures (live key th).2 !! key = (live key th).1 ∧
  match (live key th).1 with
  | Some l => th_ticks (live key th).2 = S (th_ticks th) ∧
      l = popleft (last (live key th).2 - window) (held th key)
  | None => True
  end.
Proof.
  unfold _live. destruct (th_failures th !! key) as [l|] eqn:E; cbn; [|done].
  destruct (popleft_spec (clock (th_ticks th) - window) l) as (d & Ed & Hd).
  assert (held th key = l) as Eh by (unfold held; by rewrite E).
  destruct (popleft (clock (th_ticks th) - window) l) as [|e l'] eqn:Ep; cbn.
  - split; [|by rewrite dict_lookup_delete_eq]. split; cbn; [lia|done|apply dict_wf_delete|apply dict_len_delete_le|].
    intros k. unfold held at 2. cbn. rewrite dict_lookup_delete. case_decide as Hk; [|by exists []; set_solver].
    subst k. exists d. rewrite Eh. split; [done|exact Hd].
  - split; [|rewrite dict_lookup_insert_eq, Eh; auto].
    split; cbn; [lia|done|apply dict_wf_insert|rewrite (dict_len_replace key l) by done; lia|].
    intros k. unfold held at 2. cbn. rewrite dict_lookup_insert. case_decide as Hk; [|by exists []; set_solver].
    subst k. exists d. rewrite Eh. split; [done|exact Hd].
Qed.

Lemma sweep_aged th : aged th (_sweep window clock th).
Proof.
  unfold _sweep. generalize (keys (th_failures th)) at 1. intros l.
  revert th. induction l as [|k l IH]; intros th; cbn; [reflexivity|].
  etransitivity; [apply live_spec|apply IH].
Qed.

(** ** The invariant of a history *)

(** How the events [cs] that count for one key agree with those held. *)
Record key_inv th (h cs : list attempt_at) : Prop := MkKeyInv {
  ki_held : ∃ dropped, cs = dropped ++ h ∧ ∀ e, e ∈ dropped → e.1 <= last th - window;
  ki_past e : e ∈ cs → e.1 <= last th;
  ki_sorted : StronglySorted Z.le cs.*1;
  ki_drawn e : e ∈ cs → ∃ i, (i < th_uuids th)%nat ∧ e.2 = uuid i;
  ki_unique : NoDup cs.*2;
  ki_spent t : spent window t cs <= max_events;
}.

Record inv (w : world) : Prop := MkInv {
  inv_wf : dict_wf (th_failures (w_throttle w));
  inv_len : dict_len (th_failures (w_throttle w)) <= _MAX_TRACKED_KEYS;
  inv_key key : key_inv (w_throttle w) (held (w_throttle w) key) (w_counted w key);
}.

Lemma key_inv_aged th th' h h' dropped cs :
  (th_ticks th <= th_ticks th')%nat → (th_uuids th <= th_uuids th')%nat →
  h = dropped ++ h' → (∀ e, e ∈ dropped → e.1 <= last th' - window) →
  key_inv th h cs → key_inv th' h' cs.
Proof.
  intros Ht Hu Eh Hd [(d1 & E1 & H1)]. pose proof (last_mono th th' Ht) as Hl. split; auto.
  - exists (d1 ++ dropped). rewrite E1, Eh, app_assoc. split; [done|].
    intros e [He|He]%elem_of_app; [|by apply Hd]. specialize (H1 _ He). lia.
  - intros e He. specialize (ki_past0 e He). lia.
  - intros e He. destruct (ki_drawn0 e He) as (i & ? & ?). exists i. split; [lia|done].
Qed.

Lemma inv_aged th th' counted : aged th th' → inv (MkWorld th counted) → inv (MkWorld th' counted).
Proof.
  intros [] [Hwf Hlen Hkey]. cbn in *. split; cbn; [auto|lia|]. intros key.
  destruct (aged_held0 key) as (d & E & Hd). eapply key_inv_aged; [done|by rewrite aged_uuids0|done..].
Qed.

Lemma spent_app t l1 l2 : spent window t (l1 ++ l2) = spent window t l1 + spent window t l2.
Proof. unfold spent. rewrite filter_app, length_app. lia. Qed.

Lemma spent_le t l : 0 <= spent window t l <= Z.of_nat (length l).
Proof. unfold spent. pose proof (length_filter (λ e, in_win t e = true) l). lia. Qed.

Lemma spent_none t l : (∀ e, e ∈ l → in_win t e = false) → spent window t l = 0.
Proof.
  unfold spent. induction l as [|e l IH]; intros H; [done|].
  rewrite filter_cons, decide_False by (rewrite H by set_solver; done). apply IH. set_solver.
Qed.

Lemma spent_expired t l : (∀ e, e ∈ l → e.1 <= t - window) → spent window t l = 0.
Proof.
  intros H. apply spent_none. intros e He. specialize (H e He). apply andb_false_iff. lia.
Qed.

Lemma spent_future t l : (∀ e, e ∈ l → t < e.1) → spent window t l = 0.
Proof.
  intros H. apply spent_none. intros e He. specialize (H e He). apply andb_false_iff. lia.
Qed.

(** One more event, within the allowance. *)
Lemma key_inv_append th th' h cs :
  th_ticks th' = S (th_ticks th) → th_uuids th' = S (th_uuids th) →
  Z.of_nat (length h) < max_events → key_inv th h cs →
  let e := (clock (th_ticks th), uuid (th_uuids th)) in key_inv th' (h ++ [e]) (cs ++ [e]).
Proof.
  intros Et Eu Hroom [(d & E & Hd)] e.
  assert (last th' = e.1) as El by (unfold last_reading; by rewrite Et).
  assert (last th <= e.1) as Hl by (rewrite <- El; apply last_mono; lia).
  split.
  - exists d. rewrite E, app_assoc. split; [done|]. intros x Hx. specialize (Hd x Hx). lia.
  - intros x [Hx|Hx]%elem_of_app; [specialize (ki_past0 x Hx); lia|].
    apply list_elem_of_singleton in Hx as ->. lia.
  - rewrite fmap_app. apply StronglySorted_app_2; [|done|repeat constructor].
    intros a b (x & -> & Hx)%list_elem_of_fmap Hb. apply list_elem_of_singleton in Hb as ->.
    specialize (ki_past0 x Hx). lia.
  - rewrite Eu. intros x [Hx|Hx]%elem_of_app.
    + destruct (ki_drawn0 x Hx) as (i & ? & ?). exists i. split; [lia|done].
    + apply list_elem_of_singleton in Hx as ->. exists (th_uuids th). split; [lia|done].
  - rewrite fmap_app. apply NoDup_app. split_and!; [done| |apply NoDup_singleton].
    intros x (y & -> & Hy)%list_elem_of_fmap Hx. apply list_elem_of_singleton in Hx.
    destruct (ki_drawn0 y Hy) as (i & Hi & Ei). rewrite Ei in Hx. apply Huuid in Hx. cbn in Hx. lia.
  - intros t. rewrite spent_app. destruct (decide (t < e.1)) as [Ht|Ht].
    + rewrite (spent_future t [e]) by set_solver. specialize (ki_spent0 t). lia.
    + pose proof (spent_le t [e]). cbn [length] in *. rewrite E, spent_app.
      rewrite (spent_expired t d) by (intros x Hx; specialize (Hd x Hx); lia).
      pose proof (spent_le t h). lia.
Qed.

Lemma held_lookup th key l : th_failures th !! key = Some l → held th key = l.
Proof. unfold held. by intros ->. Qed.

Lemma held_none th key : th_failures th !! key = None → held th key = [].
Proof. unfold held. by intros ->. Qed.

Lemma held_insert th key l k n m :
  held (MkThrottle (<[key := l]> (th_failures th)) n m) k = if decide (key = k) then l else held th k.
Proof. unfold held. cbn. rewrite dict_lookup_insert. by case_decide. Qed.

Lemma held_delete th key k n m :
  held (MkThrottle (delete key (th_failures th)) n m) k = if decide (key = k) then [] else held th k.
Proof. unfold held. cbn. rewrite dict_lookup_delete. by case_decide. Qed.

(** Storing one more event. *)
Lemma inv_append th counted key :
  inv (MkWorld th counted) → Z.of_nat (length (held th key)) < max_events →
  is_Some (th_failures th !! key) ∨ dict_len (th_failures th) < _MAX_TRACKED_KEYS →
  let '(token, th') := append_event clock uuid key (held th key) th in
  inv (MkWorld th' (grant (X := X) clock key (Ok token) th' counted)).
Proof.
  intros [Hwf Hlen Hkey] Hl Hroom. cbn in *. split; cbn.
  - by apply dict_wf_insert.
  - rewrite dict_len_insert. destruct (dict_mem key _) eqn:Em; [done|].
    destruct Hroom as [H%dict_mem_spec|]; [congruence|lia].
  - intros k. rewrite held_insert. specialize (Hkey k). case_decide as Hk.
    + subst k. rewrite fn_lookup_insert. by apply (key_inv_append th).
    + rewrite fn_lookup_insert_ne by done. eapply (key_inv_aged th _ _ _ []); cbn; [lia..|done|set_solver|done].
Qed.

(** A grant is refused for lack of room in the table only. *)
Lemma record_spec th counted key (token : option string) th' :
  inv (MkWorld th counted) → Z.of_nat (length (held th key)) < max_events →
  record window clock uuid key th = (token, th') →
  inv (MkWorld th' (grant (X := X) clock key (Ok token) th' counted)) ∧
  (token = None → dict_len (th_failures th') = _MAX_TRACKED_KEYS).
Proof.
  intros Hi Hl Hr. unfold record in Hr. pose proof (live_spec key th) as (Ha & Hk & Hlive).
  destruct (live key th) as [r th1] eqn:E. cbn in *.
  pose proof (inv_aged _ _ _ Ha Hi) as Hi1.
  assert (Z.of_nat (length (held th1 key)) < max_events) as Hl1.
  { destruct (aged_held _ _ Ha key) as (d & Ed & _). rewrite Ed, length_app in Hl. lia. }
  assert (∀ th2, inv (MkWorld th2 counted) → held th2 key = held th1 key →
    is_Some (th_failures th2 !! key) ∨ dict_len (th_failures th2) < _MAX_TRACKED_KEYS →
    append_event clock uuid key (held th2 key) th2 = (token, th') →
    inv (MkWorld th' (grant (X := X) clock key (Ok token) th' counted)) ∧
    (token = None → dict_len (th_failures th') = _MAX_TRACKED_KEYS)) as Hgo.
  { intros th2 Hi2 Eh Hroom Happ. rewrite <- Eh in Hl1.
    pose proof (inv_append th2 counted key Hi2 Hl1 Hroom) as H. rewrite Happ in H.
    split; [done|]. intros ->. by injection Happ. }
  destruct r as [l|].
  - rewrite <- (held_lookup _ _ _ Hk) in Hr. apply (Hgo th1); eauto.
  - set (th2 := if _MAX_TRACKED_KEYS <=? dict_len (th_failures th1) then _sweep window clock th1 else th1) in Hr.
    assert (aged th1 th2) as Ha2 by (unfold th2; destruct (_ <=? dict_len (th_failures th1)); [apply sweep_aged|reflexivity]).
    pose proof (inv_aged _ _ _ Ha2 Hi1) as Hi2.
    assert (held th2 key = []) as Eh2.
    { destruct (aged_held _ _ Ha2 key) as (d & Ed & _). rewrite (held_none _ _ Hk) in Ed.
      symmetry in Ed. by apply app_eq_nil in Ed as [_ ?]. }
    destruct (_MAX_TRACKED_KEYS <=? dict_len (th_failures th2)) eqn:Efull; clearbody th2.
    + injection Hr as <- <-. split; [done|]. intros _. pose proof (inv_len _ Hi2). cbn in *. lia.
    + apply (Hgo th2); [done..|by rewrite Eh2, (held_none _ _ Hk)|right; lia|by rewrite Eh2].
Qed.

Lemma remove_token_sub token l : remove_token token l `sublist_of` l.
Proof.
  induction l as [|[t token'] l IH]; cbn; [done|]. case_match; [by apply sublist_cons|by apply sublist_skip].
Qed.

Lemma remove_token_app token l1 l2 :
  NoDup (l1 ++ l2).*2 →
  (token ∈ l1.*2 ∧ remove_token token (l1 ++ l2) = remove_token token l1 ++ l2 ∧
     remove_token token l2 = l2) ∨
  (remove_token token (l1 ++ l2) = l1 ++ remove_token token l2).
Proof.
  induction l1 as [|[t token'] l1 IH]; cbn; [by right|]. intros [Hni Hnd]%NoDup_cons.
  destruct (token' =? token)%string eqn:E; [apply String.eqb_eq in E as <-; left|].
  - split_and!; [set_solver|done|]. rewrite fmap_app in Hni.
    assert (token' ∉ l2.*2) as Hni2 by set_solver. clear -Hni2.
    induction l2 as [|[u w] l2 IH]; cbn in *; [done|]. rewrite not_elem_of_cons in Hni2.
    destruct Hni2 as [Hw Hl]. apply not_eq_sym in Hw. apply String.eqb_neq in Hw as ->.
    by rewrite IH.
  - destruct (IH Hnd) as [(Hin & -> & Hl2)|Er]; [left; set_solver|right; by rewrite Er].
Qed.

Lemma sorted_sublist (l1 l2 : list Z) : l1 `sublist_of` l2 → StronglySorted Z.le l2 → StronglySorted Z.le l1.
Proof.
  induction 1 as [|x l1 l2 Hs IH|x l1 l2 Hs IH]; intros Hso; [constructor|..];
    apply StronglySorted_cons in Hso as [Hall Hso]; [|auto].
  apply StronglySorted_cons. split; [|auto]. rewrite Forall_forall in *. intros y Hy.
  apply Hall. by eapply elem_of_sublist.
Qed.

Lemma spent_sublist t l1 l2 : l1 `sublist_of` l2 → spent window t l1 <= spent window t l2.
Proof.
  unfold spent. induction 1 as [|x l1 l2 _ IH|x l1 l2 _ IH]; [done|..];
    rewrite !filter_cons; case_decide; cbn [length]; lia.
Qed.

(** Giving one event back. *)
Lemma key_inv_release th h cs token :
  key_inv th h cs → key_inv th (remove_token token h) (remove_token token cs).
Proof.
  intros [(d & E & Hd)]. pose proof (remove_token_sub token cs) as Hsub.
  assert (∀ e, e ∈ remove_token token cs → e ∈ cs) as Hin by (intros e He; by eapply elem_of_sublist).
  split; auto.
  - subst cs. destruct (remove_token_app token d h ki_unique0) as [(_ & E1 & E2)|E1].
    + exists (remove_token token d). rewrite E2. split; [exact E1|]. intros e He. apply Hd.
      eapply elem_of_sublist; [done|apply remove_token_sub].
    + exists d. split; [exact E1|done].
  - eapply sorted_sublist; [|done]. by apply fmap_sublist.
  - eapply sublist_NoDup; [done|]. by apply fmap_sublist.
  - intros t. pose proof (spent_sublist t _ _ Hsub). specialize (ki_spent0 t). lia.
Qed.

Lemma key_inv_empty th : key_inv th [] [].
Proof.
  split; try (intros e He; set_solver); try constructor.
  - exists []. split; [done|]. intros e He. by apply elem_of_nil in He.
  - intros t. unfold spent. cbn. lia.
Qed.

(** What [popleft] leaves of a sorted queue is what lies in the window. *)
Lemma spent_popleft now l :
  StronglySorted Z.le l.*1 → (∀ e, e ∈ popleft (now - window) l → e.1 <= now) →
  spent window now (popleft (now - window) l) = Z.of_nat (length (popleft (now - window) l)).
Proof.
  induction l as [|[t token] l IH]; cbn; [done|]. intros [Hall Hso]%StronglySorted_cons Hp.
  destruct (t <=? now - window) eqn:Ht; [by apply IH|].
  clear IH Hso. rewrite Forall_forall in Hall.
  assert (∀ e, e ∈ (t, token) :: l → in_win now e = true) as Hin.
  { intros e He. unfold in_window. apply andb_true_iff. specialize (Hp e He).
    apply elem_of_cons in He as [->|He]; [cbn in *; lia|].
    specialize (Hall e.1 ltac:(by apply list_elem_of_fmap_2)). lia. }
  revert Hin. generalize ((t, token) :: l). clear. intros l Hin. unfold spent.
  induction l as [|e l IH]; [done|]. rewrite filter_cons, decide_True by (apply Hin; set_solver).
  cbn [length]. rewrite !Nat2Z.inj_succ, IH by set_solver. done.
Qed.

(** Checking a key: an allowance is left, or the refusal is justified. *)
Lemma check_spec th counted key r th' :
  inv (MkWorld th counted) → check on_limit max_events window clock key th = (r, th') →
  inv (MkWorld th' counted) ∧
  match r with
  | Ok _ => Z.of_nat (length (held th' key)) < max_events
  | Exc x => x = on_limit ∧ spent window (last th') (counted key) = max_events
  end.
Proof.
  intros Hi Hc. unfold check in Hc. pose proof (live_spec key th) as (Ha & Hk & Hlive).
  destruct (live key th) as [[l|] th1]; cbn in *; pose proof (inv_aged _ _ _ Ha Hi) as Hi1.
  2:{ injection Hc as <- <-. rewrite (held_none _ _ Hk). split; [done|cbn; lia]. }
  destruct (max_events <=? Z.of_nat (length l)) eqn:El; injection Hc as <- <-; (split; [done|]).
  2:{ rewrite (held_lookup _ _ _ Hk). lia. }
  split; [done|]. pose proof (inv_key _ Hi1 key) as [(d & E & Hd) Hp Hs _ _ Hb]. cbn in *.
  specialize (Hb (last th1)). rewrite E, spent_app, (spent_expired _ d), (held_lookup _ _ _ Hk) in Hb |- * by done.
  enough (spent window (last th1) l = Z.of_nat (length l)) by lia.
  destruct Hlive as [_ El']. pose proof (ki_sorted _ _ _ (inv_key _ Hi key)) as Hso.
  destruct (ki_held _ _ _ (inv_key _ Hi key)) as (d0 & E0 & _). cbn in *.
  rewrite E0, fmap_app in Hso. apply StronglySorted_app_1_r in Hso.
  rewrite El'. apply spent_popleft; [done|]. rewrite <- El'. intros e He. apply Hp. rewrite E.
  apply elem_of_app. right. by rewrite (held_lookup _ _ _ Hk).
Qed.

Lemma key_inv_same th th' h cs :
  th_ticks th' = th_ticks th → th_uuids th' = th_uuids th → key_inv th h cs → key_inv th' h cs.
Proof.
  intros Et Eu. apply (key_inv_aged th th' h h []); [by rewrite Et|by rewrite Eu|done|].
  intros e He. by apply elem_of_nil in He.
Qed.

Lemma inv_consume key w : inv w → inv (act on_limit max_events window clock uuid (DoConsume key) w).
Proof.
  destruct w as [th counted]. intros Hi. cbn. unfold aconsume.
  destruct (check on_limit max_events window clock key th) as [[[]|x] th1] eqn:Ec;
    destruct (check_spec _ _ _ _ _ Hi Ec) as [Hi1 Hr]; cbn; [|done].
  destruct (record window clock uuid key th1) as [token th2] eqn:Er.
  by apply (record_spec th1 counted key token th2).
Qed.

Lemma inv_arelease key (token : option string) w :
  inv w → inv (act on_limit max_events window clock uuid (DoRelease key token) w).
Proof.
  destruct w as [th counted]. intros Hi. cbn. unfold arelease.
  pose proof (live_spec key th) as (Ha & Hk & _).
  destruct (live key th) as [r th1]. cbn in *. apply (inv_aged _ _ _ Ha) in Hi as [Hwf Hlen Hkey]. cbn in *.
  destruct token as [token|]; [|by destruct r]. destruct r as [l|]; split; cbn.
  - by apply dict_wf_insert.
  - by rewrite (dict_len_replace key l).
  - intros k. rewrite held_insert. specialize (Hkey k). apply (key_inv_same th1); [done..|].
    case_decide as E.
    + subst k. rewrite fn_lookup_insert. rewrite (held_lookup _ _ _ Hk) in Hkey. by apply key_inv_release.
    + by rewrite fn_lookup_insert_ne.
  - done.
  - done.
  - intros k. specialize (Hkey k). destruct (decide (key = k)) as [<-|E]; [|by rewrite fn_lookup_insert_ne].
    rewrite fn_lookup_insert. apply (key_inv_release _ _ _ token) in Hkey.
    by rewrite (held_none _ _ Hk) in Hkey |- *.
Qed.

Lemma inv_act a w : inv w → inv (act on_limit max_events window clock uuid a w).
Proof.
  destruct a as [key|key|key token|key]; intros Hi; [|by apply inv_consume|by apply inv_arelease|].
  - destruct w as [th counted]. cbn.
    destruct (check on_limit max_events window clock key th) as [r th'] eqn:E.
    by apply (check_spec _ _ _ _ _ Hi E).
  - destruct w as [th counted], Hi as [Hwf Hlen Hkey]. cbn in *. split; cbn.
    + by apply dict_wf_delete.
    + pose proof (dict_len_delete_le key (th_failures th)). lia.
    + intros k. apply (key_inv_same th); [done..|].
      rewrite (held_delete th key k _ _ : held (reset key th) k = _). case_decide as E; [subst k; rewrite fn_lookup_insert; apply key_inv_empty|].
      by rewrite fn_lookup_insert_ne.
Qed.

Lemma throttle_history_inv l : inv (history on_limit max_events window clock uuid l).
Proof.
  unfold history. assert (inv new_world) as Hi.
  { split; [apply NoDup_nil_2|done|intros key; apply key_inv_empty]. }
  revert Hi. generalize new_world. induction l as [|a l IH]; intros w Hi; [done|]. apply IH, inv_act, Hi.
Qed.

Lemma append_held key l th token th' :
  append_event clock uuid key l th = (Some token, th') → held th' key = l ++ [(last th', token)].
Proof. intros [= <- <-]. unfold held. cbn. by rewrite dict_lookup_insert_eq. Qed.

(** In every history of checks, grants, releases
    and resets, at most [max_events] of the events that count for a key lie in
    any window, whichever instant it ends at; a key is refused only when
    exactly that many lie in the window that ends now; the table never tracks
    more than its maximum of keys, and only a table full of live keys lets an
    event pass uncounted. *)
Theorem throttle_limits l key :
  let w := history on_limit max_events window clock uuid l in
  (∀ t, spent window t (w_counted w key) <= max_events) ∧
  dict_len (th_failures (w_throttle w)) <= _MAX_TRACKED_KEYS ∧
  let '(r, th) := aconsume on_limit max_events window clock uuid key (w_throttle w) in
  match r with
  | Exc x => x = on_limit ∧ spent window (last th) (w_counted w key) = max_events
  | Ok None => dict_len (th_failures th) = _MAX_TRACKED_KEYS
  | Ok (Some token) => ∃ l, held th key = l ++ [(last th, token)]
  end.
Proof.
  intros w. pose proof (throttle_history_inv l) as Hi. fold w in Hi. destruct w as [th counted].
  split; [|split]; [intros t; apply Hi|apply Hi|]. cbn. unfold aconsume.
  destruct (check on_limit max_events window clock key th) as [[[]|x] th1] eqn:Ec;
    destruct (check_spec _ _ _ _ _ Hi Ec) as [Hi1 Hr]; cbn; [|done].
  destruct (record window clock uuid key th1) as [[token|] th2] eqn:Er.
  - unfold record in Er. destruct (live key th1) as [[l1|] th3]; [by eexists; eapply append_held|].
    destruct (_MAX_TRACKED_KEYS <=? _) in Er; [|destruct (_MAX_TRACKED_KEYS <=? _) in Er];
      try discriminate; eexists; by eapply append_held.
  - by apply (record_spec th1 counted key None th2).
Qed.
End facts.

(** ** A history

    Two events within ten seconds are allowed; a reading is taken each second. *)

Definition demo_clock (i : nat) : Z := seconds (Z.of_nat i).
Definition demo_uuid (i : nat) : string := pretty i.

Definition demo_history : world :=
  history () 2 (seconds 10) demo_clock demo_uuid
    [DoConsume "a"; DoConsume "a"; DoConsume "b"; DoCheck "a"; DoRelease "b" (Some "2"); DoConsume "a"].

Example demo_refuses :
  (aconsume () 2 (seconds 10) demo_clock demo_uuid "a" (w_throttle demo_history)).1 = Exc () ∧
  (aconsume () 2 (seconds 10) demo_clock demo_uuid "b" (w_throttle demo_history)).1 = Ok (Some "3").
Proof. by vm_compute. Qed.

Lemma throttle_limits_witness :
  (∀ t, spent (seconds 10) t (w_counted demo_history "a") <= 2) ∧
  spent (seconds 10) (seconds 3) (w_counted demo_history "a") = 2.
Proof.
  split; [|by vm_compute].
  assert (∀ i j, (i <= j)%nat → demo_clock i <= demo_clock j) as Hc.
  { intros i j. unfold demo_clock, seconds. lia. }
  assert (Inj (=) (=) demo_uuid) as Hu by (unfold demo_uuid; apply _).
  exact (proj1 (throttle_limits () 2 (seconds 10) demo_clock demo_uuid
    ltac:(lia) ltac:(unfold seconds; lia) Hc Hu
    [DoConsume "a"; DoConsume "a"; DoConsume "b"; DoCheck "a"; DoRelease "b" (Some "2"); DoConsume "a"] "a")).
Defined.
