(* ===== verification/Projection.v ===== *)
(** * The durable history projection
    ([backend/db/repositories/watch_history.py],
    [backend/db/migrations/0001_watch_history.sql], [0003_...])

    One row per watch, written by every worker after the watch repository
    decided.  Each method is one SQL statement, a function of the table; the
    table is in the order its rows were inserted, and where [ORDER BY] leaves
    ties open the claims below do not depend on their order. *)
From S2P Require Import Prelude Dict Sorting Calendar Watch WatchStore WatchStoreTheorems.
From S2P Require Import RedisServer WatchScripts RedisModel RedisExamples.

Record history_row := MkRow {
  hr_owner_client_id : option string;
  hr_status : WatchStatus;
  hr_created_at : Z;
  hr_updated_at : Z;
  hr_expires_at : Z;
  hr_watch_json : string;
  hr_user_id : option string;
  hr_revision : Z;
}.
#[export] Instance history_row_eta : Eta history_row := λ r,
  MkRow (hr_owner_client_id r) (hr_status r) (hr_created_at r) (hr_updated_at r)
    (hr_expires_at r) (hr_watch_json r) (hr_user_id r) (hr_revision r).

(** [COALESCE(a, b)] *)
Definition coalesce {A} (a b : option A) : option A :=
  match a with Some _ => a | None => b end.

Definition _MAX_LIST_LIMIT : Z := 1000.

Section history.
Context `{Documents}.
Implicit Types (t : dict history_row).

Definition inserted (watch : Watch) (owner user : option string) (revision : Z) : history_row :=
  MkRow owner (w_status watch) (w_created_at watch) (w_updated_at watch) (w_expires_at watch)
    (watch_json watch) user revision.

(** The [WHERE] clause of [ON CONFLICT ... DO UPDATE]. *)
Definition supersedes (excluded row : history_row) : bool :=
  bool_decide (hr_status row = ACTIVE)
  && ((hr_revision row <? hr_revision excluded)
      || ((hr_revision excluded =? -1) && (hr_revision row =? -1)
          && (hr_updated_at row <=? hr_updated_at excluded))).

(** The [SET] clause. *)
Definition updated (excluded row : history_row) : history_row :=
  MkRow (coalesce (hr_owner_client_id excluded) (hr_owner_client_id row))
    (hr_status excluded) (hr_created_at row) (hr_updated_at excluded) (hr_expires_at excluded)
    (hr_watch_json excluded) (coalesce (hr_user_id excluded) (hr_user_id row))
    (hr_revision excluded).

Definition record (watch : Watch) (owner user : option string) (revision : Z) t : dict history_row :=
  let excluded := inserted watch owner user revision in
  match t !! w_watch_id watch with
  | None => <[w_watch_id watch := excluded]> t
  | Some row =>
      if supersedes excluded row then <[w_watch_id watch := updated excluded row]> t else t
  end.

(** [claim_anonymous]: [UPDATE ... WHERE owner_client_id = $1 AND user_id IS NULL] *)
Definition unclaimed (owner_client_id : string) (row : history_row) : bool :=
  bool_decide (hr_owner_client_id row = Some owner_client_id)
  && match hr_user_id row with None => true | Some _ => false end.

Definition claim_anonymous (owner_client_id user_id : string) t : dict history_row :=
  Dict (map (λ '(id, row),
    (id, if unclaimed owner_client_id row then row <| hr_user_id := Some user_id |> else row))
    (items t)).

(** [get]: [None] within is the [ValidationError] of [model_validate_json]. *)
Definition get_projection (watch_id : string) t : option (option Watch) :=
  (λ row, parse_watch (hr_watch_json row)) <$> (t !! watch_id).

Definition get_account_owner (watch_id : string) t : option string :=
  match t !! watch_id with Some row => hr_user_id row | None => None end.

(** [WHERE ... ORDER BY updated_at DESC LIMIT limit]; [None] is [ValueError]
    or [ValidationError]. *)
Definition select_watches (keep : history_row → bool) (limit : Z) t : option (list Watch) :=
  if (1 <=? limit) && (limit <=? _MAX_LIST_LIMIT) then
    mapM (λ row, parse_watch (hr_watch_json row))
      (slice_to limit (sort_by (λ row, - hr_updated_at row) (List.filter keep (values t))))
  else None.

Definition list_for_owner (owner_client_id : string) (limit : Z) t : option (list Watch) :=
  select_watches (unclaimed owner_client_id) limit t.

Definition list_for_user (user_id : string) (limit : Z) t : option (list Watch) :=
  select_watches (λ row, bool_decide (hr_user_id row = Some user_id)) limit t.
End history.

(** ** Deliveries

    Workers write concurrently, so statements arrive in any order, repeated or
    not at all. *)

Inductive delivery :=
| Deliver (watch : Watch) (owner user : option string) (revision : Z)
| ClaimAll (owner_client_id user_id : string).

Section deliveries.
Context `{DocumentLaws}.
Implicit Types (t : dict history_row) (id : string).

Definition deliver t (d : delivery) : dict history_row :=
  match d with
  | Deliver watch owner user revision => record watch owner user revision t
  | ClaimAll owner_client_id user_id => claim_anonymous owner_client_id user_id t
  end.

Lemma claim_lookup client user t id :
  claim_anonymous client user t !! id =
    (λ row, if unclaimed client row then row <| hr_user_id := Some user |> else row) <$> (t !! id).
Proof.
  destruct t as [l]. unfold claim_anonymous, lookup, dict_lookup. cbn.
  induction l as [|[k row] l IH]; [done|]. cbn. by case_decide.
Qed.

Lemma record_other watch owner user revision t id :
  w_watch_id watch ≠ id → record watch owner user revision t !! id = t !! id.
Proof.
  intros Hne. unfold record. destruct (t !! w_watch_id watch); [case_match; [|done]|];
    by apply dict_lookup_insert_ne.
Qed.

(** The row shows version [n] of the watch. *)
Definition shows (w : Watch) (n : Z) (row : history_row) : Prop :=
  hr_status row = w_status w ∧ hr_updated_at row = w_updated_at w ∧
  hr_expires_at row = w_expires_at w ∧ hr_watch_json row = watch_json w ∧ hr_revision row = n.

Section one_watch.
Context (doc : Z → Watch) (last : Z) (id : string).
Context (Hlive : ∀ n, 0 <= n < last → w_status (doc n) = ACTIVE).

(** A statement about the watch carries one of its versions. *)
Definition versioned (d : delivery) : Prop :=
  match d with
  | Deliver w _ _ n => w_watch_id w = id → 0 <= n <= last ∧ w = doc n
  | ClaimAll _ _ => True
  end.

Definition version_of (d : delivery) : Z :=
  match d with
  | Deliver w _ _ n => if decide (w_watch_id w = id) then n else -1
  | ClaimAll _ _ => -1
  end.

(** The table shows the newest version delivered, [-1] when there is none. *)
Definition newest (n : Z) t : Prop :=
  -1 <= n <= last ∧
  match t !! id with Some row => 0 <= n ∧ shows (doc n) n row | None => n = -1 end.

Lemma newest_deliver n t d : versioned d → newest n t → newest (Z.max n (version_of d)) (deliver t d).
Proof.
  intros Hv [Hn Hrow]. destruct d as [w o u m|c u]; cbn in *.
  - case_decide as Hw.
    2:{ rewrite Z.max_l by lia. split; [done|]. cbn. by rewrite record_other. }
    destruct (Hv Hw) as [Hm ->]. split; [lia|]. cbn. unfold record. rewrite Hw.
    destruct (t !! id) as [row|] eqn:E.
    2:{ rewrite dict_lookup_insert_eq. rewrite Z.max_r by lia. by split; [lia|]. }
    destruct Hrow as [Hn0 (Hs & Hu & He & Hj & Hr)].
    unfold supersedes, inserted at 1 2 3. cbn. rewrite Hs, Hr.
    destruct (n <? m) eqn:Hlt.
    + rewrite bool_decide_eq_true_2 by (apply Hlive; lia). cbn.
      rewrite dict_lookup_insert_eq, Z.max_r by lia. by split; [lia|].
    + assert ((m =? -1) = false) as -> by lia. cbn.
      rewrite andb_false_r, E, Z.max_l by lia. by split_and!.
  - rewrite Z.max_l by lia. split; [done|]. rewrite claim_lookup. destruct (t !! id) as [row|]; cbn; [|done].
    by case_match.
Qed.

Lemma newest_deliveries n t ds :
  Forall versioned ds → newest n t →
  ∃ n', newest n' (fold_left deliver ds t) ∧ n <= n' ∧ ∀ d, d ∈ ds → version_of d <= n'.
Proof.
  revert n t. induction ds as [|d ds IH]; intros n t Hds Hn; cbn.
  - exists n. split; [done|]. split; [lia|]. intros d []%elem_of_nil.
  - apply Forall_cons in Hds as [Hd Hds]. destruct (IH _ _ Hds (newest_deliver _ _ _ Hd Hn)) as (n' & ? & ? & Hall).
    exists n'. split; [done|]. split; [lia|]. intros x [->|Hx]%elem_of_cons; [lia|auto].
Qed.
End one_watch.

(** C26 (projection: convergence). The statements of the workers may reach the
    projection in any order, repeated, next to those of other watches and to
    claims of accounts: once the last version of a watch has arrived, its row
    shows that version, and reading it back can only answer that watch. *)
Theorem projection_converges doc last id t ds :
  w_watch_id (doc last) = id → (∀ n, 0 <= n < last → w_status (doc n) = ACTIVE) →
  t !! id = None → Forall (versioned doc last id) ds →
  (∃ owner user, Deliver (doc last) owner user last ∈ ds) →
  ∃ row, fold_left deliver ds t !! id = Some row ∧ shows (doc last) last row ∧
    ∀ w, get_projection id (fold_left deliver ds t) = Some (Some w) → w = doc last.
Proof.
  intros Hid Hlive Ht Hds (o & u & Hin).
  pose proof (proj1 (Forall_forall _ _) Hds _ Hin Hid) as [Hlast _].
  destruct (newest_deliveries doc last id Hlive (-1) t ds Hds) as (n & [Hn Hrow] & _ & Hall).
  { split; [lia|]. by rewrite Ht. }
  specialize (Hall _ Hin). cbn in Hall. rewrite decide_True in Hall by done.
  assert (n = last) as -> by lia. unfold get_projection.
  destruct (fold_left deliver ds t !! id) as [row|]; [|lia]. destruct Hrow as [_ Hrow].
  exists row. split_and!; [done..|]. cbn. intros w [= Hw]. destruct Hrow as (_ & _ & _ & Hj & _).
  rewrite Hj in Hw. by apply parse_watch_json in Hw.
Qed.

(** No statement takes a watch from its account. *)
Lemma owner_kept id u t ds :
  get_account_owner id t = Some u →
  (∀ w o u' n, Deliver w o u' n ∈ ds → w_watch_id w = id → u' = None ∨ u' = Some u) →
  get_account_owner id (fold_left deliver ds t) = Some u.
Proof.
  revert t. induction ds as [|d ds IH]; intros t Ht Hds; cbn; [done|].
  apply IH; [|intros w o u' n Hin; apply (Hds w o u' n); set_solver].
  unfold get_account_owner in *. destruct (t !! id) as [row|] eqn:E; [|done].
  destruct d as [w o u' n|c u']; cbn.
  - destruct (decide (w_watch_id w = id)) as [Hw|Hw]; [|by rewrite record_other, E].
    unfold record. rewrite Hw, E. destruct (supersedes _ row); [|by rewrite E]. rewrite dict_lookup_insert_eq. cbn.
    destruct (Hds w o u' n ltac:(set_solver) Hw) as [->| ->]; done.
  - rewrite claim_lookup, E. cbn. unfold unclaimed. rewrite Ht. by rewrite andb_false_r.
Qed.
End deliveries.

(** ** The projection on one watch

    The versions of a watch that is created, missed once and booked, delivered
    out of order; and a creation that arrives too late to record its owner. *)

#[local] Instance demo_documents : Documents := model_documents demo_table.
#[local] Instance demo_document_laws : DocumentLaws := model_document_laws demo_table.

Definition demo_version (n : Z) : Watch :=
  if n =? 0 then demo_watch else if n =? 1 then demo_watch_1 else demo_booked.

Definition demo_deliveries : list delivery :=
  [Deliver demo_watch_1 None None 1; Deliver demo_booked None None 2;
   ClaimAll "client-1" "user-1"; Deliver demo_watch (Some "client-1") None 0;
   Deliver demo_watch_1 None None 1]%string.

Lemma demo_deliveries_versioned : Forall (versioned demo_version 2 demo_id) demo_deliveries.
Proof. repeat constructor; cbn; try discriminate; auto. Qed.

Lemma projection_converges_witness :
  ∃ row, fold_left deliver demo_deliveries ∅ !! demo_id = Some row ∧ shows demo_booked 2 row ∧
    ∀ w, get_projection demo_id (fold_left deliver demo_deliveries ∅) = Some (Some w) → w = demo_booked.
Proof.
  refine (projection_converges demo_version 2 demo_id ∅ demo_deliveries eq_refl _ eq_refl
    demo_deliveries_versioned _).
  - intros n Hn. unfold demo_version. destruct (Z.eqb_spec n 0); [reflexivity|].
    destruct (Z.eqb_spec n 1); [reflexivity|lia].
  - exists None, None. right. left.
Defined.

(** The owner is recorded by the creation's
    own statement only: when a worker's first statement overtakes it, the
    creation is dropped as older and the watch has no owner, so it is never
    listed for its client and never claimed by the client's account. *)
Theorem late_creation_loses_owner :
  let creation := Deliver demo_watch (Some "client-1"%string) None 0 in
  let poll := Deliver demo_watch_1 None None 1 in
  let claim := ClaimAll "client-1" "user-1" in
  get_account_owner demo_id (fold_left deliver [creation; poll; claim] ∅) = Some "user-1"%string ∧
  get_account_owner demo_id (fold_left deliver [poll; creation; claim] ∅) = None ∧
  list_for_owner "client-1" 100 (fold_left deliver [poll; creation] ∅) = Some [].
Proof. split_and!; vm_compute; reflexivity. Qed.
