(* ===== verification/Url.v ===== *)
(** * URLs as the configuration reads them

    [urllib.parse.urlparse] of Python's standard library on ASCII text, as far
    as [backend/config.py] uses it: scheme, network location, path, host name
    and port.  [bracketed_ok] is the check of a bracketed IPv6 host. *)
From S2P Require Import Prelude Calendar CalendarFacts.

(** The text before the first character that satisfies [p], and the rest. *)
Fixpoint break_at (p : ascii → bool) (l : list ascii) : list ascii * list ascii :=
  match l with
  | [] => ([], [])
  | c :: l' => if p c then ([], l) else let '(a, b) := break_at p l' in (c :: a, b)
  end.

Definition is_char (c x : ascii) : bool := Ascii.eqb x c.
Definition has_char (c : ascii) (l : list ascii) : bool := existsb (is_char c) l.

(** [l.partition(c)]: before, after; [l.rpartition(c)[2]] *)
Definition partition (c : ascii) (l : list ascii) : list ascii * list ascii :=
  let '(a, b) := break_at (is_char c) l in (a, tail b).
Fixpoint after_last (c : ascii) (l acc : list ascii) : list ascii :=
  match l with
  | [] => acc
  | x :: l' => after_last c l' (if is_char c x then l' else acc)
  end.
Definition rpartition (c : ascii) (l : list ascii) : list ascii := after_last c l l.

(** [_WHATWG_C0_CONTROL_OR_SPACE], [_UNSAFE_URL_BYTES_TO_REMOVE], [scheme_chars] *)
Definition is_control_or_space (c : ascii) : bool := (nat_of_ascii c <=? 32)%nat.
Definition is_unsafe (c : ascii) : bool :=
  let n := nat_of_ascii c in (n =? 9)%nat || (n =? 10)%nat || (n =? 13)%nat.
Definition is_scheme_char (c : ascii) : bool :=
  is_alnum c || is_char "+" c || is_char "-" c || is_char "." c.
Definition is_alpha (c : ascii) : bool := is_lower c || is_upper c.
Definition is_delimiter (c : ascii) : bool := is_char "/" c || is_char "?" c || is_char "#" c.

Fixpoint lstrip (p : ascii → bool) (l : list ascii) : list ascii :=
  match l with
  | c :: l' => if p c then lstrip p l' else l
  | [] => []
  end.

(** The part of [urlsplit] that finds the scheme. *)
Definition split_scheme (url : list ascii) : list ascii * list ascii :=
  match break_at (is_char ":") url with
  | (c :: s, _ :: rest) =>
      if is_alpha c && forallb is_scheme_char (c :: s) then (map to_lower (c :: s), rest)
      else ([], url)
  | _ => ([], url)
  end.

Definition uses_params : list string :=
  [""; "ftp"; "hdl"; "prospero"; "http"; "https"; "shttp"; "rtsp"; "rtsps"; "rtspu"; "sip";
   "sips"; "mms"; "sftp"; "tel"]%string.

(** [_splitparams]: only a [;] after the last slash starts the parameters. *)
Fixpoint split_params (l : list ascii) : list ascii :=
  match l with
  | [] => []
  | c :: l' => if is_char ";" c && negb (has_char "/" l') then [] else c :: split_params l'
  end.

Record parsed_url := MkUrl { u_scheme : string; u_netloc : string; u_path : string }.

Section urlparse.
Context (bracketed_ok : string → bool).

Definition netloc_ok (netloc : list ascii) : bool :=
  match has_char "[" netloc, has_char "]" netloc with
  | false, false => true
  | true, true => bracketed_ok (of_chars (rpartition "@" netloc))
  | _, _ => false
  end.

(** [urlparse(url)]; [None] is [ValueError]. *)
Definition urlparse (url : string) : option parsed_url :=
  let url := List.filter (λ c, negb (is_unsafe c)) (lstrip is_control_or_space (chars url)) in
  let '(scheme, url) := split_scheme url in
  let '(netloc, url) :=
    match url with
    | c1 :: c2 :: rest =>
        if is_char "/" c1 && is_char "/" c2 then break_at is_delimiter rest else ([], url)
    | _ => ([], url)
    end in
  if netloc_ok netloc then
    let path := (break_at (is_char "?") (break_at (is_char "#") url).1).1 in
    let path := if bool_decide (of_chars scheme ∈ uses_params) then split_params path else path in
    Some (MkUrl (of_chars scheme) (of_chars netloc) (of_chars path))
  else None.

(** [_hostinfo] *)
Definition hostinfo (netloc : list ascii) : list ascii * list ascii :=
  let info := rpartition "@" netloc in
  if has_char "[" info then
    let '(hostname, port) := partition "]" (partition "[" info).2 in
    (hostname, (partition ":" port).2)
  else partition ":" info.

(** [parsed.hostname]: [""] is [None]. *)
Definition hostname (u : parsed_url) : string :=
  let '(host, zone) := break_at (is_char "%") (hostinfo (chars (u_netloc u))).1 in
  of_chars (map to_lower host ++ zone).

(** [parsed.port]: [None] is [ValueError], [Some None] is [None]. *)
Definition port (u : parsed_url) : option (option Z) :=
  match (hostinfo (chars (u_netloc u))).2 with
  | [] => Some None
  | p => match digits_val p 0 with
         | Some n => if n <=? 65535 then Some (Some n) else None
         | None => None
         end
  end.
End urlparse.

(** ** Splitting URLs: lemmas

    What [urlparse] finds in a URL put together from its parts. *)

Definition free (p : ascii → bool) (l : list ascii) : bool := forallb (λ c, negb (p c)) l.

Lemma free_app p l1 l2 : free p (l1 ++ l2) = free p l1 && free p l2.
Proof. apply forallb_app. Qed.

Lemma break_at_app p l1 l2 :
  free p l1 = true → break_at p (l1 ++ l2) = let '(a, b) := break_at p l2 in (l1 ++ a, b).
Proof.
  induction l1 as [|c l1 IH]; cbn; [by destruct (break_at p l2)|].
  intros [Hc%negb_true_iff Hl]%andb_true_iff. rewrite Hc, IH by done. by destruct (break_at p l2).
Qed.

(** A text that is empty or starts with a character that satisfies [p]. *)
Definition starts (p : ascii → bool) (l : list ascii) : bool :=
  match l with c :: _ => p c | [] => true end.

Lemma break_at_starts p l : starts p l = true → break_at p l = ([], l).
Proof. destruct l as [|c l]; cbn; [done|]. by intros ->. Qed.

Lemma break_at_cut p l1 l2 : free p l1 = true → starts p l2 = true → break_at p (l1 ++ l2) = (l1, l2).
Proof. intros H1 H2. by rewrite break_at_app, break_at_starts, app_nil_r. Qed.

Lemma has_char_free c l : free (is_char c) l = true → has_char c l = false.
Proof.
  unfold free, has_char. induction l as [|x l IH]; cbn; [done|].
  intros [Hx%negb_true_iff Hl]%andb_true_iff. by rewrite Hx, IH.
Qed.

Lemma has_char_app c l1 l2 : has_char c (l1 ++ l2) = has_char c l1 || has_char c l2.
Proof. apply existsb_app. Qed.

Lemma after_last_app c l1 l2 acc : after_last c (l1 ++ c :: l2) acc = after_last c l2 l2.
Proof.
  revert acc. induction l1 as [|x l1 IH]; intros acc; cbn; [|by case_match].
  unfold is_char. by rewrite Ascii.eqb_refl.
Qed.

(** [url.replace(b, "")] for the unsafe characters *)
Definition clean (l : list ascii) : list ascii := List.filter (λ c, negb (is_unsafe c)) l.

Lemma clean_app l1 l2 : clean (l1 ++ l2) = clean l1 ++ clean l2.
Proof. apply List.filter_app. Qed.

Lemma free_clean p l : free p l = true → free p (clean l) = true.
Proof.
  unfold free, clean. induction l as [|c l IH]; cbn; [done|]. intros [Hc Hl]%andb_true_iff.
  destruct (negb (is_unsafe c)); cbn; [by rewrite Hc, IH|auto].
Qed.

Lemma free_mono (p q : ascii → bool) l :
  (∀ c, q c = true → p c = true) → free p l = true → free q l = true.
Proof.
  intros Hpq. unfold free. induction l as [|c l IH]; cbn; [done|]. intros [Hc Hl]%andb_true_iff.
  rewrite IH by done. destruct (q c) eqn:E; [|done]. by rewrite Hpq in Hc.
Qed.

Lemma starts_clean p l :
  (∀ c, p c = true → is_unsafe c = false) → starts p l = true → starts p (clean l) = true.
Proof. intros Hp. destruct l as [|c l]; cbn; [done|]. intros Hc. by rewrite (Hp c Hc). Qed.

Lemma delimiter_safe c : is_delimiter c = true → is_unsafe c = false.
Proof.
  unfold is_delimiter, is_char. intros [[H|H]%orb_true_iff|H]%orb_true_iff;
    apply Ascii.eqb_eq in H as ->; done.
Qed.

(** ** A scheme *)

Definition scheme_ok (l : list ascii) : bool :=
  match l with c :: _ => is_alpha c && forallb is_scheme_char l | [] => false end.

Lemma scheme_char_plain c :
  is_scheme_char c = true → is_char ":" c = false ∧ is_unsafe c = false ∧ is_control_or_space c = false.
Proof. destruct c as [[] [] [] [] [] [] [] []]; vm_compute; auto. Qed.

Lemma scheme_clean l : forallb is_scheme_char l = true → clean l = l.
Proof.
  unfold clean. induction l as [|c l IH]; cbn; [done|]. intros [Hc Hl]%andb_true_iff.
  destruct (scheme_char_plain c Hc) as (_ & -> & _). cbn. by rewrite IH.
Qed.

Lemma scheme_free l : forallb is_scheme_char l = true → free (is_char ":") l = true.
Proof.
  unfold free. induction l as [|c l IH]; cbn; [done|]. intros [Hc Hl]%andb_true_iff.
  destruct (scheme_char_plain c Hc) as (-> & _). by rewrite IH.
Qed.

Lemma split_scheme_app s rest :
  scheme_ok s = true → split_scheme (s ++ ":"%char :: rest) = (map to_lower s, rest).
Proof.
  intros Hs. unfold split_scheme. unfold scheme_ok in Hs. destruct s as [|c s]; [done|].
  apply andb_true_iff in Hs as [Ha Hf].
  rewrite break_at_cut by (by apply scheme_free) || done. cbn [app].
  by rewrite Ha, Hf.
Qed.

(** ** A whole URL *)

Definition url_text (scheme netloc path query : list ascii) : string :=
  of_chars (scheme ++ chars "://" ++ netloc ++ path ++ query).

(** What is kept of the path. *)
Definition path_of (scheme path : list ascii) : list ascii :=
  if bool_decide (of_chars (map to_lower scheme) ∈ uses_params) then split_params path else path.

(** The characters that end a path. *)
Definition ends_path (c : ascii) : bool := is_char "?" c || is_char "#" c.

Lemma path_cut path query :
  free ends_path path = true → starts ends_path query = true →
  (break_at (is_char "?") (break_at (is_char "#") (path ++ query)).1).1 = path.
Proof.
  intros Hp Hq. unfold ends_path in *.
  assert (free (is_char "#") path = true) as Hh.
  { eapply free_mono; [|exact Hp]. intros c Hc. cbn beta. rewrite Hc. apply orb_true_r. }
  assert (free (is_char "?") path = true) as Hm.
  { eapply free_mono; [|exact Hp]. intros c Hc. cbn beta. by rewrite Hc. }
  rewrite break_at_app by done. destruct query as [|c q]; cbn.
  - rewrite break_at_app by done. cbn. apply app_nil_r.
  - cbn in Hq. destruct (is_char "#" c); cbn.
    + rewrite break_at_app by done. cbn. apply app_nil_r.
    + rewrite orb_false_r in Hq. destruct (break_at (is_char "#") q) as [a b]. cbn.
      rewrite break_at_app by done. cbn. rewrite Hq. cbn. apply app_nil_r.
Qed.

Lemma urlparse_text bracketed_ok scheme netloc path query :
  scheme_ok scheme = true → free is_delimiter netloc = true →
  starts (is_char "/") path = true → free ends_path path = true → starts ends_path query = true →
  urlparse bracketed_ok (url_text scheme netloc path query) =
    if netloc_ok bracketed_ok (clean netloc)
    then Some (MkUrl (of_chars (map to_lower scheme)) (of_chars (clean netloc))
                 (of_chars (path_of scheme (clean path))))
    else None.
Proof.
  intros Hs Hn Hp Hpf Hq. unfold urlparse, url_text. rewrite chars_of_chars.
  assert (lstrip is_control_or_space (scheme ++ chars "://" ++ netloc ++ path ++ query) =
    scheme ++ chars "://" ++ netloc ++ path ++ query) as ->.
  { unfold scheme_ok in Hs. destruct scheme as [|c s]; [done|].
    apply andb_true_iff in Hs as [_ Hf]. cbn in Hf. apply andb_true_iff in Hf as [Hc _].
    destruct (scheme_char_plain c Hc) as (_ & _ & Hb). cbn. by rewrite Hb. }
  fold (clean (scheme ++ chars "://" ++ netloc ++ path ++ query)).
  rewrite !clean_app, scheme_clean by (unfold scheme_ok in Hs; destruct scheme; [done|by apply andb_true_iff in Hs as [_ ?]]).
  change (clean (chars "://")) with ([":"; "/"; "/"]%char). cbn [app].
  rewrite split_scheme_app by done.
  assert (starts ends_path (clean query) = true) as Hq'.
  { apply starts_clean; [|done]. intros c Hc. apply delimiter_safe. unfold is_delimiter, ends_path in *.
    rewrite <- orb_assoc, Hc. apply orb_true_r. }
  rewrite break_at_cut.
  - change (is_char "/" "/" && is_char "/" "/") with true. cbv beta iota zeta.
    by rewrite path_cut by (by apply free_clean) || done.
  - by apply free_clean.
  - assert (starts (is_char "/") (clean path) = true) as Hp'.
    { apply starts_clean; [|done]. intros c Hc. apply delimiter_safe. unfold is_delimiter. by rewrite Hc. }
    destruct (clean path) as [|c l]; cbn in *.
    + destruct (clean query) as [|c l]; cbn in *; [done|]. unfold is_delimiter, ends_path in *.
      rewrite <- orb_assoc, Hq'. apply orb_true_r.
    + unfold is_delimiter. by rewrite Hp'.
Qed.
