(* ===== verification/Settings.v ===== *)
(** * Configuration from the environment ([backend/config.py])

    Every [from_environment] is a function of the environment, a map from
    names to text.  [Exc message] is [ConfigurationError(message)].  Whether a
    time zone is known, the check of bracketed hosts and [repr] belong to
    Python and are parameters. *)

From S2P Require Import Prelude Calendar Prog Policy Url.

(** ** Defaults and bounds *)

Definition DEFAULT_POLL_INTERVAL_SECONDS : Z := 180.
Definition DEFAULT_POLL_JITTER_SECONDS : Z := 30.
Definition DEFAULT_MAX_POLL_ATTEMPTS : Z := 25_000.
Definition DEFAULT_DISPATCH_HORIZON_SECONDS : Z := 300.
Definition DEFAULT_PROVIDER_CALL_TIMEOUT_SECONDS : Z := 45.
Definition DEFAULT_PROVIDER_BACKOFF_MAX_SECONDS : Z := 3_600.
Definition DEFAULT_MOCK_SLOT_CAPACITY : Z := 10_000.
Definition DEFAULT_MOCK_SLOT_IDLE_TTL_SECONDS : Z := 3_600.
Definition DEFAULT_MOCK_BOOKING_RETENTION_SECONDS : Z := 604_800.
Definition DEFAULT_TERMINAL_RETENTION_SECONDS : Z := 604_800.
Definition DEFAULT_RECOVERY_LEADER_LEASE_SECONDS : Z := 30.
Definition DEFAULT_RECOVERY_SWEEP_SECONDS : Z := 30.
Definition DEFAULT_POSTGRES_POOL_MIN_SIZE : Z := 1.
Definition DEFAULT_POSTGRES_POOL_MAX_SIZE : Z := 5.
Definition DEFAULT_POSTGRES_STATEMENT_TIMEOUT_SECONDS : Z := 10.
Definition _MIN_POLL_INTERVAL_SECONDS : Z := 15.
Definition _MAX_POLL_INTERVAL_SECONDS : Z := 3_600.
Definition _MIN_MAX_POLL_ATTEMPTS : Z := 1.
Definition _MAX_MAX_POLL_ATTEMPTS : Z := 1_000_000.
Definition _MIN_DISPATCH_HORIZON_SECONDS : Z := 30.
Definition _MAX_DISPATCH_HORIZON_SECONDS : Z := 3_600.
Definition _MIN_PROVIDER_CALL_TIMEOUT_SECONDS : Z := 1.
Definition _MAX_PROVIDER_CALL_TIMEOUT_SECONDS : Z := 45.
Definition _MAX_PROVIDER_BACKOFF_MAX_SECONDS : Z := 86_400.
Definition _MIN_MOCK_SLOT_CAPACITY : Z := 1.
Definition _MAX_MOCK_SLOT_CAPACITY : Z := 100_000.
Definition _MIN_MOCK_SLOT_IDLE_TTL_SECONDS : Z := 60.
Definition _MAX_MOCK_SLOT_IDLE_TTL_SECONDS : Z := 604_800.
Definition _MIN_MOCK_BOOKING_RETENTION_SECONDS : Z := 604_800.
Definition _MAX_MOCK_BOOKING_RETENTION_SECONDS : Z := 31_536_000.
Definition _MIN_TERMINAL_RETENTION_SECONDS : Z := 3_600.
Definition _MAX_TERMINAL_RETENTION_SECONDS : Z := 31_536_000.
Definition _MIN_RECOVERY_LEADER_LEASE_SECONDS : Z := 5.
Definition _MAX_RECOVERY_LEADER_LEASE_SECONDS : Z := 300.
Definition _MIN_RECOVERY_SWEEP_SECONDS : Z := 5.
Definition _MAX_RECOVERY_SWEEP_SECONDS : Z := 3_600.
Definition _MIN_POSTGRES_POOL_SIZE : Z := 1.
Definition _MAX_POSTGRES_POOL_SIZE : Z := 64.
Definition _MIN_POSTGRES_STATEMENT_TIMEOUT_SECONDS : Z := 1.
Definition _MAX_POSTGRES_STATEMENT_TIMEOUT_SECONDS : Z := 300.
Definition _MAX_COUNT_TEXT_LENGTH : Z := 12.
Definition DEFAULT_SESSION_TTL_SECONDS : Z := 2_592_000.
Definition DEFAULT_PASSWORD_MIN_LENGTH : Z := 8.
Definition DEFAULT_PASSWORD_MAX_LENGTH : Z := 128.
Definition DEFAULT_ARGON2_TIME_COST : Z := 3.
Definition DEFAULT_ARGON2_MEMORY_COST_KIB : Z := 65_536.
Definition DEFAULT_ARGON2_PARALLELISM : Z := 4.
Definition DEFAULT_LOGIN_THROTTLE_MAX_ATTEMPTS : Z := 10.
Definition DEFAULT_LOGIN_THROTTLE_WINDOW_SECONDS : Z := 300.
Definition DEFAULT_LOGIN_IP_THROTTLE_MAX_ATTEMPTS : Z := 50.
Definition _MIN_SESSION_TTL_SECONDS : Z := 3_600.
Definition _MAX_SESSION_TTL_SECONDS : Z := 7_776_000.
Definition _MIN_PASSWORD_MIN_LENGTH : Z := 8.
Definition _MAX_PASSWORD_MIN_LENGTH : Z := 128.
Definition _MIN_PASSWORD_MAX_LENGTH : Z := 8.
Definition _MAX_PASSWORD_MAX_LENGTH : Z := 1_024.
Definition _MIN_ARGON2_TIME_COST : Z := 1.
Definition _MAX_ARGON2_TIME_COST : Z := 100.
Definition _MIN_ARGON2_MEMORY_COST_KIB : Z := 8_192.
Definition _MAX_ARGON2_MEMORY_COST_KIB : Z := 1_048_576.
Definition _MIN_ARGON2_PARALLELISM : Z := 1.
Definition _MAX_ARGON2_PARALLELISM : Z := 64.
Definition _MIN_LOGIN_THROTTLE_MAX_ATTEMPTS : Z := 1.
Definition _MAX_LOGIN_THROTTLE_MAX_ATTEMPTS : Z := 10_000.
Definition _MIN_LOGIN_THROTTLE_WINDOW_SECONDS : Z := 10.
Definition _MAX_LOGIN_THROTTLE_WINDOW_SECONDS : Z := 3_600.
Definition DEFAULT_PROMPT_THROTTLE_MAX_REQUESTS : Z := 20.
Definition DEFAULT_PROMPT_THROTTLE_WINDOW_SECONDS : Z := 300.
Definition _MIN_PROMPT_THROTTLE_MAX_REQUESTS : Z := 1.
Definition _MAX_PROMPT_THROTTLE_MAX_REQUESTS : Z := 10_000.
Definition _MIN_PROMPT_THROTTLE_WINDOW_SECONDS : Z := 10.
Definition _MAX_PROMPT_THROTTLE_WINDOW_SECONDS : Z := 3_600.
Definition DEFAULT_SMTP_PORT : Z := 587.
Definition DEFAULT_SMTP_TIMEOUT_SECONDS : Z := 10.
Definition _MIN_SMTP_TIMEOUT_SECONDS : Z := 1.
Definition _MAX_SMTP_TIMEOUT_SECONDS : Z := 60.
Definition _MIN_TCP_PORT : Z := 1.
Definition _MAX_TCP_PORT : Z := 65_535.
Definition DEFAULT_MODEL : string := "gpt-4o-mini".
Definition DEFAULT_TIMEZONE : string := "America/Toronto".
Definition DEFAULT_REDIS_URL : string := "redis://localhost:6379/0".
Definition DEFAULT_DASHBOARD_BASE_URL : string := "http://localhost:3000".

(** ** Results *)

Abbreviation result := (outcome string).

#[export] Instance result_ret : MRet result := λ A a, Ok a.
#[export] Instance result_bind : MBind result := λ A B f r,
  match r with Ok a => f a | Exc x => Exc x end.

(** [if b: raise ConfigurationError(message)] *)
Definition raise_if (b : bool) (message : string) : result () := if b then Exc message else Ok ().

(** ** Integers as text *)

(** Digits with single underscores between them, as [int] reads them. *)
Fixpoint int_digits (l : list ascii) (acc : Z) (count : nat) : option (Z * nat) :=
  match l with
  | [] => Some (acc, count)
  | c :: l' =>
      match digit_val c with
      | Some d => int_digits l' (acc * 10 + d) (S count)
      | None =>
          if Ascii.eqb c "_" then
            match l' with
            | c' :: l'' => match digit_val c' with
                           | Some d => int_digits l'' (acc * 10 + d) (S count)
                           | None => None
                           end
            | [] => None
            end
          else None
      end
  end.

(** [int(raw)]: at most 4300 digits. *)
Definition py_int (raw : string) : option Z :=
  let l := chars (strip raw) in
  let '(sign, l) := match l with
                    | c :: l' => if Ascii.eqb c "-" then (-1, l') else if Ascii.eqb c "+" then (1, l') else (1, l)
                    | [] => (1, l)
                    end in
  match l with
  | c :: _ =>
      if is_digit c then
        match int_digits l 0 0 with
        | Some (n, count) => if (4300 <? count)%nat then None else Some (sign * n)
        | None => None
        end
      else None
  | [] => None
  end.

Definition is_digits (s : string) : bool := nonempty s && forallb is_digit (chars s).

Section environment.
Context (known_zone : string → bool) (bracketed_ok : string → bool) (repr : string → string).
Context (env : string → option string).

(** [os.getenv(name, default).strip()] *)
Definition getenv (name default : string) : string :=
  strip (match env name with Some v => v | None => default end).

Definition _bounded_int (name : string) (default : Z) (allow_zero : bool) : result Z :=
  let raw := getenv name "" in
  if negb (nonempty raw) then Ok default else
  match py_int raw with
  | None => Exc (name +:+ " must be an integer")
  | Some value =>
      if (value <? 0) || ((value =? 0) && negb allow_zero)
      then Exc (name +:+ " must be a positive integer") else Ok value
  end.

Definition between (name : string) (minimum maximum : Z) : string :=
  name +:+ " must be between " +:+ pretty minimum +:+ " and " +:+ pretty maximum.

Definition _bounded_count (name : string) (default minimum maximum : Z) : result Z :=
  let raw := getenv name "" in
  if negb (nonempty raw) then Ok default else
  if (_MAX_COUNT_TEXT_LENGTH <? strlen raw) || negb (is_digits raw)
  then Exc (name +:+ " must be an integer") else
  match digits_val (chars raw) 0 with
  | None => Exc (name +:+ " must be an integer")
  | Some value =>
      if value <? minimum then
        Exc (if minimum <=? 1 then name +:+ " must be a positive integer" else between name minimum maximum)
      else if maximum <? value then Exc (between name minimum maximum)
      else Ok value
  end.

(** ** [WatchSettings] *)

Record WatchSettings := MkWatchSettings {
  ws_timezone_name : string;
  ws_redis_url : string;
  ws_poll_interval_seconds : Z;
  ws_poll_jitter_seconds : Z;
  ws_max_poll_attempts : Z;
  ws_dispatch_horizon_seconds : Z;
  ws_provider_call_timeout_seconds : Z;
  ws_provider_backoff_max_seconds : Z;
  ws_mock_slot_capacity : Z;
  ws_mock_slot_idle_ttl_seconds : Z;
  ws_mock_booking_retention_seconds : Z;
  ws_terminal_retention_seconds : Z;
  ws_recovery_leader_lease_seconds : Z;
  ws_recovery_sweep_seconds : Z;
}.

(** [urlparse(text).scheme in schemes]: a [ValueError] escapes as it is. *)
Definition scheme_in (text : string) (schemes : list string) : option bool :=
  (λ u, bool_decide (u_scheme u ∈ schemes)) <$> urlparse bracketed_ok text.

Definition value_error : string := "ValueError".

Definition redis_url_ok (redis_url : string) : result () :=
  match scheme_in redis_url ["redis"; "rediss"; "unix"]%string with
  | Some true => Ok ()
  | Some false =>
      Exc ("Invalid REDIS_URL: " +:+ repr redis_url
           +:+ ". Expected a redis://, rediss://, or unix:// URL.")
  | None => Exc value_error
  end.

Definition WatchSettings_from_environment : result WatchSettings :=
  let timezone_name := getenv "RESERVATION_TIMEZONE" DEFAULT_TIMEZONE in
  _ ← raise_if (negb (known_zone timezone_name)) ("Unknown RESERVATION_TIMEZONE: " +:+ timezone_name);
  let redis_url := getenv "REDIS_URL" DEFAULT_REDIS_URL in
  _ ← redis_url_ok redis_url;
  interval ← _bounded_int "WATCH_POLL_INTERVAL_SECONDS" DEFAULT_POLL_INTERVAL_SECONDS false;
  _ ← raise_if (negb ((_MIN_POLL_INTERVAL_SECONDS <=? interval) && (interval <=? _MAX_POLL_INTERVAL_SECONDS)))
        (between "WATCH_POLL_INTERVAL_SECONDS" _MIN_POLL_INTERVAL_SECONDS _MAX_POLL_INTERVAL_SECONDS);
  jitter ← _bounded_int "WATCH_POLL_JITTER_SECONDS" DEFAULT_POLL_JITTER_SECONDS true;
  _ ← raise_if (interval <=? jitter)
        "WATCH_POLL_JITTER_SECONDS must be smaller than WATCH_POLL_INTERVAL_SECONDS";
  attempts ← _bounded_count "WATCH_MAX_POLL_ATTEMPTS" DEFAULT_MAX_POLL_ATTEMPTS
               _MIN_MAX_POLL_ATTEMPTS _MAX_MAX_POLL_ATTEMPTS;
  dispatch_horizon ← _bounded_count "WATCH_DISPATCH_HORIZON_SECONDS" DEFAULT_DISPATCH_HORIZON_SECONDS
               _MIN_DISPATCH_HORIZON_SECONDS _MAX_DISPATCH_HORIZON_SECONDS;
  provider_timeout ← _bounded_count "WATCH_PROVIDER_CALL_TIMEOUT_SECONDS"
               DEFAULT_PROVIDER_CALL_TIMEOUT_SECONDS
               _MIN_PROVIDER_CALL_TIMEOUT_SECONDS _MAX_PROVIDER_CALL_TIMEOUT_SECONDS;
  backoff_max ← _bounded_count "WATCH_PROVIDER_BACKOFF_MAX_SECONDS" DEFAULT_PROVIDER_BACKOFF_MAX_SECONDS
               1 _MAX_PROVIDER_BACKOFF_MAX_SECONDS;
  _ ← raise_if (backoff_max <? interval)
        "WATCH_PROVIDER_BACKOFF_MAX_SECONDS must be at least WATCH_POLL_INTERVAL_SECONDS";
  mock_capacity ← _bounded_count "MOCK_SLOT_CAPACITY" DEFAULT_MOCK_SLOT_CAPACITY
               _MIN_MOCK_SLOT_CAPACITY _MAX_MOCK_SLOT_CAPACITY;
  mock_idle_ttl ← _bounded_count "MOCK_SLOT_IDLE_TTL_SECONDS" DEFAULT_MOCK_SLOT_IDLE_TTL_SECONDS
               _MIN_MOCK_SLOT_IDLE_TTL_SECONDS _MAX_MOCK_SLOT_IDLE_TTL_SECONDS;
  mock_retention ← _bounded_count "MOCK_BOOKING_RETENTION_SECONDS" DEFAULT_MOCK_BOOKING_RETENTION_SECONDS
               _MIN_MOCK_BOOKING_RETENTION_SECONDS _MAX_MOCK_BOOKING_RETENTION_SECONDS;
  terminal_retention ← _bounded_count "WATCH_TERMINAL_RETENTION_SECONDS" DEFAULT_TERMINAL_RETENTION_SECONDS
               _MIN_TERMINAL_RETENTION_SECONDS _MAX_TERMINAL_RETENTION_SECONDS;
  recovery_leader_lease ← _bounded_count "WATCH_RECOVERY_LEADER_LEASE_SECONDS"
               DEFAULT_RECOVERY_LEADER_LEASE_SECONDS
               _MIN_RECOVERY_LEADER_LEASE_SECONDS _MAX_RECOVERY_LEADER_LEASE_SECONDS;
  recovery_sweep ← _bounded_count "WATCH_RECOVERY_SWEEP_SECONDS" DEFAULT_RECOVERY_SWEEP_SECONDS
               _MIN_RECOVERY_SWEEP_SECONDS _MAX_RECOVERY_SWEEP_SECONDS;
  Ok (MkWatchSettings timezone_name redis_url interval jitter attempts dispatch_horizon
        provider_timeout backoff_max mock_capacity mock_idle_ttl mock_retention
        terminal_retention recovery_leader_lease recovery_sweep).

(** ** [redact_dsn] and [PostgresSettings] *)

Definition or_text (s fallback : string) : string := if nonempty s then s else fallback.

Definition redact_dsn (dsn : string) : string :=
  match urlparse bracketed_ok dsn with
  | None => "<unparseable connection URL>"
  | Some parsed =>
      match port parsed with
      | None => "<unparseable connection URL>"
      | Some p =>
          let port := match p with
                      | Some n => if n =? 0 then "" else ":" +:+ pretty n
                      | None => ""
                      end in
          or_text (u_scheme parsed) "unknown-scheme" +:+ "://" +:+
          or_text (hostname parsed) "unknown-host" +:+ port +:+ u_path parsed
      end
  end.

Record PostgresSettings := MkPostgresSettings {
  pg_dsn : option string;
  pg_pool_min_size : Z;
  pg_pool_max_size : Z;
  pg_statement_timeout_seconds : Z;
}.

Definition PostgresSettings_from_environment : result PostgresSettings :=
  match env "POSTGRES_URL" with
  | None => Ok (MkPostgresSettings None DEFAULT_POSTGRES_POOL_MIN_SIZE DEFAULT_POSTGRES_POOL_MAX_SIZE
                  DEFAULT_POSTGRES_STATEMENT_TIMEOUT_SECONDS)
  | Some raw =>
      let dsn := strip raw in
      _ ← raise_if (negb (nonempty dsn)) ("POSTGRES_URL was set but is empty. Unset it entirely to "
             +:+ "disable the watch-history projection.");
      _ ← match scheme_in dsn ["postgres"; "postgresql"]%string with
          | Some true => Ok ()
          | Some false => Exc ("Invalid POSTGRES_URL: " +:+ redact_dsn dsn
              +:+ ". Expected a postgres:// or postgresql:// URL.")
          | None => Exc value_error
          end;
      pool_min ← _bounded_count "POSTGRES_POOL_MIN_SIZE" DEFAULT_POSTGRES_POOL_MIN_SIZE
                   _MIN_POSTGRES_POOL_SIZE _MAX_POSTGRES_POOL_SIZE;
      pool_max ← _bounded_count "POSTGRES_POOL_MAX_SIZE" DEFAULT_POSTGRES_POOL_MAX_SIZE
                   _MIN_POSTGRES_POOL_SIZE _MAX_POSTGRES_POOL_SIZE;
      _ ← raise_if (pool_max <? pool_min)
            "POSTGRES_POOL_MAX_SIZE must be at least POSTGRES_POOL_MIN_SIZE";
      statement_timeout ← _bounded_count "POSTGRES_STATEMENT_TIMEOUT_SECONDS"
                   DEFAULT_POSTGRES_STATEMENT_TIMEOUT_SECONDS
                   _MIN_POSTGRES_STATEMENT_TIMEOUT_SECONDS _MAX_POSTGRES_STATEMENT_TIMEOUT_SECONDS;
      Ok (MkPostgresSettings (Some dsn) pool_min pool_max statement_timeout)
  end.

(** ** [CorsSettings] *)

(** [raw.split(",")] *)
Fixpoint split_commas (l acc : list ascii) : list string :=
  match l with
  | [] => [of_chars (rev acc)]
  | c :: l' => if Ascii.eqb c "," then of_chars (rev acc) :: split_commas l' [] else split_commas l' (c :: acc)
  end.

Definition origin_ok (origin : string) : result () :=
  match urlparse bracketed_ok origin with
  | None => Exc value_error
  | Some parsed =>
      _ ← raise_if (negb (bool_decide (u_scheme parsed ∈ ["http"; "https"]%string))
                    || negb (nonempty (u_netloc parsed)))
            ("Invalid origin in FRONTEND_ORIGINS: " +:+ repr origin +:+ ". Expected "
             +:+ "a full http:// or https:// origin, e.g. 'https://app.example.com'.");
      raise_if (negb (bool_decide (u_path parsed ∈ [""; "/"]%string)))
        ("Invalid origin in FRONTEND_ORIGINS: " +:+ repr origin +:+ ". An "
         +:+ "origin must not include a path.")
  end.

Fixpoint each {A} (f : A → result ()) (l : list A) : result () :=
  match l with [] => Ok () | x :: l' => _ ← f x; each f l' end.

(** The origins; [CorsSettings()] has none. *)
Definition CorsSettings_from_environment : result (list string) :=
  match env "FRONTEND_ORIGINS" with
  | None => Ok []
  | Some raw =>
      let candidates := map strip (split_commas (chars raw) []) in
      let origins := List.filter nonempty candidates in
      _ ← raise_if (match origins with [] => true | _ => false end)
            ("FRONTEND_ORIGINS was set but contains no origins. Unset it "
             +:+ "entirely to disable CORS.");
      _ ← each origin_ok origins;
      Ok origins
  end.

(** ** [AccountSettings], [PromptThrottleSettings] *)

Record AccountSettings := MkAccountSettings {
  as_session_ttl_seconds : Z;
  as_password_min_length : Z;
  as_password_max_length : Z;
  as_argon2_time_cost : Z;
  as_argon2_memory_cost_kib : Z;
  as_argon2_parallelism : Z;
  as_login_throttle_max_attempts : Z;
  as_login_throttle_window_seconds : Z;
  as_login_ip_throttle_max_attempts : Z;
}.

Definition AccountSettings_from_environment : result AccountSettings :=
  password_min ← _bounded_count "PASSWORD_MIN_LENGTH" DEFAULT_PASSWORD_MIN_LENGTH
                   _MIN_PASSWORD_MIN_LENGTH _MAX_PASSWORD_MIN_LENGTH;
  password_max ← _bounded_count "PASSWORD_MAX_LENGTH" DEFAULT_PASSWORD_MAX_LENGTH
                   _MIN_PASSWORD_MAX_LENGTH _MAX_PASSWORD_MAX_LENGTH;
  _ ← raise_if (password_max <? password_min)
        "PASSWORD_MAX_LENGTH must be at least PASSWORD_MIN_LENGTH";
  session_ttl ← _bounded_count "SESSION_TTL_SECONDS" DEFAULT_SESSION_TTL_SECONDS
                   _MIN_SESSION_TTL_SECONDS _MAX_SESSION_TTL_SECONDS;
  time_cost ← _bounded_count "ARGON2_TIME_COST" DEFAULT_ARGON2_TIME_COST
                   _MIN_ARGON2_TIME_COST _MAX_ARGON2_TIME_COST;
  memory_cost ← _bounded_count "ARGON2_MEMORY_COST_KIB" DEFAULT_ARGON2_MEMORY_COST_KIB
                   _MIN_ARGON2_MEMORY_COST_KIB _MAX_ARGON2_MEMORY_COST_KIB;
  parallelism ← _bounded_count "ARGON2_PARALLELISM" DEFAULT_ARGON2_PARALLELISM
                   _MIN_ARGON2_PARALLELISM _MAX_ARGON2_PARALLELISM;
  login_max ← _bounded_count "LOGIN_THROTTLE_MAX_ATTEMPTS" DEFAULT_LOGIN_THROTTLE_MAX_ATTEMPTS
                   _MIN_LOGIN_THROTTLE_MAX_ATTEMPTS _MAX_LOGIN_THROTTLE_MAX_ATTEMPTS;
  login_window ← _bounded_count "LOGIN_THROTTLE_WINDOW_SECONDS" DEFAULT_LOGIN_THROTTLE_WINDOW_SECONDS
                   _MIN_LOGIN_THROTTLE_WINDOW_SECONDS _MAX_LOGIN_THROTTLE_WINDOW_SECONDS;
  login_ip_max ← _bounded_count "LOGIN_IP_THROTTLE_MAX_ATTEMPTS" DEFAULT_LOGIN_IP_THROTTLE_MAX_ATTEMPTS
                   _MIN_LOGIN_THROTTLE_MAX_ATTEMPTS _MAX_LOGIN_THROTTLE_MAX_ATTEMPTS;
  Ok (MkAccountSettings session_ttl password_min password_max time_cost memory_cost parallelism
        login_max login_window login_ip_max).

Record PromptThrottleSettings := MkPromptThrottleSettings {
  pt_max_requests : Z;
  pt_window_seconds : Z;
}.

Definition PromptThrottleSettings_from_environment : result PromptThrottleSettings :=
  max_requests ← _bounded_count "PROMPT_THROTTLE_MAX_REQUESTS" DEFAULT_PROMPT_THROTTLE_MAX_REQUESTS
                   _MIN_PROMPT_THROTTLE_MAX_REQUESTS _MAX_PROMPT_THROTTLE_MAX_REQUESTS;
  window ← _bounded_count "PROMPT_THROTTLE_WINDOW_SECONDS" DEFAULT_PROMPT_THROTTLE_WINDOW_SECONDS
                   _MIN_PROMPT_THROTTLE_WINDOW_SECONDS _MAX_PROMPT_THROTTLE_WINDOW_SECONDS;
  Ok (MkPromptThrottleSettings max_requests window).

(** ** [EmailSettings] *)

Definition _bool_from_environment (name : string) (default : bool) : result bool :=
  match env name with
  | None => Ok default
  | Some raw =>
      if negb (nonempty (strip raw)) then Ok default else
      let value := lower (strip raw) in
      if bool_decide (value ∈ ["1"; "true"; "yes"; "on"]%string) then Ok true
      else if bool_decide (value ∈ ["0"; "false"; "no"; "off"]%string) then Ok false
      else Exc (name +:+ " must be a boolean such as 'true' or 'false'; got " +:+ repr raw +:+ ".")
  end.

(** [(os.environ.get(name) or "").strip() or None] *)
Definition stripped_or_none (name : string) : option string :=
  let s := getenv name "" in if nonempty s then Some s else None.

(** [raw.rstrip("/")] *)
Definition rstrip_slashes (s : string) : string := of_chars (rev (lstrip (is_char "/") (rev (chars s)))).

Definition _dashboard_base_url : result string :=
  match stripped_or_none "DASHBOARD_BASE_URL" with
  | None => Ok DEFAULT_DASHBOARD_BASE_URL
  | Some raw =>
      match urlparse bracketed_ok raw with
      | None => Exc value_error
      | Some parsed =>
          _ ← raise_if (negb (bool_decide (u_scheme parsed ∈ ["http"; "https"]%string))
                        || negb (nonempty (u_netloc parsed)))
                ("Invalid DASHBOARD_BASE_URL: " +:+ repr raw +:+ ". Expected a full http:// or "
                 +:+ "https:// URL, e.g. 'https://dibs.example.com'.");
          Ok (rstrip_slashes raw)
      end
  end.

Record EmailSettings := MkEmailSettings {
  em_host : option string;
  em_port : Z;
  em_username : option string;
  em_password : option string;
  em_sender : option string;
  em_starttls : bool;
  em_timeout_seconds : Z;
  em_dashboard_base_url : string;
}.

Definition EmailSettings_from_environment : result EmailSettings :=
  let host := stripped_or_none "SMTP_HOST" in
  dashboard_base_url ← _dashboard_base_url;
  match host with
  | None => Ok (MkEmailSettings None DEFAULT_SMTP_PORT None None None true
                  DEFAULT_SMTP_TIMEOUT_SECONDS dashboard_base_url)
  | Some _ =>
      let sender := stripped_or_none "SMTP_FROM" in
      _ ← raise_if (match sender with None => true | Some _ => false end)
            ("SMTP_HOST is set but SMTP_FROM is not. Set the address email "
             +:+ "is sent from, or unset SMTP_HOST to disable email delivery.");
      let username := stripped_or_none "SMTP_USERNAME" in
      let password := match env "SMTP_PASSWORD" with
                      | Some p => if nonempty p then Some p else None
                      | None => None
                      end in
      _ ← raise_if (match username, password with Some _, None => true | _, _ => false end)
            ("SMTP_USERNAME is set but SMTP_PASSWORD is not. Set both to "
             +:+ "authenticate, or neither for an unauthenticated relay.");
      port ← _bounded_count "SMTP_PORT" DEFAULT_SMTP_PORT _MIN_TCP_PORT _MAX_TCP_PORT;
      starttls ← _bool_from_environment "SMTP_STARTTLS" true;
      timeout ← _bounded_count "SMTP_TIMEOUT_SECONDS" DEFAULT_SMTP_TIMEOUT_SECONDS
                  _MIN_SMTP_TIMEOUT_SECONDS _MAX_SMTP_TIMEOUT_SECONDS;
      Ok (MkEmailSettings host port username password sender starttls timeout dashboard_base_url)
  end.

(** ** [Settings] *)

(** [_MODEL_NAME_PATTERN]: [^[A-Za-z0-9][A-Za-z0-9._:\-]{1,63}$] *)
Definition model_name_ok (model : string) : bool :=
  match chars model with
  | c :: l =>
      is_alnum c && (1 <=? length l)%nat && (length l <=? 63)%nat
      && forallb (λ x, is_alnum x || is_char "." x || is_char "_" x || is_char ":" x || is_char "-" x) l
  | [] => false
  end.

(** [Settings] copies the watch fields one by one; here they stay together. *)
Record Settings := MkSettings {
  se_openai_api_key : string;
  se_openai_model : string;
  se_watch : WatchSettings;
}.

Definition Settings_from_environment : result Settings :=
  let api_key := getenv "OPENAI_API_KEY" "" in
  _ ← raise_if (negb (nonempty api_key))
        ("OPENAI_API_KEY is not configured. Set it in the environment "
         +:+ "before starting the service.");
  let model := getenv "OPENAI_MODEL" DEFAULT_MODEL in
  _ ← raise_if (negb (nonempty model)) "OPENAI_MODEL cannot be empty";
  _ ← raise_if (negb (model_name_ok model))
        ("Invalid OPENAI_MODEL name: " +:+ repr model +:+ ". Expected an identifier "
         +:+ "such as 'gpt-4o-mini'.");
  watch ← WatchSettings_from_environment;
  Ok (MkSettings api_key model watch).
End environment.
