(* ===== verification/Address.v ===== *)
(** * Addresses of clients ([is_internal_address] of
    [backend/services/throttle.py])

    The text of a peer address as [ipaddress.ip_address] of Python's standard
    library reads it (3.12.7, the version of the image), its tables of private
    networks, and the verdict by which the login route switches the
    per-address limit off. *)

From S2P Require Import Prelude Calendar.

(** ** Reading addresses *)

(** [s.split(sep)] on characters *)
Fixpoint split_on (sep : ascii) (l : list ascii) : list (list ascii) :=
  match l with
  | [] => [[]]
  | c :: l' =>
      if Ascii.eqb c sep then [] :: split_on sep l'
      else match split_on sep l' with
           | w :: ws => (c :: w) :: ws
           | [] => [[c]]
           end
  end.

(** [_BaseV4._parse_octet]; [None] is [ValueError]. *)
Definition parse_octet (octet : list ascii) : option Z :=
  if (3 <? length octet)%nat then None else
  match octet with
  | [] => None
  | c :: rest =>
      if Ascii.eqb c "0" && negb (bool_decide (rest = [])) then None else
      match digits_val octet 0 with
      | Some n => if 255 <? n then None else Some n
      | None => None
      end
  end.

(** [int.from_bytes(..., "big")] *)
Definition from_bytes (l : list Z) : Z := fold_left (λ acc b, Z.lor (Z.shiftl acc 8) b) l 0.

Definition ipv4_int (l : list ascii) : option Z :=
  match split_on "." l with
  | [a; b; c; d] => from_bytes <$> mapM parse_octet [a; b; c; d]
  | _ => None
  end.

Definition hex_val (c : ascii) : option Z :=
  let n := Z.of_nat (nat_of_ascii c) in
  if (48 <=? n) && (n <=? 57) then Some (n - 48)
  else if (97 <=? n) && (n <=? 102) then Some (n - 87)
  else if (65 <=? n) && (n <=? 70) then Some (n - 55)
  else None.

Fixpoint hex_digits (l : list ascii) (acc : Z) : option Z :=
  match l with
  | [] => Some acc
  | c :: l' => match hex_val c with Some d => hex_digits l' (acc * 16 + d) | None => None end
  end.

(** [_BaseV6._parse_hextet] *)
Definition parse_hextet (hextet : list ascii) : option Z :=
  if (4 <? length hextet)%nat then None else
  match hextet with [] => None | _ => hex_digits hextet 0 end.

(** ["%x" % n] for a number of sixteen bits *)
Definition hex_char (d : Z) : ascii := ascii_of_nat (Z.to_nat (if d <? 10 then d + 48 else d + 87)).
Fixpoint hex_loop (fuel : nat) (n : Z) (acc : list ascii) : list ascii :=
  let acc := hex_char (n mod 16) :: acc in
  match fuel with
  | O => acc
  | S fuel => if n / 16 =? 0 then acc else hex_loop fuel (n / 16) acc
  end.
Definition hex_text (n : Z) : list ascii := hex_loop 3 n [].

(** [ip_int <<= 16; ip_int |= hextet], for each part *)
Definition push_hextet (acc : option Z) (part : list ascii) : option Z :=
  acc ← acc; h ← parse_hextet part; Some (Z.lor (Z.shiftl acc 16) h).
Definition push_hextets (parts : list (list ascii)) (acc : Z) : option Z :=
  fold_left push_hextet parts (Some acc).

(** [if "." in parts[-1]]: an IPv4 suffix becomes two hextets. *)
Definition expand_suffix (parts : list (list ascii)) : option (list (list ascii)) :=
  match last parts with
  | Some suffix =>
      if existsb (Ascii.eqb ".") suffix then
        n ← ipv4_int suffix;
        Some (removelast parts ++ [hex_text (Z.land (Z.shiftr n 16) 0xFFFF); hex_text (Z.land n 0xFFFF)])
      else Some parts
  | None => Some parts
  end.

(** The [i] in [range(1, len(parts) - 1)] with [not parts[i]]. *)
Definition skips (parts : list (list ascii)) : list nat :=
  List.filter (λ i, bool_decide (parts !! i = Some [])) (seq 1 (length parts - 2)).

(** An empty end is permitted only as part of the [::]. *)
Definition drop_empty_first (hi : list (list ascii)) : option (list (list ascii)) :=
  match hi with [] :: [] => Some [] | [] :: _ => None | _ => Some hi end.
Definition drop_empty_last (lo : list (list ascii)) : option (list (list ascii)) :=
  match last lo with
  | Some [] => if (length lo =? 1)%nat then Some [] else None
  | _ => Some lo
  end.

Definition HEXTET_COUNT : nat := 8.

(** [_BaseV6._ip_int_from_string] *)
Definition ipv6_int (l : list ascii) : option Z :=
  let parts := split_on ":" l in
  if (length parts <? 3)%nat then None else
  parts ← expand_suffix parts;
  if (HEXTET_COUNT + 1 <? length parts)%nat then None else
  match skips parts with
  | _ :: _ :: _ => None
  | [skip] =>
      hi ← drop_empty_first (take skip parts);
      lo ← drop_empty_last (drop (S skip) parts);
      if (HEXTET_COUNT <=? length hi + length lo)%nat then None else
      let skipped := Z.of_nat (HEXTET_COUNT - (length hi + length lo)) in
      n ← push_hextets hi 0;
      push_hextets lo (Z.shiftl n (16 * skipped))
  | [] => if (length parts =? HEXTET_COUNT)%nat then push_hextets parts 0 else None
  end.

Inductive address :=
| IPv4Address (ip : Z)
| IPv6Address (ip : Z).

(** [IPv6Address._split_scope_id]: without the scope, which nothing asks for. *)
Definition split_scope_id (l : list ascii) : option (list ascii) :=
  match split_on "%" l with
  | [addr] => Some addr
  | [addr; _ :: _] => Some addr
  | _ => None
  end.

(** [ipaddress.ip_address]; [None] is [ValueError]. *)
Definition ip_address (host : string) : option address :=
  let l := chars host in
  match ipv4_int l with
  | Some n => Some (IPv4Address n)
  | None =>
      if existsb (Ascii.eqb "/") l then None else
      addr ← split_scope_id l; IPv6Address <$> ipv6_int addr
  end.

(** ** Networks *)

(** [address in network]: [other & netmask == network_address]. *)
Definition in_network (width ip : Z) (net : Z * Z) : bool :=
  Z.land ip (Z.shiftl (Z.ones net.2) (width - net.2)) =? net.1.

(** [a.b.c.d/prefix], and a network by its leading hextets *)
Definition net4 (a b c d prefix : Z) : Z * Z := (from_bytes [a; b; c; d], prefix).
Definition net6 (hextets : list Z) (prefix : Z) : Z * Z :=
  (fold_left (λ acc h, Z.lor (Z.shiftl acc 16) h) (hextets ++ replicate (HEXTET_COUNT - length hextets) 0) 0, prefix).

Definition private_networks4 : list (Z * Z) :=
  [net4 0 0 0 0 8; net4 10 0 0 0 8; net4 127 0 0 0 8; net4 169 254 0 0 16; net4 172 16 0 0 12;
   net4 192 0 0 0 24; net4 192 0 0 170 31; net4 192 0 2 0 24; net4 192 168 0 0 16; net4 198 18 0 0 15;
   net4 198 51 100 0 24; net4 203 0 113 0 24; net4 240 0 0 0 4; net4 255 255 255 255 32].
Definition private_exceptions4 : list (Z * Z) := [net4 192 0 0 9 32; net4 192 0 0 10 32].

Definition private_networks6 : list (Z * Z) :=
  [net6 [0; 0; 0; 0; 0; 0; 0; 1] 128; net6 [] 128; net6 [0; 0; 0; 0; 0; 0xffff] 96; net6 [0x64; 0xff9b; 1] 48;
   net6 [0x100] 64; net6 [0x2001] 23; net6 [0x2001; 0xdb8] 32; net6 [0x2002] 16; net6 [0xfc00] 7; net6 [0xfe80] 10].
Definition private_exceptions6 : list (Z * Z) :=
  [net6 [0x2001; 1; 0; 0; 0; 0; 0; 1] 128; net6 [0x2001; 1; 0; 0; 0; 0; 0; 2] 128; net6 [0x2001; 3] 32;
   net6 [0x2001; 4; 0x112] 48; net6 [0x2001; 0x20] 28; net6 [0x2001; 0x30] 28].

Definition is_private4 (ip : Z) : bool :=
  existsb (in_network 32 ip) private_networks4 && forallb (λ net, negb (in_network 32 ip net)) private_exceptions4.

Definition ipv4_mapped (ip : Z) : option Z :=
  if Z.shiftr ip 32 =? 0xFFFF then Some (Z.land ip 0xFFFFFFFF) else None.

Definition is_private6 (ip : Z) : bool :=
  match ipv4_mapped ip with
  | Some v4 => is_private4 v4
  | None =>
      existsb (in_network 128 ip) private_networks6 && forallb (λ net, negb (in_network 128 ip net)) private_exceptions6
  end.

Definition is_private (a : address) : bool :=
  match a with IPv4Address ip => is_private4 ip | IPv6Address ip => is_private6 ip end.

Definition is_loopback (a : address) : bool :=
  match a with
  | IPv4Address ip => in_network 32 ip (net4 127 0 0 0 8)
  | IPv6Address ip => ip =? 1
  end.

(** [ipaddress.ip_network("100.64.0.0/10")] *)
Definition _SHARED_ADDRESS_SPACE : Z * Z := net4 100 64 0 0 10.

Definition is_internal_address (host : option string) : bool :=
  match host with
  | None => false
  | Some host =>
      if negb (nonempty host) then false else
      match ip_address host with
      | None => false
      | Some address =>
          if is_loopback address || is_private address then true
          else match address with
               | IPv4Address ip => in_network 32 ip _SHARED_ADDRESS_SPACE
               | IPv6Address _ => false
               end
      end
  end.
