(* ===== verification/AddressTheorems.v ===== *)
(** * Addresses of clients: theorems

    Which texts [ip_address] reads as which address, and which clients are
    internal: for IPv4 by the four numbers, for IPv6 by the eight hextets,
    however the address is written. *)

From S2P Require Import Prelude Calendar CalendarFacts ClockTime Address.

(** ** Splitting and joining *)

Fixpoint join_on (sep : ascii) (ws : list (list ascii)) : list ascii :=
  match ws with
  | [] => []
  | [w] => w
  | w :: ws => w ++ sep :: join_on sep ws
  end.

Lemma split_on_nonempty sep l : split_on sep l ≠ [].
Proof. destruct l as [|c l]; cbn; [done|]. destruct (Ascii.eqb c sep), (split_on sep l); done. Qed.

Lemma join_split sep l : join_on sep (split_on sep l) = l.
Proof.
  induction l as [|c l IH]; [done|]. cbn [split_on]. destruct (Ascii.eqb_spec c sep) as [->|_].
  - pose proof (split_on_nonempty sep l). destruct (split_on sep l); [done|]. cbn [join_on app] in *. by rewrite IH.
  - pose proof (split_on_nonempty sep l). destruct (split_on sep l) as [|w [|w' ws]]; cbn [join_on app] in *; [done| |]; by rewrite IH.
Qed.

Lemma split_free sep l : sep ∉ l → split_on sep l = [l].
Proof.
  induction l as [|c l IH]; [done|]. intros [Hc Hl]%not_elem_of_cons. cbn [split_on].
  destruct (Ascii.eqb_spec c sep) as [->|_]; [done|]. by rewrite IH.
Qed.

Lemma split_app sep w l : sep ∉ w → split_on sep (w ++ sep :: l) = w :: split_on sep l.
Proof.
  induction w as [|c w IH]; cbn [app split_on].
  - by rewrite Ascii.eqb_refl.
  - intros [Hc Hl]%not_elem_of_cons. destruct (Ascii.eqb_spec c sep) as [->|_]; [done|]. by rewrite IH.
Qed.

Lemma split_join sep ws : ws ≠ [] → Forall (λ w, sep ∉ w) ws → split_on sep (join_on sep ws) = ws.
Proof.
  intros Hn Hw. induction Hw as [|w ws Hw Hws IH]; [done|]. destruct ws as [|w' ws]; [by apply split_free|].
  change (join_on sep (w :: w' :: ws)) with (w ++ sep :: join_on sep (w' :: ws)). rewrite split_app by done. by rewrite IH.
Qed.

Lemma join_app sep us vs : us ≠ [] → vs ≠ [] → join_on sep (us ++ vs) = join_on sep us ++ sep :: join_on sep vs.
Proof.
  intros Hu Hv. induction us as [|u us IH]; [done|]. destruct us as [|u' us].
  - cbn [app]. destruct vs; [done|]. done.
  - change (join_on sep (u :: u' :: us)) with (u ++ sep :: join_on sep (u' :: us)).
    change ((u :: u' :: us) ++ vs) with (u :: ((u' :: us) ++ vs)).
    change (join_on sep (u :: ((u' :: us) ++ vs))) with (u ++ sep :: join_on sep ((u' :: us) ++ vs)).
    rewrite IH by done. by rewrite <- app_assoc.
Qed.

(** ** Octets *)

Definition octet (n : Z) : Prop := 0 <= n < 256.
Definition canonical (n : Z) : list ascii :=
  if n <? 10 then [digit_char n]
  else if n <? 100 then [digit_char (n / 10); digit_char (n mod 10)]
  else [digit_char (n / 100); digit_char (n / 10 mod 10); digit_char (n mod 10)].

Lemma canonical_pretty n : 0 <= n < 1000 → canonical n = chars (pretty n).
Proof.
  assert (all_from (λ n, bool_decide (canonical n = chars (pretty n))) 0 (Z.to_nat 1000) = true) as H
    by (vm_compute; reflexivity).
  intros Hn. apply (bool_decide_unpack _). rewrite (all_from_Z _ _ _ H n) by done. done.
Qed.

Lemma canonical_ok n : octet n → parse_octet (canonical n) = Some n ∧ "."%char ∉ canonical n.
Proof.
  assert (all_from (λ n, bool_decide (parse_octet (canonical n) = Some n) && bool_decide ("."%char ∉ canonical n)) 0 (Z.to_nat 256) = true) as H
    by (vm_compute; reflexivity).
  intros Hn. pose proof (all_from_Z _ _ _ H n Hn) as [H1%bool_decide_eq_true H2%bool_decide_eq_true]%andb_true_iff. done.
Qed.

Lemma parse_octet_inv l n : parse_octet l = Some n → octet n ∧ l = canonical n.
Proof.
  unfold parse_octet, octet. destruct (3 <? length l)%nat eqn:Hl; [done|]. apply Nat.ltb_ge in Hl.
  destruct l as [|c rest]; [done|]. destruct (Ascii.eqb c "0" && _) eqn:Hz; [done|].
  destruct (digits_val _ _) as [m|] eqn:Hd; [|done]. destruct (Z.ltb_spec 255 m); [done|]. intros [= ->].
  assert (∀ d, digit_val c = Some d → rest ≠ [] → d ≠ 0) as Hlead.
  { intros d Hc Hr ->. apply digit_val_char in Hc as [_ ->]. rewrite bool_decide_false in Hz by done. done. }
  cbn [digits_val] in Hd. destruct (digit_val c) as [d1|] eqn:E1; [|done]. specialize (Hlead d1 eq_refl).
  apply digit_val_char in E1 as [H1 ->].
  destruct rest as [|c2 rest]; cbn [digits_val] in Hd.
  { injection Hd as <-. split; [lia|]. unfold canonical. rewrite (proj2 (Z.ltb_lt _ 10)) by lia. by rewrite Z.add_0_l. }
  destruct (digit_val c2) as [d2|] eqn:E2; [|done]. apply digit_val_char in E2 as [H2 ->].
  specialize (Hlead ltac:(done)). destruct rest as [|c3 rest]; cbn [digits_val] in Hd.
  { injection Hd as <-. split; [lia|]. unfold canonical.
    rewrite (proj2 (Z.ltb_ge _ 10)), (proj2 (Z.ltb_lt _ 100)) by lia.
    replace (_ / 10) with d1 by div_lia. by replace (_ mod 10) with d2 by div_lia. }
  destruct (digit_val c3) as [d3|] eqn:E3; [|done]. apply digit_val_char in E3 as [H3 ->].
  destruct rest as [|c4 rest]; [|cbn in Hl; lia]. cbn in Hd. injection Hd as <-. split; [lia|]. unfold canonical.
  rewrite (proj2 (Z.ltb_ge _ 10)), (proj2 (Z.ltb_ge _ 100)) by lia.
  replace (_ / 100) with d1 by div_lia. replace (_ / 10 mod 10) with d2 by div_lia. by replace (_ mod 10) with d3 by div_lia.
Qed.

(** ** IPv4 *)

Definition ipv4_value (a b c d : Z) : Z := ((a * 256 + b) * 256 + c) * 256 + d.
Definition dotted (a b c d : Z) : string := pretty a +:+ "." +:+ pretty b +:+ "." +:+ pretty c +:+ "." +:+ pretty d.

Lemma shift_in n b k : 0 <= k → 0 <= b < 2 ^ k → Z.lor (Z.shiftl n k) b = n * 2 ^ k + b.
Proof.
  intros Hk Hb. rewrite <- Z.shiftl_mul_pow2 by done. destruct (decide (b = 0)) as [->|Hz]; [by rewrite Z.lor_0_r, Z.add_0_r|].
  symmetry.
  assert (Z.land (Z.shiftl n k) b = 0) as Hl.
  { apply Z.bits_inj'. intros i Hi. rewrite Z.land_spec, Z.bits_0.
    destruct (Z.ltb_spec i k) as [Hik|Hik]; [by rewrite Z.shiftl_spec_low|].
    rewrite (Z.bits_above_log2 b i), andb_false_r; [done|lia|].
    apply Z.log2_lt_pow2; [lia|].
    eapply Z.lt_le_trans; [apply Hb|]. by apply Z.pow_le_mono_r. }
  by rewrite Z.add_nocarry_lxor, Z.lxor_lor.
Qed.

Lemma from_bytes_four a b c d : octet a → octet b → octet c → octet d → from_bytes [a; b; c; d] = ipv4_value a b c d.
Proof. unfold octet, ipv4_value. intros. cbn [from_bytes fold_left]. rewrite !shift_in by lia. change (2 ^ 8) with 256. lia. Qed.

Lemma chars_dotted a b c d :
  chars (dotted a b c d) = join_on "." [chars (pretty a); chars (pretty b); chars (pretty c); chars (pretty d)].
Proof. unfold dotted. by rewrite !chars_app. Qed.

Lemma octet_text n : octet n → parse_octet (chars (pretty n)) = Some n ∧ "."%char ∉ chars (pretty n).
Proof. unfold octet. intros Hn. rewrite <- canonical_pretty by lia. by apply canonical_ok. Qed.

Lemma ipv4_dotted a b c d : octet a → octet b → octet c → octet d →
  ipv4_int (chars (dotted a b c d)) = Some (ipv4_value a b c d).
Proof.
  intros Ha Hb Hc Hd. pose proof (octet_text a Ha) as [Pa Fa]. pose proof (octet_text b Hb) as [Pb Fb].
  pose proof (octet_text c Hc) as [Pc Fc]. pose proof (octet_text d Hd) as [Pd Fd].
  unfold ipv4_int. rewrite chars_dotted, split_join by (done || by repeat constructor).
  assert (mapM parse_octet (map (chars ∘ pretty) [a; b; c; d]) = Some [a; b; c; d]) as E by (apply mapM_Some; by repeat constructor).
  change (mapM parse_octet _) with (mapM parse_octet (map (chars ∘ pretty) [a; b; c; d])). rewrite E. cbn [fmap option_fmap option_map].
  by rewrite from_bytes_four.
Qed.

Lemma ipv4_inv host n : ipv4_int (chars host) = Some n →
  ∃ a b c d, octet a ∧ octet b ∧ octet c ∧ octet d ∧ host = dotted a b c d ∧ n = ipv4_value a b c d.
Proof.
  unfold ipv4_int. pose proof (join_split "." (chars host)) as Hj.
  destruct (split_on "." (chars host)) as [|w1 [|w2 [|w3 [|w4 [|]]]]]; try done. intros Hn.
  apply fmap_Some in Hn as (l & Hl & ->). apply mapM_Some in Hl.
  apply Forall2_cons_inv_l in Hl as (a & ? & [Ha ->]%parse_octet_inv & Hl & ->).
  apply Forall2_cons_inv_l in Hl as (b & ? & [Hb ->]%parse_octet_inv & Hl & ->).
  apply Forall2_cons_inv_l in Hl as (c & ? & [Hc ->]%parse_octet_inv & Hl & ->).
  apply Forall2_cons_inv_l in Hl as (d & ? & [Hd ->]%parse_octet_inv & Hl%Forall2_nil_inv_l & ->). subst.
  exists a, b, c, d. split_and!; [done..| |by apply from_bytes_four].
  apply chars_inj. unfold octet in *. by rewrite chars_dotted, <- !canonical_pretty by lia.
Qed.

(** ** Networks as ranges *)

(** A network covers the addresses from its base on. *)
Definition range (width : Z) (net : Z * Z) : Z * Z := (net.1, net.1 + 2 ^ (width - net.2)).
Definition between (r : Z * Z) (ip : Z) : Prop := r.1 <= ip < r.2.
Definition aligned (width : Z) (net : Z * Z) : bool :=
  (0 <=? net.2) && (net.2 <=? width) && (net.1 mod 2 ^ (width - net.2) =? 0).

Lemma mask_high ip width p : 0 <= ip < 2 ^ width → 0 <= p <= width →
  Z.land ip (Z.shiftl (Z.ones p) (width - p)) = ip / 2 ^ (width - p) * 2 ^ (width - p).
Proof.
  intros Hip Hp. rewrite <- Z.shiftr_div_pow2, <- Z.shiftl_mul_pow2 by lia.
  assert (Z.land ip (Z.shiftl (Z.ones p) (width - p)) = Z.shiftl (Z.land (Z.shiftr ip (width - p)) (Z.ones p)) (width - p)) as ->.
  { rewrite Z.shiftl_land, <- Z.ldiff_ones_r by lia. apply Z.bits_inj'. intros i Hi.
    rewrite !Z.land_spec, Z.ldiff_spec. destruct (Z.ltb_spec i (width - p)).
    - by rewrite Z.shiftl_spec_low, !andb_false_r by done.
    - by rewrite Z.ones_spec_high, andb_true_r by lia. }
  rewrite Z.land_ones by lia. rewrite Z.mod_small; [done|]. rewrite Z.shiftr_div_pow2 by lia.
  assert (2 ^ width = 2 ^ p * 2 ^ (width - p)) as E by (rewrite <- Z.pow_add_r by lia; f_equal; lia).
  split; [apply Z.div_pos; lia|]. apply Z.div_lt_upper_bound; lia.
Qed.

Lemma in_network_covers width ip net : 0 <= ip < 2 ^ width → aligned width net = true →
  in_network width ip net = true ↔ between (range width net) ip.
Proof.
  destruct net as [base p]. unfold aligned, in_network, between, range. cbn [fst snd].
  rewrite !andb_true_iff, !Z.leb_le, Z.eqb_eq. intros Hip [[Hp1 Hp2] Hm]. rewrite mask_high by done.
  set (k := 2 ^ (width - p)) in *. assert (0 < k) by (apply Z.pow_pos_nonneg; lia). clearbody k.
  rewrite Z.eqb_eq.
  pose proof (Z.div_mod base k) as Eb. rewrite Hm, Z.add_0_r in Eb. pose proof (Z.div_mod ip k) as Ei.
  pose proof (Z.mod_pos_bound ip k). set (q := ip / k) in *. set (r := ip mod k) in *. set (b := base / k) in *.
  clearbody q r b. split; [nia|]. intros. assert (q = b); nia.
Qed.

Lemma networks_cover width ip nets exceptions : 0 <= ip < 2 ^ width →
  forallb (aligned width) nets = true → forallb (aligned width) exceptions = true →
  existsb (in_network width ip) nets && forallb (λ net, negb (in_network width ip net)) exceptions = true ↔
  (∃ r, r ∈ map (range width) nets ∧ between r ip) ∧ ∀ r, r ∈ map (range width) exceptions → ¬ between r ip.
Proof.
  intros Hip Hn He. rewrite andb_true_iff, existsb_exists, !forallb_forall in *. f_equiv.
  - split.
    + intros (net & Hin & Hnet). exists (range width net). split; [by apply list_elem_of_In, in_map|].
      apply in_network_covers; auto.
    + intros (r & (net & <- & Hin)%list_elem_of_In%in_map_iff & Hb). exists net. split; [done|].
      apply in_network_covers; auto.
  - split.
    + intros Hno r (net & <- & Hin)%list_elem_of_In%in_map_iff Hb. specialize (Hno net Hin).
      rewrite (proj2 (in_network_covers width ip net Hip (He net Hin)) Hb) in Hno. done.
    + intros Hno net Hin. apply negb_true_iff, not_true_iff_false. rewrite in_network_covers by auto.
      apply Hno. by apply list_elem_of_In, in_map.
Qed.

Lemma between_cons r rs ip : (∃ r', r' ∈ r :: rs ∧ between r' ip) ↔ between r ip ∨ ∃ r', r' ∈ rs ∧ between r' ip.
Proof. setoid_rewrite elem_of_cons. naive_solver. Qed.
Lemma between_nil ip : (∃ r', r' ∈ [] ∧ between r' ip) ↔ False.
Proof. split; [|done]. by intros (r & ?%elem_of_nil & _). Qed.
Lemma apart_cons r rs ip : (∀ r', r' ∈ r :: rs → ¬ between r' ip) ↔ ¬ between r ip ∧ ∀ r', r' ∈ rs → ¬ between r' ip.
Proof. setoid_rewrite elem_of_cons. naive_solver. Qed.
Lemma apart_nil ip : (∀ r', r' ∈ [] → ¬ between r' ip) ↔ True.
Proof. split; [done|]. by intros _ r ?%elem_of_nil. Qed.

(** Membership in a closed list of networks, as inequalities. *)
Ltac ranges nets exceptions :=
  let ns := eval vm_compute in nets in let es := eval vm_compute in exceptions in
  change nets with ns; change exceptions with es;
  rewrite ?between_cons, ?between_nil, ?apart_cons, ?apart_nil; unfold between; cbn [fst snd].

(** The blocks of IPv4 that are not reachable from the internet. *)
Definition reserved4 (a b c d : Z) : Prop :=
  (a = 0 ∨ a = 10 ∨ a = 127 ∨ a = 169 ∧ b = 254 ∨ a = 172 ∧ 16 <= b < 32 ∨
   a = 192 ∧ b = 0 ∧ c = 0 ∨ a = 192 ∧ b = 0 ∧ c = 2 ∨ a = 192 ∧ b = 168 ∨ a = 198 ∧ 18 <= b < 20 ∨
   a = 198 ∧ b = 51 ∧ c = 100 ∨ a = 203 ∧ b = 0 ∧ c = 113 ∨ 240 <= a) ∧
  ¬ (a = 192 ∧ b = 0 ∧ c = 0 ∧ (d = 9 ∨ d = 10)).

Lemma is_private4_spec a b c d : octet a → octet b → octet c → octet d →
  is_private4 (ipv4_value a b c d) = true ↔ reserved4 a b c d.
Proof.
  unfold octet. intros Ha Hb Hc Hd. assert (0 <= ipv4_value a b c d < 2 ^ 32) as Hip by (unfold ipv4_value; lia).
  unfold is_private4. rewrite networks_cover by (done || vm_compute; reflexivity).
  set (n := ipv4_value a b c d) in *. assert (n = ipv4_value a b c d) as En by done. clearbody n. unfold ipv4_value in En.
  ranges (map (range 32) private_networks4) (map (range 32) private_exceptions4).
  assert (0 <= n < 16777216 ↔ a = 0) as -> by lia.
  assert (167772160 <= n < 184549376 ↔ a = 10) as -> by lia.
  assert (2130706432 <= n < 2147483648 ↔ a = 127) as -> by lia.
  assert (2851995648 <= n < 2852061184 ↔ a = 169 ∧ b = 254) as -> by lia.
  assert (2886729728 <= n < 2887778304 ↔ a = 172 ∧ 16 <= b < 32) as -> by lia.
  assert (3221225472 <= n < 3221225728 ↔ a = 192 ∧ b = 0 ∧ c = 0) as -> by lia.
  assert (3221225642 <= n < 3221225644 ↔ a = 192 ∧ b = 0 ∧ c = 0 ∧ 170 <= d < 172) as -> by lia.
  assert (3221225984 <= n < 3221226240 ↔ a = 192 ∧ b = 0 ∧ c = 2) as -> by lia.
  assert (3232235520 <= n < 3232301056 ↔ a = 192 ∧ b = 168) as -> by lia.
  assert (3323068416 <= n < 3323199488 ↔ a = 198 ∧ 18 <= b < 20) as -> by lia.
  assert (3325256704 <= n < 3325256960 ↔ a = 198 ∧ b = 51 ∧ c = 100) as -> by lia.
  assert (3405803776 <= n < 3405804032 ↔ a = 203 ∧ b = 0 ∧ c = 113) as -> by lia.
  assert (4026531840 <= n < 4294967296 ↔ 240 <= a) as -> by lia.
  assert (4294967295 <= n < 4294967296 ↔ a = 255 ∧ b = 255 ∧ c = 255 ∧ d = 255) as -> by lia.
  assert (3221225481 <= n < 3221225482 ↔ a = 192 ∧ b = 0 ∧ c = 0 ∧ d = 9) as -> by lia.
  assert (3221225482 <= n < 3221225483 ↔ a = 192 ∧ b = 0 ∧ c = 0 ∧ d = 10) as -> by lia.
  clear En n Hip. unfold reserved4. intuition (subst; lia).
Qed.

(** ** IPv6 *)

Definition hextet (text : list ascii) (h : Z) : Prop := parse_hextet text = Some h.
Definition hextets (hs : list Z) : Z := fold_left (λ acc h, acc * 65536 + h) hs 0.

(** The texts of eight hextets: all of them, or a run of zeros left out. *)
Inductive spells (hs : list Z) : list ascii → Prop :=
| spells_full ts : Forall2 hextet ts hs → length hs = HEXTET_COUNT → spells hs (join_on ":" ts)
| spells_short ts us vs ws : Forall2 hextet ts vs → Forall2 hextet us ws →
    (length vs + length ws < HEXTET_COUNT)%nat →
    hs = vs ++ replicate (HEXTET_COUNT - (length vs + length ws)) 0 ++ ws →
    spells hs (join_on ":" ts ++ [":"; ":"]%char ++ join_on ":" us).

Lemma hex_val_char c d : hex_val c = Some d → 0 <= d < 16 ∧ c ≠ ":"%char ∧ c ≠ "."%char ∧ c ≠ "%"%char ∧ c ≠ "/"%char.
Proof.
  unfold hex_val. intros H. split; [repeat case_match; simplify_eq; lia|].
  split_and!; intros ->; vm_compute in H; done.
Qed.

Lemma hex_digits_spec l acc n : 0 <= acc → hex_digits l acc = Some n →
  0 <= n < (acc + 1) * 16 ^ Z.of_nat (length l) ∧
  ∀ c, c ∈ l → c ≠ ":"%char ∧ c ≠ "."%char ∧ c ≠ "%"%char ∧ c ≠ "/"%char.
Proof.
  revert acc. induction l as [|c l IH]; intros acc Hacc; cbn [hex_digits length].
  - intros [= ->]. split; [cbn; lia|]. by intros c ?%elem_of_nil.
  - destruct (hex_val c) as [d|] eqn:E; [|done]. apply hex_val_char in E as [Hd Hc].
    intros [Hn Hl]%IH; [|lia]. split.
    + rewrite Nat2Z.inj_succ, Z.pow_succ_r by lia.
      assert (0 < 16 ^ Z.of_nat (length l)) by (apply Z.pow_pos_nonneg; lia). nia.
    + intros c' [->|H]%elem_of_cons; auto.
Qed.

Lemma hextet_spec t h : hextet t h →
  0 <= h < 65536 ∧ t ≠ [] ∧ ∀ c, c ∈ t → c ≠ ":"%char ∧ c ≠ "."%char ∧ c ≠ "%"%char ∧ c ≠ "/"%char.
Proof.
  unfold hextet, parse_hextet. destruct (4 <? length t)%nat eqn:Hl; [done|]. apply Nat.ltb_ge in Hl.
  destruct t as [|c t]; [done|]. intros [Hh Hc]%hex_digits_spec; [|lia]. split; [|done].
  assert (16 ^ Z.of_nat (length (c :: t)) <= 16 ^ 4) by (apply Z.pow_le_mono_r; lia). lia.
Qed.

Lemma hextets_range hs : Forall (λ h, 0 <= h < 65536) hs → 0 <= hextets hs < 65536 ^ Z.of_nat (length hs).
Proof.
  unfold hextets. assert (∀ acc, 0 <= acc → Forall (λ h, 0 <= h < 65536) hs →
    0 <= fold_left (λ acc h, acc * 65536 + h) hs acc < (acc + 1) * 65536 ^ Z.of_nat (length hs)) as H.
  { induction hs as [|h hs IH]; intros acc Hacc; cbn [fold_left length]; [lia|].
    intros [Hh Hhs]%Forall_cons. specialize (IH (acc * 65536 + h) ltac:(lia) Hhs).
    rewrite Nat2Z.inj_succ, Z.pow_succ_r by lia.
    assert (0 < 65536 ^ Z.of_nat (length hs)) by (apply Z.pow_pos_nonneg; lia). nia. }
  intros Hhs. specialize (H 0 ltac:(lia) Hhs). lia.
Qed.

Lemma push_hextets_some ts acc n : push_hextets ts acc = Some n ↔
  ∃ hs, Forall2 hextet ts hs ∧ n = fold_left (λ acc h, acc * 65536 + h) hs acc.
Proof.
  unfold push_hextets. revert acc. induction ts as [|t ts IH]; intros acc; cbn [fold_left].
  - split; [intros [= ->]; by exists []|]. intros (hs & ->%Forall2_nil_inv_l & ->). done.
  - unfold push_hextet at 2. cbn [mbind option_bind]. destruct (parse_hextet t) as [h|] eqn:E; cbn [mbind option_bind].
    + pose proof (hextet_spec t h E) as [Hh _]. rewrite shift_in by (done || lia). change (2 ^ 16) with 65536. rewrite IH. split.
      * intros (hs & Hhs & ->). exists (h :: hs). split; [by constructor|done].
      * intros (hs & (h' & hs' & Hh' & Hhs & ->)%Forall2_cons_inv_l & ->). exists hs'. split; [done|].
        unfold hextet in Hh'. rewrite E in Hh'. injection Hh' as <-. done.
    + assert (∀ l, fold_left push_hextet l None = None) as -> by (intros l; by induction l).
      split; [done|]. intros (hs & (h' & hs' & Hh' & _)%Forall2_cons_inv_l & _). unfold hextet in Hh'. congruence.
Qed.

Lemma fold_zeros n acc : fold_left (λ acc h, acc * 65536 + h) (replicate n 0) acc = Z.shiftl acc (16 * Z.of_nat n).
Proof.
  rewrite Z.shiftl_mul_pow2 by lia. revert acc. induction n as [|n IH]; intros acc; [cbn; lia|].
  cbn [replicate fold_left]. rewrite IH, Nat2Z.inj_succ. replace (16 * Z.succ (Z.of_nat n)) with (16 + 16 * Z.of_nat n) by lia.
  rewrite Z.pow_add_r by lia. change (2 ^ 16) with 65536. lia.
Qed.

Lemma elem_of_skips parts i : i ∈ skips parts ↔ (1 <= i /\ S i < length parts)%nat ∧ parts !! i = Some [].
Proof.
  unfold skips. rewrite list_elem_of_In, List.filter_In, in_seq, bool_decide_eq_true.
  split; [intros [? H]; split; [|done]; apply lookup_lt_Some in H; lia|]. intros [? H]. split; [lia|done].
Qed.

Lemma skips_are parts l : NoDup l → (∀ i, i ∈ skips parts ↔ i ∈ l) → skips parts ≡ₚ l.
Proof. intros Hl Hi. apply NoDup_Permutation; [|done|done]. apply NoDup_ListNoDup, List.NoDup_filter, seq_NoDup. Qed.

Lemma split_on_elem sep l w c : w ∈ split_on sep l → c ∈ w → c ∈ l.
Proof.
  revert w. induction l as [|x l IH]; intros w; cbn [split_on].
  - intros ->%list_elem_of_singleton. by intros ?%elem_of_nil.
  - pose proof (split_on_nonempty sep l). destruct (Ascii.eqb x sep).
    + intros [->|Hw]%elem_of_cons Hc; [by apply elem_of_nil in Hc|]. apply elem_of_cons. right. by eapply IH.
    + destruct (split_on sep l) as [|v vs]; [done|]. intros [->|Hw]%elem_of_cons Hc.
      * apply elem_of_cons in Hc as [->|Hc]; [by left|]. right. eapply IH; [by left|done].
      * right. eapply IH; [by right|done].
Qed.

Lemma expand_none l : "."%char ∉ l → expand_suffix (split_on ":" l) = Some (split_on ":" l).
Proof.
  intros Hl. unfold expand_suffix. destruct (last _) as [s|] eqn:E; [|done].
  destruct (existsb _ s) eqn:Es; [|done]. apply existsb_exists in Es as (c & Hc & <-%Ascii.eqb_eq). destruct Hl.
  eapply split_on_elem; [|by apply list_elem_of_In]. apply list_elem_of_lookup. rewrite last_lookup in E. eauto.
Qed.

Lemma drop_empty_first_spec P hi : P ≠ [] → drop_empty_first P = Some hi →
  join_on ":" P = join_on ":" hi ∧ (P = hi ∨ P = [[]] ∧ hi = []).
Proof. destruct P as [|[|c w] [|]]; cbn; intros ? [= <-]; auto. Qed.
Lemma drop_empty_last_spec P lo : P ≠ [] → drop_empty_last P = Some lo →
  join_on ":" P = join_on ":" lo ∧ (P = lo ∨ P = [[]] ∧ lo = []).
Proof.
  unfold drop_empty_last. destruct (last P) as [[|c w]|] eqn:E; try (intros ? [= <-]; by auto).
  destruct (Nat.eqb_spec (length P) 1) as [Hl|]; [|done]. destruct P as [|w [|]]; try done. injection E as ->. intros _ [= <-]. auto.
Qed.

(** An end of a compressed text, as the parts around the [::]. *)
Definition padded (ts : list (list ascii)) : list (list ascii) := match ts with [] => [[]] | _ => ts end.

Lemma padded_first ts hs : Forall2 hextet ts hs → drop_empty_first (padded ts) = Some ts.
Proof. destruct 1 as [|t h ts hs Ht]; [done|]. cbn. by destruct t. Qed.
Lemma padded_last ts hs : Forall2 hextet ts hs → drop_empty_last (padded ts) = Some ts.
Proof.
  intros H. destruct ts as [|t ts]; [done|]. cbn [padded]. unfold drop_empty_last.
  destruct (last (t :: ts)) as [s|] eqn:E; [|done]. rewrite last_lookup in E.
  eapply Forall2_lookup_l in E as (h & _ & Hs); [|exact H]. by destruct s.
Qed.
Lemma padded_facts ts hs : Forall2 hextet ts hs →
  padded ts ≠ [] ∧ join_on ":" (padded ts) = join_on ":" ts ∧ Forall (λ w, ":"%char ∉ w) (padded ts) ∧
  (length (padded ts) <= 1 + length ts)%nat ∧ (ts ≠ [] → length (padded ts) = length ts) ∧
  ∀ i, padded ts !! i = Some [] → ts = [] ∧ i = 0%nat.
Proof.
  intros H. assert (Forall (λ w, ":"%char ∉ w) ts) as Hc.
  { apply Forall_lookup. intros i w Hw. eapply Forall2_lookup_l in Hw as (h & _ & Ht); [|exact H].
    apply hextet_spec in Ht as (_ & _ & Hc). by intros (? & _)%Hc. }
  destruct ts as [|t ts].
  - cbn. split_and!; [done|done|repeat constructor; by intros ?%elem_of_nil|lia|done|]. by intros [|[|i]].
  - cbn [padded]. split_and!; [done|done|done|lia|done|]. intros i Hi.
    eapply Forall2_lookup_l in Hi as (h & _ & Ht); [|exact H]. by apply hextet_spec in Ht as (_ & ? & _).
Qed.

Lemma ipv6_reads l n : "."%char ∉ l → ipv6_int l = Some n → ∃ hs, spells hs l ∧ n = hextets hs.
Proof.
  intros Hdot. unfold ipv6_int. pose proof (join_split ":" l) as Hj. pose proof (expand_none l Hdot) as He.
  destruct (length (split_on ":" l) <? 3)%nat eqn:H3; [done|]. rewrite He. cbn [mbind option_bind]. clear He.
  destruct (HEXTET_COUNT + 1 <? length (split_on ":" l))%nat eqn:H9; [done|]. set (P := split_on ":" l) in *. clearbody P. apply Nat.ltb_ge in H3.
  destruct (skips P) as [|k [|]] eqn:Hs; [| |done].
  + destruct (Nat.eqb_spec (length P) HEXTET_COUNT) as [H8|]; [|done].
    intros (hs & Hhs & ->)%push_hextets_some. exists hs. split; [|done]. rewrite <- Hj.
    apply spells_full; [done|]. by rewrite <- (Forall2_length _ _ _ Hhs).
  + assert (k ∈ skips P) as [Hk HP]%elem_of_skips by (rewrite Hs; by left).
    assert (take k P ≠ []) as Ht by (intros H; apply (f_equal length) in H; rewrite length_take in H; cbn in H; lia).
    assert (drop (S k) P ≠ []) as Hd by (intros H; apply (f_equal length) in H; rewrite length_drop in H; cbn in H; lia).
    destruct (drop_empty_first _) as [hi|] eqn:Eh; [|done]. apply drop_empty_first_spec in Eh as [Eh _]; [|done].
    cbn [mbind option_bind]. destruct (drop_empty_last _) as [lo|] eqn:El; [|done]. apply drop_empty_last_spec in El as [El _]; [|done].
    cbn [mbind option_bind]. destruct (_ <=? _)%nat eqn:H8; [done|]. apply Nat.leb_gt in H8.
    destruct (push_hextets hi 0) as [m|] eqn:Em; [|done]. cbn [mbind option_bind].
    apply push_hextets_some in Em as (vs & Hvs & ->). intros (ws & Hws & ->)%push_hextets_some.
    rewrite (Forall2_length _ _ _ Hvs), (Forall2_length _ _ _ Hws) in *.
    exists (vs ++ replicate (HEXTET_COUNT - (length vs + length ws)) 0 ++ ws). split.
    * assert (l = join_on ":" hi ++ [":"; ":"]%char ++ join_on ":" lo) as ->; [|by eapply spells_short].
      rewrite <- Hj, <- (take_drop_middle P k []) at 1 by done. rewrite join_app by done. rewrite Eh.
      change ([] :: drop (S k) P) with ([[]] ++ drop (S k) P). rewrite join_app by done. by rewrite El.
    * unfold hextets. by rewrite !fold_left_app, fold_zeros.
Qed.

Lemma ipv6_spelled hs l : "."%char ∉ l → spells hs l → ipv6_int l = Some (hextets hs).
Proof.
  intros Hdot Hs. unfold ipv6_int. rewrite expand_none by done. cbn [mbind option_bind].
  destruct Hs as [ts Hts H8|ts us vs ws Hvs Hws H8 Eh].
  + destruct (padded_facts ts hs Hts) as (Hn & _ & Hc & _ & _ & Hnil). pose proof (Forall2_length _ _ _ Hts) as Hlen.
    destruct ts as [|t ts]; [by rewrite <- Hlen in H8|]. change (padded (t :: ts)) with (t :: ts) in *.
    rewrite split_join by done. set (P := t :: ts) in *. clearbody P. rewrite Hlen, H8. change (_ <? 3)%nat with false.
    change (_ <? _)%nat with false. cbv iota.
    assert (skips P = []) as ->.
    { apply Permutation_nil_r, skips_are; [constructor|]. intros i. rewrite elem_of_skips. split; [|by intros ?%elem_of_nil].
      intros [_ [H _]%Hnil]. done. }
    rewrite Nat.eqb_refl. apply push_hextets_some. by exists hs.
  + destruct (padded_facts ts vs Hvs) as (Nt & Jt & Ct & Lt & Et & Zt).
    destruct (padded_facts us ws Hws) as (Nu & Ju & Cu & Lu & Eu & Zu).
    pose proof (Forall2_length _ _ _ Hvs) as Lv. pose proof (Forall2_length _ _ _ Hws) as Lw.
    assert (0 < length (padded ts) ∧ 0 < length (padded us))%nat as [Pt Pu] by (destruct ts, us; cbn; lia).
    set (P := padded ts ++ [] :: padded us).
    assert (split_on ":" (join_on ":" ts ++ [":"; ":"]%char ++ join_on ":" us) = P) as ->.
    { rewrite <- Jt, <- Ju. change ([":"; ":"]%char ++ ?w) with (":"%char :: ([] ++ ":"%char :: w)).
      rewrite <- (join_app ":" [[]]) by done. rewrite <- join_app by done. apply split_join; [by destruct (padded ts)|].
      apply Forall_app. split; [done|]. constructor; [by intros ?%elem_of_nil|done]. }
    assert (length P = length (padded ts) + S (length (padded us)))%nat as HP by (unfold P; by rewrite length_app).
    assert (P !! length (padded ts) = Some []) as Hk by (unfold P; by rewrite lookup_app_r, Nat.sub_diag by lia).
    rewrite (proj2 (Nat.ltb_ge (length P) 3)) by lia. rewrite (proj2 (Nat.ltb_ge (HEXTET_COUNT + 1) (length P))).
    2: { rewrite HP. unfold HEXTET_COUNT in *. destruct ts; [|specialize (Et ltac:(done)); lia].
         destruct us; [cbn; lia|]. specialize (Eu ltac:(done)). cbn [padded length] in *. lia. }
    assert (skips P = [length (padded ts)]) as ->.
    { apply Permutation_singleton_r, skips_are; [apply NoDup_singleton|]. intros i. rewrite elem_of_skips, list_elem_of_singleton.
      split; [|intros ->; split; [lia|done]]. intros [Hi HPi]. unfold P in HPi. rewrite lookup_app in HPi.
      destruct (padded ts !! i) as [w|] eqn:Ei; [injection HPi as ->; by apply Zt in Ei as [_ ->]; lia|].
      apply lookup_ge_None in Ei. destruct (i - length (padded ts))%nat as [|j] eqn:Ej; [lia|]. cbn in HPi.
      apply Zu in HPi as [Eus ->]. rewrite HP, Eus in Hi. cbn in Hi. lia. }
    unfold P. rewrite take_app_length. rewrite (padded_first ts vs) by done. cbn [mbind option_bind].
    rewrite drop_app_ge by lia. replace (S (length (padded ts)) - length (padded ts))%nat with 1%nat by lia.
    change (drop 1 ([] :: padded us)) with (padded us).
    rewrite (padded_last us ws) by done. cbn [mbind option_bind]. rewrite Lv, Lw.
    rewrite (proj2 (Nat.leb_gt _ _)) by lia.
    rewrite (proj2 (push_hextets_some ts 0 _)) by (eexists; split; [exact Hvs|reflexivity]). cbn [mbind option_bind].
    apply push_hextets_some. exists ws. split; [done|]. unfold hextets. by rewrite Eh, !fold_left_app, fold_zeros.
Qed.

Lemma spells_chars hs l c : spells hs l → c = "."%char ∨ c = "%"%char ∨ c = "/"%char → c ∉ l.
Proof.
  intros Hs Hc. assert (∀ ts vs, Forall2 hextet ts vs → c ∉ join_on ":" ts) as Hj.
  { intros ts vs H. induction H as [|t h ts hs' Ht Hts IH]; [by intros ?%elem_of_nil|].
    assert (c ∉ t) as Hct by (apply hextet_spec in Ht as (_ & _ & Hct); intros H%Hct; naive_solver).
    destruct ts as [|t' ts]; [done|]. change (join_on ":" (t :: t' :: ts)) with (t ++ ":"%char :: join_on ":" (t' :: ts)).
    rewrite not_elem_of_app, not_elem_of_cons. split_and!; [done| |done]. naive_solver. }
  destruct Hs as [ts Hts _|ts us vs ws Hvs Hws _ _]; [by eapply Hj|].
  rewrite !not_elem_of_app, not_elem_of_cons, not_elem_of_cons. split_and!; [by eapply Hj|naive_solver|naive_solver|by intros ?%elem_of_nil|by eapply Hj].
Qed.

Lemma spells_eight hs l : spells hs l → length hs = 8%nat ∧ Forall (λ h, 0 <= h < 65536) hs.
Proof.
  assert (∀ ts vs, Forall2 hextet ts vs → Forall (λ h, 0 <= h < 65536) vs) as Hr.
  { intros ts vs H. induction H as [|t h ts hs' Ht]; [constructor|]. apply hextet_spec in Ht as [Ht _]. by constructor. }
  intros [ts Hts H8|ts us vs ws Hvs Hws H8 ->]; [split; [done|by eapply Hr]|].
  rewrite !length_app, length_replicate. unfold HEXTET_COUNT in *. split; [lia|].
  apply Forall_app; split; [by eapply Hr|]. apply Forall_app; split; [by apply Forall_replicate|by eapply Hr].
Qed.

(** A zone as the operating system appends it. *)
Definition zone_text (zone : list ascii) : Prop := zone = [] ∨ ∃ c name, zone = "%"%char :: c :: name ∧ forallb is_alnum (c :: name) = true.

Lemma alnum_plain c : is_alnum c = true → c ≠ "."%char ∧ c ≠ "%"%char ∧ c ≠ "/"%char.
Proof. intros H. split_and!; intros ->; vm_compute in H; done. Qed.

Lemma ip_address_spelled hs l zone : spells hs l → zone_text zone →
  ip_address (of_chars (l ++ zone)) = Some (IPv6Address (hextets hs)).
Proof.
  intros Hs Hz. assert ("."%char ∉ l ∧ "%"%char ∉ l ∧ "/"%char ∉ l) as (Hd & Hp & Hsl)
    by (split_and!; eapply spells_chars; eauto).
  assert ("."%char ∉ zone ∧ "/"%char ∉ zone) as [Hzd Hzs].
  { destruct Hz as [->|(c & name & -> & Hn)]; [split; by intros ?%elem_of_nil|].
    rewrite !not_elem_of_cons. rewrite forallb_forall in Hn.
    assert (∀ x, x ∈ c :: name → x ≠ "."%char ∧ x ≠ "/"%char) as Hx
      by (intros x Hx; apply list_elem_of_In, Hn, alnum_plain in Hx; naive_solver).
    split; (split; [done|]); apply not_elem_of_cons; intros H%Hx; naive_solver. }
  unfold ip_address. rewrite chars_of_chars. unfold ipv4_int. rewrite split_free by (apply not_elem_of_app; done).
  destruct (existsb _ _) eqn:E.
  { apply existsb_exists in E as (c & [Hc|Hc]%list_elem_of_In%elem_of_app & <-%Ascii.eqb_eq); done. }
  assert (split_scope_id (l ++ zone) = Some l) as ->; [|cbn; by rewrite (ipv6_spelled hs)].
  unfold split_scope_id. destruct Hz as [->|(c & name & -> & Hn)]; [by rewrite app_nil_r, split_free|].
  rewrite split_app by done. rewrite split_free; [done|].
  intros H%list_elem_of_In. rewrite forallb_forall in Hn. by apply Hn, alnum_plain in H as (_ & ? & _).
Qed.

(** The blocks of IPv6 that are not reachable from the internet. *)
Definition reserved6 (hs : list Z) : Prop :=
  match hs with
  | [h0; h1; h2; h3; h4; h5; h6; h7] =>
      if bool_decide (h0 = 0 ∧ h1 = 0 ∧ h2 = 0 ∧ h3 = 0 ∧ h4 = 0 ∧ h5 = 0xffff)
      then reserved4 (h6 / 256) (h6 mod 256) (h7 / 256) (h7 mod 256)
      else
        (h0 = 0 ∧ h1 = 0 ∧ h2 = 0 ∧ h3 = 0 ∧ h4 = 0 ∧ h5 = 0 ∧ h6 = 0 ∧ h7 <= 1 ∨
         h0 = 0x64 ∧ h1 = 0xff9b ∧ h2 = 1 ∨ h0 = 0x100 ∧ h1 = 0 ∧ h2 = 0 ∧ h3 = 0 ∨
         h0 = 0x2001 ∧ h1 < 0x200 ∨ h0 = 0x2001 ∧ h1 = 0xdb8 ∨ h0 = 0x2002 ∨
         0xfc00 <= h0 < 0xfe00 ∨ 0xfe80 <= h0 < 0xfec0) ∧
        ¬ (h0 = 0x2001 ∧ (h1 = 1 ∧ h2 = 0 ∧ h3 = 0 ∧ h4 = 0 ∧ h5 = 0 ∧ h6 = 0 ∧ (h7 = 1 ∨ h7 = 2) ∨
                          h1 = 3 ∨ h1 = 4 ∧ h2 = 0x112 ∨ 0x20 <= h1 < 0x40))
  | _ => False
  end.

Lemma hextets_eight h0 h1 h2 h3 h4 h5 h6 h7 :
  hextets [h0; h1; h2; h3; h4; h5; h6; h7] =
  h0 * 2 ^ 112 + h1 * 2 ^ 96 + h2 * 2 ^ 80 + h3 * 2 ^ 64 + h4 * 2 ^ 48 + h5 * 2 ^ 32 + h6 * 2 ^ 16 + h7.
Proof. cbn [hextets fold_left]. change (2 ^ 112) with 5192296858534827628530496329220096. lia. Qed.

Lemma ipv4_mapped_spec h0 h1 h2 h3 h4 h5 h6 h7 :
  Forall (λ h, 0 <= h < 65536) [h0; h1; h2; h3; h4; h5; h6; h7] →
  ipv4_mapped (hextets [h0; h1; h2; h3; h4; h5; h6; h7]) =
    if bool_decide (h0 = 0 ∧ h1 = 0 ∧ h2 = 0 ∧ h3 = 0 ∧ h4 = 0 ∧ h5 = 0xffff)
    then Some (ipv4_value (h6 / 256) (h6 mod 256) (h7 / 256) (h7 mod 256)) else None.
Proof.
  rewrite !Forall_cons, hextets_eight. intros (? & ? & ? & ? & ? & ? & ? & ? & _). unfold ipv4_mapped.
  set (n := _ + h7). assert (n = (h0 * 2 ^ 80 + h1 * 2 ^ 64 + h2 * 2 ^ 48 + h3 * 2 ^ 32 + h4 * 2 ^ 16 + h5) * 2 ^ 32 + (h6 * 65536 + h7)) as E
    by (unfold n; lia).
  set (m := h0 * 2 ^ 80 + h1 * 2 ^ 64 + h2 * 2 ^ 48 + h3 * 2 ^ 32 + h4 * 2 ^ 16 + h5) in E. clearbody n.
  rewrite Z.shiftr_div_pow2 by lia. change 0xFFFFFFFF with (Z.ones 32). rewrite Z.land_ones by lia. rewrite E.
  rewrite Z.div_add_l, (Z.div_small (h6 * 65536 + h7)), Z.add_0_r by lia.
  rewrite (Z.add_comm (m * 2 ^ 32)), Z.mod_add, Z.mod_small by lia.
  assert ((m =? 0xFFFF) = bool_decide (h0 = 0 ∧ h1 = 0 ∧ h2 = 0 ∧ h3 = 0 ∧ h4 = 0 ∧ h5 = 0xffff)) as ->.
  { apply eq_true_iff_eq. rewrite Z.eqb_eq, bool_decide_eq_true. unfold m. lia. }
  case_bool_decide; [|done]. f_equal. unfold ipv4_value. div_lia.
Qed.

Lemma is_private6_spec hs : length hs = 8%nat → Forall (λ h, 0 <= h < 65536) hs →
  is_private6 (hextets hs) = true ↔ reserved6 hs.
Proof.
  intros Hlen Hr. pose proof (hextets_range hs Hr) as Hn. rewrite Hlen in Hn. change (65536 ^ Z.of_nat 8) with (2 ^ 128) in Hn.
  destruct hs as [|h0 [|h1 [|h2 [|h3 [|h4 [|h5 [|h6 [|h7 [|]]]]]]]]]; try done. unfold is_private6, reserved6.
  rewrite ipv4_mapped_spec by done. rewrite !Forall_cons in Hr. destruct Hr as (? & ? & ? & ? & ? & ? & ? & ? & _).
  destruct (bool_decide _) eqn:Hm.
  { apply is_private4_spec; unfold octet; div_lia. }
  apply bool_decide_eq_false in Hm. rewrite networks_cover by (done || vm_compute; reflexivity).
  rewrite hextets_eight in *. set (n := _ + h7) in *. assert (n = h0 * 2 ^ 112 + h1 * 2 ^ 96 + h2 * 2 ^ 80 + h3 * 2 ^ 64 + h4 * 2 ^ 48 + h5 * 2 ^ 32 + h6 * 2 ^ 16 + h7) as En by done.
  clearbody n. ranges (map (range 128) private_networks6) (map (range 128) private_exceptions6).
  assert (1 <= n < 2 ↔ h0 = 0 ∧ h1 = 0 ∧ h2 = 0 ∧ h3 = 0 ∧ h4 = 0 ∧ h5 = 0 ∧ h6 = 0 ∧ h7 = 1) as -> by lia.
  assert (0 <= n < 1 ↔ h0 = 0 ∧ h1 = 0 ∧ h2 = 0 ∧ h3 = 0 ∧ h4 = 0 ∧ h5 = 0 ∧ h6 = 0 ∧ h7 = 0) as -> by lia.
  assert (281470681743360 <= n < 281474976710656 ↔ h0 = 0 ∧ h1 = 0 ∧ h2 = 0 ∧ h3 = 0 ∧ h4 = 0 ∧ h5 = 0xffff) as -> by lia.
  assert (524413980668812575603097810486951936 <= n < 524413980670021501422712439661658112 ↔ h0 = 0x64 ∧ h1 = 0xff9b ∧ h2 = 1) as -> by lia.
  assert (1329227995784915872903807060280344576 <= n < 1329227995784915891350551133989896192 ↔ h0 = 0x100 ∧ h1 = 0 ∧ h2 = 0 ∧ h3 = 0) as -> by lia.
  assert (42540488161975842760550356425300246528 <= n < 42540528726795050063891204319802818560 ↔ h0 = 0x2001 ∧ h1 < 0x200) as -> by lia.
  assert (42540766411282592856903984951653826560 <= n < 42540766490510755371168322545197776896 ↔ h0 = 0x2001 ∧ h1 = 0xdb8) as -> by lia.
  assert (42545680458834377588178886921629466624 <= n < 42550872755692912415807417417958686720 ↔ h0 = 0x2002) as -> by lia.
  assert (334965454937798799971759379190646833152 <= n < 337623910929368631717566993311207522304 ↔ 0xfc00 <= h0 < 0xfe00) as -> by lia.
  assert (338288524927261089654018896841347694592 <= n < 338620831926207318622244848606417780736 ↔ 0xfe80 <= h0 < 0xfec0) as -> by lia.
  assert (42540488241204005274814694018844196865 <= n < 42540488241204005274814694018844196866 ↔ h0 = 0x2001 ∧ h1 = 1 ∧ h2 = 0 ∧ h3 = 0 ∧ h4 = 0 ∧ h5 = 0 ∧ h6 = 0 ∧ h7 = 1) as -> by lia.
  assert (42540488241204005274814694018844196866 <= n < 42540488241204005274814694018844196867 ↔ h0 = 0x2001 ∧ h1 = 1 ∧ h2 = 0 ∧ h3 = 0 ∧ h4 = 0 ∧ h5 = 0 ∧ h6 = 0 ∧ h7 = 2) as -> by lia.
  assert (42540488399660330303343369205932097536 <= n < 42540488478888492817607706799476047872 ↔ h0 = 0x2001 ∧ h1 = 3) as -> by lia.
  assert (42540488479219738492182115193345540096 <= n < 42540488479220947418001729822520246272 ↔ h0 = 0x2001 ∧ h1 = 4 ∧ h2 = 0x112) as -> by lia.
  assert (42540490697277043217009159418706657280 <= n < 42540491964927643445238560915409862656 ↔ h0 = 0x2001 ∧ 0x20 <= h1 < 0x30) as -> by lia.
  assert (42540491964927643445238560915409862656 <= n < 42540493232578243673467962412113068032 ↔ h0 = 0x2001 ∧ 0x30 <= h1 < 0x40) as -> by lia.
  clear En n Hn. intuition (subst; lia).
Qed.

(** ** IPv4 addresses as a dual-stack socket reports them *)

Lemma hex_val_hex d : 0 <= d < 16 → hex_val (hex_char d) = Some d.
Proof.
  assert (all_from (λ d, bool_decide (hex_val (hex_char d) = Some d)) 0 (Z.to_nat 16) = true) as H by (vm_compute; reflexivity).
  intros Hd. exact (proj1 (bool_decide_eq_true _) (all_from_Z _ _ _ H d Hd)).
Qed.

Lemma hex_loop_spec f n acc : 0 <= n < 16 ^ Z.of_nat (S f) →
  ∃ ds, hex_loop f n acc = ds ++ acc ∧ ds ≠ [] ∧ (length ds <= S f)%nat ∧ hex_digits (ds ++ acc) 0 = hex_digits acc n.
Proof.
  revert n acc. induction f as [|f IH]; intros n acc Hn; cbn [hex_loop].
  - exists [hex_char (n mod 16)]. split_and!; [done|done|cbn; lia|]. cbn [app hex_digits].
    change (16 ^ Z.of_nat 1) with 16 in Hn. rewrite hex_val_hex by div_lia. f_equal. div_lia.
  - destruct (Z.eqb_spec (n / 16) 0) as [Hz|_].
    + exists [hex_char (n mod 16)]. split_and!; [done|done|cbn; lia|]. cbn [app hex_digits].
      rewrite hex_val_hex by div_lia. f_equal. div_lia.
    + destruct (IH (n / 16) (hex_char (n mod 16) :: acc)) as (ds & -> & Hds & Hl & E).
      { rewrite (Nat2Z.inj_succ (S f)), Z.pow_succ_r in Hn by lia.
        split; [apply Z.div_pos; lia|apply Z.div_lt_upper_bound; lia]. }
      exists (ds ++ [hex_char (n mod 16)]). rewrite <- app_assoc. split_and!; [done|by destruct ds|rewrite length_app; cbn; lia|].
      cbn [app]. rewrite E. cbn [hex_digits]. rewrite hex_val_hex by div_lia. f_equal. div_lia.
Qed.

Lemma hex_text_spec n : 0 <= n < 65536 → hextet (hex_text n) n.
Proof.
  intros Hn. destruct (hex_loop_spec 3 n [] Hn) as (ds & E & Hds & Hl & Hv). unfold hex_text, hextet. rewrite E, app_nil_r in *.
  unfold parse_hextet. rewrite (proj2 (Nat.ltb_ge _ _)) by lia. destruct ds; [done|]. exact Hv.
Qed.

Lemma dotted_chars a b c d x : octet a → octet b → octet c → octet d →
  x ∈ chars (dotted a b c d) → is_digit x || Ascii.eqb x "." = true.
Proof.
  assert (all_from (λ n, forallb is_digit (chars (pretty n))) 0 (Z.to_nat 256) = true) as H by (vm_compute; reflexivity).
  assert (∀ n, octet n → x ∈ chars (pretty n) → is_digit x || Ascii.eqb x "." = true) as Ho.
  { intros n Hn Hx%list_elem_of_In. pose proof (all_from_Z _ _ _ H n Hn) as Hf. cbn beta in Hf.
    rewrite forallb_forall in Hf. by rewrite Hf. }
  intros Ha Hb Hc Hd. rewrite chars_dotted. cbn [join_on]. rewrite !elem_of_app, !elem_of_cons, !elem_of_app, !elem_of_cons,
    !elem_of_app, !elem_of_cons. assert (x = "."%char → is_digit x || Ascii.eqb x "." = true) by by intros ->.
  naive_solver.
Qed.

Definition mapped (a b c d : Z) : string := "::ffff:" +:+ dotted a b c d.
Definition mapped_hextets (a b c d : Z) : list Z := [0; 0; 0; 0; 0; 0xffff; a * 256 + b; c * 256 + d].

Lemma mapped_parts a b c d : octet a → octet b → octet c → octet d →
  split_on ":" (chars (mapped a b c d)) = [[]; []; chars "ffff"; chars (dotted a b c d)].
Proof.
  intros Ha Hb Hc Hd. unfold mapped. rewrite chars_app.
  change (chars "::ffff:" ++ ?l) with (join_on ":" [[]; []; chars "ffff"; l]). apply split_join; [done|].
  repeat constructor; [by intros ?%elem_of_nil..| |].
  - apply (bool_decide_unpack _). vm_compute. done.
  - intros H%dotted_chars; done.
Qed.

Lemma ipv6_mapped a b c d : octet a → octet b → octet c → octet d →
  ipv6_int (chars (mapped a b c d)) = Some (hextets (mapped_hextets a b c d)).
Proof.
  intros Ha Hb Hc Hd. unfold ipv6_int. rewrite mapped_parts by done. change (_ <? 3)%nat with false. cbv iota.
  unfold expand_suffix. cbn [last].
  assert (existsb (Ascii.eqb ".") (chars (dotted a b c d)) = true) as ->.
  { apply existsb_exists. exists "."%char. split; [|done]. rewrite chars_dotted. apply list_elem_of_In. cbn [join_on].
    rewrite elem_of_app, elem_of_cons. auto. }
  rewrite ipv4_dotted by done. cbn [mbind option_bind removelast app].
  unfold octet in *. assert (Z.land (Z.shiftr (ipv4_value a b c d) 16) 0xFFFF = a * 256 + b) as ->.
  { change 0xFFFF with (Z.ones 16). rewrite Z.land_ones, Z.shiftr_div_pow2 by lia. unfold ipv4_value. div_lia. }
  assert (Z.land (ipv4_value a b c d) 0xFFFF = c * 256 + d) as ->.
  { change 0xFFFF with (Z.ones 16). rewrite Z.land_ones by lia. unfold ipv4_value. div_lia. }
  pose proof (hex_text_spec (a * 256 + b) ltac:(lia)) as Hx. pose proof (hex_text_spec (c * 256 + d) ltac:(lia)) as Hy.
  pose proof (hextet_spec _ _ Hx) as (_ & Nx & _). pose proof (hextet_spec _ _ Hy) as (_ & Ny & _).
  set (x := hex_text _) in *. set (y := hex_text (c * 256 + d)) in *. clearbody x y.
  assert (skips [[]; []; chars "ffff"; x; y] = [1%nat]) as Hk.
  { unfold skips. cbn [length seq Nat.sub List.filter]. rewrite (bool_decide_true (_ !! 1%nat = _)) by done.
    rewrite (bool_decide_false (_ !! 2%nat = _)) by done. rewrite (bool_decide_false (_ !! 3%nat = _)) by (cbn; congruence). done. }
  cbn [length]. change (_ <? _)%nat with false. cbv iota. rewrite Hk. cbn [take drop drop_empty_first mbind option_bind].
  unfold drop_empty_last. cbn [last]. destruct y as [|cy y]; [done|]. cbn [mbind option_bind length Nat.add].
  change (_ <=? _)%nat with false. cbv iota. change (push_hextets [] 0) with (Some 0). cbn [mbind option_bind].
  apply push_hextets_some. exists [0xffff; a * 256 + b; c * 256 + d]. split; [by repeat constructor|].
  unfold hextets, mapped_hextets. cbn [fold_left]. rewrite Z.shiftl_0_l. lia.
Qed.

Lemma ip_address_mapped a b c d : octet a → octet b → octet c → octet d →
  ip_address (mapped a b c d) = Some (IPv6Address (hextets (mapped_hextets a b c d))).
Proof.
  intros Ha Hb Hc Hd. unfold ip_address.
  destruct (ipv4_int _) as [n|] eqn:E.
  { apply ipv4_inv in E as (a' & b' & c' & d' & Ha' & Hb' & Hc' & Hd' & E & _). exfalso.
    assert (":"%char ∈ chars (dotted a' b' c' d')) as H%dotted_chars by (rewrite <- E; left); done. }
  assert (∀ x, x = "/"%char ∨ x = "%"%char → x ∉ chars (mapped a b c d)) as Hx.
  { intros x Hx. unfold mapped. rewrite chars_app, not_elem_of_app. split.
    - destruct Hx as [->| ->]; apply (bool_decide_unpack _); vm_compute; done.
    - intros H%dotted_chars; [|done..]. by destruct Hx as [->| ->]. }
  destruct (existsb _ _) eqn:Es.
  { apply existsb_exists in Es as (x & Hin%list_elem_of_In & <-%Ascii.eqb_eq). by destruct (Hx "/"%char (or_introl eq_refl)). }
  unfold split_scope_id. rewrite split_free by auto. cbn [mbind option_bind]. by rewrite ipv6_mapped.
Qed.

(** ** The verdict *)

(** A loopback network is a private one, so the first test adds nothing. *)
Lemma verdict4 a b c d : octet a → octet b → octet c → octet d →
  is_loopback (IPv4Address (ipv4_value a b c d)) || is_private (IPv4Address (ipv4_value a b c d)) = true ↔ reserved4 a b c d.
Proof.
  intros Ha Hb Hc Hd. cbn [is_loopback is_private]. rewrite orb_true_iff, is_private4_spec by done.
  rewrite in_network_covers; [|unfold octet, ipv4_value in *; lia|vm_compute; reflexivity].
  change (range 32 (net4 127 0 0 0 8)) with (2130706432, 2147483648).
  unfold between, reserved4, octet, ipv4_value in *. cbn [fst snd]. intuition lia.
Qed.

Lemma shared_spec a b c d : octet a → octet b → octet c → octet d →
  in_network 32 (ipv4_value a b c d) _SHARED_ADDRESS_SPACE = true ↔ a = 100 ∧ 64 <= b < 128.
Proof.
  intros Ha Hb Hc Hd. rewrite in_network_covers; [|unfold octet, ipv4_value in *; lia|vm_compute; reflexivity].
  change (range 32 _SHARED_ADDRESS_SPACE) with (1681915904, 1686110208).
  unfold between, octet, ipv4_value in *. cbn [fst snd]. lia.
Qed.

Lemma verdict6 hs : length hs = 8%nat → Forall (λ h, 0 <= h < 65536) hs →
  is_loopback (IPv6Address (hextets hs)) || is_private (IPv6Address (hextets hs)) = true ↔ reserved6 hs.
Proof.
  intros Hlen Hr. cbn [is_loopback is_private]. rewrite orb_true_iff, is_private6_spec, Z.eqb_eq by done.
  split; [|by right]. intros [E|]; [|done]. revert E.
  destruct hs as [|h0 [|h1 [|h2 [|h3 [|h4 [|h5 [|h6 [|h7 [|]]]]]]]]]; try done. rewrite hextets_eight. intros E.
  rewrite !Forall_cons in Hr. cbn [reserved6]. rewrite bool_decide_false by lia. lia.
Qed.

Lemma reserved_mapped a b c d : octet a → octet b → octet c → octet d →
  reserved6 (mapped_hextets a b c d) ↔ reserved4 a b c d.
Proof.
  intros Ha Hb Hc Hd. unfold octet, mapped_hextets, reserved6 in *. rewrite bool_decide_true by done.
  replace ((a * 256 + b) / 256) with a by div_lia. replace ((a * 256 + b) mod 256) with b by div_lia.
  replace ((c * 256 + d) / 256) with c by div_lia. by replace ((c * 256 + d) mod 256) with d by div_lia.
Qed.

Lemma internal_unfold host a : ip_address host = Some a →
  is_internal_address (Some host) = true ↔
    is_loopback a || is_private a = true ∨ ∃ ip, a = IPv4Address ip ∧ in_network 32 ip _SHARED_ADDRESS_SPACE = true.
Proof.
  intros Ha. unfold is_internal_address. destruct host as [|x host]; [done|]. cbn [nonempty negb]. rewrite Ha.
  destruct (is_loopback a || is_private a); [by intuition|]. destruct a; naive_solver.
Qed.

(** C36 (addresses). Reading is exact: an IPv4 address is the text of its four
    numbers and no other text, and a text without dots is read as an IPv6
    address exactly when it spells eight hextets, in full or with one run of
    zeros left out.  The login limit counts no client as internal but those in
    the reserved blocks of IPv4 and IPv6 and in shared space: the verdict
    depends on the address only, not on how it or its zone is written; but an
    address in shared space is internal only when it is not reported through
    a dual-stack socket. *)
Theorem internal_address_spec :
  (∀ host n, ipv4_int (chars host) = Some n ↔
     ∃ a b c d, octet a ∧ octet b ∧ octet c ∧ octet d ∧ host = dotted a b c d ∧ n = ipv4_value a b c d) ∧
  (∀ l n, "."%char ∉ l → ipv6_int l = Some n ↔ ∃ hs, spells hs l ∧ n = hextets hs) ∧
  (∀ a b c d, octet a → octet b → octet c → octet d →
     (is_internal_address (Some (dotted a b c d)) = true ↔ reserved4 a b c d ∨ a = 100 ∧ 64 <= b < 128) ∧
     (is_internal_address (Some (mapped a b c d)) = true ↔ reserved4 a b c d)) ∧
  (∀ hs l zone, spells hs l → zone_text zone →
     is_internal_address (Some (of_chars (l ++ zone))) = true ↔ reserved6 hs).
Proof.
  split_and!.
  - intros host n. split; [apply ipv4_inv|]. intros (a & b & c & d & Ha & Hb & Hc & Hd & -> & ->). by apply ipv4_dotted.
  - intros l n Hl. split; [by apply ipv6_reads|]. intros (hs & Hs & ->). by apply ipv6_spelled.
  - intros a b c d Ha Hb Hc Hd. split.
    + rewrite (internal_unfold _ (IPv4Address (ipv4_value a b c d))) by (unfold ip_address; by rewrite ipv4_dotted).
      rewrite verdict4 by done. f_equiv. rewrite <- (shared_spec a b c d) by done. naive_solver.
    + rewrite (internal_unfold _ _ (ip_address_mapped a b c d Ha Hb Hc Hd)).
      rewrite verdict6, reserved_mapped by (done || unfold octet in *; repeat constructor; lia). naive_solver.
  - intros hs l zone Hs Hz. destruct (spells_eight hs l Hs) as [Hlen Hr].
    rewrite (internal_unfold _ _ (ip_address_spelled hs l zone Hs Hz)), verdict6 by done. naive_solver.
Qed.

Example internal_examples :
  map (λ s, is_internal_address (Some s)) ["127.0.0.1"; "10.1.2.3"; "100.64.0.1"; "8.8.8.8"; "::1"; "fe80::1%eth0";
    "2606:4700::1"; "::ffff:10.0.0.1"; "::ffff:100.64.0.1"; "192.0.0.9"; "01.2.3.4"; ""; "fd00::"; "testclient"]%string
  = [true; true; true; false; true; true; false; true; false; false; false; false; true; false].
Proof. vm_compute. reflexivity. Qed.
