(* ===== verification/Accounts.v ===== *)
(** * Accounts and sessions
    ([backend/services/auth_service.py], [services/password.py],
    [db/repositories/accounts.py], [models/account.py],
    [db/migrations/0002_accounts.sql])

    The two tables with their keys, one function per SQL statement, and the
    authentication service as programs over awaited calls: the clock, the
    random token, argon2 (a third-party hasher) and one call per statement. *)

From S2P Require Import Prelude Dict Calendar Reservation Watch Prog Settings.

(** ** Models *)

Record User := MkUser { us_id : string; us_email : string; us_created_at : Z }.
Record StoredUser := MkStored { su_id : string; su_email : string; su_created_at : Z; su_password_hash : string }.
Definition to_public (u : StoredUser) : User := MkUser (su_id u) (su_email u) (su_created_at u).
Record Session := MkSession { se_token_hash : string; se_user_id : string; se_created_at : Z; se_expires_at : Z }.

#[export] Instance User_eq_dec : EqDecision User.
Proof. solve_decision. Defined.

(** ** Tables

    [users] by id, with [email UNIQUE]; [sessions] by token hash, with a
    foreign key to [users]. *)

Record accounts_db := MkDb { db_users : dict StoredUser; db_sessions : dict Session }.
#[export] Instance accounts_db_eta : Eta accounts_db := λ d, MkDb (db_users d) (db_sessions d).

Implicit Types db : accounts_db.

Definition user_by_email (email : string) db : option StoredUser :=
  head (List.filter (λ u, bool_decide (su_email u = email)) (values (db_users db))).

(** [INSERT INTO users ... RETURNING]: the id and the time are the
    database's; [None] is [DuplicateEmailError]. *)
Definition create_user (id : string) (now : Z) (email password_hash : string) db
    : option User * accounts_db :=
  if dict_mem id (db_users db) || match user_by_email email db with Some _ => true | None => false end
  then (None, db)
  else let u := MkStored id email now password_hash in
       (Some (to_public u), db <| db_users := <[id := u]> (db_users db) |>).

Definition get_by_email (email : string) db : option StoredUser := user_by_email email db.
Definition get_by_id (id : string) db : option User := to_public <$> (db_users db !! id).

(** [None]: the token hash is taken, or there is no such user. *)
Definition create_session (s : Session) db : option Session * accounts_db :=
  if dict_mem (se_token_hash s) (db_sessions db) || negb (dict_mem (se_user_id s) (db_users db))
  then (None, db)
  else (Some s, db <| db_sessions := <[se_token_hash s := s]> (db_sessions db) |>).

Definition get_by_token_hash (token_hash : string) db : option Session := db_sessions db !! token_hash.

Definition revoke (token_hash : string) db : accounts_db :=
  db <| db_sessions := delete token_hash (db_sessions db) |>.

Definition revoke_all_for_user (user_id : string) db : accounts_db :=
  db <| db_sessions := dict_filter (λ _ s, negb (bool_decide (se_user_id s = user_id))) (db_sessions db) |>.

(** ** Calls *)

Inductive auth_exn :=
| EmailTakenError
| InvalidCredentialsError
| AuthenticationRequiredError
| InvalidEmailError
| PasswordPolicyError (message : string)
| DuplicateEmailError
| VerifyMismatchError
| InvalidHashError
| RateLimitedError
| AuthCancelled                      (* [asyncio.CancelledError] *)
| HTTPException (status : Z) (detail : string)
| AuthOther (name : string).         (* a database, hasher or network failure *)

Inductive limiter := EmailThrottle | IpThrottle | PromptThrottle.

Inductive auth_call :=
| AuthNow
| TokenUrlsafe                                       (* [secrets.token_urlsafe(32)] *)
| Argon2Hash (password : string)
| Argon2Verify (encoded password : string)
| CreateUser (email password_hash : string)
| GetByEmail (email : string)
| GetById (id : string)
| CreateSession (s : Session)
| GetByTokenHash (token_hash : string)
| Revoke (token_hash : string)
| Consume (l : limiter) (key : string)
| Release (l : limiter) (key : string) (token : option string)
| Forget (l : limiter) (key : string)
| ClaimAnonymous (client_id user_id : string)
| AccountOwner (watch_id : string)
| ListForUser (user_id : string)
| ListForOwner (client_id : string)
| ServiceGet (watch_id : string)
| ServiceCancel (watch_id : string)
| ServiceCreate (query : AvailabilityQuery) (auto_book : bool) (owner_client_id user_id : option string).

Definition auth_answer (c : auth_call) : Type :=
  match c with
  | AuthNow => Z
  | TokenUrlsafe | Argon2Hash _ => string
  | Argon2Verify _ _ => bool
  | CreateUser _ _ => User
  | GetByEmail _ => option StoredUser
  | GetById _ => option User
  | CreateSession _ => Session
  | GetByTokenHash _ => option Session
  | Revoke _ | Release _ _ _ | Forget _ _ | ClaimAnonymous _ _ => ()
  | Consume _ _ => option string
  | AccountOwner _ => option string
  | ListForUser _ | ListForOwner _ => list Watch
  | ServiceGet _ | ServiceCancel _ => option Watch
  | ServiceCreate _ _ _ _ => Watch
  end.

Canonical Structure auth_calls : sig := Sig auth_call auth_answer auth_exn.
Abbreviation A := (prog auth_calls).
Definition ask (c : auth_call) : A (auth_answer c) := perform (Σ := auth_calls) c.
Definition fail {B} (x : auth_exn) : A B := Raise x.

(** [except Exception] does not catch a cancellation. *)
Definition auth_is_exception (x : auth_exn) : bool :=
  match x with AuthCancelled => false | _ => true end.

(** ** [PasswordHasherService] *)

Definition _TIMING_PASSWORD : string := "dibs-timing-equalizer".

Definition hash (password : string) : A string := ask (Argon2Hash password).

(** [except (VerifyMismatchError, InvalidHashError)] *)
Definition mismatch {B} (q : A B) (x : auth_exn) : option (A B) :=
  match x with VerifyMismatchError | InvalidHashError => Some q | _ => None end.

Definition verify (encoded password : string) : A bool :=
  try_except (ask (Argon2Verify encoded password)) (mismatch (Ret false)).

Definition dummy_verify (dummy_hash password : string) : A () :=
  try_except (_ ← ask (Argon2Verify dummy_hash password); Ret ()) (mismatch (Ret ())).

(** ** [AuthService] *)

(** [^[^@\s]+@[^@\s]+\.[^@\s]+$] on text without surrounding spaces: one [@]
    with text before it, and a dot with text on both sides after it. *)
Definition email_char (c : ascii) : bool := negb (Ascii.eqb c "@") && negb (is_space c).

Fixpoint inner_dot (l : list ascii) : bool :=
  match l with
  | c :: (_ :: _) as l' => Ascii.eqb c "." || inner_dot l'
  | _ => false
  end.

Fixpoint email_matches (l : list ascii) : bool :=
  match l with
  | c :: l' =>
      if Ascii.eqb c "@" then
        forallb email_char l' && match l' with _ :: l'' => inner_dot l'' | [] => false end
      else email_char c && email_matches l'
  | [] => false
  end.

Definition _EMAIL_RE (s : string) : bool :=
  match chars s with c :: l => email_char c && email_matches l | [] => false end.

Section auth.
Context (sha256hex : string → string) (dummy_hash : string) (settings : AccountSettings).

Definition hash_token (raw_token : string) : string := sha256hex raw_token.

Definition _normalize_email (email : string) : A string :=
  let normalized := lower (strip email) in
  if negb (_EMAIL_RE normalized) then fail InvalidEmailError else Ret normalized.

Definition _check_password (password : string) : A () :=
  if strlen password <? as_password_min_length settings then
    fail (PasswordPolicyError ("Password must be at least " +:+ pretty (as_password_min_length settings)
                               +:+ " characters."))
  else if as_password_max_length settings <? strlen password then
    fail (PasswordPolicyError ("Password must be at most " +:+ pretty (as_password_max_length settings)
                               +:+ " characters."))
  else Ret ().

Definition _issue_session (user_id : string) : A string :=
  raw ← ask TokenUrlsafe;
  now ← ask AuthNow;
  let expires_at := now + seconds (as_session_ttl_seconds settings) in
  _ ← ask (CreateSession (MkSession (hash_token raw) user_id now expires_at));
  Ret raw.

Definition signup (email password : string) : A (User * string) :=
  normalized ← _normalize_email email;
  _ ← _check_password password;
  password_hash ← hash password;
  user ← try_except (ask (CreateUser normalized password_hash))
           (λ x, match x with DuplicateEmailError => Some (fail EmailTakenError) | _ => None end);
  token ← _issue_session (us_id user);
  Ret (user, token).

Definition login (email password : string) : A (User * string) :=
  normalized ← _normalize_email email;
  stored ← ask (GetByEmail normalized);
  match stored with
  | None =>
      _ ← dummy_verify dummy_hash password;
      fail InvalidCredentialsError
  | Some stored =>
      matches ← verify (su_password_hash stored) password;
      if negb matches then fail InvalidCredentialsError else
      token ← _issue_session (su_id stored);
      Ret (to_public stored, token)
  end.

Definition logout (raw_token : string) : A () := ask (Revoke (hash_token raw_token)).

Definition authenticate (raw_token : option string) : A (option User) :=
  match raw_token with
  | None => Ret None
  | Some raw_token =>
      if negb (nonempty raw_token) then Ret None else
      session ← ask (GetByTokenHash (hash_token raw_token));
      match session with
      | None => Ret None
      | Some session =>
          now ← ask AuthNow;
          if se_expires_at session <=? now then Ret None else ask (GetById (se_user_id session))
      end
  end.
End auth.
