(* ===== verification/AccountTheorems.v ===== *)
(** * Authentication: theorems

    What one call of the authentication service can do, for all answers of the
    database, the hasher and the clock; and what the tables remember. *)

From S2P Require Import Prelude Dict Calendar Reservation Watch Prog Settings Accounts.

Abbreviation auth_event := (event auth_calls).
Abbreviation Ans := (Ev (Σ := auth_calls)).

(** One call of a run. *)
Lemma runs_ask_bind {C} (c : auth_call) (f : auth_answer c → A C) (t : list auth_event) out :
  runs (ask c ≫= f) t out →
  (∃ a t', t = Ans c (Ok a) :: t' ∧ runs (f a) t' out) ∨ (∃ x, t = [Ans c (Exc x)] ∧ out = Exc x).
Proof.
  intros ([a|x] & t' & -> & H)%(runs_call_inv (Σ := auth_calls)); [left; by exists a, t'|right].
  apply (runs_raise_inv (Σ := auth_calls)) in H as [-> ->]. by exists x.
Qed.

Lemma runs_ask (c : auth_call) (t : list auth_event) out : runs (ask c) t out → t = [Ans c out].
Proof. apply (runs_perform_inv (Σ := auth_calls)). Qed.

(** The outcome is an exception one of the calls answered. *)
Definition failed {B} (out : outcome auth_exn B) (t : list auth_event) : Prop :=
  ∃ c x, Ans c (Exc x) ∈ t ∧ out = Exc x.

(** The last call failed. *)
Lemma failed_last {B} (t : list auth_event) c x : failed (Exc x : outcome auth_exn B) (t ++ [Ans c (Exc x)]).
Proof. exists c, x. split; [|done]. apply elem_of_app. right. by left. Qed.

Lemma failed_cons {B} (out : outcome auth_exn B) t e : failed out t → failed out (e :: t).
Proof. intros (c & x & Hin & ->). exists c, x. split; [by right|done]. Qed.

Definition answered (e : auth_event) : bool :=
  match e with Ev _ (Ok _) => true | Ev _ (Exc _) => false end.

(** No call in [P] was answered in [t]. *)
Definition unanswered (P : auth_call → Prop) (t : list auth_event) : Prop :=
  ∀ c a, P c → Ans c (Ok a) ∉ t.

Lemma unanswered_nil P : unanswered P [].
Proof. intros c a _. apply not_elem_of_nil. Qed.

Lemma unanswered_fail P c x t : unanswered P t → unanswered P (Ans c (Exc x) :: t).
Proof.
  intros Ht c' a Hc Hin. apply elem_of_cons in Hin as [He|Hin]; [|by eapply Ht].
  by apply (f_equal answered) in He.
Qed.

Lemma unanswered_cons P c r t : ¬ P c → unanswered P t → unanswered P (Ans c r :: t).
Proof.
  intros Hn Ht c' a Hc Hin. apply elem_of_cons in Hin as [He|Hin]; [|by eapply Ht].
  injection He as <- _. done.
Qed.

(** [unanswered P] of a run whose calls are known. *)
Ltac none_answered :=
  repeat first [apply unanswered_nil | apply unanswered_fail | apply unanswered_cons; [by intros []|]].

Section service.
Context (sha256hex : string → string) (dummy_hash : string) (settings : AccountSettings).

(** Opening a session: a fresh token, stored as its hash until it expires. *)
Definition opens_session (user_id token : string) (t : list auth_event) : Prop :=
  ∃ now s', t = [Ans TokenUrlsafe (Ok token); Ans AuthNow (Ok now);
    Ans (CreateSession (MkSession (sha256hex token) user_id now
           (now + seconds (as_session_ttl_seconds settings)))) (Ok s')].

Definition opening (c : auth_call) : Prop := match c with CreateSession _ => True | _ => False end.

Lemma issue_session_runs user_id t out :
  runs (_issue_session sha256hex settings user_id) t out →
  (∃ token, out = Ok token ∧ opens_session user_id token t) ∨ (failed out t ∧ unanswered opening t).
Proof.
  unfold _issue_session.
  intros [(token & t1 & -> & H)|(x & -> & ->)]%runs_ask_bind.
  2:{ right. split; [apply (failed_last [])|none_answered]. }
  apply runs_ask_bind in H as [(now & t2 & -> & H)|(x & -> & ->)].
  2:{ right. split; [apply (failed_last [_])|none_answered]. }
  apply runs_ask_bind in H as [(s' & t3 & -> & H)|(x & -> & ->)].
  2:{ right. split; [apply (failed_last [_; _])|none_answered]. }
  apply (runs_ret_inv (Σ := auth_calls)) in H as [-> ->]. left. exists token. split; [done|].
  by exists now, s'.
Qed.

(** A password that was checked: argon2 ran on it once, against [encoded]. *)
Definition checks (encoded password : string) (e : auth_event) : Prop :=
  ∃ r, e = Ans (Argon2Verify encoded password) r.

Lemma verify_runs encoded password t out :
  runs (verify encoded password) t out →
  ∃ r, t = [Ans (Argon2Verify encoded password) r] ∧
    out = match r with
          | Ok b => Ok b
          | Exc (VerifyMismatchError | InvalidHashError) => Ok false
          | Exc x => Exc x
          end.
Proof.
  unfold verify. intros (r & t' & -> & H)%(runs_call_inv (Σ := auth_calls)).
  exists r. destruct r as [b|x]; cbn in H.
  - by apply (runs_ret_inv (Σ := auth_calls)) in H as [-> ->].
  - destruct x; cbn in H;
      first [apply (runs_raise_inv (Σ := auth_calls)) in H|apply (runs_ret_inv (Σ := auth_calls)) in H];
      by destruct H as [-> ->].
Qed.

Lemma dummy_verify_runs password t out :
  runs (dummy_verify dummy_hash password) t out →
  ∃ r, t = [Ans (Argon2Verify dummy_hash password) r] ∧
    (out = Ok () ∨ ∃ x, r = Exc x ∧ out = Exc x).
Proof.
  unfold dummy_verify. intros (r & t' & -> & H)%(runs_call_inv (Σ := auth_calls)).
  exists r. destruct r as [b|x]; cbn in H.
  - apply (runs_ret_inv (Σ := auth_calls)) in H as [-> ->]. auto.
  - destruct x; cbn in H;
      first [apply (runs_raise_inv (Σ := auth_calls)) in H|apply (runs_ret_inv (Σ := auth_calls)) in H];
      destruct H as [-> ->]; eauto.
Qed.

(** [_normalize_email] and [_check_password] call nothing. *)
Lemma normalize_runs email t out :
  runs (_normalize_email email) t out →
  t = [] ∧ out = if _EMAIL_RE (lower (strip email)) then Ok (lower (strip email)) else Exc InvalidEmailError.
Proof.
  unfold _normalize_email. cbn zeta. destruct (_EMAIL_RE _); cbn.
  - apply (runs_ret_inv (Σ := auth_calls)).
  - apply (runs_raise_inv (Σ := auth_calls)).
Qed.

Definition password_ok (password : string) : Prop :=
  as_password_min_length settings <= strlen password <= as_password_max_length settings.

Lemma check_password_runs password t out :
  runs (_check_password settings password) t out →
  t = [] ∧ ((out = Ok () ∧ password_ok password) ∨ (∃ message, out = Exc (PasswordPolicyError message)) ∧ ¬ password_ok password).
Proof.
  unfold _check_password, password_ok. case_match; [|case_match]; intros Hr;
    first [apply (runs_raise_inv (Σ := auth_calls)) in Hr|apply (runs_ret_inv (Σ := auth_calls)) in Hr];
    destruct Hr as [-> ->]; (split; [done|]).
  - right. split; [eauto|lia].
  - right. split; [eauto|lia].
  - left. split; [done|lia].
Qed.

(** How a login that opens no session ends. *)
Definition login_refused (email password : string) (x : auth_exn) (t : list auth_event) : Prop :=
  failed (Exc x : outcome auth_exn (User * string)) t ∨
  (x = InvalidEmailError ∧ t = [] ∧ _EMAIL_RE (lower (strip email)) = false) ∨
  (x = InvalidCredentialsError ∧ ∃ stored r,
     t = [Ans (GetByEmail (lower (strip email))) (Ok stored);
          Ans (Argon2Verify (match stored with Some s => su_password_hash s | None => dummy_hash end) password) r] ∧
     (stored = None ∨ r = Ok false ∨ r = Exc VerifyMismatchError ∨ r = Exc InvalidHashError)).

Lemma login_runs email password t out :
  runs (login sha256hex dummy_hash settings email password) t out →
  match out with
  | Ok (user, token) => ∃ stored t',
      t = Ans (GetByEmail (lower (strip email))) (Ok (Some stored)) ::
          Ans (Argon2Verify (su_password_hash stored) password) (Ok true) :: t' ∧
      user = to_public stored ∧ opens_session (su_id stored) token t'
  | Exc x => unanswered opening t ∧ login_refused email password x t
  end.
Proof.
  unfold login, login_refused. intros H.
  apply runs_bind_inv in H as [(n & t1 & t2 & -> & H1 & H)|(x & H1 & ->)]; apply normalize_runs in H1 as [-> E].
  2:{ destruct (_EMAIL_RE _) eqn:Em; [done|]. injection E as ->. split; [none_answered|]. right. by left. }
  destruct (_EMAIL_RE _) eqn:Em; [|done]. injection E as ->. cbn [app].
  apply runs_ask_bind in H as [(stored & t3 & -> & H)|(x & -> & ->)].
  2:{ split; [none_answered|]. left. apply (failed_last []). }
  destruct stored as [stored|].
  - apply runs_bind_inv in H as [(matches & t4 & t5 & -> & H1 & H)|(x & H1 & ->)];
      apply verify_runs in H1 as (r & -> & E).
    2:{ destruct r as [b|y]; [done|]. split; [none_answered|]. left.
        destruct y; simplify_eq; apply (failed_last [_]). }
    destruct matches; cbn [negb] in H.
    + assert (r = Ok true) as -> by (destruct r as [[]|[]]; simplify_eq; done).
      apply runs_bind_inv in H as [(token & t6 & t7 & -> & H1 & H)|(x & H1 & ->)].
      * apply issue_session_runs in H1 as [(token' & [= <-] & Ho)|[(? & ? & _ & ?) _]]; [|done].
        apply (runs_ret_inv (Σ := auth_calls)) in H as [-> ->]. rewrite app_nil_r. by exists stored, t6.
      * apply issue_session_runs in H1 as [(? & ? & _)|[Hf Hu]]; [done|].
        split; [do 2 (apply unanswered_cons; [by intros []|]); done|]. left.
        do 2 apply failed_cons. destruct Hf as (c & y & Hin & [= ->]). by exists c, y.
    + apply (runs_raise_inv (Σ := auth_calls)) in H as [-> ->]. cbn. split.
      * apply unanswered_cons; [by intros []|]. apply unanswered_cons; [by intros []|]. none_answered.
      * right. right. split; [done|]. exists (Some stored), r. split; [done|]. right.
        destruct r as [[]|[]]; simplify_eq; auto.
  - apply runs_bind_inv in H as [([] & t4 & t5 & -> & H1 & H)|(x & H1 & ->)];
      apply dummy_verify_runs in H1 as (r & -> & E).
    + apply (runs_raise_inv (Σ := auth_calls)) in H as [-> ->]. cbn. split.
      * apply unanswered_cons; [by intros []|]. apply unanswered_cons; [by intros []|]. none_answered.
      * right. right. split; [done|]. exists None, r. split; [done|]. by left.
    + destruct E as [|(y & -> & [= ->])]; [done|]. split; [none_answered|]. left. apply (failed_last [_]).
Qed.

Lemma hash_runs password (t : list auth_event) out :
  runs (hash password) t out → t = [Ans (Argon2Hash password) out].
Proof. apply (runs_ask (Argon2Hash password)). Qed.

Lemma signup_runs email password t out :
  runs (signup sha256hex settings email password) t out →
  match out with
  | Ok (user, token) => ∃ h t',
      t = Ans (Argon2Hash password) (Ok h) ::
          Ans (CreateUser (lower (strip email)) h) (Ok user) :: t' ∧
      password_ok password ∧ _EMAIL_RE (lower (strip email)) = true ∧ opens_session (us_id user) token t'
  | Exc x => unanswered opening t ∧
      (failed (Exc x : outcome auth_exn (User * string)) t ∨
       (t = [] ∧ (x = InvalidEmailError ∨ (∃ message, x = PasswordPolicyError message) ∧ ¬ password_ok password)) ∨
       (x = EmailTakenError ∧ ∃ h, t = [Ans (Argon2Hash password) (Ok h);
          Ans (CreateUser (lower (strip email)) h) (Exc DuplicateEmailError)]))
  end.
Proof.
  unfold signup. intros H.
  apply runs_bind_inv in H as [(n & t1 & t2 & -> & H1 & H)|(x & H1 & ->)]; apply normalize_runs in H1 as [-> E].
  2:{ destruct (_EMAIL_RE _); [done|]. injection E as ->. split; [none_answered|]. right. left. auto. }
  destruct (_EMAIL_RE _) eqn:Em; [|done]. injection E as ->. cbn [app].
  apply runs_bind_inv in H as [([] & t3 & t4 & -> & H1 & H)|(x & H1 & ->)]; apply check_password_runs in H1 as [-> Hp].
  2:{ destruct Hp as [[? _]|[(m & [= ->]) Hp]]; [done|]. split; [none_answered|]. right. left. eauto. }
  destruct Hp as [[_ Hp]|[(m & ?) _]]; [|done]. cbn [app].
  apply runs_bind_inv in H as [(h & t5 & t6 & -> & H1 & H)|(x & H1 & ->)]; apply hash_runs in H1 as ->.
  2:{ split; [none_answered|]. left. apply (failed_last []). }
  apply runs_bind_inv in H as [(user & t7 & t8 & -> & H1 & H)|(x & H1 & ->)];
    apply runs_try_inv in H1 as [(a & [= <-] & H1)|[(y & Ey & Eo & H1)|(y & q & s1 & s2 & Ey & -> & H1 & H2)]].
  - apply (runs_ask (CreateUser _ _)) in H1 as ->.
    apply runs_bind_inv in H as [(token & t9 & t10 & -> & H1 & H)|(x & H1 & ->)];
      apply issue_session_runs in H1 as [(token' & [= <-] & Ho)|[Hf Hu]].
    + apply (runs_ret_inv (Σ := auth_calls)) in H as [-> ->]. rewrite app_nil_r. by exists h, t9.
    + by destruct Hf as (? & ? & _ & ?).
    + cbn. split; [by do 2 (apply unanswered_cons; [by intros []|])|]. left.
      do 2 apply failed_cons. destruct Hf as (c & z & Hin & [= ->]). by exists c, z.
  - done.
  - destruct y; try done. injection Ey as <-. by apply (runs_raise_inv (Σ := auth_calls)) in H2 as [-> ?].
  - injection Eo as ->. apply (runs_ask (CreateUser _ _)) in H1 as ->.
    split; [none_answered|]. left. apply (failed_last [_]).
  - destruct y; try done. injection Ey as <-. apply (runs_raise_inv (Σ := auth_calls)) in H2 as [-> [= ->]].
    apply (runs_ask (CreateUser _ _)) in H1 as ->. split; [none_answered|].
    right. right. split; [done|]. by exists h.
Qed.

Lemma authenticate_runs raw t user :
  runs (authenticate sha256hex raw) t (Ok (Some user)) →
  ∃ token session now, raw = Some token ∧
    t = [Ans (GetByTokenHash (sha256hex token)) (Ok (Some session)); Ans AuthNow (Ok now);
         Ans (GetById (se_user_id session)) (Ok (Some user))] ∧ now < se_expires_at session.
Proof.
  unfold authenticate. destruct raw as [token|]; [|by intros [_ ?]%(runs_ret_inv (Σ := auth_calls))].
  destruct (nonempty token); cbn [negb]; [|by intros [_ ?]%(runs_ret_inv (Σ := auth_calls))].
  intros [(session & t1 & -> & H)|(x & _ & ?)]%runs_ask_bind; [|done].
  destruct session as [session|]; [|by apply (runs_ret_inv (Σ := auth_calls)) in H as [_ ?]].
  apply runs_ask_bind in H as [(now & t2 & -> & H)|(x & _ & ?)]; [|done].
  destruct (se_expires_at session <=? now) eqn:El; [by apply (runs_ret_inv (Σ := auth_calls)) in H as [_ ?]|].
  apply (runs_ask (GetById _)) in H as ->. exists token, session, now. split_and!; [done..|lia].
Qed.

(** C25 (accounts: sessions). A login opens a session only for the stored account
    of the given address and after argon2 accepted the password against its
    hash; it is refused alike - same error, one argon2 run, no session - for an
    unknown address and a wrong password. A signup stores only a hash of a
    password that meets the policy, and opens a session only for the account
    it created. A token authenticates only the account of an unexpired session
    stored under its hash. *)
Theorem sessions_are_earned email password raw t :
  (∀ user token, runs (login sha256hex dummy_hash settings email password) t (Ok (user, token)) →
     ∃ stored t', t = Ans (GetByEmail (lower (strip email))) (Ok (Some stored)) ::
         Ans (Argon2Verify (su_password_hash stored) password) (Ok true) :: t' ∧
       user = to_public stored ∧ opens_session (su_id stored) token t') ∧
  (∀ x, runs (login sha256hex dummy_hash settings email password) t (Exc x) →
     unanswered opening t ∧ login_refused email password x t) ∧
  (∀ user token, runs (signup sha256hex settings email password) t (Ok (user, token)) →
     ∃ h t', t = Ans (Argon2Hash password) (Ok h) ::
         Ans (CreateUser (lower (strip email)) h) (Ok user) :: t' ∧
       password_ok password ∧ opens_session (us_id user) token t') ∧
  (∀ user, runs (authenticate sha256hex raw) t (Ok (Some user)) →
     ∃ token session now, raw = Some token ∧
       t = [Ans (GetByTokenHash (sha256hex token)) (Ok (Some session)); Ans AuthNow (Ok now);
            Ans (GetById (se_user_id session)) (Ok (Some user))] ∧ now < se_expires_at session).
Proof.
  split_and!.
  - intros user token H. apply (login_runs _ _ _ _ H).
  - intros x H. apply (login_runs _ _ _ _ H).
  - intros user token H. destruct (signup_runs _ _ _ _ H) as (h & t' & ? & ? & _ & ?). eauto.
  - intros user. apply authenticate_runs.
Qed.
End service.
