(* ===== verification/PasswordWork.v ===== *)
(** * The slots of password hashing ([AuthService._password_work],
    [backend/services/auth_service.py])

    Argon2 runs in threads; a semaphore of four bounds them.  A request waits
    for a slot, starts a thread and awaits it behind a shield; a cancellation
    may strike wherever it waits.  The semaphore is the one of [asyncio] of
    Python 3.12, with its queue of waiters and its hand-over of slots. *)

From stdpp Require Import sorting.
From S2P Require Import Prelude.

(** ** Requests *)

(** Where a request is. *)
Inductive phase :=
| Waiting          (* in the semaphore's queue *)
| Refused          (* cancelled there, before it resumes *)
| Woken            (* was handed a slot, before it resumes *)
| WokenCancelled   (* and was cancelled as well *)
| Working          (* [await asyncio.shield(task)] *)
| Draining         (* cancelled: [await task] *)
| Abandoned        (* cancelled again, before it resumes *)
| Left.            (* released the slot, or never had one *)

(** Its thread: not there, submitted, running, ended, withdrawn before it ran. *)
Inductive thread := NoThread | Submitted | Running | Ended | Withdrawn.

Record request := MkRequest { rq_phase : phase; rq_thread : thread }.
#[export] Instance request_eta : Eta request := λ r, MkRequest (rq_phase r) (rq_thread r).
#[export] Instance phase_eq_dec : EqDecision phase.
Proof. solve_decision. Defined.

(** ** [asyncio.Semaphore] *)

Record slots := MkSlots {
  sl_value : nat;                  (* [self._value] *)
  sl_waiters : list nat;           (* [self._waiters], by request *)
  sl_requests : list request;
  sl_abandoned : nat;              (* requests cancelled a second time *)
}.
#[export] Instance slots_eta : Eta slots := λ s, MkSlots (sl_value s) (sl_waiters s) (sl_requests s) (sl_abandoned s).

Implicit Types (s : slots) (i : nat).

Definition phase_of s i : phase := match sl_requests s !! i with Some r => rq_phase r | None => Left end.
Definition at_phase (p : phase) s i : bool := bool_decide (phase_of s i = p).
Definition set_phase i (p : phase) s : slots :=
  s <| sl_requests := alter (λ r, r <| rq_phase := p |>) i (sl_requests s) |>.

(** [locked()]: no slot, or a waiter that was not cancelled. *)
Definition locked s : bool :=
  (sl_value s =? 0)%nat || existsb (λ i, negb (at_phase Refused s i)) (sl_waiters s).

(** [_wake_up_next()]: the first waiter whose future is not done. *)
Definition wake_up_next s : option slots :=
  match List.find (at_phase Waiting s) (sl_waiters s) with
  | Some i => Some (set_phase i Woken (s <| sl_value := pred (sl_value s) |>))
  | None => None
  end.

(** [while self._value > 0: if not self._wake_up_next(): break]; a round takes
    a slot, so [fuel] is the number of slots. *)
Fixpoint wake_up_all (fuel : nat) s : slots :=
  match fuel with
  | O => s
  | S fuel =>
      if (0 <? sl_value s)%nat then
        match wake_up_next s with Some s => wake_up_all fuel s | None => s end
      else s
  end.

Definition release s : slots :=
  let s := s <| sl_value := S (sl_value s) |> in
  default s (wake_up_next s).

(** The ends of [acquire()]: the future leaves the queue, and whoever may now
    have a slot is woken. *)
Definition leave_queue i s : slots :=
  let s := s <| sl_waiters := List.filter (λ j, negb (j =? i)%nat) (sl_waiters s) |> in
  wake_up_all (sl_value s) s.

(** ** [_password_work] *)

Definition PASSWORD_SLOTS : nat := 4.
Definition new_slots : slots := MkSlots PASSWORD_SLOTS [] [] 0.

(** [async with self._password_slots] *)
Definition begin_work s : slots :=
  let i := length (sl_requests s) in
  if locked s then
    s <| sl_requests := sl_requests s ++ [MkRequest Waiting NoThread] |> <| sl_waiters := sl_waiters s ++ [i] |>
  else
    s <| sl_value := pred (sl_value s) |> <| sl_requests := sl_requests s ++ [MkRequest Working Submitted] |>.

(** The request resumes: after [acquire], or with the second cancellation. *)
Definition resume i s : slots :=
  match phase_of s i with
  | Woken =>
      leave_queue i (s <| sl_requests := alter (λ _, MkRequest Working Submitted) i (sl_requests s) |>)
  | WokenCancelled => leave_queue i (set_phase i Left s <| sl_value := S (sl_value s) |>)
  | Refused => leave_queue i (set_phase i Left s)
  | Abandoned => release (set_phase i Left s)
  | _ => s
  end.

Definition withdraw (t : thread) : thread := match t with Submitted => Withdrawn | _ => t end.

(** [task.cancel()] of the request: the second one cancels the task it awaits,
    and with it a thread that does not run yet. *)
Definition cancel i s : slots :=
  match phase_of s i with
  | Waiting => set_phase i Refused s
  | Woken => set_phase i WokenCancelled s
  | Working => set_phase i Draining s
  | Draining =>
      s <| sl_requests := alter (λ r, MkRequest Abandoned (withdraw (rq_thread r))) i (sl_requests s) |>
        <| sl_abandoned := S (sl_abandoned s) |>
  | _ => s
  end.

Definition set_thread i (t : thread) s : slots :=
  s <| sl_requests := alter (λ r, r <| rq_thread := t |>) i (sl_requests s) |>.

(** The awaited task is done: the result is returned, or the cancellation
    raised again; either way the slot is released. *)
Definition finish i s : slots := release (set_phase i Left s).

Inductive slot_step s : slots → Prop :=
| step_begin : slot_step s (begin_work s)
| step_resume i : slot_step s (resume i s)
| step_cancel i : slot_step s (cancel i s)
| step_run i r : sl_requests s !! i = Some r → rq_thread r = Submitted → slot_step s (set_thread i Running s)
| step_end i r : sl_requests s !! i = Some r → rq_thread r = Running → slot_step s (set_thread i Ended s)
| step_finish i r : sl_requests s !! i = Some r → rq_thread r = Ended →
    rq_phase r = Working ∨ rq_phase r = Draining → slot_step s (finish i s).

(** ** What is counted *)

Definition holds (p : phase) : bool :=
  match p with Woken | WokenCancelled | Working | Draining | Abandoned => true | _ => false end.
Definition count (P : request → bool) s : nat := length (List.filter P (sl_requests s)).
Definition holders s : nat := count (λ r, holds (rq_phase r)) s.
Definition hashing s : nat := count (λ r, match rq_thread r with Running => true | _ => false end) s.

(** ** Altering one request *)

Lemma count_alter P f i s r :
  sl_requests s !! i = Some r →
  (length (List.filter P (alter f i (sl_requests s))) + Nat.b2n (P r) = count P s + Nat.b2n (P (f r)))%nat.
Proof.
  unfold count. generalize (sl_requests s). intros l. revert i. induction l as [|x l IH]; intros [|i] Hi; simplify_eq/=.
  - change (alter f 0%nat (r :: l)) with (f r :: l). cbn [List.filter]. destruct (P r), (P (f r)); cbn; lia.
  - specialize (IH i Hi). change (alter f (S i) (x :: l)) with (x :: alter f i l). cbn [List.filter].
    destruct (P x); cbn [length]; lia.
Qed.

Lemma phase_alter f i s r j : sl_requests s !! i = Some r →
  match alter f i (sl_requests s) !! j with Some r => rq_phase r | None => Left end =
  if decide (i = j) then rq_phase (f r) else phase_of s j.
Proof.
  intros Hi. unfold phase_of. destruct (decide (i = j)) as [<-|].
  - by rewrite list_lookup_alter_eq, Hi.
  - by rewrite list_lookup_alter_ne.
Qed.

(** ** The invariant *)

Definition queued (p : phase) : bool :=
  match p with Waiting | Refused | Woken | WokenCancelled => true | _ => false end.

(** A running thread whose request does not hold its slot until it ends. *)
Definition loose (r : request) : bool :=
  match rq_phase r, rq_thread r with Left, Running | Abandoned, Running => true | _, _ => false end.

(** A thread is there from the hand-over of the slot on, and none that was
    not started outlives its request. *)
Definition thread_ok (r : request) : bool :=
  match rq_phase r, rq_thread r with
  | Waiting, NoThread | Refused, NoThread | Woken, NoThread | WokenCancelled, NoThread => true
  | Working, (Submitted | Running | Ended) | Draining, (Submitted | Running | Ended) => true
  | Abandoned, (Running | Ended | Withdrawn) | Left, (NoThread | Running | Ended | Withdrawn) => true
  | _, _ => false
  end.

Record slots_ok s : Prop := {
  ok_sum : (sl_value s + holders s)%nat = PASSWORD_SLOTS;
  ok_sorted : StronglySorted lt (sl_waiters s);
  ok_queue i : i ∈ sl_waiters s ↔ queued (phase_of s i) = true;
  ok_threads i r : sl_requests s !! i = Some r → thread_ok r = true;
  ok_loose : (count loose s <= sl_abandoned s)%nat;
}.

(** Nobody is left waiting with a free slot. *)
Definition served s : Prop := sl_value s = 0%nat ∨ ∀ i, phase_of s i ≠ Waiting.
Definition stirring s : Prop := ∃ i, phase_of s i = Woken ∨ phase_of s i = WokenCancelled.

(** No slot goes to a later request while an earlier one waits. *)
Definition in_turn s s' : Prop :=
  (∀ j, phase_of s' j = Waiting → phase_of s j = Waiting) ∧
  ∀ i j, (j < i)%nat → phase_of s' j = Waiting → holds (phase_of s' i) = true → holds (phase_of s i) = true.

Lemma in_turn_trans s1 s2 s3 : in_turn s1 s2 → in_turn s2 s3 → in_turn s1 s3.
Proof. intros [H1 F1] [H2 F2]. split; [auto|]. intros i j Hij Hj Hi. eapply F1; [exact Hij|auto|]. by eapply F2. Qed.

Lemma in_turn_refl s : in_turn s s.
Proof. done. Qed.

(** The effect of giving request [i] a new state and the counters new values. *)
Definition update i (f : request → request) (n m : nat) s : slots :=
  s <| sl_requests := alter f i (sl_requests s) |> <| sl_value := n |> <| sl_abandoned := m |>.

Lemma phase_update i f n m s r j : sl_requests s !! i = Some r →
  phase_of (update i f n m s) j = if decide (i = j) then rq_phase (f r) else phase_of s j.
Proof. intros Hi. exact (phase_alter f i s r j Hi). Qed.

Lemma ok_update i f n m s r : slots_ok s → sl_requests s !! i = Some r →
  queued (rq_phase (f r)) = queued (rq_phase r) →
  thread_ok (f r) = true →
  (n + Nat.b2n (holds (rq_phase (f r))) = sl_value s + Nat.b2n (holds (rq_phase r)))%nat →
  (Nat.b2n (loose (f r)) + sl_abandoned s <= m + Nat.b2n (loose r))%nat →
  slots_ok (update i f n m s).
Proof.
  intros [Hs Hso Hq Ht Hl] Hi Eq Et En El. split.
  - unfold holders, count, update in *. cbn [sl_value sl_requests].
    pose proof (count_alter (λ r, holds (rq_phase r)) f i s r Hi) as Hc. unfold count in Hc. cbn -[PASSWORD_SLOTS] in *. lia.
  - exact Hso.
  - intros j. rewrite (phase_update i f n m s r j Hi). rewrite (Hq j). destruct (decide (i = j)) as [<-|]; [|done].
    unfold phase_of. by rewrite Hi, Eq.
  - intros j r' Hj. unfold update in Hj. cbn in Hj. destruct (decide (i = j)) as [<-|Hne].
    + rewrite list_lookup_alter_eq, Hi in Hj. by injection Hj as <-.
    + rewrite list_lookup_alter_ne in Hj by done. eauto.
  - unfold update. pose proof (count_alter loose f i s r Hi) as Hc. unfold count in *. cbn in *. lia.
Qed.

(** ** Handing slots over *)

Lemma wake_up_next_spec s s' : slots_ok s → (0 < sl_value s)%nat → wake_up_next s = Some s' →
  slots_ok s' ∧ sl_value s' = pred (sl_value s) ∧ in_turn s s' ∧ stirring s'.
Proof.
  intros Hok Hv. unfold wake_up_next. destruct (List.find _ _) as [i|] eqn:E; [|done]. intros [= <-].
  assert (phase_of s i = Waiting) as Hi by (apply List.find_some in E as [_ E]; by apply bool_decide_eq_true in E).
  destruct (sl_requests s !! i) as [r|] eqn:Hr; [|unfold phase_of in Hi; rewrite Hr in Hi; done].
  assert (rq_phase r = Waiting) as Hrp by (unfold phase_of in Hi; by rewrite Hr in Hi).
  set (s' := set_phase _ _ _). assert (s' = update i (λ r, r <| rq_phase := Woken |>) (pred (sl_value s)) (sl_abandoned s) s) as -> by done.
  assert (∀ j, phase_of (update i (λ r, r <| rq_phase := Woken |>) (pred (sl_value s)) (sl_abandoned s) s) j =
    if decide (i = j) then Woken else phase_of s j) as Hp by (intros j; by rewrite (phase_update _ _ _ _ s r j Hr)).
  split_and!; [|done| |].
  - apply (ok_update i _ _ _ s r); try done; cbn.
    + by rewrite Hrp.
    + pose proof (ok_threads s Hok i r Hr) as Ht. unfold thread_ok in *. cbn. by rewrite Hrp in Ht.
    + rewrite Hrp. cbn. lia.
    + unfold loose. cbn. rewrite Hrp. cbn. lia.
  - split; [intros j; rewrite Hp; by destruct (decide (i = j))|].
    intros k j Hjk. rewrite !Hp. destruct (decide (i = j)) as [|Hj]; [done|]. destruct (decide (i = k)) as [<-|]; [|done].
    intros Hw _. exfalso. clear -E Hok Hjk Hw Hi.
    assert (j ∈ sl_waiters s) as Hin by (apply (ok_queue s Hok); by rewrite Hw).
    pose proof (ok_sorted s Hok) as Hs. induction Hs as [|x l Hs IH Hx]; [by apply elem_of_nil in Hin|].
    cbn [List.find] in E. unfold at_phase at 1 in E. destruct (bool_decide (phase_of s x = Waiting)) eqn:Ex.
    + injection E as ->. rewrite Forall_forall in Hx. apply elem_of_cons in Hin as [->|Hin]; [lia|]. apply Hx in Hin. lia.
    + apply elem_of_cons in Hin as [->|Hin]; [by rewrite bool_decide_true in Ex|]. by apply IH.
  - exists i. left. rewrite Hp. by destruct (decide (i = i)).
Qed.

Lemma wake_up_next_none s : slots_ok s → wake_up_next s = None → ∀ i, phase_of s i ≠ Waiting.
Proof.
  intros Hok. unfold wake_up_next. destruct (List.find _ _) eqn:E; [done|]. intros _ i Hi.
  eapply List.find_none in E; [|apply list_elem_of_In, (ok_queue s Hok); by rewrite Hi].
  unfold at_phase in E. by rewrite bool_decide_true in E.
Qed.

Lemma wake_up_all_spec fuel s : slots_ok s → (sl_value s <= fuel)%nat →
  slots_ok (wake_up_all fuel s) ∧ in_turn s (wake_up_all fuel s) ∧ served (wake_up_all fuel s).
Proof.
  revert s. induction fuel as [|fuel IH]; intros s Hok Hf; cbn [wake_up_all]; [split_and!; [done|apply in_turn_refl|left; lia]|].
  destruct (Nat.ltb_spec 0 (sl_value s)) as [Hv|Hv]; [|split_and!; [done|apply in_turn_refl|left; lia]].
  destruct (wake_up_next s) as [s'|] eqn:E.
  - destruct (wake_up_next_spec s s' Hok Hv E) as (Hok' & Hv' & Ht & _).
    destruct (IH s' Hok' ltac:(lia)) as (? & ? & ?). split_and!; [done|by eapply in_turn_trans|done].
  - split_and!; [done|apply in_turn_refl|right; by apply wake_up_next_none].
Qed.

(** Every step keeps this. *)
Definition sound s : Prop := slots_ok s ∧ (served s ∨ stirring s).

Lemma release_spec s : slots_ok (s <| sl_value := S (sl_value s) |>) →
  sound (release s) ∧ in_turn (s <| sl_value := S (sl_value s) |>) (release s).
Proof.
  unfold release. set (s1 := s <| sl_value := _ |>). intros Hok. cbn zeta.
  destruct (wake_up_next s1) as [s'|] eqn:E; cbn [default].
  - destruct (wake_up_next_spec s1 s' Hok ltac:(cbn; lia) E) as (? & _ & ? & ?). by split; [split; [|right]|].
  - split; [|apply in_turn_refl]. split; [done|]. left. right. by apply wake_up_next_none.
Qed.

Lemma elem_of_without i j l : j ∈ List.filter (λ k, negb (k =? i)%nat) l ↔ j ∈ l ∧ j ≠ i.
Proof. rewrite !list_elem_of_In, List.filter_In, negb_true_iff, Nat.eqb_neq. done. Qed.

Lemma sorted_without i l : StronglySorted lt l → StronglySorted lt (List.filter (λ k, negb (k =? i)%nat) l).
Proof.
  induction 1 as [|x l Hs IH Hx]; cbn; [constructor|]. destruct (negb _); [|done]. constructor; [done|].
  rewrite Forall_forall in *. intros y [Hy _]%elem_of_without. auto.
Qed.

(** A request leaves the queue, for its slot or for good. *)
Lemma leave_queue_spec i f n s r : slots_ok s → sl_requests s !! i = Some r → queued (rq_phase r) = true →
  queued (rq_phase (f r)) = false → thread_ok (f r) = true → loose (f r) = false →
  (n + Nat.b2n (holds (rq_phase (f r))) = sl_value s + Nat.b2n (holds (rq_phase r)))%nat →
  (holds (rq_phase (f r)) = true → holds (rq_phase r) = true) →
  sound (leave_queue i (update i f n (sl_abandoned s) s)) ∧ in_turn s (leave_queue i (update i f n (sl_abandoned s) s)).
Proof.
  intros [Hs Hso Hq Ht Hl] Hi Eq Eq' Et El En Eh.
  pose proof (λ j, phase_update i f n (sl_abandoned s) s r j Hi) as Hp. unfold leave_queue.
  set (s1 := update i f n (sl_abandoned s) s <| sl_waiters := _ |>). change (sl_value (update i f n (sl_abandoned s) s)) with (sl_value s1).
  assert (∀ j, phase_of s1 j = if decide (i = j) then rq_phase (f r) else phase_of s j) as Hp1 by exact Hp. clear Hp.
  assert (slots_ok s1) as Hok.
  { split.
    - pose proof (count_alter (λ r, holds (rq_phase r)) f i s r Hi) as Hc. unfold holders, count in *.
      cbn -[PASSWORD_SLOTS] in *. lia.
    - by apply sorted_without.
    - intros j. change (sl_waiters s1) with (List.filter (λ j, negb (j =? i)%nat) (sl_waiters s)).
      rewrite elem_of_without, (Hq j), Hp1. destruct (decide (i = j)) as [<-|]; [rewrite Eq'; naive_solver|naive_solver].
    - intros j r' Hj. cbn in Hj. destruct (decide (i = j)) as [<-|Hne].
      + rewrite list_lookup_alter_eq, Hi in Hj. by injection Hj as <-.
      + rewrite list_lookup_alter_ne in Hj by done. eauto.
    - pose proof (count_alter loose f i s r Hi) as Hc. unfold count in *. cbn in *. rewrite El in Hc. cbn in Hc. lia. }
  destruct (wake_up_all_spec (sl_value s1) s1 Hok ltac:(lia)) as (Hok' & Ht' & Hsv). split; [by split; [|left]|].
  eapply in_turn_trans; [|exact Ht']. split.
  - intros j. rewrite Hp1. destruct (decide (i = j)); [|done]. intros E. by rewrite E in Eq'.
  - intros k j _ _. rewrite Hp1. destruct (decide (i = k)) as [<-|]; [|done]. unfold phase_of. rewrite Hi. exact Eh.
Qed.

(** Changes that concern neither the queue nor the number of slots. *)
Lemma update_spec i f m s r : sound s → sl_requests s !! i = Some r →
  queued (rq_phase (f r)) = queued (rq_phase r) → thread_ok (f r) = true →
  holds (rq_phase (f r)) = holds (rq_phase r) →
  (Nat.b2n (loose (f r)) + sl_abandoned s <= m + Nat.b2n (loose r))%nat →
  rq_phase (f r) ≠ Waiting ∨ f r = r → (rq_phase r = Woken → rq_phase (f r) = Woken ∨ rq_phase (f r) = WokenCancelled) →
  rq_phase r ≠ WokenCancelled ∨ rq_phase (f r) = rq_phase r →
  sound (update i f (sl_value s) m s) ∧ in_turn s (update i f (sl_value s) m s).
Proof.
  intros [Hok Hsv] Hi Eq Et Eh El Ew Ek Ec. pose proof (λ j, phase_update i f (sl_value s) m s r j Hi) as Hp.
  assert (phase_of s i = rq_phase r) as Er by (unfold phase_of; by rewrite Hi).
  assert (∀ j, phase_of (update i f (sl_value s) m s) j = Waiting → phase_of s j = Waiting) as Hw.
  { intros j. rewrite Hp. destruct (decide (i = j)) as [<-|]; [|done]. rewrite Er. destruct Ew as [| ->]; done. }
  split; [split|].
  - eapply ok_update; [done|exact Hi|done|done|rewrite Eh; lia|done].
  - destruct Hsv as [[Hv|Hn]|(j & Hj)].
    + left. by left.
    + left. right. intros j ?%Hw. by eapply Hn.
    + right. exists j. rewrite Hp. destruct (decide (i = j)) as [<-|]; [|done]. rewrite Er in Hj.
      destruct Hj as [Hj|Hj]; [by apply Ek in Hj|]. destruct Ec as [Ec|Ec]; [done|]. right. by rewrite Ec.
  - split; [exact Hw|]. intros k j _ _. rewrite Hp. destruct (decide (i = k)) as [<-|]; [|done]. by rewrite Er, Eh.
Qed.

Lemma begin_spec s : sound s → sound (begin_work s) ∧
  ∀ i j, phase_of s j = Waiting → holds (phase_of (begin_work s) i) = true → holds (phase_of s i) = true.
Proof.
  intros [[Hs Hso Hq Ht Hl] Hsv]. unfold begin_work. set (n := length (sl_requests s)).
  assert (∀ r j, match (sl_requests s ++ [r]) !! j with Some r => rq_phase r | None => Left end =
    if decide (j = n) then rq_phase r else phase_of s j) as Hp.
  { intros r j. unfold phase_of. destruct (decide (j = n)) as [->|Hne].
    - by rewrite lookup_app_r, Nat.sub_diag by done.
    - destruct (decide (j < n)%nat); [by rewrite lookup_app_l|].
      rewrite (lookup_ge_None_2 (sl_requests s ++ _)), (lookup_ge_None_2 (sl_requests s)); [done|lia|rewrite length_app; cbn; lia]. }
  assert (phase_of s n = Left) as Hn by (unfold phase_of; by rewrite lookup_ge_None_2).
  assert (∀ i, i ∈ sl_waiters s → (i < n)%nat) as Hlt.
  { intros i Hi%Hq. unfold phase_of in Hi. destruct (sl_requests s !! i) eqn:E; [by eapply lookup_lt_Some|done]. }
  destruct (locked s) eqn:El.
  - set (s1 := s <| sl_requests := _ |> <| sl_waiters := _ |>).
    assert (∀ j, phase_of s1 j = if decide (j = n) then Waiting else phase_of s j) as Hp1 by exact (Hp _).
    split; [split; [split|]|].
    + unfold holders, count in *. cbn -[PASSWORD_SLOTS]. rewrite List.filter_app, length_app. cbn -[PASSWORD_SLOTS]. lia.
    + change (sl_waiters s1) with (sl_waiters s ++ [n]). clear -Hso Hlt. induction Hso as [|x l Hs IH Hx]; [by repeat constructor|].
      cbn. constructor; [apply IH; intros; apply Hlt; by right|]. apply Forall_app. split; [done|].
      repeat constructor. apply Hlt. by left.
    + intros j. change (sl_waiters s1) with (sl_waiters s ++ [n]). rewrite elem_of_app, list_elem_of_singleton, (Hq j), Hp1.
      destruct (decide (j = n)) as [->|]; [by split; auto|]. split; [by intros [|]|by left].
    + intros j r Hj. cbn in Hj. apply lookup_app_Some in Hj as [Hj|[_ Hj]]; [eauto|].
      apply list_lookup_singleton_Some in Hj as [_ <-]. done.
    + unfold count in *. cbn. rewrite List.filter_app, length_app. cbn. lia.
    + unfold locked in El. apply orb_true_iff in El as [El|El]; [left; left; by apply Nat.eqb_eq|].
      apply existsb_exists in El as (w & Hw%list_elem_of_In & Hr).
      unfold at_phase in Hr. apply negb_true_iff, bool_decide_eq_false in Hr.
      assert (stirring s ∨ sl_value s = 0%nat) as [(k & Hk)|Hz].
      { destruct Hsv as [[Hz|Hno]|Hst]; [by right| |by left]. apply Hq in Hw. specialize (Hno w).
        left. exists w. destruct (phase_of s w); try done; auto. }
      * right. exists k. rewrite Hp1. destruct (decide (k = n)) as [->|]; [|done]. rewrite Hn in Hk. by destruct Hk.
      * by left; left.
    + intros i j _. rewrite Hp1. by destruct (decide (i = n)).
  - unfold locked in El. apply orb_false_iff in El as [Hv%Nat.eqb_neq El].
    assert (∀ j, phase_of s j ≠ Waiting) as Hno.
    { intros j Hj. rewrite <- not_true_iff_false in El. apply El, existsb_exists. exists j.
      split; [apply list_elem_of_In, Hq; by rewrite Hj|]. unfold at_phase. by rewrite Hj. }
    set (s1 := s <| sl_value := _ |> <| sl_requests := _ |>).
    assert (∀ j, phase_of s1 j = if decide (j = n) then Working else phase_of s j) as Hp1 by exact (Hp _).
    split; [split; [split|]|].
    + unfold holders, count in *. cbn -[PASSWORD_SLOTS]. rewrite List.filter_app, length_app. cbn -[PASSWORD_SLOTS]. lia.
    + exact Hso.
    + intros j. change (sl_waiters s1) with (sl_waiters s). rewrite (Hq j), Hp1.
      destruct (decide (j = n)) as [->|]; [by rewrite Hn|done].
    + intros j r Hj. cbn in Hj. apply lookup_app_Some in Hj as [Hj|[_ Hj]]; [eauto|].
      apply list_lookup_singleton_Some in Hj as [_ <-]. done.
    + unfold count in *. cbn. rewrite List.filter_app, length_app. cbn. lia.
    + left. right. intros j. rewrite Hp1. by destruct (decide (j = n)).
    + intros i j Hj. by apply Hno in Hj.
Qed.

Lemma finish_spec i s r : sound s → sl_requests s !! i = Some r →
  queued (rq_phase r) = false → holds (rq_phase r) = true → thread_ok (r <| rq_phase := Left |>) = true →
  (Nat.b2n (loose (r <| rq_phase := Left |>)) <= Nat.b2n (loose r))%nat →
  sound (release (set_phase i Left s)) ∧ in_turn s (release (set_phase i Left s)).
Proof.
  intros [Hok _] Hi Hq Hh Ht Hl. set (s1 := update i (λ r, r <| rq_phase := Left |>) (S (sl_value s)) (sl_abandoned s) s).
  assert (slots_ok s1) as Hok1.
  { apply (ok_update i _ _ _ s r); [done|done|by rewrite Hq|done|rewrite Hh; cbn; lia|lia]. }
  destruct (release_spec (set_phase i Left s) Hok1) as [Hs Ht']. split; [done|]. eapply in_turn_trans; [|exact Ht'].
  assert (∀ j, phase_of s1 j = if decide (i = j) then Left else phase_of s j) as Hp
    by (intros j; unfold s1; by rewrite (phase_update _ _ _ _ s r j Hi)).
  change (in_turn s s1). split.
  - intros j. rewrite Hp. by destruct (decide (i = j)).
  - intros k j _ _. rewrite Hp. by destruct (decide (i = k)).
Qed.

(** The side conditions of a step, from where the request was. *)
Ltac resume_case r :=
  unfold thread_ok, loose in *; destruct r; cbn in *; subst; try discriminate;
  repeat match goal with x : thread |- _ => destruct x | x : phase |- _ => destruct x end;
  cbn in *; try discriminate; try lia; try done; auto.

(** One step: the invariant is kept, and nobody overtakes. *)
Lemma slot_step_spec s s' : sound s → slot_step s s' →
  sound s' ∧ ∀ i j, (j < i)%nat → phase_of s j = Waiting → phase_of s' j = Waiting →
    holds (phase_of s' i) = true → holds (phase_of s i) = true.
Proof.
  intros Hs Hstep. assert (∀ s1, sound s1 ∧ in_turn s s1 → sound s1 ∧
    ∀ i j, (j < i)%nat → phase_of s j = Waiting → phase_of s1 j = Waiting → holds (phase_of s1 i) = true → holds (phase_of s i) = true) as Hturn.
  { intros s1 [? [_ Ht]]. split; [done|]. intros i j Hij _. by apply Ht. }
  destruct Hstep as [|i|i|i r Hi Hth|i r Hi Hth|i r Hi Hth Hph].
  - destruct (begin_spec s Hs) as [? Hb]. split; [done|]. intros i j _ Hj _. by eapply Hb.
  - apply Hturn. unfold resume, phase_of. destruct (sl_requests s !! i) as [r|] eqn:Hi; [|split; [done|apply in_turn_refl]].
    pose proof (ok_threads s (proj1 Hs) i r Hi) as Ht.
    destruct (rq_phase r) eqn:Hr; try (split; [done|apply in_turn_refl]).
    + apply (leave_queue_spec i (λ r, r <| rq_phase := Left |>) (sl_value s) s r); (apply Hs || done || by resume_case r).
    + apply (leave_queue_spec i (λ _, MkRequest Working Submitted) (sl_value s) s r); (apply Hs || done || by resume_case r).
    + apply (leave_queue_spec i (λ r, r <| rq_phase := Left |>) (S (sl_value s)) s r); (apply Hs || done || by resume_case r).
    + apply (finish_spec i s r Hs Hi); resume_case r.
  - apply Hturn. unfold cancel, phase_of. destruct (sl_requests s !! i) as [r|] eqn:Hi; [|split; [done|apply in_turn_refl]].
    pose proof (ok_threads s (proj1 Hs) i r Hi) as Ht.
    destruct (rq_phase r) eqn:Hr; try (split; [done|apply in_turn_refl]).
    + apply (update_spec i (λ r, r <| rq_phase := Refused |>) (sl_abandoned s) s r Hs Hi); resume_case r.
    + apply (update_spec i (λ r, r <| rq_phase := WokenCancelled |>) (sl_abandoned s) s r Hs Hi); resume_case r.
    + apply (update_spec i (λ r, r <| rq_phase := Draining |>) (sl_abandoned s) s r Hs Hi); resume_case r.
    + apply (update_spec i (λ r, MkRequest Abandoned (withdraw (rq_thread r))) (S (sl_abandoned s)) s r Hs Hi); resume_case r.
  - apply Hturn. pose proof (ok_threads s (proj1 Hs) i r Hi) as Ht.
    apply (update_spec i (λ r, r <| rq_thread := Running |>) (sl_abandoned s) s r Hs Hi); resume_case r.
  - apply Hturn. pose proof (ok_threads s (proj1 Hs) i r Hi) as Ht.
    apply (update_spec i (λ r, r <| rq_thread := Ended |>) (sl_abandoned s) s r Hs Hi); resume_case r.
  - apply Hturn. apply (finish_spec i s r Hs Hi); destruct Hph; resume_case r.
Qed.

Lemma sound_reachable s : rtc slot_step new_slots s → sound s.
Proof.
  revert s. apply rtc_ind_r.
  - split; [|left; by right]. split; [done|constructor| | |done].
    + intros i. unfold phase_of. cbn. rewrite lookup_nil. split; [by intros ?%elem_of_nil|done].
    + intros i r. cbn. by rewrite lookup_nil.
  - intros s s' _ Hstep Hs. by eapply slot_step_spec.
Qed.

Lemma hashing_bound s : slots_ok s → (hashing s <= holders s + count loose s)%nat.
Proof.
  intros [_ _ _ Ht _]. unfold hashing, holders, count. assert (Forall (λ r, thread_ok r = true) (sl_requests s)) as H
    by (apply Forall_lookup; eauto). clear Ht.
  induction H as [|[p t] l Hr _ IH]; [done|]. destruct p, t; cbn in *; (discriminate || lia).
Qed.

(** C39 (accounts: password slots). In every history of requests, however they
    are cancelled: no slot is lost or made up; at most four threads hash, and
    one more for each request cancelled a second time, for only such a request
    gives its slot back before its thread has ended; nobody waits while a slot
    is free, but for the moment before a woken request resumes; and no later
    request is given a slot before an earlier one that goes on waiting. *)
Theorem password_slots s : rtc slot_step new_slots s →
  (sl_value s + holders s)%nat = PASSWORD_SLOTS ∧
  (hashing s <= PASSWORD_SLOTS + sl_abandoned s)%nat ∧
  (∀ i r, sl_requests s !! i = Some r → rq_thread r = Running →
     rq_phase r = Working ∨ rq_phase r = Draining ∨ (0 < sl_abandoned s)%nat) ∧
  (∀ i, phase_of s i = Waiting →
     holders s = PASSWORD_SLOTS ∨ ∃ j, phase_of s j = Woken ∨ phase_of s j = WokenCancelled) ∧
  (∀ s' i j, slot_step s s' → (j < i)%nat → phase_of s j = Waiting → phase_of s' j = Waiting →
     holds (phase_of s' i) = true → holds (phase_of s i) = true).
Proof.
  intros Hs%sound_reachable. pose proof Hs as [Hok Hsv]. pose proof (hashing_bound s Hok). destruct Hok as [Hsum _ _ Ht Hl].
  split_and!; [done|lia| | |].
  - intros i r Hi Hr. assert (loose r = true → (0 < count loose s)%nat) as Hloose.
    { intros Hlo. unfold count. assert (r ∈ List.filter loose (sl_requests s)) as Hin.
      { apply list_elem_of_In, List.filter_In. split; [apply list_elem_of_In, list_elem_of_lookup; eauto|done]. }
      destruct (List.filter _ _); [by apply elem_of_nil in Hin|cbn; lia]. }
    apply Ht in Hi. unfold thread_ok, loose in *. rewrite Hr in *. destruct (rq_phase r); auto; try discriminate;
      right; right; specialize (Hloose eq_refl); lia.
  - intros i Hi. destruct Hsv as [[Hz|Hn]|Hst]; [left; lia|by apply Hn in Hi|by right].
  - intros s' i j Hstep. by apply (slot_step_spec s s' Hs Hstep).
Qed.

(** ** Five threads

    Five requests; the first is cancelled twice while its thread runs. *)

Lemma run_thread i s r : sl_requests s !! i = Some r → rq_thread r = Submitted →
  rtc slot_step s (set_thread i Running s).
Proof. intros Hi Hr. apply rtc_once. by eapply step_run. Qed.

Definition crowd : slots := Nat.iter 5 begin_work new_slots.
Definition hashing_crowd : slots := fold_left (λ s i, set_thread i Running s) [0; 1; 2; 3]%nat crowd.
Definition fifth_admitted : slots := set_thread 4 Running (resume 4 (resume 0 (cancel 0 (cancel 0 hashing_crowd)))).

Lemma fifth_reached : rtc slot_step new_slots fifth_admitted.
Proof.
  transitivity crowd; [do 5 (eapply rtc_l; [apply step_begin|]); reflexivity|].
  etransitivity; [eapply (run_thread 0); reflexivity|]. etransitivity; [eapply (run_thread 1); reflexivity|].
  etransitivity; [eapply (run_thread 2); reflexivity|]. etransitivity; [eapply (run_thread 3); reflexivity|].
  eapply rtc_l; [apply (step_cancel _ 0)|]. eapply rtc_l; [apply (step_cancel _ 0)|].
  eapply rtc_l; [apply (step_resume _ 0)|]. eapply rtc_l; [apply (step_resume _ 4)|].
  etransitivity; [eapply (run_thread 4); reflexivity|]. reflexivity.
Qed.

(** A slot does not always outlive its thread: five threads hash at once. *)
Lemma second_cancellation_admits_a_fifth :
  rtc slot_step new_slots fifth_admitted ∧ hashing fifth_admitted = 5%nat ∧ sl_abandoned fifth_admitted = 1%nat.
Proof. split; [apply fifth_reached|]. split; vm_compute; reflexivity. Qed.

Lemma password_slots_witness :
  hashing fifth_admitted = 5%nat ∧ (hashing fifth_admitted <= PASSWORD_SLOTS + sl_abandoned fifth_admitted)%nat.
Proof. split; [vm_compute; reflexivity|]. exact (proj1 (proj2 (password_slots fifth_admitted fifth_reached))). Defined.
