(* ===== verification/WebApi.v ===== *)
(** * The routes that guard accounts and watches
    ([backend/api/dependencies.py], [client_identity.py], [routes/auth.py],
    [routes/watches.py], the prompt throttle of [main.py])

    A route is a program over the calls of [Accounts]; the framework's parsing
    of requests and rendering of responses is not modelled, an
    [HTTPException] is the exception.  A throttle or a projection that is not
    configured is [false] in the application's state. *)

From S2P Require Import Prelude Calendar Reservation Watch Prog Settings Url Accounts Address.

Record app_state := MkApp {
  app_auth_service : bool;
  app_watch_history : bool;
  app_login_throttle : bool;
  app_login_ip_throttle : bool;
  app_prompt_throttle : bool;
}.

(** ** Identities *)

(** [extract_client_id]: [^[A-Za-z0-9_-]{1,200}$] after stripping *)
Definition client_id_char (c : ascii) : bool := is_alnum c || is_char "_" c || is_char "-" c.
Definition extract_client_id (raw : option string) : option string :=
  match raw with
  | None => None
  | Some raw =>
      let candidate := strip raw in
      if nonempty candidate && (strlen candidate <=? 200) && forallb client_id_char (chars candidate)
      then Some candidate else None
  end.

(** [authorization[7:].strip() or None] after ["bearer "] *)
Definition bearer_token (authorization : option string) : option string :=
  match authorization with
  | Some authorization =>
      if bool_decide (take 7 (chars (lower authorization)) = chars "bearer ") then
        let token := strip (of_chars (drop 7 (chars authorization))) in
        if nonempty token then Some token else None
      else None
  | None => None
  end.

Definition throttle_key (identity : string) (origin : option string) : string :=
  lower (strip identity) +:+ "|" +:+
  match origin with Some o => if nonempty o then o else "-" | None => "-" end.
Definition login_email_key (email : string) : string := "email:" +:+ lower (strip email).
Definition login_ip_key (peer : option string) : string :=
  "ip:" +:+ match peer with Some p => if nonempty p then p else "-" | None => "-" end.

(** [Credentials(...)] *)
Definition credentials_ok (email password : string) : bool :=
  let within maximum s := (1 <=? strlen s) && (strlen s <=? maximum) in within 320 email && within 1024 password.

(** The flag [_warned_about_proxy] of the process, and the peer warned about. *)
Definition _warn_untrusted_proxy_once (peer : option string) (_warned_about_proxy : bool) : option (option string) * bool :=
  if _warned_about_proxy then (None, true) else (Some peer, true).

Section routes.
Context (sha256hex : string → string) (dummy_hash : string) (settings : AccountSettings).
Context (today : Z → Z).        (* the ordinal of the local date of an instant *)
Context (app : app_state).

(** ** [dependencies.py] *)

Definition current_user (authorization : option string) : A (option User) :=
  if negb (app_auth_service app) then Ret None
  else authenticate sha256hex (bearer_token authorization).

Definition require_user (user : option User) : A User :=
  match user with None => fail AuthenticationRequiredError | Some user => Ret user end.

(** ** [routes/watches.py] *)

Definition unknown_watch {B} (watch_id : string) : A B :=
  fail (HTTPException 404 ("Unknown watch: " +:+ watch_id)).

Definition _forbid_if_owned_by_another_account (watch_id : string) (user : option User) : A () :=
  if negb (app_watch_history app) then Ret () else
  account_owner ← ask (AccountOwner watch_id);
  match account_owner with
  | Some owner =>
      if match user with None => true | Some u => negb (bool_decide (owner = us_id u)) end
      then unknown_watch watch_id else Ret ()
  | None => Ret ()
  end.

Definition found (watch_id : string) (watch : option Watch) : A Watch :=
  match watch with None => unknown_watch watch_id | Some watch => Ret watch end.

Definition read_watch (watch_id : string) (authorization : option string) : A Watch :=
  user ← current_user authorization;
  _ ← _forbid_if_owned_by_another_account watch_id user;
  watch ← ask (ServiceGet watch_id);
  found watch_id watch.

Definition cancel_watch (watch_id : string) (authorization : option string) : A Watch :=
  user ← current_user authorization;
  _ ← _forbid_if_owned_by_another_account watch_id user;
  watch ← ask (ServiceCancel watch_id);
  found watch_id watch.

Definition list_my_watches (authorization client_id : option string) : A (list Watch) :=
  user ← current_user authorization;
  if negb (app_watch_history app) then Ret [] else
  match user with
  | Some user => ask (ListForUser (us_id user))
  | None =>
      match extract_client_id client_id with
      | None => Ret []
      | Some owner_client_id => ask (ListForOwner owner_client_id)
      end
  end.

Definition create_watch (query : AvailabilityQuery) (auto_book : bool)
    (authorization client_id : option string) : A Watch :=
  user ← current_user authorization;
  now ← ask AuthNow;
  match date_fromisoformat (q_date query) with
  | None => fail (AuthOther "ValueError")
  | Some d =>
      if toordinal d <? today now then
        fail (HTTPException 422 ("Cannot watch a reservation date in the past: " +:+ q_date query))
      else ask (ServiceCreate query auto_book (extract_client_id client_id) (us_id <$> user))
  end.

(** ** [routes/auth.py] *)

Definition _claim_anonymous_watches (user : User) (client_id : option string) : A () :=
  match extract_client_id client_id with
  | Some client_id =>
      if app_watch_history app then
        try_except (ask (ClaimAnonymous client_id (us_id user)))
          (λ x, if auth_is_exception x then Some (Ret ()) else None)
      else Ret ()
  | None => Ret ()
  end.

Definition signup_route (email password : string) (client_id : option string) : A (User * string) :=
  r ← signup sha256hex settings email password;
  _ ← _claim_anonymous_watches r.1 client_id;
  Ret r.

(** [await throttle.aconsume(key) if throttle else None] *)
Definition consume_if (on : bool) (l : limiter) (key : string) : A (option string) :=
  if on then ask (Consume l key) else Ret None.
Definition release_if (on : bool) (l : limiter) (key : string) (token : option string) : A () :=
  if on then ask (Release l key token) else Ret ().

Definition login_route (email password : string) (peer client_id : option string) : A (User * string) :=
  let email_key := login_email_key email in
  let ip_key := login_ip_key peer in
  let email_on := app_login_throttle app in
  let ip_on := app_login_ip_throttle app && negb (is_internal_address peer) in
  email_token ← consume_if email_on EmailThrottle email_key;
  ip_token ← try_except (consume_if ip_on IpThrottle ip_key)
    (λ x, Some (_ ← release_if email_on EmailThrottle email_key email_token; fail x));
  r ← try_except (login sha256hex dummy_hash settings email password)
    (λ x, match x with
          | InvalidCredentialsError => None
          | x => Some (_ ← release_if email_on EmailThrottle email_key email_token;
                       _ ← release_if ip_on IpThrottle ip_key ip_token;
                       fail x)
          end);
  _ ← (if email_on then ask (Forget EmailThrottle email_key) else Ret ());
  _ ← release_if ip_on IpThrottle ip_key ip_token;
  _ ← _claim_anonymous_watches r.1 client_id;
  Ret r.

Definition logout_route (authorization : option string) : A () :=
  match bearer_token authorization with
  | Some token => logout sha256hex token
  | None => Ret ()
  end.

Definition me (authorization : option string) : A User :=
  user ← authenticate sha256hex (bearer_token authorization);
  require_user user.

(** ** [main.py] *)

Definition _enforce_prompt_throttle (peer client_id origin : option string) : A () :=
  if negb (app_prompt_throttle app) then Ret () else
  let identity := default (default "-" peer) (extract_client_id client_id) in
  _ ← ask (Consume PromptThrottle (throttle_key identity origin));
  Ret ().
End routes.
