(* ===== verification/WebTheorems.v ===== *)
(** * The routes: theorems

    An account's watch is neither shown nor cancelled without a live session of the
    account, whatever other clients do meanwhile; a password guess is counted
    before it is checked and stays counted when it fails. *)
From S2P Require Import Prelude Dict Prog Calendar Reservation Watch WatchStore.
From S2P Require Import WatchStoreTheorems RedisServer WatchScripts RedisModel RedisExamples.
From S2P Require Import Projection Url Settings Accounts Address AccountTheorems WebApi.

(** ** Privacy *)

Section privacy.
Context `{DocumentLaws} (sha256hex : string → string) (app : app_state).
Context (watch_id owner : string) (authorization : option string).

(** The projection and the account tables, as one database, and the time. *)
Record web_db := MkWebDb { wd_history : dict history_row; wd_accounts : accounts_db; wd_now : Z }.

(** A failure of the database, of a service or of the task. *)
Definition infrastructure (x : auth_exn) : Prop :=
  match x with AuthOther _ | AuthCancelled => True | _ => False end.

(** What the database and the clock answer; any call may fail, and any other
    call may answer anything and leaves the tables alone. *)
Definition web_serves (c : auth_call) (s : web_db) (r : outcome auth_exn (auth_answer c)) (s' : web_db) : Prop :=
  s' = s ∧
  match r with
  | Exc x => infrastructure x
  | Ok a =>
      match c return auth_answer c → Prop with
      | AuthNow => λ a, a = wd_now s
      | GetByTokenHash h => λ a, a = get_by_token_hash h (wd_accounts s)
      | GetById id => λ a, a = get_by_id id (wd_accounts s)
      | AccountOwner id => λ a, a = get_account_owner id (wd_history s)
      | _ => λ _, True
      end a
  end.

(** The session does not authenticate the owner now: it is another account's,
    or it has expired. *)
Definition powerless (session : Session) (now : Z) : Prop :=
  se_user_id session = owner → se_expires_at session <= now.

(** What everyone else may do between two calls: write the projection, but no
    statement names another account for this watch; sign up; open sessions,
    but no live one of the owner under the presented token; revoke sessions;
    let time pass. *)
Inductive web_interferes (s : web_db) : web_db → Prop :=
| wi_deliver d :
    match d with
    | Deliver w _ user _ => w_watch_id w = watch_id → user = None ∨ user = Some owner
    | ClaimAll _ _ => True
    end →
    web_interferes s (MkWebDb (deliver (wd_history s) d) (wd_accounts s) (wd_now s))
| wi_signup id now email password_hash :
    web_interferes s
      (MkWebDb (wd_history s) (create_user id now email password_hash (wd_accounts s)).2 (wd_now s))
| wi_session session :
    (∀ token, bearer_token authorization = Some token → se_token_hash session = sha256hex token →
       powerless session (wd_now s)) →
    web_interferes s (MkWebDb (wd_history s) (create_session session (wd_accounts s)).2 (wd_now s))
| wi_revoke h : web_interferes s (MkWebDb (wd_history s) (revoke h (wd_accounts s)) (wd_now s))
| wi_time now : wd_now s <= now → web_interferes s (MkWebDb (wd_history s) (wd_accounts s) now).

(** The watch belongs to the account, and the presented token is no live
    session of it: there may be one that has expired. *)
Record guarded (s : web_db) : Prop := MkGuarded {
  gd_owner : get_account_owner watch_id (wd_history s) = Some owner;
  gd_sessions token session : bearer_token authorization = Some token →
    get_by_token_hash (sha256hex token) (wd_accounts s) = Some session → powerless session (wd_now s);
  gd_ids id user : get_by_id id (wd_accounts s) = Some user → us_id user = id;
}.

Lemma powerless_later session now now' : now <= now' → powerless session now → powerless session now'.
Proof. unfold powerless. intros Hle Hp He. specialize (Hp He). lia. Qed.

Lemma interferes_later s s' : web_interferes s s' → wd_now s <= wd_now s'.
Proof. destruct 1; cbn; lia. Qed.

Lemma interferes_guarded s s' : guarded s → web_interferes s s' → guarded s'.
Proof.
  intros [Ho Hs Hi] []; split; cbn; try done.
  - apply (owner_kept watch_id owner (wd_history s) [d]); [done|].
    intros w o u' n Hin Hw. apply list_elem_of_singleton in Hin as <-. auto.
  - intros token session Ht Hg. apply (Hs token session Ht). revert Hg.
    unfold create_user. by case_match.
  - unfold create_user, get_by_id. case_match; [done|]. cbn. intros id' user.
    rewrite dict_lookup_insert. case_decide as E; [|apply Hi]. subst id'. by intros [= <-].
  - intros token session' Ht. unfold create_session, get_by_token_hash. case_match; [by apply Hs|]. cbn.
    rewrite dict_lookup_insert. case_decide as E; [|by apply Hs]. intros [= <-]. by eapply H1.
  - intros id user. unfold create_session. case_match; apply Hi.
  - intros token session Ht. unfold get_by_token_hash, revoke. cbn. rewrite dict_lookup_delete.
    case_decide; [done|]. by apply Hs.
  - intros token session Ht Hg. eapply powerless_later; [done|]. by eapply Hs.
Qed.

(** What the routes may do: look up the presented token and no other, load no
    owner, and ask the service for nothing.  The monitor remembers the session
    the token opened. *)
Definition private_ok (c : auth_call) : Prop :=
  match c with
  | GetByTokenHash h => ∃ token, bearer_token authorization = Some token ∧ h = sha256hex token
  | GetById id => id ≠ owner
  | ServiceGet _ | ServiceCancel _ => False
  | _ => True
  end.

(** What they may rely on: the clock does not run before the expiry of a
    powerless session. *)
Definition private_rely (opened : option Session) (c : auth_call)
    (r : outcome auth_exn (auth_answer c)) : Prop :=
  match r with
  | Exc x => infrastructure x
  | Ok a =>
      match c return auth_answer c → Prop with
      | AuthNow => λ now, ∀ session, opened = Some session → powerless session now
      | GetById id => λ a, ∀ user, a = Some user → us_id user = id
      | AccountOwner id => λ a, id = watch_id → a = Some owner
      | _ => λ _, True
      end a
  end.

Definition private_next (opened : option Session) (c : auth_call)
    : outcome auth_exn (auth_answer c) → option Session :=
  match c with
  | GetByTokenHash _ => λ r, match r with Ok session => session | Exc _ => opened end
  | _ => λ _, opened
  end.

Definition private : monitor auth_calls :=
  Monitor (Σ := auth_calls) (option Session) (λ _, private_ok) private_rely private_next.

Definition denied (out : outcome auth_exn Watch) (_ : option Session) : Prop :=
  match out with
  | Ok _ => False
  | Exc x => x = HTTPException 404 ("Unknown watch: " +:+ watch_id) ∨ infrastructure x
  end.

Lemma safe_ask {C} σ (c : auth_call) (f : auth_answer c → A C) Q :
  private_ok c →
  (∀ a, private_rely σ c (Ok a) → safe private (private_next σ c (Ok a)) (f a) Q) →
  (∀ x σ', infrastructure x → Q (Exc x) σ') → safe private σ (ask c ≫= f) Q.
Proof.
  intros Hc Hf Hx. apply (safe_call_bind private σ c); [done|exact Hf|]. intros x. apply Hx.
Qed.

Lemma safe_current_user {C} (f : option User → A C) Q :
  (∀ user σ, (∀ u, user = Some u → us_id u ≠ owner) → safe private σ (f user) Q) →
  (∀ x σ, infrastructure x → Q (Exc x) σ) →
  safe private None (current_user sha256hex app authorization ≫= f) Q.
Proof.
  intros Hf Hx. unfold current_user. destruct (app_auth_service app); [|by apply Hf].
  cbn [negb]. unfold authenticate. destruct (bearer_token authorization) as [token|] eqn:Et; [|by apply Hf].
  destruct (nonempty token); [|by apply Hf]. cbn [negb].
  apply (safe_bind private), safe_ask; [by exists token| |done]. intros [session|] _; [|by apply Hf].
  apply safe_ask; [done| |done]. intros now Hnow. cbn in Hnow. specialize (Hnow session eq_refl).
  destruct (Z.leb_spec (se_expires_at session) now) as [|Hlive]; [by apply Hf|].
  assert (se_user_id session ≠ owner) as Hne by (intros He; specialize (Hnow He); lia).
  apply (safe_perform private); [done|]. intros [user|x] Hr; [|by apply Hx]. apply Hf.
  intros u ->. by rewrite (Hr u eq_refl).
Qed.

Lemma safe_route (act : A (option Watch)) :
  app_watch_history app = true →
  safe private None
    (user ← current_user sha256hex app authorization;
     _ ← _forbid_if_owned_by_another_account app watch_id user;
     watch ← act;
     found watch_id watch) denied.
Proof.
  intros Hh. apply safe_current_user; [|by right]. intros user σ Hu.
  unfold _forbid_if_owned_by_another_account. rewrite Hh. cbn [negb].
  apply (safe_bind private), safe_ask; [done| |by right]. intros a Ha. rewrite (Ha eq_refl).
  destruct user as [u|]; cbn; [|by left].
  specialize (Hu u eq_refl). rewrite bool_decide_eq_false_2 by done. by left.
Qed.

(** The database answers as the routes rely on. *)
Lemma private_served σ c t r t' :
  guarded t ∧ (∀ session, σ = Some session → powerless session (wd_now t)) →
  private_ok c → web_serves c t r t' →
  private_rely σ c r ∧ guarded t' ∧
    (∀ session, private_next σ c r = Some session → powerless session (wd_now t')).
Proof.
  intros [Hg Hσ] Hok [-> Hr]. destruct r as [a|x].
  - destruct Hg as [Ho Hse Hid]. destruct c; cbn in Hok, Hr |- *; try (split; [exact I|done]).
    + subst a. split; [exact Hσ|done].
    + subst a. split; [intros user; apply Hid|done].
    + destruct Hok as (token & Ht & ->). subst a. split; [exact I|]. split; [done|].
      intros session. by apply Hse.
    + subst a. split; [by intros ->|done].
  - split; [exact Hr|]. split; [done|]. destruct c; exact Hσ.
Qed.

(** C23 (routes: privacy). A watch of an account is neither read nor cancelled by
    a request without a live session of that account - one with no token, with
    the token of another account, or with a token of the account whose session
    has expired, also if it expires only now -, however its calls are
    interleaved with those of other clients and the passing of time: the
    service is never asked, the account is not even loaded, and the answer is
    the one for a watch that does not exist, unless the database fails. *)
Theorem account_watch_is_private (p p' : A Watch) s s' :
  app_watch_history app = true → guarded s →
  p = read_watch sha256hex app watch_id authorization ∨
    p = cancel_watch sha256hex app watch_id authorization →
  rtc (pstep (Σ := auth_calls) web_serves web_interferes) (p, s) (p', s') →
  guarded s' ∧ (∀ w, p' ≠ Ret w) ∧
  (∀ c k, p' = Call (Σ := auth_calls) c k →
     match c with
     | ServiceGet _ | ServiceCancel _ => False
     | GetById id => id ≠ owner
     | GetByTokenHash h => ∃ token, bearer_token authorization = Some token ∧ h = sha256hex token
     | _ => True
     end) ∧
  (∀ x, p' = Raise x → x = HTTPException 404 ("Unknown watch: " +:+ watch_id) ∨ infrastructure x).
Proof.
  intros Hh Hg Hp Hst.
  assert (safe private None p denied) as Hsafe by (destruct Hp as [->| ->]; by apply safe_route).
  destruct (safe_pstep private web_serves web_interferes
    (λ σ t, guarded t ∧ ∀ session, σ = Some session → powerless session (wd_now t))
    p p' None denied s s') as (σ & [Hg' _] & Hs').
  - intros σ c t r t' Hgt Hok Hr. by eapply private_served.
  - intros σ t t' [Hgt Hσ] Hi. split; [by eapply interferes_guarded|]. intros session He.
    eapply powerless_later; [by apply interferes_later|by apply Hσ].
  - exact Hst.
  - by split.
  - exact Hsafe.
  - split; [exact Hg'|]. split; [|split].
    + intros w ->. exact Hs'.
    + intros c k ->. apply Hs'.
    + intros x ->. exact Hs'.
Qed.
End privacy.

(** ** Login guesses *)

Section guesses.
Context (sha256hex : string → string) (dummy_hash : string) (settings : AccountSettings).
Context (app : app_state).
Context (email password : string) (peer client_id : option string).

Local Abbreviation email_key := (login_email_key email).
Local Abbreviation ip_key := (login_ip_key peer).
Definition ip_limited : bool := app_login_ip_throttle app && negb (is_internal_address peer).

(** Both limits that apply have been charged. *)
Definition charged (t : list auth_event) : Prop :=
  (∃ token, Ans (Consume EmailThrottle email_key) (Ok token) ∈ t) ∧
  (ip_limited = true → ∃ token, Ans (Consume IpThrottle ip_key) (Ok token) ∈ t).

Definition verifying (c : auth_call) : Prop := match c with Argon2Verify _ _ => True | _ => False end.
Definition giving_back (c : auth_call) : Prop :=
  match c with Release _ _ _ | Forget _ _ => True | _ => False end.

(** Every call in [P] comes after a prefix that satisfies [Q]. *)
Definition only_after (P : auth_call → Prop) (Q : list auth_event → Prop) (t : list auth_event) : Prop :=
  ∀ t1 c r t2, t = t1 ++ Ans c r :: t2 → P c → Q t1.

Definition never (P : auth_call → Prop) (t : list auth_event) : Prop := ∀ c r, Ans c r ∈ t → ¬ P c.

Lemma never_nil P : never P [].
Proof. intros c r []%not_elem_of_nil. Qed.

Lemma never_cons P c r t : ¬ P c → never P t → never P (Ans c r :: t).
Proof.
  intros Hc Ht c' r' [He|Hin]%elem_of_cons; [|by eapply Ht]. by injection He as -> _.
Qed.

Lemma never_app P t1 t2 : never P t1 → never P t2 → never P (t1 ++ t2).
Proof. intros H1 H2 c r [|]%elem_of_app; [by eapply H1|by eapply H2]. Qed.

Lemma only_after_never P Q t : never P t → only_after P Q t.
Proof. intros Ht t1 c r t2 -> Hc. exfalso. eapply (Ht c r); [|done]. set_solver. Qed.

(** Calls after a prefix without any. *)
Lemma only_after_app P (Q : list auth_event → Prop) t1 t2 :
  never P t1 → (∀ t, Q (t1 ++ t)) → only_after P Q (t1 ++ t2).
Proof.
  intros H1 HQ s1 c r s2 Heq Hc. destruct (app_eq_app _ _ _ _ Heq) as (l & [[E1 E2]|[E1 E2]]).
  - destruct l as [|e l].
    + rewrite app_nil_r in E1. subst s1. specialize (HQ []). by rewrite app_nil_r in HQ.
    + injection E2 as <- _. exfalso. eapply (H1 c r); [|done]. rewrite E1. set_solver.
  - subst s1. apply HQ.
Qed.

(** A program all of whose calls satisfy [P]. *)
Lemma never_runs {B} (P : auth_call → Prop) (p : A B) t out :
  safe (tracing (Σ := auth_calls) (λ _ c, ¬ P c)) [] p (λ _ _, True) → runs p t out → never P t.
Proof.
  intros Hs Hr. destruct (tracing_runs _ _ _ _ _ Hs Hr) as [Hok _].
  intros c r Hin. apply list_elem_of_split in Hin as (t1 & t2 & ->). by eapply Hok.
Qed.

Ltac next_call := split; [by intros []|intros [?|?] _; cbn; try exact I].

Lemma login_never_gives_back t out :
  runs (login sha256hex dummy_hash settings email password) t out → never giving_back t.
Proof.
  apply never_runs. unfold login, _normalize_email. cbn zeta. destruct (_EMAIL_RE _); [|exact I]. cbn.
  next_call. destruct a as [stored|]; cbn.
  - next_call; [destruct a|destruct x]; cbn; try exact I. do 3 next_call.
  - next_call. destruct x; cbn; exact I.
Qed.

Lemma claim_runs user t out :
  runs (_claim_anonymous_watches app user client_id) t out →
  never verifying t ∧ never giving_back t ∧ (∀ x, out = Exc x → failed out t).
Proof.
  intros Hr. split_and!; [revert Hr; apply never_runs|revert Hr; apply never_runs|];
    unfold _claim_anonymous_watches in *.
  1,2: destruct (extract_client_id client_id); [|exact I]; destruct (app_watch_history app); [|exact I];
       next_call; destruct (auth_is_exception x); exact I.
  intros x ->. destruct (extract_client_id client_id) as [c|]; [|by apply (runs_ret_inv (Σ := auth_calls)) in Hr as [_ ?]].
  destruct (app_watch_history app); [|by apply (runs_ret_inv (Σ := auth_calls)) in Hr as [_ ?]].
  apply runs_try_inv in Hr as [(a & ? & _)|[(y & _ & [= <-] & H1)|(y & q & s1 & s2 & Ey & -> & H1 & H2)]]; [done|..].
  - apply (runs_ask (ClaimAnonymous _ _)) in H1 as ->. apply (failed_last []).
  - destruct (auth_is_exception y); [|done]. injection Ey as <-. by apply (runs_ret_inv (Σ := auth_calls)) in H2 as [_ ?].
Qed.

Context (Hon : app_login_throttle app = true).

(** The address limit, when it applies: charged, or its refusal is the outcome
    and the address reservation is given back. *)
Lemma consume_ip_runs token t out :
  runs (try_except (consume_if ip_limited IpThrottle ip_key)
    (λ x, Some (_ ← release_if (app_login_throttle app) EmailThrottle email_key token; fail x))) t out →
  (∃ ip_token, out = Ok ip_token ∧ never verifying t ∧ never giving_back t ∧
     (ip_limited = true → Ans (Consume IpThrottle ip_key) (Ok ip_token) ∈ t)) ∨
  (failed out t ∧ never verifying t ∧ ∃ r, Ans (Release EmailThrottle email_key token) r ∈ t).
Proof.
  rewrite Hon. unfold consume_if. destruct ip_limited; cbn.
  2:{ intros [-> ->]%(runs_ret_inv (Σ := auth_calls)). left. exists None. split_and!; try done; apply never_nil. }
  intros (r & t' & -> & H)%(runs_call_inv (Σ := auth_calls)). destruct r as [tok|x]; cbn in H.
  { apply (runs_ret_inv (Σ := auth_calls)) in H as [-> ->]. left. exists tok.
    split_and!; [done|..]; try (apply never_cons; [by intros []|apply never_nil]). intros _. by left. }
  apply (runs_call_inv (Σ := auth_calls)) in H as (r & t2 & -> & H). right.
  assert (t2 = [] ∧ failed out (Ans (Consume IpThrottle ip_key) (Exc x) ::
    Ans (Release EmailThrottle email_key token) r :: t2)) as [-> Hf].
  { destruct r as [[]|y]; cbn in H; apply (runs_raise_inv (Σ := auth_calls)) in H as [-> ->]; (split; [done|]).
    - eexists _, x. split; [by left|done].
    - eexists _, y. split; [right; by left|done]. }
  split; [done|]. split; [do 2 (apply never_cons; [by intros []|]); apply never_nil|].
  exists r. right. by left.
Qed.

(** Giving both reservations back. *)
Lemma release_runs x email_token ip_token t (out : outcome auth_exn (User * string)) :
  runs (_ ← release_if (app_login_throttle app) EmailThrottle email_key email_token;
        _ ← release_if ip_limited IpThrottle ip_key ip_token; fail x) t out →
  never verifying t ∧ (∃ r, Ans (Release EmailThrottle email_key email_token) r ∈ t) ∧
  (out = Exc x ∨ failed out t).
Proof.
  rewrite Hon. cbn. intros (r & t' & -> & H)%(runs_call_inv (Σ := auth_calls)).
  destruct r as [[]|y]; cbn in H.
  2:{ apply (runs_raise_inv (Σ := auth_calls)) in H as [-> ->].
      split; [apply never_cons; [by intros []|apply never_nil]|]. split; [eexists; by left|]. right. apply (failed_last []). }
  destruct ip_limited; cbn in H.
  - apply (runs_call_inv (Σ := auth_calls)) in H as (r & t2 & -> & H).
    destruct r as [[]|y]; cbn in H; apply (runs_raise_inv (Σ := auth_calls)) in H as [-> ->];
      (split; [do 2 (apply never_cons; [by intros []|]); apply never_nil|]); (split; [eexists; by left|]).
    + by left.
    + right. apply (failed_last [_]).
  - apply (runs_raise_inv (Σ := auth_calls)) in H as [-> ->].
    split; [apply never_cons; [by intros []|apply never_nil]|]. split; [eexists; by left|]. by left.
Qed.

Lemma charged_app ip_token email_token t1 t2 :
  (ip_limited = true → Ans (Consume IpThrottle ip_key) (Ok ip_token) ∈ t1) →
  charged ((Ans (Consume EmailThrottle email_key) (Ok email_token) :: t1) ++ t2).
Proof.
  intros Hip. split; [eexists; by left|]. intros Hl. exists ip_token.
  apply elem_of_app. left. right. by apply Hip.
Qed.

(** After the password was accepted. *)
Lemma after_login_runs ip_token (user : User) (token : string) t (out : outcome auth_exn (User * string)) :
  runs (_ ← (if app_login_throttle app then ask (Forget EmailThrottle email_key) else Ret ());
        _ ← release_if ip_limited IpThrottle ip_key ip_token;
        _ ← _claim_anonymous_watches app user client_id;
        Ret (user, token)) t out →
  (∃ r, Ans (Forget EmailThrottle email_key) r ∈ t ∧ ((∃ u, out = Ok u) → ∃ a, r = Ok a)) ∧
  (∀ x, out = Exc x → failed out t).
Proof.
  rewrite Hon. intros [(a & t1 & -> & H)|(x & -> & ->)]%runs_ask_bind.
  2:{ split; [|intros y _; apply (failed_last [])]. eexists. split; [by left|]. by intros (? & ?). }
  split; [exists (Ok a); split; [by left|eauto]|]. intros x ->. apply failed_cons.
  apply runs_bind_inv in H as [([] & t2 & t3 & -> & H1 & H)|(y & H1 & [= <-])].
  - apply runs_bind_inv in H as [([] & t4 & t5 & -> & H2 & H)|(y & H2 & [= <-])].
    + by apply (runs_ret_inv (Σ := auth_calls)) in H as [_ ?].
    + apply claim_runs in H2 as (_ & _ & Hf). destruct (Hf x eq_refl) as (c & z & Hin & [= <-]).
      exists c, x. split; [set_solver|done].
  - unfold release_if in H1. destruct ip_limited; [|by apply (runs_ret_inv (Σ := auth_calls)) in H1 as [_ ?]].
    apply (runs_ask (Release _ _ _)) in H1 as ->. apply (failed_last []).
Qed.

Lemma failed_never {B} x (out : outcome auth_exn B) t :
  (∀ c, Ans c (Exc x) ∉ t) → failed out t → out ≠ Exc x.
Proof. intros Hn (c & y & Hin & ->) [= ->]. by eapply Hn. Qed.

(** C24 (routes: guesses are counted). With the login throttle on, a password is
    checked only after the attempt was charged to the address it is for and,
    when the peer is not internal, to the peer; a wrong password gives neither
    charge back; any other failure gives the address's charge back, and a
    success clears it. *)
Theorem login_route_counts_guesses t out :
  (∀ c, Ans c (Exc InvalidCredentialsError) ∉ t) →
  runs (login_route sha256hex dummy_hash settings app email password peer client_id) t out →
  only_after verifying charged t ∧
  match out with
  | Exc InvalidCredentialsError => charged t ∧ never giving_back t
  | Exc _ => ∀ token, Ans (Consume EmailThrottle email_key) (Ok token) ∈ t →
      (∃ token r, Ans (Release EmailThrottle email_key token) r ∈ t) ∨
      (∃ r, Ans (Forget EmailThrottle email_key) r ∈ t)
  | Ok _ => ∃ r, Ans (Forget EmailThrottle email_key) (Ok r) ∈ t
  end.
Proof.
  intros Hinv. unfold login_route. fold ip_limited. cbn zeta. rewrite Hon at 1. cbn [consume_if].
  intros [(email_token & t1 & -> & H)|(x & -> & ->)]%runs_ask_bind.
  2:{ split; [apply only_after_never, never_cons, never_nil; by intros []|].
      destruct x; try (intros token Hin; apply list_elem_of_singleton in Hin; by apply (f_equal answered) in Hin).
      exfalso. eapply Hinv. by left. }
  apply runs_bind_inv in H as [(ip_token & t2 & t3 & -> & H1 & H)|(x & H1 & ->)];
    apply consume_ip_runs in H1 as [(tok & Eo & Hv & Hg & Hip)|(Hf & Hv & r & Hr)].
  - injection Eo as <-. set (pre := Ans (Consume EmailThrottle email_key) (Ok email_token) :: t2).
    change (Ans (Consume EmailThrottle email_key) (Ok email_token) :: t2 ++ t3) with (pre ++ t3) in *.
    assert (∀ t, charged (pre ++ t)) as Hch by (intros t; by eapply charged_app).
    split; [apply only_after_app; [apply never_cons; [by intros []|done]|exact Hch]|].
    assert (∀ c, Ans c (Exc InvalidCredentialsError) ∉ t3) as Hinv3 by (intros c Hin; apply (Hinv c); set_solver).
    apply runs_bind_inv in H as [([user token] & t4 & t5 & -> & H1 & H)|(x & H1 & ->)];
      apply runs_try_inv in H1 as [(a & Ea & H1)|[(y & Ey & Eo & H1)|(y & q & s1 & s2 & Ey & -> & H1 & H2)]]; try done.
    + apply after_login_runs in H as [(r & Hin & Hok) Hf]. destruct out as [u|x].
      * destruct (Hok ltac:(eauto)) as (a' & ->). exists a'. set_solver.
      * assert (x ≠ InvalidCredentialsError) as Hx.
        { intros ->. refine (failed_never InvalidCredentialsError _ t5 _ (Hf _ eq_refl) eq_refl).
          intros c Hc. apply (Hinv3 c). set_solver. }
        destruct x; try done; intros _ _; right; exists r; set_solver.
    + destruct y; try done; injection Ey as <-; by apply release_runs in H2 as (_ & _ & [?|(? & ? & _ & ?)]).
    + destruct y; try done. injection Eo as ->. split; [apply Hch|]. apply never_app.
      * by apply never_cons; [intros []|].
      * by apply login_never_gives_back in H1.
    + assert (y ≠ InvalidCredentialsError ∧ q = (_ ← release_if (app_login_throttle app) EmailThrottle email_key email_token;
        _ ← release_if ip_limited IpThrottle ip_key ip_token; fail y)) as [Hy ->].
      { destruct y; try done; by injection Ey as <-. }
      apply release_runs in H2 as (_ & (r & Hin) & Hout).
      assert (x ≠ InvalidCredentialsError) as Hx.
      { destruct Hout as [[= ->]|Hf]; [done|]. intros ->.
        refine (failed_never InvalidCredentialsError _ s2 _ Hf eq_refl). intros c Hc. apply (Hinv3 c). set_solver. }
      destruct x; try done; intros _ _; left; exists email_token, r; set_solver.
  - by destruct Hf as (? & ? & _ & ?).
  - done.
  - split; [apply only_after_never, never_cons; [by intros []|done]|].
    destruct x; try (intros _ _; left; exists email_token, r; by right).
    destruct Hf as (c & y & Hin & [= <-]). exfalso. eapply Hinv. right. exact Hin.
Qed.
End guesses.

(** ** The routes on a small database

    One account, a live and an expired session, one watch of the account, in
    memory; requests with either token, with an unknown one and with none, and
    guesses at the password. *)

#[local] Instance demo_documents : Documents := model_documents demo_table.
#[local] Instance demo_document_laws : DocumentLaws := model_document_laws demo_table.

Definition demo_sha256 (s : string) : string := "sha256:" +:+ s.
Definition demo_app : app_state := MkApp true true true true true.
Definition demo_account_settings : AccountSettings := MkAccountSettings 3600 8 128 1 8192 1 10 300 50.

Definition demo_accounts : accounts_db :=
  MkDb (<["user-1" := MkStored "user-1" "a@b.ca" 0 "argon2:correct horse"]> ∅)%string
       (<["sha256:token-1" := MkSession "sha256:token-1" "user-1" 0 (seconds 3600)]>
         (<["sha256:token-8" := MkSession "sha256:token-8" "user-1" 0 (seconds 30)]> ∅))%string.
Definition demo_db : web_db :=
  MkWebDb (fold_left deliver [Deliver demo_watch (Some "client-1") (Some "user-1") 0]%string ∅) demo_accounts
    (seconds 60).

(** A server that never fails; argon2 accepts the text it was made of. *)
Definition demo_serve (c : auth_call) (s : web_db) : outcome auth_exn (auth_answer c) * web_db :=
  (match c return outcome auth_exn (auth_answer c) with
   | AuthNow => Ok (wd_now s)
   | TokenUrlsafe => Ok "token-2"%string
   | Argon2Hash password => Ok ("argon2:" +:+ password)
   | Argon2Verify encoded password =>
       if (encoded =? "argon2:" +:+ password)%string then Ok true else Exc VerifyMismatchError
   | CreateUser email password_hash =>
       match (create_user "user-2" 0 email password_hash (wd_accounts s)).1 with
       | Some u => Ok u
       | None => Exc DuplicateEmailError
       end
   | GetByEmail email => Ok (get_by_email email (wd_accounts s))
   | GetById id => Ok (get_by_id id (wd_accounts s))
   | CreateSession session => Ok session
   | GetByTokenHash h => Ok (get_by_token_hash h (wd_accounts s))
   | Consume _ _ => Ok (Some "reservation"%string)
   | AccountOwner id => Ok (get_account_owner id (wd_history s))
   | ServiceGet _ | ServiceCancel _ => Ok (Some demo_watch)
   | ServiceCreate _ _ _ _ => Ok demo_watch
   | ListForUser _ | ListForOwner _ => Ok []
   | Revoke _ | Release _ _ _ | Forget _ _ | ClaimAnonymous _ _ => Ok ()
   end, s).

Definition demo_read (authorization : option string) : outcome auth_exn Watch * web_db :=
  run (Σ := auth_calls) demo_serve (read_watch demo_sha256 demo_app demo_id authorization) demo_db.

(** The account reads its watch; an expired or unknown token and nobody are
    told there is none. *)
Example demo_reads :
  (demo_read (Some "Bearer token-1")).1 = Ok demo_watch ∧
  (demo_read (Some "Bearer token-8")).1 = Exc (HTTPException 404 "Unknown watch: watch_1") ∧
  (demo_read (Some "Bearer token-9")).1 = Exc (HTTPException 404 "Unknown watch: watch_1") ∧
  (demo_read None).1 = Exc (HTTPException 404 "Unknown watch: watch_1").
Proof. split_and!; vm_compute; reflexivity. Qed.

Lemma demo_guarded : guarded demo_sha256 demo_id "user-1" (Some "Bearer token-8"%string) demo_db.
Proof.
  split.
  - vm_compute. reflexivity.
  - intros token session Ht. replace (bearer_token _) with (Some "token-8"%string) in Ht by (vm_compute; reflexivity).
    injection Ht as <-. intros Hg _. vm_compute in Hg. injection Hg as <-. by vm_compute.
  - intros id user. unfold get_by_id, demo_db, demo_accounts. cbn [wd_accounts db_users].
    rewrite dict_lookup_insert. case_decide as E; [|done]. subst id. by intros [= <-].
Qed.

(** The same server, whose failures are failures of the database. *)
Definition demo_answer (c : auth_call) (s : web_db) : outcome auth_exn (auth_answer c) * web_db :=
  (match (demo_serve c s).1 with Ok a => Ok a | Exc _ => Exc (AuthOther "database") end, s).

Lemma demo_answers c s : web_serves c s (demo_answer c s).1 (demo_answer c s).2.
Proof.
  split; [done|]. destruct c; cbn; try exact I; try reflexivity.
  - by destruct (_ =? _)%string.
  - by destruct (create_user _ _ _ _ _) as [[u|] d].
Qed.

Definition demo_reading : A Watch := read_watch demo_sha256 demo_app demo_id (Some "Bearer token-8"%string).

Lemma demo_reading_ends :
  rtc (pstep (Σ := auth_calls) web_serves (web_interferes demo_sha256 demo_id "user-1" (Some "Bearer token-8")))
    (demo_reading, demo_db) (Raise (Σ := auth_calls) (HTTPException 404 "Unknown watch: watch_1"), demo_db).
Proof.
  exact (run_psteps (Σ := auth_calls) web_serves (web_interferes demo_sha256 demo_id "user-1" (Some "Bearer token-8"%string))
    demo_answer demo_reading demo_db demo_answers).
Qed.

Lemma account_watch_is_private_witness :
  ∃ p' s', rtc (pstep (Σ := auth_calls) web_serves (web_interferes demo_sha256 demo_id "user-1" (Some "Bearer token-8")))
    (demo_reading, demo_db) (p', s') ∧ ∀ w, p' ≠ Ret w.
Proof.
  exists (Raise (Σ := auth_calls) (HTTPException 404 "Unknown watch: watch_1")), demo_db. split; [exact demo_reading_ends|].
  apply (account_watch_is_private demo_sha256 demo_app demo_id "user-1" (Some "Bearer token-8"%string)
    _ _ _ _ eq_refl demo_guarded (or_introl eq_refl) demo_reading_ends).
Defined.

(** ** A wrong guess *)

Definition demo_guess : list auth_event * outcome auth_exn (User * string) :=
  Prog.record (Σ := auth_calls) demo_serve
    (login_route demo_sha256 "argon2:dummy" demo_account_settings demo_app "A@b.ca " "battery staple"
       (Some "99.1.2.7") None) demo_db.

Lemma demo_guess_refused : demo_guess.2 = Exc InvalidCredentialsError ∧ length demo_guess.1 = 4%nat.
Proof. split; vm_compute; reflexivity. Qed.

Definition is_refusal (e : auth_event) : bool :=
  match e with Ev _ (Exc InvalidCredentialsError) => true | _ => false end.

Lemma no_refusal (t : list auth_event) : existsb is_refusal t = false →
  ∀ c, Ans c (Exc InvalidCredentialsError) ∉ t.
Proof.
  intros H c Hin. apply not_true_iff_false in H. apply H. apply existsb_exists.
  eexists. split; [by apply list_elem_of_In|done].
Qed.

Lemma demo_guess_plain : ∀ c, Ans c (Exc InvalidCredentialsError) ∉ demo_guess.1.
Proof. apply no_refusal. vm_compute. reflexivity. Qed.

Lemma login_route_counts_guesses_witness :
  demo_guess.2 = Exc InvalidCredentialsError ∧
  only_after verifying (charged demo_app "A@b.ca " (Some "99.1.2.7"%string)) demo_guess.1.
Proof.
  split; [apply demo_guess_refused|].
  exact (proj1 (login_route_counts_guesses demo_sha256 "argon2:dummy" demo_account_settings demo_app
    "A@b.ca " "battery staple" (Some "99.1.2.7"%string) None eq_refl demo_guess.1 demo_guess.2 demo_guess_plain
    (record_runs (Σ := auth_calls) demo_serve
      (login_route demo_sha256 "argon2:dummy" demo_account_settings demo_app "A@b.ca " "battery staple"
       (Some "99.1.2.7"%string) None) demo_db))).
Defined.

(** ** The warning about a proxy *)

(** However many logins arrive from internal addresses, a process warns once,
    about the first. *)
Lemma proxy_warned_once peers :
  let warn acc peer := let '(w, flag) := _warn_untrusted_proxy_once peer acc.2 in (acc.1 ++ option_list w, flag) in
  fold_left warn peers ([], false) = (option_list (head peers), bool_decide (peers ≠ [])).
Proof.
  intros warn. destruct peers as [|p peers]; [done|].
  change (fold_left warn (p :: peers) ([], false)) with (fold_left warn peers ([p], true)).
  rewrite (bool_decide_eq_true_2 (p :: peers ≠ [])) by discriminate.
  change (option_list (head (p :: peers))) with [p]. generalize [p] as l.
  induction peers as [|q peers IH]; intros l; [done|]. cbn. rewrite app_nil_r. apply IH.
Qed.
