(* ===== verification/TaskQueue.v ===== *)
(** * The in-process task queue ([backend/workers/queue.py])

    [AsyncioTaskQueue] schedules polls as asyncio tasks.  A task is its
    position in the list of all tasks ever created; the event loop runs one
    step at a time, so the state machine interleaves enqueueing, waking,
    ending, the done-callbacks (which asyncio runs in a later step than the
    end) and the two halves of [close].  [run_at] is the loop of [_run_at] by
    itself.  [CeleryTaskQueue] is the message it publishes. *)

From S2P Require Import Prelude Calendar.

Definition _MAX_SLEEP_SECONDS : Z := seconds 60.

(** ** State *)

Inductive task_state := Waiting | Polling | Finished.
#[export] Instance task_state_eq_dec : EqDecision task_state.
Proof. solve_decision. Defined.

Record task := MkTask {
  tk_watch_id : string;
  tk_window_id : option string;
  tk_due_at : Z;
  tk_state : task_state;
}.
#[export] Instance task_eta : Eta task := λ t,
  MkTask (tk_watch_id t) (tk_window_id t) (tk_due_at t) (tk_state t).

Record queue := MkQueue {
  q_all : list task;                (* every task created *)
  q_tasks : gset nat;               (* [self._tasks] *)
  q_by_window : gmap string nat;    (* [self._by_window] *)
  q_closed : bool;                  (* [self._closed] *)
  q_cancelled : gset nat;           (* [task.cancel()] was called *)
  q_callbacks : gset nat;           (* ended, done-callback not yet run *)
  q_closing : list (gset nat);      (* the calls of [close] that wait, with [pending] *)
  q_drained : bool;                 (* some call of [close] has returned *)
  q_started : list (nat * Z);       (* polls begun, with the clock's reading *)
}.
#[export] Instance queue_eta : Eta queue := λ q,
  MkQueue (q_all q) (q_tasks q) (q_by_window q) (q_closed q) (q_cancelled q) (q_callbacks q)
    (q_closing q) (q_drained q) (q_started q).

Definition new_queue : queue := MkQueue [] ∅ ∅ false ∅ ∅ [] false [].

Implicit Types (q : queue) (i : nat).

(** [not task.done()] *)
Definition live q i : bool :=
  match q_all q !! i with
  | Some t => negb (bool_decide (tk_state t = Finished))
  | None => false
  end.

Definition set_state (s : task_state) i q : queue :=
  q <| q_all := alter (λ t, t <| tk_state := s |>) i (q_all q) |>.

(** ** Operations *)

Definition is_ready q : bool := negb (q_closed q).

(** [asyncio.create_task] *)
Definition create_task (t : task) q : nat * queue := (length (q_all q), q <| q_all := q_all q ++ [t] |>).

Definition enqueue_watch_poll (watch_id : string) (window_id : option string) (delay : Z)
    (due_at : option Z) (now : Z) q : queue :=
  if q_closed q then q else
  let due_at := default (now + Z.max 0 delay) due_at in
  let t := MkTask watch_id window_id due_at Waiting in
  match window_id with
  | None =>
      let '(i, q) := create_task t q in
      q <| q_tasks := {[i]} ∪ q_tasks q |>
  | Some window_id =>
      if match q_by_window q !! window_id with Some existing => live q existing | None => false end
      then q
      else let '(i, q) := create_task t q in
           q <| q_by_window := <[window_id := i]> (q_by_window q) |>
  end.

(** One wake-up of [_run_at]: the test of its loop, then the next sleep or the poll. *)
Definition wake i (now : Z) q : queue :=
  match q_all q !! i with
  | Some t => if tk_due_at t - now <=? 0
              then set_state Polling i q <| q_started := q_started q ++ [(i, now)] |>
              else q
  | None => q
  end.

(** The task ends: its poll returned, raised and was logged, or it was cancelled. *)
Definition finish i q : queue := set_state Finished i q <| q_callbacks := {[i]} ∪ q_callbacks q |>.

(** The done-callback: [self._tasks.discard], or [_forget_window_for(window_id)]. *)
Definition forget i q : queue :=
  match q_all q !! i with
  | Some t =>
      match tk_window_id t with
      | None => q <| q_tasks := q_tasks q ∖ {[i]} |>
      | Some window_id =>
          if bool_decide (q_by_window q !! window_id = Some i)
          then q <| q_by_window := delete window_id (q_by_window q) |> else q
      end
  | None => q
  end.

(** [close], up to the [gather] and after it. *)
Definition close_begin q : queue :=
  let pending := q_tasks q ∪ list_to_set (map_to_list (q_by_window q)).*2 in
  q <| q_closed := true |> <| q_cancelled := pending ∪ q_cancelled q |>
    <| q_closing := pending :: q_closing q |>.

Definition close_end q : queue := q <| q_by_window := ∅ |> <| q_drained := true |>.

(** ** The event loop *)

Inductive queue_step q : queue → Prop :=
| do_enqueue watch_id window_id delay due_at now :
    queue_step q (enqueue_watch_poll watch_id window_id delay due_at now q)
| do_wake i now t : q_all q !! i = Some t → tk_state t = Waiting → i ∉ q_cancelled q → queue_step q (wake i now q)
| do_finish i t : q_all q !! i = Some t →
    tk_state t = Polling ∨ (tk_state t = Waiting ∧ i ∈ q_cancelled q) → queue_step q (finish i q)
| do_callback i : i ∈ q_callbacks q →
    queue_step q (forget i q <| q_callbacks := q_callbacks q ∖ {[i]} |>)
| do_close : queue_step q (close_begin q)
| do_closed pending : pending ∈ q_closing q → (∀ i, i ∈ pending → live q i = false) →
    queue_step q (close_end q).

(** ** The invariant *)

Record queue_ok q : Prop := {
  qo_held : ∀ i t, q_all q !! i = Some t → tk_state t ≠ Finished →
    match tk_window_id t with
    | None => i ∈ q_tasks q
    | Some w => q_by_window q !! w = Some i
    end;
  qo_tasks : ∀ i, i ∈ q_tasks q → is_Some (q_all q !! i);
  qo_window : ∀ w i, q_by_window q !! w = Some i → is_Some (q_all q !! i);
  qo_due : ∀ i now, (i, now) ∈ q_started q → ∃ t, q_all q !! i = Some t ∧ tk_due_at t <= now ∧ tk_state t ≠ Waiting;
  qo_once : NoDup (q_started q).*1;
  qo_closing : ∀ pending, pending ∈ q_closing q → q_closed q = true ∧ ∀ i, live q i = true → i ∈ pending;
  qo_callbacks : ∀ i, i ∈ q_callbacks q → is_Some (q_all q !! i) ∧ live q i = false;
  qo_cancelled : q_closed q = true → ∀ i, live q i = true → i ∈ q_cancelled q;
  qo_drained : q_drained q = true → q_closed q = true ∧ ∀ i, live q i = false;
}.

Lemma task_live_spec q i : live q i = true ↔ ∃ t, q_all q !! i = Some t ∧ tk_state t ≠ Finished.
Proof.
  unfold live. destruct (q_all q !! i) as [t|]; [|naive_solver].
  rewrite negb_true_iff, bool_decide_eq_false. naive_solver.
Qed.

Lemma queue_ok_new : queue_ok new_queue.
Proof. split; cbn; intros *; rewrite ?lookup_nil, ?lookup_empty; (done || set_solver || constructor). Qed.

(** ** Every step keeps it *)

Lemma live_alter s i q j : live (set_state s i q) j =
  if decide (i = j) then match q_all q !! j with Some _ => negb (bool_decide (s = Finished)) | None => false end
  else live q j.
Proof.
  unfold live, set_state. cbn. destruct (decide (i = j)) as [->|Hne].
  - rewrite list_lookup_alter, decide_True by done. by destruct (q_all q !! j).
  - by rewrite list_lookup_alter, decide_False.
Qed.

Lemma alter_cases s i q j t : q_all (set_state s i q) !! j = Some t →
  ∃ t0, q_all q !! j = Some t0 ∧ tk_window_id t = tk_window_id t0 ∧ tk_due_at t = tk_due_at t0 ∧
    (if decide (i = j) then tk_state t = s else t = t0).
Proof.
  unfold set_state. cbn. rewrite list_lookup_alter. destruct (decide (i = j)) as [->|].
  - destruct (q_all q !! j) as [t0|]; [|done]. intros [= <-]. by exists t0.
  - intros ->. by exists t.
Qed.

(** Creating a task. *)
Lemma lookup_created (l : list task) t j :
  (l ++ [t]) !! j = if decide (j = length l) then Some t else l !! j.
Proof.
  case_decide as Hj; [subst; by rewrite list_lookup_middle|].
  destruct (decide (j < length l)%nat); [by apply lookup_app_l|].
  rewrite !lookup_ge_None_2; [done|lia|rewrite length_app; cbn; lia].
Qed.

Lemma created_kept (l : list task) t i : is_Some (l !! i) → is_Some ((l ++ [t]) !! i).
Proof. intros [t' Ht]. exists t'. by apply lookup_app_l_Some. Qed.

(** A new task that is referenced. *)
Lemma queue_ok_created t tasks by_window q : queue_ok q → q_closed q = false →
  (∀ i t', (q_all q ++ [t]) !! i = Some t' → tk_state t' ≠ Finished →
     match tk_window_id t' with None => i ∈ tasks | Some w => by_window !! w = Some i end) →
  (∀ i, i ∈ tasks → is_Some ((q_all q ++ [t]) !! i)) →
  (∀ w i, by_window !! w = Some i → is_Some ((q_all q ++ [t]) !! i)) →
  queue_ok (q <| q_all := q_all q ++ [t] |> <| q_tasks := tasks |> <| q_by_window := by_window |>).
Proof.
  intros Hq Hc H1 H2 H3. split; cbn; try done.
  - intros i n Hin. destruct (qo_due _ Hq _ _ Hin) as (t0 & H0 & ?). exists t0. split; [|done].
    by apply lookup_app_l_Some.
  - apply Hq.
  - intros pending Hin. destruct (qo_closing _ Hq _ Hin). congruence.
  - intros i Hin. destruct (qo_callbacks _ Hq _ Hin) as [[t0 H0] Hl]. unfold live in *. cbn.
    rewrite (lookup_app_l_Some _ _ _ _ H0). rewrite H0 in Hl. by split; [eexists|].
  - congruence.
  - intros Hd. destruct (qo_drained _ Hq Hd). congruence.
Qed.

(** A window that no live task serves. *)
Lemma window_free q w : queue_ok q →
  match q_by_window q !! w with Some i => live q i | None => false end = false →
  ∀ j t, q_all q !! j = Some t → tk_state t ≠ Finished → tk_window_id t ≠ Some w.
Proof.
  intros Hq Hw j t Hj Hs Hjw. pose proof (qo_held _ Hq _ _ Hj Hs) as Hh. rewrite Hjw in Hh. rewrite Hh in Hw.
  assert (live q j = true) by (apply task_live_spec; eauto). congruence.
Qed.

Lemma queue_ok_enqueue watch_id window_id delay due_at now q :
  queue_ok q → queue_ok (enqueue_watch_poll watch_id window_id delay due_at now q).
Proof.
  intros Hq. unfold enqueue_watch_poll. destruct (q_closed q) eqn:Hc; [done|].
  set (due := default _ _). set (t := MkTask watch_id window_id due Waiting).
  assert (is_Some ((q_all q ++ [t]) !! length (q_all q))) as Hnew by (rewrite list_lookup_middle by done; by eexists).
  destruct window_id as [w|].
  - destruct (match q_by_window q !! w with Some existing => live q existing | None => false end) eqn:Ew; [done|].
    apply (queue_ok_created t (q_tasks q)); [done..| | |].
    + intros i t'. rewrite lookup_created. case_decide as Hi; [intros [= <-] _; cbn; subst i; apply lookup_insert_eq|].
      intros Ht Hs. pose proof (qo_held _ Hq _ _ Ht Hs) as Hh. pose proof (window_free q w Hq Ew _ _ Ht Hs).
      destruct (tk_window_id t') as [w'|]; [|done]. rewrite lookup_insert_ne by congruence. done.
    + intros i Hi. by apply created_kept, (qo_tasks _ Hq).
    + intros w' i. rewrite lookup_insert. case_decide; [intros [= <-]; done|].
      intros Hi. by apply created_kept, (qo_window _ Hq w').
  - change (queue_ok (q <| q_all := q_all q ++ [t] |> <| q_tasks := {[length (q_all q)]} ∪ q_tasks q |>
      <| q_by_window := q_by_window q |>)).
    apply (queue_ok_created t ({[length (q_all q)]} ∪ q_tasks q) (q_by_window q) q); [done..| | |].
    + intros i t'. rewrite lookup_created. case_decide as Hi; [intros [= <-] _; cbn; set_solver|].
      intros Ht Hs. pose proof (qo_held _ Hq _ _ Ht Hs) as Hh. destruct (tk_window_id t'); [done|set_solver].
    + intros i [->%elem_of_singleton|Hi]%elem_of_union; [done|]. by apply created_kept, (qo_tasks _ Hq).
    + intros w i Hi. by apply created_kept, (qo_window _ Hq w).
Qed.

(** Changing the state of one task, from [s0] to [s]. *)
Lemma queue_ok_state i t s started callbacks q : queue_ok q → q_all q !! i = Some t →
  tk_state t ≠ Finished → s ≠ Waiting →
  (∀ j now, (j, now) ∈ started → (j, now) ∈ q_started q ∨ j = i ∧ tk_due_at t <= now) →
  NoDup started.*1 →
  (∀ j, j ∈ callbacks → j ∈ q_callbacks q ∨ j = i ∧ s = Finished) →
  queue_ok (set_state s i q <| q_started := started |> <| q_callbacks := callbacks |>).
Proof.
  intros Hq Ht Hlive Hs Hst Hnd Hcb. set (q' := _ <| q_callbacks := _ |>).
  assert (∀ j, live q' j = true → live q j = true) as Hl.
  { intros j. change (live q' j) with (live (set_state s i q) j). rewrite live_alter. case_decide; [|done].
    subst j. intros _. apply task_live_spec. eauto. }
  split; cbn.
  - intros j t' Hj Hs'. apply alter_cases in Hj as (t0 & H0 & -> & _ & Hc). apply (qo_held _ Hq _ _ H0).
    case_decide; [subst j|congruence]. rewrite Ht in H0. by injection H0 as <-.
  - intros j Hj. rewrite list_lookup_alter. case_decide; [subst; rewrite Ht; by eexists|by apply (qo_tasks _ Hq)].
  - intros w j Hj. rewrite list_lookup_alter. case_decide; [subst; rewrite Ht; by eexists|by apply (qo_window _ Hq w)].
  - intros j now Hj. rewrite list_lookup_alter. destruct (Hst _ _ Hj) as [Hold|[-> Hdue]].
    + destruct (qo_due _ Hq _ _ Hold) as (t0 & H0 & Hd & Hw). case_decide; [subst j|by exists t0].
      rewrite H0. eexists. split; [done|]. done.
    + rewrite decide_True, Ht by done. by eexists.
  - done.
  - intros pending Hin. destruct (qo_closing _ Hq _ Hin) as [Hc Hp]. split; [done|]. intros j Hj. by apply Hp, Hl.
  - intros j Hj. destruct (Hcb j Hj) as [Hold|[-> ->]].
    + destruct (qo_callbacks _ Hq _ Hold) as [Hsome Hdead]. split.
      * rewrite list_lookup_alter. case_decide; [subst; rewrite Ht; by eexists|done].
      * destruct (live q' j) eqn:E; [|done]. apply Hl in E. congruence.
    + rewrite list_lookup_alter_eq, Ht. split; [by eexists|].
      change (live q' i) with (live (set_state Finished i q) i). by rewrite live_alter, decide_True, Ht.
  - intros Hc j Hj. by apply (qo_cancelled _ Hq Hc), Hl.
  - intros Hd. destruct (qo_drained _ Hq Hd) as [Hc Hdead]. split; [done|]. intros j.
    destruct (live q' j) eqn:E; [|done]. apply Hl in E. by rewrite Hdead in E.
Qed.

Lemma queue_ok_wake i now t q : queue_ok q → q_all q !! i = Some t → tk_state t = Waiting → queue_ok (wake i now q).
Proof.
  intros Hq Ht Hw. unfold wake. rewrite Ht. destruct (_ <=? 0) eqn:Hdue; [|done].
  apply (queue_ok_state i t Polling (q_started q ++ [(i, now)]) (q_callbacks q) q); try done.
  - congruence.
  - intros j n [Hin|[= -> ->]%list_elem_of_singleton]%elem_of_app; [by left|right]. split; [done|lia].
  - rewrite fmap_app. apply NoDup_app. split_and!; [apply Hq| |apply NoDup_singleton].
    intros j Hj Hi. apply list_elem_of_fmap in Hj as ([j' n] & -> & Hin). cbn in Hi. apply list_elem_of_singleton in Hi as ->.
    destruct (qo_due _ Hq _ _ Hin) as (t0 & H0 & _ & Hs). congruence.
  - intros j Hj. by left.
Qed.

Lemma queue_ok_finish i t q : queue_ok q → q_all q !! i = Some t → queue_ok (finish i q).
Proof.
  intros Hq Ht. destruct (decide (tk_state t = Finished)) as [Hs|Hs].
  - assert (set_state Finished i q = q) as E.
    { unfold set_state. destruct q; cbn in *. f_equal. apply list_eq. intros j. rewrite list_lookup_alter.
      case_decide; [subst j|done]. rewrite Ht. cbn. by destruct t; cbn in *; subst. }
    assert (live q i = false) as Hdead.
    { destruct (live q i) eqn:El; [|done]. apply task_live_spec in El as (t' & ? & ?). congruence. }
    unfold finish. rewrite E. destruct Hq. split; try done. cbn.
    intros j [->%elem_of_singleton|Hj]%elem_of_union; [split; [by eexists|exact Hdead]|]. by apply qo_callbacks0.
  - apply (queue_ok_state i t Finished (q_started q) ({[i]} ∪ q_callbacks q) q); try done.
    + intros j now Hj. by left.
    + apply Hq.
    + intros j [->%elem_of_singleton|Hj]%elem_of_union; [by right|by left].
Qed.

(** Fewer references, all of them dispensable. *)
Lemma queue_ok_drop tasks by_window callbacks closing drained cancelled closed q : queue_ok q →
  (∀ i t, q_all q !! i = Some t → tk_state t ≠ Finished →
     match tk_window_id t with None => i ∈ tasks | Some w => by_window !! w = Some i end) →
  tasks ⊆ q_tasks q → by_window ⊆ q_by_window q → callbacks ⊆ q_callbacks q →
  (∀ p, p ∈ closing → closed = true ∧ ∀ i, live q i = true → i ∈ p) →
  (closed = true → ∀ i, live q i = true → i ∈ cancelled) →
  (drained = true → closed = true ∧ ∀ i, live q i = false) →
  queue_ok (MkQueue (q_all q) tasks by_window closed cancelled callbacks closing drained (q_started q)).
Proof.
  intros Hq H1 H2 H3 H4 H5 H6 H7. split; cbn; try done.
  - intros i Hi. apply (qo_tasks _ Hq). by apply H2.
  - intros w i Hi. apply (qo_window _ Hq w). by eapply lookup_weaken.
  - apply Hq.
  - apply Hq.
  - intros i Hi. apply (qo_callbacks _ Hq). by apply H4.
Qed.

Lemma queue_ok_forget i q : queue_ok q → i ∈ q_callbacks q →
  queue_ok (forget i q <| q_callbacks := q_callbacks q ∖ {[i]} |>).
Proof.
  intros Hq Hi. destruct (qo_callbacks _ Hq _ Hi) as [[t Ht] Hdead].
  assert (∀ j t', q_all q !! j = Some t' → tk_state t' ≠ Finished → j ≠ i) as Hne.
  { intros j t' Hj Hs ->. assert (live q i = true) by (apply task_live_spec; eauto). congruence. }
  unfold forget. rewrite Ht. destruct (tk_window_id t) as [w|]; [case_bool_decide as Hw|].
  - apply (queue_ok_drop (q_tasks q) (delete w (q_by_window q)) (q_callbacks q ∖ {[i]}) (q_closing q)
      (q_drained q) (q_cancelled q) (q_closed q) q); try apply Hq; try done;
      [|apply delete_subseteq|set_solver].
    intros j t' Hj Hs. pose proof (qo_held _ Hq _ _ Hj Hs) as Hh. destruct (tk_window_id t') as [w'|]; [|done].
    rewrite lookup_delete_ne; [done|]. intros <-. apply (Hne j t' Hj Hs). congruence.
  - apply (queue_ok_drop (q_tasks q) (q_by_window q) (q_callbacks q ∖ {[i]}) (q_closing q)
      (q_drained q) (q_cancelled q) (q_closed q) q); try apply Hq; try done. set_solver.
  - apply (queue_ok_drop (q_tasks q ∖ {[i]}) (q_by_window q) (q_callbacks q ∖ {[i]}) (q_closing q)
      (q_drained q) (q_cancelled q) (q_closed q) q); try apply Hq; try done; [|set_solver..].
    intros j t' Hj Hs. pose proof (qo_held _ Hq _ _ Hj Hs) as Hh. specialize (Hne _ _ Hj Hs).
    destruct (tk_window_id t'); [done|set_solver].
Qed.

Lemma queue_ok_close_begin q : queue_ok q → queue_ok (close_begin q).
Proof.
  intros Hq. unfold close_begin. set (pending := _ ∪ _).
  assert (∀ i, live q i = true → i ∈ pending) as Hp.
  { intros i (t & Ht & Hs)%task_live_spec. pose proof (qo_held _ Hq _ _ Ht Hs) as Hh. unfold pending.
    destruct (tk_window_id t) as [w|]; [|set_solver]. apply elem_of_union. right.
    apply elem_of_list_to_set, list_elem_of_fmap. exists (w, i). split; [done|]. by apply elem_of_map_to_list. }
  apply (queue_ok_drop (q_tasks q) (q_by_window q) (q_callbacks q) (pending :: q_closing q) (q_drained q)
    (pending ∪ q_cancelled q) true q); try apply Hq; try done.
  - intros p [->|Hin]%elem_of_cons; [done|]. split; [done|]. apply (qo_closing _ Hq _ Hin).
  - intros _ i Hi. apply elem_of_union. left. by apply Hp.
  - intros Hd. split; [done|]. apply (qo_drained _ Hq Hd).
Qed.

Lemma queue_ok_close_end pending q : queue_ok q → pending ∈ q_closing q →
  (∀ i, i ∈ pending → live q i = false) → queue_ok (close_end q).
Proof.
  intros Hq Hin Hdead. destruct (qo_closing _ Hq _ Hin) as [Hc Hp].
  assert (∀ i, live q i = false) as Hall.
  { intros i. destruct (live q i) eqn:E; [|done]. rewrite <- E. by apply Hdead, Hp. }
  apply (queue_ok_drop (q_tasks q) ∅ (q_callbacks q) (q_closing q) true (q_cancelled q) (q_closed q) q); try apply Hq; try done.
  - intros i t Ht Hs. assert (live q i = true) by (apply task_live_spec; eauto). by rewrite Hall in *.
  - apply map_empty_subseteq.
Qed.

Lemma queue_ok_step q q' : queue_step q q' → queue_ok q → queue_ok q'.
Proof.
  intros [] Hq; [by apply queue_ok_enqueue|by eapply queue_ok_wake|by eapply queue_ok_finish|by apply queue_ok_forget
    |by apply queue_ok_close_begin|by eapply queue_ok_close_end].
Qed.

Lemma queue_ok_reachable q : rtc queue_step new_queue q → queue_ok q.
Proof. revert q. apply rtc_ind_r; [apply queue_ok_new|]. intros q q' _ Hs Hq. by eapply queue_ok_step. Qed.

(** C37 (queue: single flight). Whatever is enqueued, wakes, ends or is closed,
    and whenever the done-callbacks run: a cadence window has at most one live
    task; every live task is referenced by the queue, so it cannot be garbage
    collected; a task begins its poll at most once and never before it is due;
    once [close] was called nothing is added and no poll begins, and when it
    has returned no task is left. *)
Theorem queue_single_flight q : rtc queue_step new_queue q →
  (∀ i j ti tj w, q_all q !! i = Some ti → q_all q !! j = Some tj →
     tk_state ti ≠ Finished → tk_state tj ≠ Finished →
     tk_window_id ti = Some w → tk_window_id tj = Some w → i = j) ∧
  (∀ i, live q i = true → i ∈ q_tasks q ∨ ∃ w, q_by_window q !! w = Some i) ∧
  (∀ i now, (i, now) ∈ q_started q → ∃ t, q_all q !! i = Some t ∧ tk_due_at t <= now) ∧
  NoDup (q_started q).*1 ∧
  (∀ q', is_ready q = false → queue_step q q' →
     length (q_all q') = length (q_all q) ∧ q_started q' = q_started q ∧ is_ready q' = false) ∧
  (q_drained q = true → ∀ i, live q i = false).
Proof.
  intros Hq%queue_ok_reachable. split_and!.
  - intros i j ti tj w Hi Hj Hsi Hsj Hwi Hwj.
    pose proof (qo_held _ Hq _ _ Hi Hsi) as H1. pose proof (qo_held _ Hq _ _ Hj Hsj) as H2.
    rewrite Hwi in H1. rewrite Hwj in H2. congruence.
  - intros i (t & Ht & Hs)%task_live_spec. pose proof (qo_held _ Hq _ _ Ht Hs) as Hh.
    destruct (tk_window_id t) as [w|]; [right; by exists w|by left].
  - intros i now Hin. destruct (qo_due _ Hq _ _ Hin) as (t & ? & ? & _). eauto.
  - apply Hq.
  - unfold is_ready. intros q' Hc%negb_false_iff Hs. destruct Hs as [| i now t Ht Hw Hnc | i t Ht _ | i _ | | pending _ _].
    + unfold enqueue_watch_poll. rewrite Hc. by rewrite Hc.
    + destruct Hnc. apply (qo_cancelled _ Hq Hc). apply task_live_spec. exists t. split; [done|congruence].
    + cbn. rewrite length_alter, Hc. done.
    + unfold forget. by repeat case_match; cbn; rewrite ?Hc.
    + done.
    + cbn. by rewrite Hc.
  - intros Hd. apply (qo_drained _ Hq Hd).
Qed.

(** ** The loop of [_run_at]

    [clock k] is its [k]-th reading; the sleeps it takes, and the number of
    readings when the poll begins. *)

Fixpoint run_at (clock : nat → Z) (due_at : Z) (fuel k : nat) : option (list Z * nat) :=
  match fuel with
  | O => None
  | S fuel =>
      let remaining := due_at - clock k in
      if remaining <=? 0 then Some ([], S k)
      else '(sleeps, n) ← run_at clock due_at fuel (S k);
           Some (Z.min remaining _MAX_SLEEP_SECONDS :: sleeps, n)
  end.

(** C40 (queue: termination). A waiting task begins its poll: if the clock
    advances at least as much as each sleep, the loop ends after at most one
    reading per minute left, plus one; it polls at a reading not before the
    due time, every reading before was earlier, and no sleep exceeds what was
    left or a minute. *)
Theorem run_at_terminates clock due_at fuel k :
  (∀ j, clock j + Z.min (due_at - clock j) _MAX_SLEEP_SECONDS <= clock (S j)) →
  due_at - clock k <= Z.of_nat fuel * _MAX_SLEEP_SECONDS →
  ∃ sleeps, run_at clock due_at (S fuel) k = Some (sleeps, S (k + length sleeps)) ∧
    (length sleeps <= fuel)%nat ∧ due_at <= clock (k + length sleeps)%nat ∧
    ∀ j s, sleeps !! j = Some s → 0 < s <= _MAX_SLEEP_SECONDS ∧ s <= due_at - clock (k + j)%nat.
Proof.
  intros Hclock. revert k. induction fuel as [|fuel IH]; intros k Hfuel; cbn [run_at].
  - exists []. rewrite (proj2 (Z.leb_le _ _)) by lia. cbn. rewrite Nat.add_0_r. split_and!; [done|lia|lia|done].
  - destruct (due_at - clock k <=? 0) eqn:Hdue.
    + exists []. cbn. rewrite Nat.add_0_r. split_and!; [done|lia|lia|done].
    + destruct (IH (S k)) as (sleeps & Hrun & Hlen & Hend & Hall).
      { specialize (Hclock k). unfold _MAX_SLEEP_SECONDS, seconds in *. lia. }
      cbn [run_at] in Hrun. rewrite Hrun. cbn [mbind option_bind].
      exists (Z.min (due_at - clock k) _MAX_SLEEP_SECONDS :: sleeps). cbn [length].
      replace (k + S (length sleeps))%nat with (S k + length sleeps)%nat by lia.
      split_and!; [done|lia|done|]. intros [|j] s; cbn.
      * intros [= <-]. rewrite Nat.add_0_r. unfold _MAX_SLEEP_SECONDS, seconds. lia.
      * intros Hj. replace (k + S j)%nat with (S k + j)%nat by lia. by apply Hall.
Qed.

Lemma run_at_terminates_witness :
  run_at (λ j, 60_000_000 * Z.of_nat j) 150_000_000 4 0 = Some ([60_000_000; 60_000_000; 30_000_000], 4%nat).
Proof.
  destruct (run_at_terminates (λ j, 60_000_000 * Z.of_nat j) 150_000_000 3 0) as (sleeps & Hr & _);
    [intros; unfold _MAX_SLEEP_SECONDS, seconds; lia|unfold _MAX_SLEEP_SECONDS, seconds; lia|].
  rewrite Hr. vm_compute in Hr. injection Hr as <-. reflexivity.
Defined.

(** ** [CeleryTaskQueue]: the keyword arguments of [apply_async] *)

Record celery_message := MkMessage {
  cm_args : list string;
  cm_countdown : Z;
  cm_task_id : option string;
}.

Definition celery_enqueue (watch_id : string) (window_id : option string) (delay : Z)
    (due_at : option Z) (task_id : option string) : celery_message :=
  MkMessage (match window_id with None => [watch_id] | Some w => [watch_id; w] end) (Z.max 0 delay) task_id.

(** ** A history *)

Definition demo_queue : queue :=
  enqueue_watch_poll "w" (Some "w:0"%string) 0 None 0 (enqueue_watch_poll "w" (Some "w:0"%string) 0 None 0 new_queue).

Lemma queue_single_flight_witness : length (q_all demo_queue) = 1%nat ∧ (live demo_queue 0 = true →
  0%nat ∈ q_tasks demo_queue ∨ ∃ w, q_by_window demo_queue !! w = Some 0%nat).
Proof.
  split; [reflexivity|].
  destruct (queue_single_flight demo_queue) as (_ & Hh & _); [|apply Hh].
  eapply rtc_l; [apply do_enqueue|]. eapply rtc_l; [apply do_enqueue|]. apply rtc_refl.
Defined.
