(* ===== verification/Readiness.v ===== *)
(** * Readiness by evidence ([backend/services/readiness.py])

    The tracker of performed observations, the wrapper that reports every
    history write to it ([TrackingHistoryRecorder] of
    [db/repositories/watch_history.py]) and what [/health] answers
    ([_queue_readiness] and [health] of [main.py]). *)

From S2P Require Import Prelude Calendar Schemas Reservation Watch Prog Effects Recovery TaskQueue.

Inductive Readiness := READY_ | DEGRADED | UNKNOWN_.
#[export] Instance Readiness_eq_dec : EqDecision Readiness.
Proof. solve_decision. Defined.

Definition readiness_value (r : Readiness) : string :=
  match r with READY_ => "ready" | DEGRADED => "degraded" | UNKNOWN_ => "unknown" end.

Record tracker := MkTracker {
  tr_queue_state : Readiness;
  tr_queue_observed_at : option Z;
  tr_recovery_state : Readiness;
  tr_recovery_observed_at : option Z;
  tr_was_leader : bool;
  tr_history_state : Readiness;
  tr_history_observed_at : option Z;
}.
#[export] Instance tracker_eta : Eta tracker := λ t,
  MkTracker (tr_queue_state t) (tr_queue_observed_at t) (tr_recovery_state t)
    (tr_recovery_observed_at t) (tr_was_leader t) (tr_history_state t) (tr_history_observed_at t).

Definition new_tracker : tracker := MkTracker UNKNOWN_ None UNKNOWN_ None false UNKNOWN_ None.

Implicit Types (t : tracker) (now : Z).

Definition record_dispatch_outcome (dispatched failed now : Z) t : tracker :=
  if 0 <? failed then t <| tr_queue_state := DEGRADED |> <| tr_queue_observed_at := Some now |>
  else if 0 <? dispatched then t <| tr_queue_state := READY_ |> <| tr_queue_observed_at := Some now |>
  else t.

Definition record_recovery_outcome (outcome : RecoveryOutcome) (now : Z) t : tracker :=
  let t := t <| tr_recovery_observed_at := Some now |> in
  let t :=
    if ro_is_leader outcome then
      t <| tr_was_leader := true |>
        <| tr_recovery_state := if recovery_ready outcome then READY_ else DEGRADED |>
    else if (0 <? ro_failed outcome) || tr_was_leader t then t <| tr_recovery_state := DEGRADED |>
    else t in
  record_dispatch_outcome (ro_dispatched outcome) (ro_dispatch_failed outcome) now t.

Definition record_history_outcome (ok : bool) (now : Z) t : tracker :=
  t <| tr_history_state := if ok then READY_ else DEGRADED |> <| tr_history_observed_at := Some now |>.

(** ** [/health] *)

(** [_queue_readiness]: the asyncio queue answers for itself.  [bound] is
    [state.watch_queue] in that mode. *)
Definition _queue_readiness (watch_queue_mode : string) (bound : option queue) t : Readiness :=
  if (watch_queue_mode =? "asyncio")%string then
    if match bound with Some q => is_ready q | None => false end then READY_ else DEGRADED
  else tr_queue_state t.

Record health_reply := MkHealth {
  hl_status : string;
  hl_service : string;
  hl_config : string;
  hl_watch_store : string;
  hl_watch_queue : string;
  hl_queue_readiness : string;
  hl_recovery_readiness : string;
  hl_history_readiness : string;
}.

Definition health (settings_error redis : bool) (watch_queue_mode : string) (bound : option queue) t : health_reply :=
  MkHealth "ok" "dibs-mvp" (if settings_error then "error" else "ok") (if redis then "redis" else "memory")
    watch_queue_mode (readiness_value (_queue_readiness watch_queue_mode bound t))
    (readiness_value (tr_recovery_state t)) (readiness_value (tr_history_state t)).

(** ** [TrackingHistoryRecorder]

    The answer of the wrapped [record] is passed on; what is reported of it. *)
Definition tracked_record {A} (answer : outcome exn A) (now : Z) t : tracker :=
  match answer with
  | Ok _ => record_history_outcome true now t
  | Exc x => if is_exception x then record_history_outcome false now t else t
  end.

(** ** Observations *)

Inductive observation :=
| SawDispatch (dispatched failed : Z)
| SawRecovery (outcome : RecoveryOutcome)
| SawHistory (ok : bool).

Definition observe t (o : observation * Z) : tracker :=
  match o.1 with
  | SawDispatch dispatched failed => record_dispatch_outcome dispatched failed o.2 t
  | SawRecovery outcome => record_recovery_outcome outcome o.2 t
  | SawHistory ok => record_history_outcome ok o.2 t
  end.

Definition observed (l : list (observation * Z)) : tracker := fold_left observe l new_tracker.

(** What one observation is evidence of: a pass that published nothing says
    nothing of the queue. *)
Definition queue_evidence (o : observation * Z) : option Readiness :=
  let judge dispatched failed :=
    if 0 <? failed then Some DEGRADED else if 0 <? dispatched then Some READY_ else None in
  match o.1 with
  | SawDispatch dispatched failed => judge dispatched failed
  | SawRecovery outcome => judge (ro_dispatched outcome) (ro_dispatch_failed outcome)
  | SawHistory _ => None
  end.

Definition history_evidence (o : observation * Z) : option Readiness :=
  match o.1 with SawHistory ok => Some (if ok then READY_ else DEGRADED) | _ => None end.

Definition recovery_pass (o : observation * Z) : option RecoveryOutcome :=
  match o.1 with SawRecovery outcome => Some outcome | _ => None end.

(** The last evidence, if any. *)
Definition last_evidence (judge : observation * Z → option Readiness) (l : list (observation * Z)) : Readiness :=
  default UNKNOWN_ (last (omap judge l)).

Lemma last_evidence_snoc judge l o :
  last_evidence judge (l ++ [o]) = match judge o with Some r => r | None => last_evidence judge l end.
Proof.
  unfold last_evidence. rewrite omap_app. cbn. destruct (judge o); [by rewrite last_snoc|by rewrite app_nil_r].
Qed.

Lemma queue_follows t o : tr_queue_state (observe t o) = default (tr_queue_state t) (queue_evidence o).
Proof.
  destruct o as [[dispatched failed|outcome|ok] now]; cbn; unfold record_recovery_outcome, record_dispatch_outcome;
    repeat (case_match; simplify_eq/=; try done); done.
Qed.

Lemma history_follows t o : tr_history_state (observe t o) = default (tr_history_state t) (history_evidence o).
Proof.
  destruct o as [[dispatched failed|outcome|ok] now]; cbn; unfold record_recovery_outcome, record_dispatch_outcome;
    repeat (case_match; simplify_eq/=; try done); done.
Qed.

Lemma recovery_follows t o : tr_recovery_state (observe t o) =
  match recovery_pass o with
  | Some outcome => if ro_is_leader outcome then if recovery_ready outcome then READY_ else DEGRADED
                    else if (0 <? ro_failed outcome) || tr_was_leader t then DEGRADED else tr_recovery_state t
  | None => tr_recovery_state t
  end.
Proof.
  destruct o as [[dispatched failed|outcome|ok] now]; cbn; unfold record_recovery_outcome, record_dispatch_outcome;
    repeat (case_match; simplify_eq/=; try done); done.
Qed.

Lemma leader_follows t o : tr_was_leader (observe t o) =
  match recovery_pass o with Some outcome => ro_is_leader outcome || tr_was_leader t | None => tr_was_leader t end.
Proof.
  destruct o as [[dispatched failed|outcome|ok] now]; cbn; unfold record_recovery_outcome, record_dispatch_outcome.
  - repeat case_match; done.
  - destruct (ro_is_leader outcome); cbn; repeat (case_match; cbn); done.
  - done.
Qed.

Lemma observed_snoc l o : observed (l ++ [o]) = observe (observed l) o.
Proof. unfold observed. by rewrite fold_left_app. Qed.

Lemma recovery_is_evidence l :
  (tr_recovery_state (observed l) = READY_ ↔
     ∃ outcome, last (omap recovery_pass l) = Some outcome ∧ recovery_ready outcome = true) ∧
  (tr_recovery_state (observed l) = UNKNOWN_ ↔
     ∀ outcome, outcome ∈ omap recovery_pass l → ro_is_leader outcome = false ∧ ro_failed outcome <= 0) ∧
  (tr_recovery_state (observed l) = READY_ → tr_was_leader (observed l) = true) ∧
  (tr_recovery_state (observed l) = UNKNOWN_ → tr_was_leader (observed l) = false).
Proof.
  induction l as [|o l (Hr & Hu & Hl & Hn)] using rev_ind.
  { cbn. split_and!; try done; [naive_solver|]. split; [|done]. intros _ o []%elem_of_nil. }
  rewrite observed_snoc, recovery_follows, leader_follows, omap_app. cbn [omap list_omap].
  destruct (recovery_pass o) as [outcome|]; [|by rewrite app_nil_r].
  rewrite last_snoc. setoid_rewrite elem_of_app. setoid_rewrite list_elem_of_singleton.
  destruct (ro_is_leader outcome) eqn:El.
  - split_and!.
    + split; [intros E; exists outcome; by destruct (recovery_ready outcome)|].
      intros (o' & [= <-] & E). by rewrite E.
    + split; [by destruct (recovery_ready outcome)|]. intros Hall.
      destruct (Hall outcome (or_intror eq_refl)). congruence.
    + done.
    + by destruct (recovery_ready outcome).
  - assert (∀ o', Some outcome = Some o' → recovery_ready o' ≠ true) as Hnr.
    { intros o' [= <-]. unfold recovery_ready. by rewrite El. }
    destruct (0 <? ro_failed outcome) eqn:Ef; cbn.
    + split_and!; try done.
      * split; [done|]. intros (o' & E & Er). by destruct (Hnr o' E).
      * split; [done|]. intros Hall. destruct (Hall outcome (or_intror eq_refl)). lia.
    + destruct (tr_was_leader (observed l)) eqn:Ew; split_and!; try done.
      * split; [done|]. intros (o' & E & Er). by destruct (Hnr o' E).
      * split; [done|]. intros Hall. exfalso. enough (true = false) by done. apply Hn, Hu. auto.
      * split; [intros E; by specialize (Hl E)|]. intros (o' & E & Er). by destruct (Hnr o' E).
      * split; [|intros Hall; apply Hu; auto]. intros E out [Hin| ->]; [by apply Hu|]. split; [done|lia].
Qed.

(** What [/health] reports is the last evidence there
    was: for the queue the last pass that talked to the broker, for the history
    the last write; recovery is ready exactly when the last pass was one of
    this process as leader that left nothing undone, and unknown only while it
    never led and no pass failed. *)
Theorem readiness_is_evidence l :
  tr_queue_state (observed l) = last_evidence queue_evidence l ∧
  tr_history_state (observed l) = last_evidence history_evidence l ∧
  (tr_recovery_state (observed l) = READY_ ↔
     ∃ outcome, last (omap recovery_pass l) = Some outcome ∧ recovery_ready outcome = true) ∧
  (tr_recovery_state (observed l) = UNKNOWN_ ↔
     ∀ outcome, outcome ∈ omap recovery_pass l → ro_is_leader outcome = false ∧ ro_failed outcome <= 0).
Proof.
  pose proof (recovery_is_evidence l) as (Hr & Hu & _). split_and!; [| |done..].
  - clear Hr Hu. induction l as [|o l IH] using rev_ind; [done|]. rewrite last_evidence_snoc, observed_snoc, queue_follows.
    by destruct (queue_evidence o).
  - clear Hr Hu. induction l as [|o l IH] using rev_ind; [done|]. rewrite last_evidence_snoc, observed_snoc, history_follows.
    by destruct (history_evidence o).
Qed.
