(* ===== verification/Email.v ===== *)
(** * Telling the owner of a watch
    ([backend/integrations/email.py], [services/recipients.py])

    [compose] renders one message, [AccountRecipientResolver] finds the
    address, [EmailNotificationService] puts them together; the transport is
    an awaited call.  Text is UTF-8. *)

From S2P Require Import Prelude Calendar Schemas Reservation Watch Prog Effects Accounts.

(** ** [LoggingNotificationService.notify]: the line of the log *)

Definition event_value (event : WatchEvent) : string :=
  match event with
  | EV_AVAILABILITY_FOUND => "AVAILABILITY_FOUND"
  | EV_BOOKED => "BOOKED"
  | EV_EXPIRED => "EXPIRED"
  end.
Definition log_line (watch : Watch) (event : WatchEvent) : string :=
  "watch=" +:+ w_watch_id watch +:+ " event=" +:+ event_value event +:+ " attempts=" +:+ pretty (w_attempts watch).

(** ** Messages *)

Record ComposedEmail := MkEmail { ce_subject : string; ce_body : string }.

Definition nl : string := String (Ascii.ascii_of_nat 10) "".
Definition blank : string := nl +:+ nl.

(** The slot a message is about. *)
Definition announced_slot (watch : Watch) (event : WatchEvent) : option AvailabilitySlot :=
  match event, w_booking watch, w_found_slots watch with
  | EV_BOOKED, Some booking, _ => Some (bc_slot booking)
  | EV_AVAILABILITY_FOUND, _, slot :: _ => Some slot
  | _, _, _ => None
  end.

Definition announced_date (watch : Watch) (event : WatchEvent) : string :=
  match announced_slot watch event with Some slot => sl_date slot | None => q_date (w_query watch) end.

Definition announced_when (watch : Watch) (event : WatchEvent) : string :=
  let reservation_date := announced_date watch event in
  match announced_slot watch event with
  | Some slot =>
      reservation_date +:+ " at " +:+ sl_start_time slot
      +:+ match sl_end_time slot with Some end_time => "–" +:+ end_time | None => "" end
  | None =>
      match q_time_window (w_query watch), q_preferred_time (w_query watch) with
      | Some w, _ => reservation_date +:+ " between " +:+ tw_start w +:+ " and " +:+ tw_end w
      | None, Some t => reservation_date +:+ " at " +:+ t
      | None, None => reservation_date
      end
  end.

Definition mock_provider (slot : AvailabilitySlot) : bool := (sl_provider slot =? "mock")%string.

(** Subject and opening. *)
Definition announce (watch : Watch) (event : WatchEvent) : string * string :=
  let venue := q_venue_name (w_query watch) in
  let reservation_date := announced_date watch event in
  let when := announced_when watch event in
  let party := "party of " +:+ pretty (q_party_size (w_query watch)) in
  match event with
  | EV_BOOKED =>
      match w_booking watch with
      | None =>
          ("Booking update: " +:+ venue +:+ " on " +:+ reservation_date,
           "A booking update has no confirmation. Check your dashboard before assuming a reservation is held.")
      | Some booking =>
          if bool_decide (bc_status booking = MOCK_CONFIRMED) || (bc_provider booking =? "mock")%string then
            ("Mock booking: " +:+ venue +:+ " on " +:+ reservation_date,
             "Dibs simulated a booking at " +:+ venue +:+ " for " +:+ when +:+ " (" +:+ party +:+ ")." +:+ blank
             +:+ "This is a simulation. No real table has been reserved."
             +:+ blank +:+ "Simulation reference: " +:+ bc_booking_id booking)
          else
            ("Booked: " +:+ venue +:+ " on " +:+ reservation_date,
             "Dibs booked your table at " +:+ venue +:+ " for " +:+ when +:+ " (" +:+ party +:+ ")." +:+ blank
             +:+ "It grabbed the slot the moment it opened, so you should not need "
             +:+ "to do anything else."
             +:+ blank +:+ "Confirmation: " +:+ bc_booking_id booking)
      end
  | EV_AVAILABILITY_FOUND =>
      if match w_found_slots watch with [] => false | l => forallb mock_provider l end then
        ("Mock availability: " +:+ venue +:+ " on " +:+ reservation_date,
         "Dibs found simulated availability at " +:+ venue +:+ " for " +:+ when +:+ " (" +:+ party +:+ ")." +:+ blank
         +:+ "This is a simulation. It does not indicate real table availability.")
      else
        ("A table opened at " +:+ venue +:+ " — " +:+ reservation_date,
         "Dibs found availability at " +:+ venue +:+ " for " +:+ when +:+ " (" +:+ party +:+ ")." +:+ blank
         +:+ "This watch was set to notify rather than book, so the table is "
         +:+ "not held. Move quickly.")
  | EV_EXPIRED =>
      ("Your " +:+ venue +:+ " watch has ended",
       "Dibs stopped watching " +:+ venue +:+ " for " +:+ when +:+ " (" +:+ party +:+ ")." +:+ blank
       +:+ "Nothing opened up before the watch reached its limit. You can "
       +:+ "start a new one any time.")
  end.

Definition compose (watch : Watch) (event : WatchEvent) (dashboard_base_url : string) : ComposedEmail :=
  let '(subject, opening) := announce watch event in
  let dashboard := dashboard_base_url +:+ "/watches" in
  MkEmail subject (opening +:+ blank +:+ "See your watches: " +:+ dashboard +:+ blank +:+ "-- Dibs" +:+ nl).

(** ** Recipients and delivery *)

Inductive mail_call :=
| GetAccountOwner (watch_id : string)
| GetUserById (user_id : string)
| Send (recipient : string) (email : ComposedEmail).

Definition mail_answer (c : mail_call) : Type :=
  match c with
  | GetAccountOwner _ => option string
  | GetUserById _ => option User
  | Send _ _ => ()
  end.

Definition mail_calls : sig := Sig mail_call mail_answer exn.
Definition mail (c : mail_call) : prog mail_calls (mail_answer c) := perform (Σ := mail_calls) c.

Definition email_for_watch (watch_id : string) : prog mail_calls (option string) :=
  user_id ← mail (GetAccountOwner watch_id);
  match user_id with
  | None => Ret None
  | Some user_id =>
      user ← mail (GetUserById user_id);
      match user with
      | None => Ret None
      | Some user => Ret (Some (us_email user))
      end
  end.

Definition notify (dashboard_base_url : string) (watch : Watch) (event : WatchEvent) : prog mail_calls () :=
  recipient ← email_for_watch (w_watch_id watch);
  match recipient with
  | None => Ret ()
  | Some recipient => mail (Send recipient (compose watch event dashboard_base_url))
  end.

(** ** What a message says *)

Definition contains (part whole : string) : Prop := ∃ a b, whole = a +:+ part +:+ b.

(** A real provider holds the table. *)
Definition really_booked (watch : Watch) : Prop :=
  ∃ booking, w_booking watch = Some booking ∧ bc_status booking ≠ MOCK_CONFIRMED ∧ bc_provider booking ≠ "mock"%string.

Definition mock_booked (watch : Watch) : Prop :=
  ∃ booking, w_booking watch = Some booking ∧ (bc_status booking = MOCK_CONFIRMED ∨ bc_provider booking = "mock"%string).

Definition all_mock (watch : Watch) : Prop :=
  w_found_slots watch ≠ [] ∧ ∀ slot, slot ∈ w_found_slots watch → sl_provider slot = "mock"%string.

Lemma all_mock_spec watch :
  match w_found_slots watch with [] => false | l => forallb mock_provider l end = true ↔ all_mock watch.
Proof.
  unfold all_mock. destruct (w_found_slots watch) as [|slot l]; [naive_solver|].
  rewrite forallb_forall. unfold mock_provider. setoid_rewrite String.eqb_eq. setoid_rewrite <- list_elem_of_In.
  split; [by intros|by intros [_ ?]].
Qed.

Lemma mock_test booking :
  bool_decide (bc_status booking = MOCK_CONFIRMED) || (bc_provider booking =? "mock")%string = true ↔
  bc_status booking = MOCK_CONFIRMED ∨ bc_provider booking = "mock"%string.
Proof. by rewrite orb_true_iff, bool_decide_eq_true, String.eqb_eq. Qed.

Abbreviation mail_event := (event mail_calls).
Abbreviation Mail := (Ev (Σ := mail_calls)).

(** Everything a notification can do: ask who owns the watch, ask for the
    address of that account, and send one message there. *)
Definition delivery_trace (watch : Watch) (e : ComposedEmail) (t : list mail_event) (out : outcome exn ()) : Prop :=
  let id := w_watch_id watch in
  (∃ x, t = [Mail (GetAccountOwner id) (Exc x)] ∧ out = Exc x) ∨
  (t = [Mail (GetAccountOwner id) (Ok None)] ∧ out = Ok ()) ∨
  ∃ owner, let asked := Mail (GetAccountOwner id) (Ok (Some owner)) in
    (∃ x, t = [asked; Mail (GetUserById owner) (Exc x)] ∧ out = Exc x) ∨
    (t = [asked; Mail (GetUserById owner) (Ok None)] ∧ out = Ok ()) ∨
    ∃ user, t = [asked; Mail (GetUserById owner) (Ok (Some user)); Mail (Send (us_email user) e) out].

Lemma runs_mail_bind {C} (c : mail_call) (f : mail_answer c → prog mail_calls C) (t : list mail_event) out :
  runs (mail c ≫= f) t out →
  (∃ a t', t = Mail c (Ok a) :: t' ∧ runs (f a) t' out) ∨ (∃ x, t = [Mail c (Exc x)] ∧ out = Exc x).
Proof.
  intros [(a & t1 & t2 & -> & H1 & H2)|(x & H1 & ->)]%(runs_bind_inv (Σ := mail_calls));
    apply (runs_perform_inv (Σ := mail_calls) c) in H1 as ->; [left; by exists a, t2|right; by exists x].
Qed.

Lemma runs_mail (c : mail_call) (t : list mail_event) out : runs (mail c) t out → t = [Mail c out].
Proof. exact (runs_perform_inv (Σ := mail_calls) c t out). Qed.

Lemma notify_runs url watch e (t : list mail_event) out :
  runs (notify url watch e) t out → delivery_trace watch (compose watch e url) t out.
Proof.
  unfold notify, email_for_watch, delivery_trace. intros Hr. cbv zeta.
  apply (runs_bind_inv (Σ := mail_calls)) in Hr as [(r & t1 & t2 & -> & H1 & H2)|(x & H1 & ->)].
  - apply runs_mail_bind in H1 as [([owner|] & t' & -> & H1)|(x & _ & [=])]; cbn in H1.
    + apply runs_mail_bind in H1 as [([user|] & t'' & -> & H1)|(x & _ & [=])]; cbn in H1;
        apply (runs_ret_inv (Σ := mail_calls)) in H1 as [-> [= ->]]; right; right; exists owner; right.
      * right. exists user. by rewrite (runs_mail (Send (us_email user) (compose watch e url)) t2 out H2).
      * left. by apply (runs_ret_inv (Σ := mail_calls)) in H2 as [-> ->].
    + apply (runs_ret_inv (Σ := mail_calls)) in H1 as [-> [= ->]]. right; left.
      by apply (runs_ret_inv (Σ := mail_calls)) in H2 as [-> ->].
  - apply runs_mail_bind in H1 as [([owner|] & t' & -> & H1)|(y & -> & [= ->])].
    + apply runs_mail_bind in H1 as [([user|] & t'' & -> & H1)|(y & -> & [= ->])].
      * by apply (runs_ret_inv (Σ := mail_calls)) in H1 as [_ [=]].
      * by apply (runs_ret_inv (Σ := mail_calls)) in H1 as [_ [=]].
      * right; right. exists owner. left. by exists y.
    + by apply (runs_ret_inv (Σ := mail_calls)) in H1 as [_ [=]].
    + left. by exists y.
Qed.

Lemma string_assoc a b c : (a +:+ b) +:+ c = a +:+ (b +:+ c).
Proof. induction a as [|x a IH]; [done|exact (f_equal (String x) IH)]. Qed.

Lemma contains_here p b : contains p (p +:+ b).
Proof. by exists "", b. Qed.

Lemma contains_end p : contains p p.
Proof. exists "", "". induction p as [|x p IH]; [done|exact (f_equal (String x) IH)]. Qed.

Lemma contains_after a p s : contains p s → contains p (a +:+ s).
Proof. intros (b & c & ->). exists (a +:+ b), c. by rewrite !string_assoc. Qed.

Lemma prefix_here p s : String.prefix p (p +:+ s) = true.
Proof.
  induction p as [|c p IH]; [by destruct s|].
  change (String c p +:+ s) with (String c (p +:+ s)). cbn [String.prefix].
  by destruct (Ascii.ascii_dec c c) as [_|[]].
Qed.

(** C38 (email: owner and truth). A notification sends at most one message, to
    the account that owns the watch at that moment, and is silent for a watch
    without owner or address.  The message claims a booked table or an opened
    one only when a provider other than the mock holds it or offers one; a mock
    booking or mock availability is called a simulation in subject and text. *)
Theorem email_tells_the_truth url watch e (t : list mail_event) out :
  runs (notify url watch e) t out →
  delivery_trace watch (compose watch e url) t out ∧
  let '(subject, opening) := announce watch e in
  ce_subject (compose watch e url) = subject ∧ contains opening (ce_body (compose watch e url)) ∧
  (String.prefix "Booked: " subject = true ∨ String.prefix "Dibs booked" opening = true →
     e = EV_BOOKED ∧ really_booked watch) ∧
  (String.prefix "A table opened" subject = true ∨ String.prefix "Dibs found availability" opening = true →
     e = EV_AVAILABILITY_FOUND ∧ ¬ all_mock watch) ∧
  (e = EV_BOOKED → mock_booked watch →
     String.prefix "Mock booking: " subject = true ∧
     contains "This is a simulation. No real table has been reserved." opening) ∧
  (e = EV_AVAILABILITY_FOUND → all_mock watch →
     String.prefix "Mock availability: " subject = true ∧
     contains "This is a simulation. It does not indicate real table availability." opening).
Proof.
  intros Hr. split; [by apply notify_runs|]. clear Hr. unfold compose.
  assert (∀ subject opening (P : Prop), String.prefix "Booked: " subject = false → String.prefix "Dibs booked" opening = false →
    String.prefix "Booked: " subject = true ∨ String.prefix "Dibs booked" opening = true → P) as Hnb by (intros; intuition congruence).
  assert (∀ subject opening (P : Prop), String.prefix "A table opened" subject = false →
    String.prefix "Dibs found availability" opening = false →
    String.prefix "A table opened" subject = true ∨ String.prefix "Dibs found availability" opening = true → P) as Hnf
    by (intros; intuition congruence).
  unfold announce. destruct e; cbn [announced_slot].
  - pose proof (all_mock_spec watch) as Hm.
    destruct (match w_found_slots watch with [] => false | l => forallb mock_provider l end).
    + split_and!; [done|apply contains_here|by refine (Hnb _ _ _ _ _)|by refine (Hnf _ _ _ _ _)|done|].
      intros _ _. split; [apply prefix_here|]. do 8 apply contains_after. apply contains_end.
    + split_and!; [done|apply contains_here|by refine (Hnb _ _ _ _ _)| |done|].
      * intros _. split; [done|]. intros H%Hm. done.
      * intros _ H%Hm. done.
  - destruct (w_booking watch) as [booking|] eqn:Eb.
    + pose proof (mock_test booking) as Hm. destruct (_ || _).
      * split_and!; [done|apply contains_here|by refine (Hnb _ _ _ _ _)|by refine (Hnf _ _ _ _ _)| |done].
        intros _ _. split; [apply prefix_here|]. do 8 apply contains_after. apply contains_here.
      * split_and!; [done|apply contains_here| |by refine (Hnf _ _ _ _ _)| |done].
        -- intros _. split; [done|]. exists booking. split; [done|]. split; intros E; (enough (false = true) by done); apply Hm; auto.
        -- intros _ (b & E & Hb). rewrite Eb in E. injection E as <-. by apply Hm in Hb.
    + split_and!; [done|apply contains_here|by refine (Hnb _ _ _ _ _)|by refine (Hnf _ _ _ _ _)| |done].
      intros _ (b & E & _). congruence.
  - split_and!; [done|apply contains_here|by refine (Hnb _ _ _ _ _)|by refine (Hnf _ _ _ _ _)|done|done].
Qed.

(** A notify-only watch found a table of a real provider; its owner is told. *)
Definition found_watch : Watch :=
  MkWatch "watch_1" FOUND
    (MkQuery "Ethel's Lounge" Schemas.RESTAURANT Schemas.MARKET 2 "2026-07-03"
       (Some "19:00"%string) None None []) false 0 0 (days 2) 3 200 None None
    [MkSlot "slot_1" "real" "Ethel's Lounge" Schemas.RESTAURANT "2026-07-03" "19:15" None 2 4] None None.

Definition owner_answers (c : mail_call) (s : ()) : outcome exn (mail_answer c) * () :=
  (match c return outcome exn (mail_answer c) with
   | GetAccountOwner _ => Ok (Some "user_1"%string)
   | GetUserById id => Ok (Some (MkUser id "ada@example.org" 0))
   | Send _ _ => Ok ()
   end, s).

Lemma email_tells_the_truth_witness :
  let '(t, out) := record (Σ := mail_calls) owner_answers (notify "https://dibs.example" found_watch EV_AVAILABILITY_FOUND) () in
  length t = 3%nat ∧ out = Ok () ∧
  contains (announce found_watch EV_AVAILABILITY_FOUND).2
    (ce_body (compose found_watch EV_AVAILABILITY_FOUND "https://dibs.example")) ∧
  ¬ all_mock found_watch.
Proof.
  pose proof (email_tells_the_truth _ _ _ _ _
    (record_runs (Σ := mail_calls) owner_answers
       (notify "https://dibs.example" found_watch EV_AVAILABILITY_FOUND) ())) as (_ & _ & Hc & _ & Hf & _).
  split; [reflexivity|]. split; [reflexivity|]. split; [exact Hc|].
  apply Hf. left. vm_compute. reflexivity.
Defined.
