(* ===== verification/RedisThrottle.v ===== *)
(** * The shared sliding window ([RedisSlidingWindowThrottle],
    [backend/services/throttle.py])

    One sorted set of event times per key on the Redis server, shared by all
    processes.  Every method is one atomic action on the server, a script or a
    transaction; a call that raises lets the request pass.  Clocks are the wall
    clocks of the processes, in microseconds; the server's, in milliseconds,
    times the expiry of keys. *)

From stdpp Require Import functions.
From S2P Require Import Prelude Calendar Prog Effects RedisServer MockScripts.

(** ** The commands it uses besides *)

Definition zprune (max : Z) (e : entry_at) : entry_at :=
  match e with
  | Some (VZset z, b) =>
      let z := filter (λ p, max < p.2) z in if decide (z = ∅) then None else Some (VZset z, b)
  | e => e
  end.

Class RedisWindow (R : Type) := ZREMRANGEBYSCORE : string → Z → R → R.   (* -inf .. max *)

Class RedisWindowLaws (R : Type) `{RedisServer R, !RedisMore R, !RedisWindow R} := {
  at_ZREMRANGEBYSCORE k max k' r :
    at_ k' (ZREMRANGEBYSCORE k max r) = if decide (k = k') then zprune max (at_ k r) else at_ k' r;
  deadline_ZREMRANGEBYSCORE k max r : only_deadline k r (ZREMRANGEBYSCORE k max r);
  kept_ZREMRANGEBYSCORE k max r :
    at_ k (ZREMRANGEBYSCORE k max r) ≠ None → deadline k (ZREMRANGEBYSCORE k max r) = deadline k r;
  kept_ZREM k m r : at_ k (ZREM k m r) ≠ None → deadline k (ZREM k m r) = deadline k r;
  kept_lapse k r r' : lapse r r' → at_ k r' ≠ None → deadline k r' = deadline k r;
}.

Section throttle.
Context `{RedisServer R, !RedisMore R, !RedisWindow R}.
Context (name : string) (on_limit : exn) (max_events window_seconds : Z).
Implicit Types (key token : string) (r : R).
Notation program := (prog (mock_redis R)).

(** [self._prefix + key] *)
Definition window_key key : string := "dibs:throttle:" +:+ name +:+ ":" +:+ key.

Definition window : Z := seconds window_seconds.

Definition EXPIRE (k : string) (secs : Z) : R → R := PEXPIRE k (1000 * secs).

(** [_CONSUME_LUA] *)
Definition CONSUME (k : string) (cutoff max now : Z) (token : string) (ttl : Z) : lua R bool :=
  lua_write (ZREMRANGEBYSCORE k cutoff);;
  count ← lua_read (ZCARD k);
  if max <=? count then mret false else
  lua_write (ZADD k now token);;
  lua_write (EXPIRE k ttl);;
  mret true.

(** The two transactions. *)
Definition CHECK (k : string) (cutoff : Z) : lua R Z :=
  lua_write (ZREMRANGEBYSCORE k cutoff);; lua_read (ZCARD k).

Definition RECORD (k : string) (now : Z) (member : string) (ttl : Z) : lua R () :=
  lua_write (ZADD k now member);; lua_write (EXPIRE k ttl).

(** [try: r = await c  except Exception: return d], then [f r]. *)
Definition or_allow {A B} (c : lua R A) (d : B) (f : A → program B) : program B :=
  answer ← attempt (on_server c);
  match answer with
  | Ok a => f a
  | Exc x => if is_exception x then Ret d else Raise (Σ := mock_redis R) x
  end.

Definition acheck key (now : Z) : program () :=
  or_allow (CHECK (window_key key) (now - window)) () (λ count,
    if max_events <=? count then Raise (Σ := mock_redis R) on_limit else Ret ()).

(** [stamp] is the text of [f"{now:.6f}"]. *)
Definition arecord (stamp : Z → string) key (now : Z) (uuid : string) : program () :=
  or_allow (RECORD (window_key key) now (stamp now +:+ ":" +:+ uuid) (window_seconds + 1)) () (λ _, Ret ()).

Definition areset key : program () := or_allow (lua_write (DEL (window_key key))) () (λ _, Ret ()).

Definition aconsume key (now : Z) (token : string) : program (option string) :=
  or_allow (CONSUME (window_key key) (now - window) max_events now token (window_seconds + 1)) None
    (λ accepted, if accepted then Ret (Some token) else Raise (Σ := mock_redis R) on_limit).

Definition arelease key (token : option string) : program () :=
  match token with
  | None => Ret ()
  | Some token => or_allow (lua_write (ZREM (window_key key) token)) () (λ _, Ret ())
  end.

(** ** Histories

    Any number of processes act on the keys of one throttle, in the order of
    the server.  Their clocks are within [skew] of the server's.  Counted are
    the events the server granted that were neither released nor reset, whether
    or not the answer arrived. *)

Context (skew : Z).

Definition synced (now : Z) r : Prop := Z.abs (now - 1000 * server_now r) <= skew.

Definition world : Type := R * (string → gmap string Z).

(** What the rest of the system does leaves the keys of the throttle alone. *)
Definition elsewhere r r' : Prop :=
  server_now r <= server_now r' ∧
  ∀ key, at_ (window_key key) r' = at_ (window_key key) r ∧
    deadline (window_key key) r' = deadline (window_key key) r.

Definition consumed key (now : Z) token (w : world) : world :=
  let '(accepted, r) := CONSUME (window_key key) (now - window) max_events now token (window_seconds + 1) w.1 in
  (r, match accepted with
      | Some true => <[key := <[token := now]> (w.2 key)]> w.2
      | _ => w.2
      end).

Inductive window_step (w : world) : world → Prop :=
| step_consume key now token : synced now w.1 → w.2 key !! token = None →
    window_step w (consumed key now token w)
| step_check key now : synced now w.1 →
    window_step w ((CHECK (window_key key) (now - window) w.1).2, w.2)
| step_release key token :
    window_step w (ZREM (window_key key) token w.1, <[key := delete token (w.2 key)]> w.2)
| step_reset key : window_step w (DEL (window_key key) w.1, <[key := ∅]> w.2)
| step_lapse r : lapse w.1 r → window_step w (r, w.2)
| step_elsewhere r : elsewhere w.1 r → window_step w (r, w.2).

(** How many events of [m] lie in the [length] up to [t]. *)
Definition within (length t : Z) (p : string * Z) : Prop := t - length < p.2 ∧ p.2 <= t.
#[export] Instance within_dec length t p : Decision (within length t p).
Proof. unfold within. apply _. Defined.

Definition spent (length t : Z) (m : gmap string Z) : Z := Z.of_nat (size (filter (within length t) m)).
End throttle.
