(* ===== verification/RedisThrottleTheorems.v ===== *)
(** * The shared sliding window: theorems

    Within any window shorter by twice the clock skew at most [max_events]
    events count; a request is refused only by that many counted events, and
    passes uncounted only when the server did not answer. *)
From stdpp Require Import functions.
From S2P Require Import Prelude Prog Calendar Effects RedisServer RedisModel MockScripts.
From S2P Require Import MockModel RedisThrottle.

Section facts.
Context `{RedisLaws R, !RedisMore R, !RedisMoreLaws R, !RedisWindow R, !RedisWindowLaws R}.
Context (name : string) (on_limit : exn) (max_events window_seconds skew : Z).
Context (Hmax : 0 <= max_events) (Hseconds : 0 <= window_seconds).
Implicit Types (k key token : string) (r : R) (m : gmap string Z).

Notation window := (window window_seconds).
Notation synced := (synced skew).
Notation seen r := (1000 * server_now r + skew).

(** A key and the events that count for it. *)
Record key_ok k r m : Prop := MkKeyOk {
  ko_zset : at_ k r = None ∨ ∃ z d, at_ k r = Some (VZset z, true) ∧ deadline k r = Some d ∧
    ∀ token t, z !! token = Some t → t <= 1000 * (d - 1000 * (window_seconds + 1)) + skew;
  ko_sub : scores_at k r ⊆ m;
  ko_gone token t : m !! token = Some t → scores_at k r !! token = None → t <= seen r - window;
  ko_seen token t : m !! token = Some t → t <= seen r;
  ko_max t : spent (window - 2 * skew) t m <= max_events;
}.

(** A later server that holds fewer events, all of them still on time. *)
Lemma key_ok_fewer k r r' m : key_ok k r m → server_now r <= server_now r' →
  (at_ k r' = None ∨ ∃ z z', at_ k r = Some (VZset z, true) ∧ at_ k r' = Some (VZset z', true) ∧ z' ⊆ z) →
  (at_ k r' ≠ None → deadline k r' = deadline k r) →
  (∀ token t, scores_at k r !! token = Some t → scores_at k r' !! token = None → t <= seen r' - window) →
  key_ok k r' m.
Proof.
  intros [Hz Hsub Hgone Hseen Hm] Hnow Hat Hd Hdrop.
  assert (scores_at k r' ⊆ scores_at k r) as Hless.
  { unfold scores_at. destruct Hat as [->|(z & z' & -> & -> & Hzz)]; [apply map_empty_subseteq|done]. }
  split.
  - destruct Hat as [->|(z & z' & E & E' & Hzz)]; [by left|right].
    rewrite Hd by (by rewrite E'). destruct Hz as [Hz|(z0 & d & E0 & Ed & Hle)]; [congruence|].
    rewrite E in E0. injection E0 as <-. exists z', d. split_and!; [done..|].
    intros token t Ht. apply (Hle token). by eapply lookup_weaken.
  - by transitivity (scores_at k r).
  - intros token t Ht Hn. destruct (scores_at k r !! token) as [t'|] eqn:E.
    + assert (t' = t) as -> by (eapply lookup_weaken in Hsub; [|exact E]; congruence). by apply (Hdrop token).
    + specialize (Hgone _ _ Ht E). lia.
  - intros token t Ht. specialize (Hseen _ _ Ht). lia.
  - done.
Qed.

Lemma key_ok_same k r r' m : key_ok k r m → server_now r <= server_now r' →
  at_ k r' = at_ k r → deadline k r' = deadline k r → key_ok k r' m.
Proof.
  intros Hk Hnow Hat Hd. apply (key_ok_fewer k r); [done..| |by intros|].
  - rewrite Hat. destruct (ko_zset _ _ _ Hk) as [->|(z & d & -> & _)]; [by left|right; by exists z, z].
  - unfold scores_at. rewrite Hat. intros. congruence.
Qed.

(** Every method leaves the other keys of the server alone. *)
Definition only_key k r r' : Prop := only_deadline k r r' ∧ ∀ k', k' ≠ k → at_ k' r' = at_ k' r.

Lemma key_ok_other k k' r r' m : only_key k r r' → k' ≠ k → key_ok k' r m → key_ok k' r' m.
Proof. intros [[Hn Hd] Hat] Hne Hk. apply (key_ok_same k' r); [done|lia|auto..]. Qed.

Lemma only_key_trans k r1 r2 r3 : only_key k r1 r2 → only_key k r2 r3 → only_key k r1 r3.
Proof.
  intros [[N1 D1] A1] [[N2 D2] A2]. split; [split; [congruence|]|]; intros k' Hk'.
  - by rewrite D2, D1.
  - by rewrite A2, A1.
Qed.

Lemma alone_prune k max r : only_key k r (ZREMRANGEBYSCORE k max r).
Proof. split; [apply deadline_ZREMRANGEBYSCORE|]. intros. by rewrite at_ZREMRANGEBYSCORE, decide_False. Qed.
Lemma alone_ZADD k s token r : only_key k r (ZADD k s token r).
Proof. split; [apply deadline_ZADD|]. intros. by rewrite at_ZADD, decide_False. Qed.
Lemma alone_EXPIRE k ttl r : only_key k r (EXPIRE k ttl r).
Proof. split; [apply deadline_PEXPIRE|]. intros. unfold EXPIRE. by rewrite at_PEXPIRE, decide_False. Qed.
Lemma alone_ZREM k token r : only_key k r (ZREM k token r).
Proof. split; [apply deadline_ZREM|]. intros. by rewrite at_ZREM, decide_False. Qed.
Lemma alone_DEL k r : only_key k r (DEL k r).
Proof. split; [apply deadline_DEL|]. intros. by rewrite at_DEL, decide_False. Qed.

Lemma same_now k r r' : only_key k r r' → server_now r' = server_now r.
Proof. by intros [[? _] _]. Qed.

(** Pruning. *)
Lemma scores_prune k max r z : at_ k r = Some (VZset z, true) →
  scores_at k (ZREMRANGEBYSCORE k max r) = filter (λ p, max < p.2) z.
Proof.
  intros E. unfold scores_at. rewrite at_ZREMRANGEBYSCORE, decide_True, E by done. cbn.
  case_decide as Hz; [by rewrite Hz|done].
Qed.

Lemma key_ok_prune k now r m : synced now r → key_ok k r m →
  key_ok k (ZREMRANGEBYSCORE k (now - window) r) m ∧
  ∀ token t, m !! token = Some t → now - window + 2 * skew < t →
    scores_at k (ZREMRANGEBYSCORE k (now - window) r) !! token = Some t.
Proof.
  intros Hs Hk. unfold RedisThrottle.synced in Hs. set (r' := ZREMRANGEBYSCORE k (now - window) r).
  assert (server_now r' = server_now r) as En by apply (same_now k), alone_prune.
  assert (key_ok k r' m) as Hk'.
  { apply (key_ok_fewer k r); [done|lia| |apply kept_ZREMRANGEBYSCORE|].
    - unfold r'. rewrite at_ZREMRANGEBYSCORE, decide_True by done.
      destruct (ko_zset _ _ _ Hk) as [->|(z & d & -> & _)]; cbn; [by left|].
      case_decide; [by left|right]. eexists _, _. split_and!; [done..|apply map_filter_subseteq].
    - intros token t Ht Hn. rewrite En. destruct (ko_zset _ _ _ Hk) as [E|(z & d & E & _)].
      + unfold scores_at in Ht. rewrite E in Ht. by rewrite lookup_empty in Ht.
      + unfold r' in Hn. rewrite (scores_prune _ _ _ _ E) in Hn. unfold scores_at in Ht. rewrite E in Ht.
        apply map_lookup_filter_None in Hn as [Hn|Hn]; [congruence|]. specialize (Hn _ Ht). cbn in Hn. lia. }
  split; [done|]. intros token t Ht Hlt. destruct (scores_at k r' !! token) as [t'|] eqn:E.
  - pose proof (lookup_weaken _ _ _ _ E (ko_sub _ _ _ Hk')). congruence.
  - pose proof (ko_gone _ _ _ Hk' _ _ Ht E). rewrite En in *. lia.
Qed.

(** The verdict of [CONSUME] and the key it leaves. *)
Lemma consume_run k cutoff max now token ttl r :
  CONSUME k cutoff max now token ttl r =
  let r := ZREMRANGEBYSCORE k cutoff r in
  if max <=? ZCARD k r then (Some false, r) else (Some true, EXPIRE k ttl (ZADD k now token r)).
Proof. unfold CONSUME. cbn. unfold mbind, lua_bind, lua_read, lua_write. by destruct (max <=? _). Qed.

Lemma spent_sub length t m m' : m' ⊆ m → spent length t m' <= spent length t m.
Proof.
  intros Hs. unfold spent. apply inj_le, map_subseteq_size. by apply map_filter_subseteq_mono.
Qed.

Lemma key_ok_granted k now token r m : synced now r → key_ok k r m →
  (∀ t' t, m !! t' = Some t → now - window + 2 * skew < t → scores_at k r !! t' = Some t) →
  m !! token = None → ZCARD k r < max_events →
  key_ok k (EXPIRE k (window_seconds + 1) (ZADD k now token r)) (<[token := now]> m).
Proof.
  intros Hs Hk Hin Hfresh Hcard. unfold RedisThrottle.synced in Hs. set (r1 := ZADD k now token r).
  set (r2 := EXPIRE k (window_seconds + 1) r1).
  assert (server_now r1 = server_now r) as E1 by apply (same_now k), alone_ZADD.
  assert (server_now r2 = server_now r) as E2 by (rewrite <- E1; apply (same_now k), alone_EXPIRE).
  assert (∃ b, at_ k r1 = Some (VZset (<[token := now]> (scores_at k r)), b)) as (b & Er1).
  { unfold r1. rewrite at_ZADD, decide_True by done. unfold scores_at.
    destruct (ko_zset _ _ _ Hk) as [->|(z & d & -> & _)]; cbn; eauto. }
  assert (at_ k r2 = Some (VZset (<[token := now]> (scores_at k r)), true)) as Er2.
  { unfold r2, EXPIRE. rewrite at_PEXPIRE, decide_True, Er1 by done. cbn. by rewrite (proj2 (Z.leb_gt _ _)) by lia. }
  assert (scores_at k r2 = <[token := now]> (scores_at k r)) as Es by (unfold scores_at at 1; by rewrite Er2).
  split.
  - right. exists (<[token := now]> (scores_at k r)), (server_now r1 + 1000 * (window_seconds + 1)).
    split_and!; [done|apply deadline_PEXPIRE_eq; [by rewrite Er1|lia]|].
    intros token' t Ht. rewrite E1. apply lookup_insert_Some in Ht as [[_ <-]|[_ Ht]]; [lia|].
    pose proof (ko_seen _ _ _ Hk _ _ (lookup_weaken _ _ _ _ Ht (ko_sub _ _ _ Hk))). lia.
  - rewrite Es. apply insert_mono, (ko_sub _ _ _ Hk).
  - intros token' t Ht Hn. rewrite Es in Hn. apply lookup_insert_None in Hn as [Hn Hne].
    rewrite lookup_insert_ne in Ht by done. rewrite E2. by apply (ko_gone _ _ _ Hk token').
  - intros token' t Ht. rewrite E2. apply lookup_insert_Some in Ht as [[_ <-]|[_ Ht]]; [lia|].
    by apply (ko_seen _ _ _ Hk token').
  - intros t. unfold spent. rewrite map_filter_insert. case_decide as Hw; unfold within in Hw; cbn in Hw.
    + transitivity (ZCARD k r + 1); [|lia]. unfold ZCARD.
      enough (size (<[token := now]> (filter (within (window - 2 * skew) t) m)) <=
              S (size (scores_at k r)))%nat by lia.
      rewrite map_size_insert_None by (apply map_lookup_filter_None; by left). apply le_n_S, map_subseteq_size.
      apply map_subseteq_spec. intros token' t' [Ht Hw']%map_lookup_filter_Some. unfold within in Hw'; cbn in Hw'. apply Hin; [done|lia].
    + rewrite delete_id by done. apply (ko_max _ _ _ Hk).
Qed.

Lemma key_ok_less k r r' m token : key_ok k r m → r' = ZREM k token r → key_ok k r' (delete token m).
Proof.
  intros Hk ->. assert (server_now (ZREM k token r) = server_now r) as En by apply (same_now k), alone_ZREM.
  assert (at_ k (ZREM k token r) = None ∧ delete token (scores_at k r) = ∅ ∨
    ∃ z d, at_ k (ZREM k token r) = Some (VZset (delete token z), true) ∧ deadline k (ZREM k token r) = Some d ∧
    at_ k r = Some (VZset z, true) ∧ ∀ token t, z !! token = Some t → t <= 1000 * (d - 1000 * (window_seconds + 1)) + skew) as Hat.
  { rewrite at_ZREM, decide_True by done. destruct (ko_zset _ _ _ Hk) as [E|(z & d & E & Ed & Hle)]; unfold scores_at; rewrite E; cbn.
    - left. split; [done|by rewrite delete_empty].
    - case_decide as Hz; [by left|right]. exists z, d. split_and!; [done| |done..].
      rewrite kept_ZREM; [done|]. rewrite at_ZREM, decide_True, E by done. cbn. by rewrite decide_False. }
  assert (scores_at k (ZREM k token r) = delete token (scores_at k r)) as Es.
  { destruct Hat as [[E Ed]|(z & d & E & _ & E' & _)]; unfold scores_at at 1; rewrite E; [done|].
    unfold scores_at. by rewrite E'. }
  split.
  - destruct Hat as [[E _]|(z & d & E & Ed & _ & Hle)]; [by left|right]. eexists _, d. split_and!; [done..|].
    intros token' t [_ Ht]%lookup_delete_Some. by apply (Hle token').
  - rewrite Es. apply delete_mono, (ko_sub _ _ _ Hk).
  - intros token' t [Hne Ht]%lookup_delete_Some Hn. rewrite Es, lookup_delete_ne in Hn by done. rewrite En.
    by apply (ko_gone _ _ _ Hk token').
  - intros token' t [_ Ht]%lookup_delete_Some. rewrite En. by apply (ko_seen _ _ _ Hk token').
  - intros t. transitivity (spent (window - 2 * skew) t m); [apply spent_sub, delete_subseteq|apply Hk].
Qed.

Lemma key_ok_empty k r : at_ k r = None → key_ok k r ∅.
Proof.
  intros E. assert (scores_at k r = ∅) as Es by (unfold scores_at; by rewrite E).
  split; [by left|by rewrite Es|intros *; by rewrite lookup_empty..|].
  intros t. unfold spent. by rewrite map_filter_empty, map_size_empty.
Qed.

Lemma key_ok_lapse k r r' m : lapse r r' → key_ok k r m → key_ok k r' m.
Proof.
  intros Hl Hk. pose proof (lapse_now _ _ Hl). destruct (lapse_at _ _ Hl k) as [E|[Hv E]].
  - apply (key_ok_fewer k r); [done..| |by intros; apply kept_lapse|].
    + rewrite E. destruct (ko_zset _ _ _ Hk) as [->|(z & d & -> & _)]; [by left|right; by exists z, z].
    + unfold scores_at. rewrite E. intros. congruence.
  - apply (key_ok_fewer k r); [done..|by left|done|].
    intros token t Ht _. destruct (ko_zset _ _ _ Hk) as [E0|(z & d & E0 & Ed & Hle)];
      unfold scores_at in Ht; rewrite E0 in Ht; [by rewrite lookup_empty in Ht|].
    specialize (Hle _ _ Ht). destruct (Z.lt_ge_cases (server_now r') d) as [Hlt|Hge].
    + destruct (lapse_deadline _ _ _ _ Hl Ed Hlt) as [E' _]. congruence.
    + unfold RedisThrottle.window, seconds in *. lia.
Qed.

(** ** Every step *)

Notation key_of := (window_key name).
Notation wstep := (window_step name max_events window_seconds skew).

#[local] Instance window_key_inj : Inj (=) (=) key_of.
Proof.
  intros a b E. unfold window_key in E. cbn in E. injection E as E.
  induction name as [|c n IH]; cbn in E; [by injection E|]. injection E as E. by apply IH.
Qed.

Definition throttle_ok (w : world) : Prop := ∀ key, key_ok (key_of key) w.1 (w.2 key).

(** A method touches one key. *)
Lemma throttle_ok_one key r (m : gmap string Z) (w : world) : throttle_ok w →
  only_key (key_of key) w.1 r → key_ok (key_of key) r m → throttle_ok (r, <[key := m]> w.2).
Proof.
  intros Hw Ho Hk key'. cbn. destruct (decide (key' = key)) as [->|Hne].
  - by rewrite fn_lookup_insert.
  - rewrite fn_lookup_insert_ne by done. apply (key_ok_other (key_of key) _ w.1); [done| |apply Hw].
    by intros ?%(inj key_of).
Qed.

Lemma throttle_ok_read key r (w : world) : throttle_ok w →
  only_key (key_of key) w.1 r → key_ok (key_of key) r (w.2 key) → throttle_ok (r, w.2).
Proof.
  intros Hw Ho Hk key'. cbn. destruct (decide (key' = key)) as [->|Hne]; [done|].
  apply (key_ok_other (key_of key) _ w.1); [done| |apply Hw]. by intros ?%(inj key_of).
Qed.

Lemma consumed_ok key now token w : synced now w.1 → w.2 key !! token = None → throttle_ok w →
  throttle_ok (consumed name max_events window_seconds key now token w) ∧
  let '(accepted, r) := CONSUME (key_of key) (now - window) max_events now token (window_seconds + 1) w.1 in
  (accepted = Some true ∧ ZSCORE (key_of key) token r = Some now) ∨
  (accepted = Some false ∧ max_events <= spent (window + 2 * skew) (now + 2 * skew) (w.2 key)).
Proof.
  intros Hs Hfresh Hw. unfold consumed. rewrite consume_run. cbv zeta.
  destruct (key_ok_prune _ _ _ _ Hs (Hw key)) as [Hk Hin].
  set (r := ZREMRANGEBYSCORE _ _ _) in *.
  assert (only_key (key_of key) w.1 r) as Ho by apply alone_prune.
  assert (server_now r = server_now w.1) as En by by eapply same_now.
  destruct (max_events <=? ZCARD (key_of key) r) eqn:Hc.
  - split; [by apply (throttle_ok_read key)|]. right. split; [done|].
    transitivity (ZCARD (key_of key) r); [lia|]. apply inj_le, map_subseteq_size.
    apply map_subseteq_spec. intros token' t Ht. pose proof (lookup_weaken _ _ _ _ Ht (ko_sub _ _ _ Hk)) as Hm.
    apply map_lookup_filter_Some. split; [done|]. unfold within; cbn. unfold RedisThrottle.synced in Hs.
    pose proof (ko_seen _ _ _ Hk _ _ Hm). split; [|lia].
    destruct (ko_zset _ _ _ (Hw key)) as [E|(z & d & E & _)].
    + unfold scores_at, r in Ht. rewrite at_ZREMRANGEBYSCORE, decide_True, E in Ht by done. cbn in Ht; by rewrite lookup_empty in Ht.
    + unfold r in Ht. rewrite (scores_prune _ _ _ _ E) in Ht. apply map_lookup_filter_Some in Ht as [_ Ht]. cbn in Ht. lia.
  - assert (synced now r) as Hs' by (unfold RedisThrottle.synced in *; by rewrite En).
    assert (key_ok (key_of key) (EXPIRE (key_of key) (window_seconds + 1) (ZADD (key_of key) now token r))
      (<[token := now]> (w.2 key))) as Hk' by (apply key_ok_granted; [done..|lia]).
    split.
    + apply throttle_ok_one; [done| |done]. eapply only_key_trans; [exact Ho|].
      eapply only_key_trans; [apply alone_ZADD|apply alone_EXPIRE].
    + left. split; [done|]. unfold ZSCORE, scores_at, EXPIRE. rewrite at_PEXPIRE, decide_True, at_ZADD, decide_True by done.
      destruct (ko_zset _ _ _ Hk) as [->|(z & d & -> & _)]; cbn;
        rewrite (proj2 (Z.leb_gt _ _)) by lia; [by rewrite lookup_singleton_eq|by rewrite lookup_insert_eq].
Qed.

Lemma window_step_ok w w' : wstep w w' → throttle_ok w → throttle_ok w'.
Proof.
  intros Hstep Hw. destruct Hstep as [key now token Hs Hf|key now Hs|key token|key|r Hl|r [Hn He]].
  - by apply consumed_ok.
  - apply (throttle_ok_read key); [done|apply alone_prune|]. by apply key_ok_prune.
  - apply throttle_ok_one; [done|apply alone_ZREM|]. by eapply key_ok_less.
  - apply throttle_ok_one; [done|apply alone_DEL|]. apply key_ok_empty. by rewrite at_DEL, decide_True.
  - intros key. cbn. by eapply key_ok_lapse.
  - intros key. destruct (He key). by eapply key_ok_same.
Qed.

Lemma throttle_reachable_ok r0 w : (∀ key, at_ (key_of key) r0 = None) →
  rtc wstep (r0, λ _, ∅) w → throttle_ok w.
Proof.
  intros H0' Hr. revert w Hr. apply rtc_ind_r.
  - intros key. by apply key_ok_empty, H0'.
  - intros w w' _ Hs Hw. by eapply window_step_ok.
Qed.

Lemma aconsume_runs key now token (t : list (event (mock_redis R))) out :
  runs (aconsume name on_limit max_events window_seconds key now token) t out →
  ∃ answer, t = [Ev (Σ := mock_redis R) (MExec bool
      (CONSUME (key_of key) (now - window) max_events now token (window_seconds + 1))) answer] ∧
    out = match answer with
          | Ok true => Ok (Some token)
          | Ok false => Exc on_limit
          | Exc x => if is_exception x then Ok None else Exc x
          end.
Proof.
  unfold aconsume, or_allow. intros [(a & t1 & t2 & -> & H1 & H2)|(x & H1 & ->)]%(runs_bind_inv (Σ := mock_redis R));
    apply (runs_attempt_inv (Σ := mock_redis R)) in H1 as (answer & H1 & E); [|done]. injection E as ->.
  apply (runs_perform_inv (Σ := mock_redis R) (MExec bool _)) in H1 as ->. exists answer.
  destruct answer as [[]|x]; [..|destruct (is_exception x)];
    (apply (runs_ret_inv (Σ := mock_redis R)) in H2 as [-> ->] || apply (runs_raise_inv (Σ := mock_redis R)) in H2 as [-> ->]); done.
Qed.

(** C30 (shared throttle: limit). In every history of any number of processes
    whose clocks are within [skew] of the server's, at most [max_events]
    counted events of a key lie in any window shorter by twice the skew,
    however keys lapse.  A request is one script on the server; its event is
    stored when it is let through with a token; it is refused only when that
    many counted events lie in the window around its own time, widened by the
    skew; and it passes uncounted only when the server did not answer. *)
Theorem redis_throttle_limits r0 w :
  (∀ key, at_ (key_of key) r0 = None) → rtc wstep (r0, λ _, ∅) w →
  (∀ key t, spent (window - 2 * skew) t (w.2 key) <= max_events) ∧
  ∀ key now token, synced now w.1 → w.2 key !! token = None →
    let script := CONSUME (key_of key) (now - window) max_events now token (window_seconds + 1) in
    (((script w.1).1 = Some true ∧ ZSCORE (key_of key) token (script w.1).2 = Some now) ∨
     ((script w.1).1 = Some false ∧ max_events <= spent (window + 2 * skew) (now + 2 * skew) (w.2 key))) ∧
    ∀ (t : list (event (mock_redis R))) out,
      runs (aconsume name on_limit max_events window_seconds key now token) t out →
      ∃ answer, t = [Ev (Σ := mock_redis R) (MExec bool script) answer] ∧
        out = match answer with
              | Ok true => Ok (Some token)
              | Ok false => Exc on_limit
              | Exc x => if is_exception x then Ok None else Exc x
              end.
Proof.
  intros H0' Hr. pose proof (throttle_reachable_ok _ _ H0' Hr) as Hw. split; [intros key t; apply Hw|].
  intros key now token Hs Hf script. split.
  - destruct (consumed_ok key now token w Hs Hf Hw) as [_ Hc]. subst script. by destruct (CONSUME _ _ _ _ _ _ _).
  - apply aconsume_runs.
Qed.
End facts.

(** ** The shared sliding window on the executable server

    The server of [MockModel] prunes sorted sets as the throttle needs, and two
    processes with clocks half a second apart share a window. *)

#[export] Instance timed_window : RedisWindow timed := λ k max, on_keys (with_key k (zprune max)).

#[export] Instance timed_window_laws : RedisWindowLaws timed.
Proof.
  split.
  - intros k max k' t. exact (at_with_key k (zprune max) k' (td_keys t)).
  - by intros k max t.
  - by intros k max t.
  - by intros k m t.
  - intros k t t' (_ & gone & _ & Hat & Hd) Hk. cbn in Hk. rewrite Hat in Hk.
    apply Hd. by case_decide.
Qed.

Definition demo_start : world (R := timed) := (MkTimed ∅ ∅ 0, λ _, ∅).

(** Two attempts, the first by a process whose clock is ahead. *)
Definition demo_consume (now : Z) (token : string) : world → world :=
  consumed "login-ip" 2 10 "ip:1" now token.

Definition demo_spent : world := demo_consume 0 "b" (demo_consume 400_000 "a" demo_start).

Lemma demo_spent_reachable : rtc (window_step "login-ip" 2 10 500_000) demo_start demo_spent.
Proof.
  eapply rtc_l; [apply (step_consume _ _ _ _ _ "ip:1" 400_000 "a"); [unfold synced; cbn; lia|done]|].
  eapply rtc_l; [apply (step_consume _ _ _ _ _ "ip:1" 0 "b"); [|vm_compute; reflexivity]|apply rtc_refl].
  vm_compute. discriminate.
Qed.

Lemma redis_throttle_limits_witness :
  let script := CONSUME (window_key "login-ip" "ip:1") (100_000 - window 10) 2 100_000 "c" 11 in
  (script demo_spent.1).1 = Some false ∧
  spent (window 10 - 2 * 500_000) 400_000 (demo_spent.2 "ip:1") = 2 ∧
  spent (window 10 - 2 * 500_000) 400_000 (demo_spent.2 "ip:1") <= 2 ∧
  ((script demo_spent.1).1 = Some true ∨ 2 <= spent (window 10 + 2 * 500_000) (100_000 + 2 * 500_000) (demo_spent.2 "ip:1")).
Proof.
  destruct (redis_throttle_limits "login-ip" (OtherError "TooManyLoginAttemptsError") 2 10 500_000
    ltac:(lia) ltac:(lia) demo_start.1 demo_spent ltac:(done) demo_spent_reachable) as [Hmax Hstep].
  split; [vm_compute; reflexivity|]. split; [vm_compute; reflexivity|]. split; [apply Hmax|].
  destruct (Hstep "ip:1"%string 100_000 "c"%string) as [[[Hv _]|[_ Hs]] _];
    [vm_compute; discriminate|vm_compute; reflexivity|by left|by right].
Defined.
