(* ===== verification/Composition.v ===== *)
(** * What a process is made of ([backend/main.py])

    [lifespan] of the application: which settings loaded, which repository,
    mock state, queue, throttles and services are bound to [app.state], what is
    closed when one replaces another, and what shutdown releases.

    A component is described by what it was built over.  In-process queues and
    mock states carry a serial number, so that two of them differ.  Awaited
    calls into the libraries and the coordinator are the calls of [boot_calls];
    module imports that may be missing are arguments. *)

From S2P Require Import Prelude Calendar Policy Prog Effects Recovery TaskQueue Readiness Url Settings.

Inductive boot_exn :=
| ConfigurationError (message : string)
| PostgresError (text : string)
| OSError (text : string)
| BootError (name : string)
| BootCancelled.

(** [except Exception] *)
Definition boot_is_exception (x : boot_exn) : bool := match x with BootCancelled => false | _ => true end.

(** ** Components *)

Definition client : Type := string.      (* by its URL *)
Definition pool : Type := nat.

Record mock_bounds := MkBounds { mb_capacity : Z; mb_idle_ttl : Z; mb_retention : Z }.

Inductive mock_store :=
| InMemoryMock (serial : nat) (bounds : mock_bounds)
| RedisMock (c : client) (bounds : mock_bounds).

Inductive repository :=
| InMemoryWatches
| RedisWatches (c : client) (terminal_retention : Z).

Inductive task_queue :=
| AsyncQueue (serial : nat)
| CeleryQueue.

Inductive limiter :=
| LocalThrottle (max_events window_seconds : Z)
| SharedThrottle (c : client) (name : string) (max_events window_seconds : Z).

(** [EmailNotificationService] over the history and accounts of a pool. *)
Record mailer := MkMailer { ml_pool : pool; ml_settings : EmailSettings }.

Record auth_service := MkAuth { au_pool : pool; au_settings : AccountSettings }.

(** [MockBookingAdapter] and [BookingService] are wrappers of one argument. *)
Record adapter := MockBookingAdapter { ad_state : mock_store }.
Record booking_service := BookingService { bk_adapter : adapter }.

Record watch_service := MkWatchService {
  sv_repository : repository;
  sv_adapter : adapter;
  sv_queue : task_queue;
  sv_schedule : option PollSchedule;
  sv_recorder : option pool;
  sv_notifier : option mailer;
  sv_notify_timeout : Z;
  sv_timezone_name : option string;
  sv_max_attempts : Z;
  sv_provider_timeout : Z;
  sv_backoff_max : Z;
}.

#[export] Instance watch_service_eta : Eta watch_service := λ s, MkWatchService (sv_repository s) (sv_adapter s)
  (sv_queue s) (sv_schedule s) (sv_recorder s) (sv_notifier s) (sv_notify_timeout s) (sv_timezone_name s)
  (sv_max_attempts s) (sv_provider_timeout s) (sv_backoff_max s).

(** [WatchScheduleDispatcher] and [RecoveryCoordinator] *)
Record dispatcher := MkDispatcher {
  di_repository : repository;
  di_queue : task_queue;
  di_owner : string;
  di_horizon : Z;
}.

Record coordinator := MkCoordinator {
  co_repository : repository;
  co_dispatcher : dispatcher;
  co_owner : string;
  co_distributed : bool;
  co_leader_lease : Z;
  co_earliest_delay : Z;
  co_mock_state : mock_store;
  co_watch_service : watch_service;
}.

Record engine := MkEngine { en_api_key : string; en_model : string; en_timezone_name : string }.

(** ** [app.state] *)

Record app := MkApp {
  ap_cors_origins : list string;
  ap_orchestrator : option engine;
  ap_settings : option Settings;
  ap_settings_error : option string;
  ap_watch_settings : option WatchSettings;
  ap_watch_settings_error : option string;
  ap_redis : option client;
  ap_postgres_pool : option pool;
  ap_watch_history : option pool;
  ap_recorder : option pool;
  ap_notifier : option mailer;
  ap_notify_timeout : Z;
  ap_auth_service : option auth_service;
  ap_login_throttle : option limiter;
  ap_login_ip_throttle : option limiter;
  ap_prompt_throttle : option limiter;
  ap_mock_state : mock_store;
  ap_adapter : adapter;
  ap_booking_service : booking_service;
  ap_repository : repository;
  ap_watch_service : watch_service;
  ap_queue : task_queue;
  ap_queue_mode : string;
  ap_owner : string;
  ap_coordinator : option coordinator;
  ap_sweep : option coordinator;       (* the task of [_recovery_sweep_loop] *)
  ap_readiness : tracker;
  ap_queues : nat;                     (* in-process queues built so far *)
  ap_mocks : nat;                      (* in-process mock states built so far *)
}.
#[export] Instance app_eta : Eta app := λ a, MkApp (ap_cors_origins a) (ap_orchestrator a) (ap_settings a)
  (ap_settings_error a) (ap_watch_settings a) (ap_watch_settings_error a) (ap_redis a) (ap_postgres_pool a)
  (ap_watch_history a) (ap_recorder a) (ap_notifier a) (ap_notify_timeout a) (ap_auth_service a)
  (ap_login_throttle a) (ap_login_ip_throttle a) (ap_prompt_throttle a) (ap_mock_state a) (ap_adapter a)
  (ap_booking_service a) (ap_repository a) (ap_watch_service a) (ap_queue a) (ap_queue_mode a) (ap_owner a)
  (ap_coordinator a) (ap_sweep a) (ap_readiness a) (ap_queues a) (ap_mocks a).

(** ** Calls *)

Inductive boot_call :=
| CreatePool (dsn : string)              (* [asyncpg.create_pool]: a pool or [None] *)
| RunMigrations (p : pool)
| Ping (c : client)
| Info (c : client)                      (* [bool(info.get("cluster_enabled"))] *)
| CloseQueue (q : task_queue)
| CloseClient (c : client)
| ClosePool (p : pool)
| CloseEngine (e : engine)
| ReconcileOnce (co : coordinator)
| ReadClock                              (* of the readiness tracker *)
| CancelSweep (co : coordinator)         (* [task.cancel(); await task] *)
| Release (co : coordinator).

Definition boot_answer (c : boot_call) : Type :=
  match c with
  | CreatePool _ => option pool
  | RunMigrations _ => list string
  | Info _ => bool
  | ReconcileOnce _ => RecoveryOutcome
  | ReadClock => Z
  | _ => ()
  end.

Definition boot_calls : sig := Sig boot_call boot_answer boot_exn.
Notation boot_prog := (prog boot_calls).
Definition boot (c : boot_call) : boot_prog (boot_answer c) := perform (Σ := boot_calls) c.
Definition boot_fail {A} (x : boot_exn) : boot_prog A := Raise (Σ := boot_calls) x.

(** [X.from_environment()] under [except ConfigurationError]: the message is
    kept; a [ValueError] of [urlparse] or [int] escapes. *)
Definition boot_from {A} (r : result A) : boot_prog (A + string) :=
  match r with
  | Ok a => Ret (inl a)
  | Exc message => if (message =? value_error)%string then boot_fail (BootError value_error) else Ret (inr message)
  end.

Definition DEFAULT_NOTIFY_TIMEOUT_SECONDS : Z := seconds 10.

Section composition.
Context (known_zone : string → bool) (bracketed_ok : string → bool) (repr : string → string).
Context (env : string → option string).
Context (has_redis has_celery : bool).    (* the optional modules can be imported *)
Implicit Types (a : app).

(** ** Binding *)

Definition _bind_mock_adapter (state : mock_store) a : app :=
  let adapter := MockBookingAdapter state in
  a <| ap_mock_state := state |> <| ap_adapter := adapter |> <| ap_booking_service := BookingService adapter |>.

(** [in_memory_mock_state(...)] *)
Definition in_memory_mock_state (bounds : mock_bounds) a : mock_store * app :=
  (InMemoryMock (ap_mocks a) bounds, a <| ap_mocks := S (ap_mocks a) |>).

(** The queue a service dispatches to: the given one, or a new in-process one. *)
Definition _bind_queue (queue : option task_queue) a : app :=
  match queue with
  | Some queue => a <| ap_queue := queue |>
  | None => a <| ap_queue := AsyncQueue (ap_queues a) |> <| ap_queues := S (ap_queues a) |>
              <| ap_queue_mode := "asyncio" |>
  end.

Definition _build_watch_service (repository : repository) (schedule : option PollSchedule)
    (max_attempts : option Z) (timezone_name : option string) (queue : option task_queue)
    (provider_timeout backoff_max : Z) a : watch_service * app :=
  let a := _bind_queue queue a in
  (MkWatchService repository (ap_adapter a) (ap_queue a) schedule (ap_recorder a) (ap_notifier a)
     (ap_notify_timeout a) timezone_name (default DEFAULT_MAX_POLL_ATTEMPTS max_attempts)
     provider_timeout backoff_max, a).

(** ** [create_app]: everything in memory *)

Definition default_prompt_throttle : PromptThrottleSettings :=
  MkPromptThrottleSettings DEFAULT_PROMPT_THROTTLE_MAX_REQUESTS DEFAULT_PROMPT_THROTTLE_WINDOW_SECONDS.

(** The origins of the middleware; none without it. *)
Definition _configure_cors : boot_prog (list string) :=
  cors ← boot_from (CorsSettings_from_environment bracketed_ok repr env);
  Ret match cors with inl origins => origins | inr _ => [] end.

Definition create_app (owner : string) : boot_prog app :=
  cors ← _configure_cors;
  prompt ← boot_from (PromptThrottleSettings_from_environment env);
  let prompt := match prompt with inl settings => settings | inr _ => default_prompt_throttle end in
  let bounds := MkBounds DEFAULT_MOCK_SLOT_CAPACITY (seconds DEFAULT_MOCK_SLOT_IDLE_TTL_SECONDS)
                  (seconds DEFAULT_MOCK_BOOKING_RETENTION_SECONDS) in
  let state := InMemoryMock 0 bounds in
  let adapter := MockBookingAdapter state in
  let service := MkWatchService InMemoryWatches adapter (AsyncQueue 0) None None None
                   DEFAULT_NOTIFY_TIMEOUT_SECONDS None DEFAULT_MAX_POLL_ATTEMPTS
                   (seconds DEFAULT_PROVIDER_CALL_TIMEOUT_SECONDS) (seconds DEFAULT_PROVIDER_BACKOFF_MAX_SECONDS) in
  Ret {| ap_cors_origins := cors;
         ap_orchestrator := None;
         ap_settings := None; ap_settings_error := None;
         ap_watch_settings := None; ap_watch_settings_error := None;
         ap_redis := None; ap_postgres_pool := None; ap_watch_history := None; ap_recorder := None;
         ap_notifier := None; ap_notify_timeout := DEFAULT_NOTIFY_TIMEOUT_SECONDS;
         ap_auth_service := None; ap_login_throttle := None; ap_login_ip_throttle := None;
         ap_prompt_throttle := Some (LocalThrottle (pt_max_requests prompt) (pt_window_seconds prompt));
         ap_mock_state := state; ap_adapter := adapter; ap_booking_service := BookingService adapter;
         ap_repository := InMemoryWatches; ap_watch_service := service;
         ap_queue := AsyncQueue 0; ap_queue_mode := "asyncio"; ap_owner := owner;
         ap_coordinator := None; ap_sweep := None; ap_readiness := new_tracker;
         ap_queues := 1; ap_mocks := 1 |}.

(** ** PostgreSQL ([_attach_postgres], [create_pool] of [db/postgres.py]) *)

Definition create_pool (settings : PostgresSettings) : boot_prog pool :=
  match pg_dsn settings with
  | None => boot_fail (ConfigurationError "create_pool called without a POSTGRES_URL. Check enabled first.")
  | Some dsn =>
      let unreachable text := boot_fail (ConfigurationError
        ("Could not connect to PostgreSQL at " +:+ redact_dsn bracketed_ok dsn +:+ ": " +:+ text)) in
      pool ← try_except (Σ := boot_calls) (boot (CreatePool dsn))
        (λ x, match x with OSError text | PostgresError text => Some (unreachable text) | _ => None end);
      match pool with
      | None => boot_fail (ConfigurationError "asyncpg returned no pool for the provided POSTGRES_URL")
      | Some pool => Ret pool
      end
  end.

Definition attach_accounts (pool : pool) a : boot_prog app :=
  settings ← boot_from (AccountSettings_from_environment env);
  match settings with
  | inr _ => Ret a
  | inl settings =>
      let window := as_login_throttle_window_seconds settings in
      Ret (a <| ap_auth_service := Some (MkAuth pool settings) |>
             <| ap_login_throttle := Some (LocalThrottle (as_login_throttle_max_attempts settings) window) |>
             <| ap_login_ip_throttle := Some (LocalThrottle (as_login_ip_throttle_max_attempts settings) window) |>)
  end.

Definition attach_email (pool : pool) a : boot_prog app :=
  settings ← boot_from (EmailSettings_from_environment bracketed_ok repr env);
  match settings with
  | inr _ => Ret a
  | inl settings =>
      match em_host settings with
      | None => Ret a
      | Some _ => Ret (a <| ap_notifier := Some (MkMailer pool settings) |>
                         <| ap_notify_timeout := seconds (em_timeout_seconds settings) |>)
      end
  end.

Definition _attach_postgres a : boot_prog app :=
  settings ← boot_from (PostgresSettings_from_environment bracketed_ok env);
  match settings with
  | inr _ => Ret a
  | inl settings =>
      match pg_dsn settings with
      | None => Ret a
      | Some _ =>
          migrated ← attempt (Σ := boot_calls)
            (pool ← create_pool settings; applied ← boot (RunMigrations pool); Ret pool);
          match migrated with
          | Exc (ConfigurationError _) => Ret a
          | Exc x => boot_fail x
          | Ok pool =>
              a ← attach_accounts pool (a <| ap_postgres_pool := Some pool |> <| ap_watch_history := Some pool |>
                                         <| ap_recorder := Some pool |>);
              attach_email pool a
          end
      end
  end.

(** ** Recovery ([_start_recovery], [_recovery_sweep_loop], [_stop_recovery]) *)

(** One pass, recorded. *)
Definition reconcile_and_record (co : coordinator) (t : tracker) : boot_prog tracker :=
  outcome ← boot (ReconcileOnce co);
  now ← boot ReadClock;
  Ret (record_recovery_outcome outcome now t).

Definition _start_recovery (settings : WatchSettings) (schedule : PollSchedule) (distributed : bool) a
    : boot_prog app :=
  let dispatcher := MkDispatcher (ap_repository a) (ap_queue a) (ap_owner a)
                      (seconds (ws_dispatch_horizon_seconds settings)) in
  let co := MkCoordinator (ap_repository a) dispatcher (ap_owner a) distributed
              (seconds (ws_recovery_leader_lease_seconds settings)) (earliest_delay schedule)
              (ap_mock_state a) (ap_watch_service a) in
  let a := a <| ap_coordinator := Some co |> in
  readiness ← reconcile_and_record co (ap_readiness a);
  Ret (a <| ap_readiness := readiness |> <| ap_sweep := Some co |>).

(** One round of the loop after its sleep; [None] is the end of the task. *)
Definition sweep_round (co : coordinator) (t : tracker) : boot_prog tracker :=
  try_except (Σ := boot_calls) (reconcile_and_record co t)
    (λ x, if boot_is_exception x then Some (Ret t) else None).

Definition _stop_recovery a : boot_prog app :=
  a ← match ap_sweep a with
      | None => Ret a
      | Some co =>
          _ ← try_except (Σ := boot_calls) (boot (CancelSweep co))
            (λ x, match x with BootCancelled => Some (Ret ()) | _ => None end);
          Ret (a <| ap_sweep := None |>)
      end;
  match ap_coordinator a with
  | None => Ret a
  | Some co => _ ← boot (Release co); Ret (a <| ap_coordinator := None |>)
  end.

(** ** Redis ([_attach_redis], [ping] of [db/database.py]) *)

(** [try: ...; return True  except Exception: return False], and alike. *)
Definition or_false (c : boot_prog bool) : boot_prog bool :=
  try_except (Σ := boot_calls) c (λ x, if boot_is_exception x then Some (Ret false) else None).

Definition ping (c : client) : boot_prog bool := or_false (_ ← boot (Ping c); Ret true).

Definition _redis_cluster_enabled (c : client) : boot_prog bool := or_false (boot (Info c)).

(** [RedisSlidingWindowThrottle.like]; one that is shared already stays. *)
Definition shared (c : client) (name : string) (local : option limiter) : option limiter :=
  match local with
  | Some (LocalThrottle max window) => Some (SharedThrottle c name max window)
  | other => other
  end.

Definition _share_throttles_through_redis (c : client) a : app :=
  a <| ap_prompt_throttle := shared c "prompt" (ap_prompt_throttle a) |>
    <| ap_login_throttle := shared c "login-email" (ap_login_throttle a) |>
    <| ap_login_ip_throttle := shared c "login-ip" (ap_login_ip_throttle a) |>.

Definition configured_service (settings : WatchSettings) (schedule : PollSchedule) (queue : option task_queue) a : app :=
  let '(service, a) := _build_watch_service (ap_repository a) (Some schedule) (Some (ws_max_poll_attempts settings))
                         (Some (ws_timezone_name settings)) queue
                         (seconds (ws_provider_call_timeout_seconds settings))
                         (seconds (ws_provider_backoff_max_seconds settings)) a in
  a <| ap_watch_service := service |>.

Definition configured_bounds (settings : WatchSettings) : mock_bounds :=
  MkBounds (ws_mock_slot_capacity settings) (seconds (ws_mock_slot_idle_ttl_seconds settings))
    (seconds (ws_mock_booking_retention_seconds settings)).

(** The in-memory process, with the configured bounds and pacing. *)
Definition attach_memory (settings : WatchSettings) (schedule : PollSchedule) a : boot_prog app :=
  let '(state, a) := in_memory_mock_state (configured_bounds settings) a in
  let a := _bind_mock_adapter state a in
  _ ← boot (CloseQueue (ap_queue a));
  Ret (configured_service settings schedule None a).

(** The upgrade once the server answered and is no cluster. *)
Definition upgrade_to_redis (settings : WatchSettings) (schedule : PollSchedule) (c : client) a : boot_prog app :=
  let queue := if has_celery then Some CeleryQueue else None in
  let a := a <| ap_queue_mode := if has_celery then "celery" else "asyncio" |> in
  _ ← boot (CloseQueue (ap_queue a));
  let a := _share_throttles_through_redis c (a <| ap_redis := Some c |>) in
  let a := a <| ap_repository := RedisWatches c (seconds (ws_terminal_retention_seconds settings)) |> in
  let a := _bind_mock_adapter (RedisMock c (configured_bounds settings)) a in
  Ret (configured_service settings schedule queue a).

Definition _attach_redis a : boot_prog app :=
  match ap_watch_settings a with
  | None => Ret a
  | Some settings =>
      match make_schedule (seconds (ws_poll_interval_seconds settings)) (seconds (ws_poll_jitter_seconds settings)) with
      | None => boot_fail (BootError value_error)
      | Some schedule =>
          a ← attach_memory settings schedule a;
          if negb has_redis then _start_recovery settings schedule false a else
          let c := ws_redis_url settings in
          reachable ← ping c;
          if negb reachable then (_ ← boot (CloseClient c); _start_recovery settings schedule false a) else
          cluster ← _redis_cluster_enabled c;
          if (cluster : bool) then (_ ← boot (CloseClient c); _start_recovery settings schedule false a) else
          a ← upgrade_to_redis settings schedule c a;
          _start_recovery settings schedule true a
      end
  end.

(** ** [lifespan] *)

Definition load_settings a : boot_prog app :=
  watch ← boot_from (WatchSettings_from_environment known_zone bracketed_ok repr env);
  let a := match watch with
           | inl settings => a <| ap_watch_settings := Some settings |> <| ap_watch_settings_error := None |>
           | inr message => a <| ap_watch_settings := None |> <| ap_watch_settings_error := Some message |>
           end in
  settings ← boot_from (Settings_from_environment known_zone bracketed_ok repr env);
  Ret match settings with
      | inl settings => a <| ap_settings := Some settings |> <| ap_settings_error := None |>
      | inr message => a <| ap_settings := None |> <| ap_settings_error := Some message |>
      end.

Definition startup a : boot_prog app := a ← load_settings a; a ← _attach_postgres a; _attach_redis a.

Definition when_some {A} (x : option A) (f : A → boot_prog ()) : boot_prog () :=
  match x with Some y => f y | None => Ret () end.

Definition shutdown a : boot_prog () :=
  a ← _stop_recovery a;
  _ ← boot (CloseQueue (ap_queue a));
  _ ← when_some (ap_redis a) (λ c, boot (CloseClient c));
  _ ← when_some (ap_postgres_pool a) (λ p, boot (ClosePool p));
  when_some (ap_orchestrator a) (λ e, boot (CloseEngine e)).

(** ** What requests are served from ([api/dependencies.py]) *)

Definition get_watch_service a : boot_exn + watch_service :=
  match ap_watch_settings_error a, ap_watch_settings a with
  | Some message, _ => inl (ConfigurationError message)
  | None, None => inl (BootError "RuntimeError")
  | None, Some _ => inr (ap_watch_service a)
  end.

Definition get_prompt_router a : boot_exn + booking_service * watch_service :=
  match get_watch_service a with
  | inl x => inl x
  | inr service => inr (ap_booking_service a, service)
  end.

Definition get_auth_service a : option auth_service := ap_auth_service a.

(** [get_orchestrator]: nothing is awaited once the lock is held. *)
Definition get_orchestrator a : boot_prog (engine * app) :=
  match ap_orchestrator a with
  | Some engine => Ret (engine, a)
  | None =>
      settings ← match ap_settings a with
                 | Some settings => Ret settings
                 | None =>
                     loaded ← boot_from (Settings_from_environment known_zone bracketed_ok repr env);
                     match loaded with
                     | inl settings => Ret settings
                     | inr message => boot_fail (ConfigurationError message)
                     end
                 end;
      let engine := MkEngine (se_openai_api_key settings) (se_openai_model settings)
                      (ws_timezone_name (se_watch settings)) in
      Ret (engine, a <| ap_orchestrator := Some engine |>)
  end.
End composition.
