(* ===== verification/CompositionTheorems.v ===== *)
(** * What a process is made of: theorems

    Whatever is reachable at startup, the bound components fit together;
    shutdown releases what startup acquired, but for a pool whose migrations
    raised a configuration error; and only a few failures stop the startup. *)
From S2P Require Import Prelude Prog Calendar Policy Effects Recovery Url Settings TaskQueue.
From S2P Require Import Readiness Composition.

Notation boot_event := (event boot_calls).
Abbreviation Did := (Ev (Σ := boot_calls)).

Implicit Types (a : app) (t : list boot_event) (x : boot_exn).

(** ** Specifications of the ways a program can end *)

Definition ends {A} (p : boot_prog A) (Q : list boot_event → A → Prop) (E : list boot_event → boot_exn → Prop) : Prop :=
  ∀ t out, runs p t out → match out with Ok r => Q t r | Exc x => E t x end.

Section ends.
Context (E : list boot_event → boot_exn → Prop).

Lemma ends_mono {A} (p : boot_prog A) (Q Q' : list boot_event → A → Prop) :
  ends p Q E → (∀ t r, Q t r → Q' t r) → ends p Q' E.
Proof. intros Hp HQ t [r|x] Hr; [apply HQ|]; exact (Hp _ _ Hr). Qed.

Lemma ends_mono' {A} (p : boot_prog A) (Q Q' : list boot_event → A → Prop) (E' : list boot_event → boot_exn → Prop) :
  ends p Q E → (∀ t r, Q t r → Q' t r) → (∀ t x, E t x → E' t x) → ends p Q' E'.
Proof. intros Hp HQ HE t [r|x] Hr; [apply HQ|apply HE]; exact (Hp _ _ Hr). Qed.

Lemma ends_ret {A} (r : A) Q : Q [] r → ends (Ret r) Q E.
Proof. by intros HQ t out [-> ->]%(runs_ret_inv (Σ := boot_calls)). Qed.

Lemma ends_fail {A} x (Q : _ → A → _) : E [] x → ends (boot_fail x) Q E.
Proof. by intros HQ t out [-> ->]%(runs_raise_inv (Σ := boot_calls)). Qed.

Lemma ends_boot c Q : (∀ r, Q [Did c (Ok r)] r) → (∀ x, E [Did c (Exc x)] x) → ends (boot c) Q E.
Proof. intros HQ HE t out ->%(runs_perform_inv (Σ := boot_calls) c). destruct out; auto. Qed.

Lemma ends_try {A} (p : boot_prog A) h Q (Ep : list boot_event → boot_exn → Prop) :
  ends p Q Ep →
  (∀ t x, Ep t x → match h x with None => E t x | Some q => ends q (λ t', Q (t ++ t')) (λ t', E (t ++ t')) end) →
  ends (try_except (Σ := boot_calls) p h) Q E.
Proof.
  intros Hp Hh t out [(r & -> & Hr)|[(x & Hx & -> & Hr)|(x & q & t1 & t2 & Hx & -> & Hr & Hq)]]%(runs_try_inv (Σ := boot_calls)).
  - exact (Hp _ _ Hr).
  - specialize (Hh t x (Hp _ _ Hr)). by rewrite Hx in Hh.
  - specialize (Hh t1 x (Hp _ _ Hr)). rewrite Hx in Hh. exact (Hh _ _ Hq).
Qed.

Lemma ends_attempt {A} (p : boot_prog A) Q :
  ends p (λ t r, Q t (Ok r)) (λ t x, Q t (Exc x)) → ends (attempt (Σ := boot_calls) p) Q E.
Proof. intros Hp t out (r & Hr & ->)%(runs_attempt_inv (Σ := boot_calls)). specialize (Hp _ _ Hr). by destruct r. Qed.
End ends.

Lemma ends_bind {A B} (p : boot_prog A) (f : A → boot_prog B) P Q E :
  ends p P E → (∀ t r, P t r → ends (f r) (λ t', Q (t ++ t')) (λ t', E (t ++ t'))) →
  ends (p ≫= f) Q E.
Proof.
  intros Hp Hf t out [(r & t1 & t2 & -> & H1 & H2)|(x & H1 & ->)]%(runs_bind_inv (Σ := boot_calls)).
  - exact (Hf _ _ (Hp _ _ H1) _ _ H2).
  - exact (Hp _ _ H1).
Qed.

(** Facts about the result alone. *)
Definition always {A} (P : A → Prop) (_ : list boot_event) (r : A) : Prop := P r.
Definition any (_ : list boot_event) (_ : boot_exn) : Prop := True.

Definition yields {A} (p : boot_prog A) (P : A → Prop) : Prop := ends p (always P) any.

Lemma yields_bind {A B} (p : boot_prog A) (f : A → boot_prog B) P Q :
  yields p P → (∀ r, P r → yields (f r) Q) → yields (p ≫= f) Q.
Proof. intros Hp Hf. eapply ends_bind; [exact Hp|]. intros t r Hr. exact (Hf r Hr). Qed.

Lemma yields_ret {A} (r : A) P : P r → yields (Ret r) P.
Proof. intros. by apply ends_ret. Qed.

Lemma yields_call c : yields (boot c) (λ _, True).
Proof. by apply ends_boot. Qed.

Lemma yields_fail {A} x (P : A → Prop) : yields (boot_fail x) P.
Proof. by apply ends_fail. Qed.

Lemma yields_from {A} (r : result A) : yields (boot_from r) (λ v, match v with inl s => r = Ok s | inr m => r = Exc m end).
Proof.
  unfold boot_from. destruct r as [s|m]; [by apply yields_ret|].
  destruct (_ =? _)%string; [apply yields_fail|by apply yields_ret].
Qed.

Lemma yields_top {A} (p : boot_prog A) : yields p (λ _, True).
Proof. by intros t [] _. Qed.

Lemma yields_mono {A} (p : boot_prog A) (P Q : A → Prop) : yields p P → (∀ r, P r → Q r) → yields p Q.
Proof. intros Hp HPQ. eapply ends_mono; [exact Hp|]. intros t r. apply HPQ. Qed.

(** ** Components that fit together *)

Definition local_limiter (l : option limiter) : Prop :=
  match l with Some (SharedThrottle _ _ _ _) => False | _ => True end.
Definition shared_limiter (c : client) (name : string) (l : option limiter) : Prop :=
  match l with Some (SharedThrottle c' name' _ _) => c' = c ∧ name' = name | Some (LocalThrottle _ _) => False | None => True end.

Record coherent a : Prop := {
  ch_adapter : ap_adapter a = MockBookingAdapter (ap_mock_state a) ∧ ap_booking_service a = BookingService (ap_adapter a);
  ch_service : sv_repository (ap_watch_service a) = ap_repository a ∧ sv_adapter (ap_watch_service a) = ap_adapter a ∧
    sv_queue (ap_watch_service a) = ap_queue a;
  ch_mode : ap_queue_mode a = match ap_queue a with CeleryQueue => "celery"%string | AsyncQueue _ => "asyncio"%string end;
  ch_store : match ap_redis a with
    | None => ap_repository a = InMemoryWatches ∧ (∃ n b, ap_mock_state a = InMemoryMock n b) ∧
        (∃ n, ap_queue a = AsyncQueue n) ∧ local_limiter (ap_prompt_throttle a) ∧
        local_limiter (ap_login_throttle a) ∧ local_limiter (ap_login_ip_throttle a)
    | Some c => (∃ r, ap_repository a = RedisWatches c r) ∧ (∃ b, ap_mock_state a = RedisMock c b) ∧
        shared_limiter c "prompt" (ap_prompt_throttle a) ∧ shared_limiter c "login-email" (ap_login_throttle a) ∧
        shared_limiter c "login-ip" (ap_login_ip_throttle a)
    end;
  ch_pool : ap_watch_history a = ap_postgres_pool a ∧ ap_recorder a = ap_postgres_pool a ∧
    (∀ s, ap_auth_service a = Some s → ap_postgres_pool a = Some (au_pool s)) ∧
    (∀ m, ap_notifier a = Some m → ap_postgres_pool a = Some (ml_pool m) ∧
       ap_notify_timeout a = seconds (em_timeout_seconds (ml_settings m)));
}.

Section theorems.
Context (known_zone : string → bool) (bracketed_ok : string → bool) (repr : string → string).
Context (env : string → option string) (has_redis has_celery : bool).

Notation boot_process := (λ owner, create_app bracketed_ok repr env owner ≫= startup known_zone bracketed_ok repr env has_redis has_celery).

(** Nothing is configured yet. *)
Record blank_app a : Prop := {
  bl_coherent : coherent a;
  bl_redis : ap_redis a = None;
  bl_recovery : ap_coordinator a = None ∧ ap_sweep a = None;
}.

Lemma create_app_blank owner : yields (create_app bracketed_ok repr env owner) (λ a, blank_app a ∧ ap_postgres_pool a = None).
Proof.
  unfold create_app. eapply yields_bind; [apply yields_top|]. intros cors _.
  eapply yields_bind; [apply yields_top|]. intros prompt _. apply yields_ret.
  split; [|done]. split; [|done..]. split; cbn; try done. split_and!; try done; eauto.
Qed.

Definition settings_loaded a : Prop :=
  match ap_watch_settings a with
  | Some settings => WatchSettings_from_environment known_zone bracketed_ok repr env = Ok settings ∧
      ap_watch_settings_error a = None
  | None => ∃ message, WatchSettings_from_environment known_zone bracketed_ok repr env = Exc message ∧
      ap_watch_settings_error a = Some message
  end.

Lemma load_settings_spec a : blank_app a → ap_postgres_pool a = None →
  yields (load_settings known_zone bracketed_ok repr env a)
    (λ a, blank_app a ∧ ap_postgres_pool a = None ∧ settings_loaded a).
Proof.
  intros [[Ha Hs Hm Hst Hp] Hr Hc] Hn. unfold load_settings.
  eapply yields_bind; [apply yields_from|]. intros watch Hw.
  eapply yields_bind; [apply yields_top|]. intros settings _.
  apply yields_ret. unfold settings_loaded.
  destruct watch, settings; cbn; (split; [split; [split|..]; done|]); split; (done || naive_solver).
Qed.

Lemma attach_postgres_spec a : blank_app a → ap_postgres_pool a = None → settings_loaded a →
  yields (_attach_postgres bracketed_ok repr env a) (λ a, blank_app a ∧ settings_loaded a).
Proof.
  intros Hb Hn Hl. unfold _attach_postgres. eapply yields_bind; [apply yields_top|]. intros [settings|m] _; [|by apply yields_ret].
  destruct (pg_dsn settings); [|by apply yields_ret]. eapply yields_bind; [apply yields_top|].
  intros [pool|[]] _; [|try apply yields_fail; by apply yields_ret..].
  destruct Hb as [[Ha Hs Hm Hst Hp] Hr Hc]. rewrite Hr in Hst. destruct Hp as (_ & _ & Hau & Hml). rewrite Hn in Hau, Hml.
  apply (yields_bind _ _ (λ a, (blank_app a ∧ settings_loaded a) ∧ ap_postgres_pool a = Some pool)).
  - unfold attach_accounts. eapply yields_bind; [apply yields_top|].
    intros [accounts|m] _; apply yields_ret; (split; [|done]); (split; [|done]); split; try done;
      split; cbn; rewrite ?Hr; try done; split_and!; naive_solver.
  - clear. intros a [[Hb Hl] Hp]. unfold attach_email. eapply yields_bind; [apply yields_top|].
    intros [email|m] _; [|by apply yields_ret]. destruct (em_host email); [|by apply yields_ret]. apply yields_ret.
    destruct Hb as [[Ha Hs Hm Hst Hq] Hr Hc]. split; [|done]. split; try done. split; cbn; try done.
    split_and!; [apply Hq..|]. by intros mail [= <-].
Qed.

(** What [_start_recovery] adds. *)
Definition recovering (distributed : bool) a : Prop :=
  ∃ co, ap_coordinator a = Some co ∧ ap_sweep a = Some co ∧
    co_repository co = ap_repository a ∧ di_repository (co_dispatcher co) = ap_repository a ∧
    di_queue (co_dispatcher co) = ap_queue a ∧ co_mock_state co = ap_mock_state a ∧
    co_watch_service co = ap_watch_service a ∧ co_distributed co = distributed ∧
    co_owner co = ap_owner a ∧ di_owner (co_dispatcher co) = ap_owner a.

(** The service was built for the settings, after PostgreSQL was attached. *)
Definition configured (settings : WatchSettings) a : Prop :=
  let service := ap_watch_service a in
  ap_watch_settings a = Some settings ∧
  sv_recorder service = ap_postgres_pool a ∧ sv_notifier service = ap_notifier a ∧
  sv_notify_timeout service = ap_notify_timeout a ∧
  sv_timezone_name service = Some (ws_timezone_name settings) ∧
  sv_max_attempts service = ws_max_poll_attempts settings ∧
  sv_provider_timeout service = seconds (ws_provider_call_timeout_seconds settings) ∧
  sv_backoff_max service = seconds (ws_provider_backoff_max_seconds settings) ∧
  ∃ schedule, sv_schedule service = Some schedule ∧ schedule_ok schedule ∧
    ps_interval schedule = seconds (ws_poll_interval_seconds settings) ∧
    ps_jitter schedule = seconds (ws_poll_jitter_seconds settings).

Lemma start_recovery_spec settings schedule distributed a :
  coherent a → configured settings a → settings_loaded a →
  yields (_start_recovery settings schedule distributed a)
    (λ a', ap_redis a' = ap_redis a ∧ coherent a' ∧ configured settings a' ∧ settings_loaded a' ∧ recovering distributed a').
Proof.
  intros Ha Hc Hl. unfold _start_recovery. eapply yields_bind; [apply yields_top|]. intros readiness _.
  apply yields_ret. split; [done|]. split; [|split; [done|split; [done|]]].
  - by destruct Ha.
  - eexists. cbn. by split_and!.
Qed.

Lemma attach_memory_spec settings schedule a : blank_app a → ap_watch_settings a = Some settings →
  make_schedule (seconds (ws_poll_interval_seconds settings)) (seconds (ws_poll_jitter_seconds settings)) = Some schedule →
  settings_loaded a →
  yields (attach_memory settings schedule a) (λ a, blank_app a ∧ configured settings a ∧ settings_loaded a).
Proof.
  intros [[Ha Hs Hm Hst Hp] Hr Hc] Hw [-> Hok]%make_schedule_ok Hl. rewrite Hr in Hst. unfold attach_memory.
  eapply yields_bind; [apply yields_call|]. intros [] _. apply yields_ret. split; [|split; [|done]].
  - split; [|done..]. split; cbn; rewrite ?Hr; try done. split_and!; try apply Hst; eauto.
  - unfold configured. cbn. destruct Hp as (_ & Hrec & _). split_and!; try done. by eexists.
Qed.

Lemma upgrade_spec settings schedule c a : blank_app a → ap_watch_settings a = Some settings →
  make_schedule (seconds (ws_poll_interval_seconds settings)) (seconds (ws_poll_jitter_seconds settings)) = Some schedule →
  settings_loaded a →
  yields (upgrade_to_redis has_celery settings schedule c a)
    (λ a, ap_redis a = Some c ∧ coherent a ∧ configured settings a ∧ settings_loaded a).
Proof.
  intros [[Ha Hs Hm Hst Hp] Hr Hc] Hw [-> Hok]%make_schedule_ok Hl. rewrite Hr in Hst. unfold upgrade_to_redis.
  eapply yields_bind; [apply yields_call|]. intros [] _. apply yields_ret.
  assert (∀ name l, local_limiter l → shared_limiter c name (shared c name l)) as Hsh by by intros name [[]|].
  destruct has_celery; cbn; (split; [done|]; split; [|split; [|done]]).
  1,3: split; cbn; try done; split_and!; eauto; apply Hsh, Hst.
  all: unfold configured; cbn; destruct Hp as (_ & Hrec & _); split_and!; try done; by eexists.
Qed.

Lemma attach_redis_spec a : blank_app a → settings_loaded a →
  yields (_attach_redis has_redis has_celery a) (λ a', coherent a' ∧ settings_loaded a' ∧
    match ap_watch_settings a with
    | Some settings => configured settings a' ∧ recovering (bool_decide (is_Some (ap_redis a'))) a'
    | None => a' = a
    end).
Proof.
  intros Hb Hl. unfold _attach_redis. destruct (ap_watch_settings a) as [settings|] eqn:Hw; [|apply yields_ret; split_and!; [apply Hb|done..]].
  destruct (make_schedule _ _) as [schedule|] eqn:Hsch; [|apply yields_fail].
  eapply yields_bind; [by eapply attach_memory_spec|]. intros a1 (Hb1 & Hc1 & Hl1).
  assert (∀ a, blank_app a → configured settings a → settings_loaded a →
    yields (_start_recovery settings schedule false a) (λ a', coherent a' ∧ settings_loaded a' ∧
      configured settings a' ∧ recovering (bool_decide (is_Some (ap_redis a'))) a')) as Hlocal.
  { intros a' Hb' Hc' Hl'. eapply yields_mono; [apply start_recovery_spec; [apply Hb'|done..]|].
    intros a2 (Hr & ? & ? & ? & ?). rewrite Hr, (bl_redis _ Hb'). done. }
  assert (ap_watch_settings a1 = Some settings) as Hw1 by apply Hc1.
  destruct has_redis; cbn [negb]; [|by apply Hlocal].
  eapply yields_bind; [apply yields_top|]. intros [] _; cbn [negb]; [|eapply yields_bind; [apply yields_top|]; intros _ _; by apply Hlocal].
  eapply yields_bind; [apply yields_top|]. intros [] _; [eapply yields_bind; [apply yields_top|]; intros _ _; by apply Hlocal|].
  eapply yields_bind; [by apply upgrade_spec|]. intros a2 (Hr2 & Hh2 & Hc2 & Hl2).
  eapply yields_mono; [by apply start_recovery_spec|].
  intros a3 (Hr & ? & ? & ? & ?). rewrite Hr, Hr2. done.
Qed.

(** C31 (composition: coherence). Whatever is configured and whatever answers at
    startup: if the process comes up, all its components belong together.  The
    booking service, the watch service and the recovery coordinator use the
    same mock state, the same repository and the same queue; repository, mock
    state and throttles are all on Redis or all in memory; accounts, email and
    history share one pool.  With valid watch settings the watch service is the
    configured one and recovery runs over exactly these components, with a
    leader lease just in case of Redis; with invalid ones every request that
    needs watches gets the retained error. *)
Theorem startup_is_coherent owner t a :
  runs (boot_process owner) t (Ok a) →
  coherent a ∧
  match ap_watch_settings a with
  | Some settings => WatchSettings_from_environment known_zone bracketed_ok repr env = Ok settings ∧
      configured settings a ∧ recovering (bool_decide (is_Some (ap_redis a))) a ∧
      get_prompt_router a = inr (ap_booking_service a, ap_watch_service a)
  | None => ∃ message, WatchSettings_from_environment known_zone bracketed_ok repr env = Exc message ∧
      get_prompt_router a = inl (ConfigurationError message) ∧
      ap_redis a = None ∧ ap_coordinator a = None ∧ ap_sweep a = None
  end.
Proof.
  revert t a. enough (yields (boot_process owner) (λ a, coherent a ∧ settings_loaded a ∧
    match ap_watch_settings a with
    | Some settings => configured settings a ∧ recovering (bool_decide (is_Some (ap_redis a))) a
    | None => ap_redis a = None ∧ ap_coordinator a = None ∧ ap_sweep a = None
    end)) as Hb.
  { intros t a Hr. destruct (Hb _ _ Hr) as (Hc & Hl & Hm). split; [done|].
    unfold settings_loaded, get_prompt_router, get_watch_service in *. destruct (ap_watch_settings a).
    - destruct Hl as [? ->]. naive_solver.
    - destruct Hl as (message & ? & ->). by exists message. }
  eapply yields_bind; [apply create_app_blank|]. intros a0 [Hb0 Hn0]. unfold startup.
  eapply yields_bind; [by apply load_settings_spec|]. intros a1 (Hb1 & Hn1 & Hl1).
  eapply yields_bind; [by apply attach_postgres_spec|]. intros a2 [Hb2 Hl2].
  eapply yields_mono; [by apply attach_redis_spec|]. intros a3 (Hc3 & Hl3 & Hm).
  destruct (ap_watch_settings a2) as [settings|] eqn:Hw.
  - destruct Hm as [Hcf Hrec]. pose proof (proj1 Hcf) as ->. done.
  - subst a3. rewrite Hw. by destruct Hb2 as [_ ? [? ?]].
Qed.

(** ** What is acquired and released *)

Inductive resource :=
| RQueue (q : task_queue)
| RClient (c : client)
| RPool (p : pool)
| RLease (co : coordinator).

Definition acquired (e : boot_event) : option resource :=
  match e with
  | Ev (Ping c) _ => Some (RClient c)
  | Ev (CreatePool _) (Ok (Some p)) => Some (RPool p)
  | Ev (ReconcileOnce co) _ => Some (RLease co)
  | _ => None
  end.

Definition released (e : boot_event) : option resource :=
  match e with
  | Ev (CloseQueue q) (Ok _) => Some (RQueue q)
  | Ev (CloseClient c) (Ok _) => Some (RClient c)
  | Ev (ClosePool p) (Ok _) => Some (RPool p)
  | Ev (Release co) (Ok _) => Some (RLease co)
  | _ => None
  end.

(** A pool whose migrations ended in a configuration error: [_attach_postgres]
    goes on without it, and nothing refers to it any more. *)
Definition leaked (e : boot_event) : option resource :=
  match e with Ev (RunMigrations p) (Exc (ConfigurationError _)) => Some (RPool p) | _ => None end.

Definition holds a (r : resource) : Prop :=
  match r with
  | RQueue q => ap_queue a = q
  | RClient c => ap_redis a = Some c
  | RPool p => ap_postgres_pool a = Some p
  | RLease co => ap_coordinator a = Some co
  end.

(** Released, or leaked. *)
Definition gone t (r : resource) : Prop := r ∈ omap released t ∨ r ∈ omap leaked t.

Lemma gone_app t t' r : gone (t ++ t') r ↔ gone t r ∨ gone t' r.
Proof. unfold gone. rewrite !omap_app, !elem_of_app. tauto. Qed.

(** From [a] to [a'] by [t]: what was held or acquired is held or gone, but for
    what is still [owed]. *)
Record owes (owed : resource → Prop) a t a' : Prop := {
  ow_resource r : r ∈ omap acquired t ∨ holds a r → holds a' r ∨ gone t r ∨ owed r;
  ow_queues i : (ap_queues a <= i < ap_queues a')%nat →
    holds a' (RQueue (AsyncQueue i)) ∨ gone t (RQueue (AsyncQueue i)) ∨ owed (RQueue (AsyncQueue i));
}.

Notation settles := (owes (λ _, False)).

Lemma owes_trans P P' a t a1 t' a' : owes P a t a1 → owes P' a1 t' a' →
  (∀ r, P r → holds a' r ∨ gone t' r ∨ P' r) → owes P' a (t ++ t') a'.
Proof.
  intros [Hr Hq] [Hr' Hq'] Hp. split.
  - intros r. rewrite omap_app, elem_of_app, gone_app. intros [[Hin|Hin]|Hh].
    + destruct (Hr r (or_introl Hin)) as [Hh|[Hg|HP]]; [destruct (Hr' r (or_intror Hh))|tauto|destruct (Hp r HP)]; tauto.
    + destruct (Hr' r (or_introl Hin)); tauto.
    + destruct (Hr r (or_intror Hh)) as [Hh'|[Hg|HP]]; [destruct (Hr' r (or_intror Hh'))|tauto|destruct (Hp r HP)]; tauto.
  - intros i Hi. rewrite gone_app. destruct (decide (i < ap_queues a1)%nat).
    + destruct (Hq i ltac:(lia)) as [Hh|[Hg|HP]]; [destruct (Hr' _ (or_intror Hh))|tauto|destruct (Hp _ HP)]; tauto.
    + destruct (Hq' i ltac:(lia)); tauto.
Qed.

Lemma settles_trans P a t a1 t' a' : settles a t a1 → owes P a1 t' a' → owes P a (t ++ t') a'.
Proof. intros H1 H2. by eapply owes_trans. Qed.

(** Nothing is acquired and nothing given up. *)
Lemma owes_silent a t a' : omap acquired t = [] → ap_queues a' = ap_queues a →
  (∀ r, holds a r → holds a' r) → settles a t a'.
Proof.
  intros E Eq Hh. split; [|lia]. intros r. rewrite E. intros [[]%elem_of_nil|?]. left. auto.
Qed.

(** Programs that keep the books. *)
Notation keeps p a := (ends p (settles a) any).

Lemma books_ret a a' : ap_queues a' = ap_queues a → (∀ r, holds a r → holds a' r) → keeps (Ret a') a.
Proof. intros. apply ends_ret. by apply owes_silent. Qed.

Lemma books_bind (p : boot_prog app) f a : keeps p a → (∀ a1, keeps (f a1) a1) → keeps (p ≫= f) a.
Proof.
  intros Hp Hf. eapply ends_bind; [exact Hp|]. intros t a1 H1. eapply ends_mono; [apply Hf|].
  intros t' a2. by apply settles_trans.
Qed.

(** A reading that acquires nothing comes first. *)
Lemma books_after {A} (p : boot_prog A) f a (P : A → Prop) :
  ends p (λ t r, omap acquired t = [] ∧ P r) any → (∀ r, P r → keeps (f r) a) → keeps (p ≫= f) a.
Proof.
  intros Hp Hf. eapply ends_bind; [exact Hp|]. intros t r [E Hr]. eapply ends_mono; [by apply Hf|].
  intros t' a2. apply settles_trans. by apply owes_silent.
Qed.

Lemma from_silent {A} (r : result A) : ends (boot_from r) (λ t _, omap acquired t = [] ∧ True) any.
Proof. unfold boot_from. destruct r as [s|m]; [by apply ends_ret|]. destruct (_ =? _)%string; [by apply ends_fail|by apply ends_ret]. Qed.

Lemma cors_silent : ends (_configure_cors bracketed_ok repr env) (λ t _, omap acquired t = []) any.
Proof.
  eapply ends_bind; [apply from_silent|]. intros t cors [E _]. apply ends_ret. by rewrite app_nil_r.
Qed.

Lemma books_load a : keeps (load_settings known_zone bracketed_ok repr env a) a.
Proof.
  unfold load_settings. eapply books_after; [apply from_silent|]. intros watch _.
  eapply books_after; [apply from_silent|]. intros settings _. destruct watch, settings; by apply books_ret; [|intros []].
Qed.

Lemma ends_both {A} (p : boot_prog A) Q (P : A → Prop) :
  ends p Q any → yields p P → ends p (λ t r, Q t r ∧ P r) any.
Proof. intros HQ HP t [r|x] Hr; [split; [exact (HQ _ _ Hr)|exact (HP _ _ Hr)]|done]. Qed.

(** The pool of [_attach_postgres], once connected and migrated. *)
Lemma create_pool_trace settings :
  ends (create_pool bracketed_ok settings) (λ t p, omap acquired t = [RPool p])
    (λ t x, omap acquired t = []).
Proof.
  unfold create_pool. destruct (pg_dsn settings) as [dsn|]; [|by apply ends_fail].
  apply (ends_bind _ _ (λ t o, omap acquired t = match o with Some p => [RPool p] | None => [] end)).
  - apply (ends_try _ _ _ _ (λ t _, omap acquired t = [])).
    + apply (ends_boot _ (CreatePool dsn)); [by intros [p|]|done].
    + intros t [] E; try done; apply ends_fail; by rewrite app_nil_r.
  - intros t [p|] E; [apply ends_ret|apply ends_fail]; by rewrite app_nil_r.
Qed.

Lemma migrated_pool_trace settings a :
  ends (attempt (Σ := boot_calls)
      (pool ← create_pool bracketed_ok settings; _ ← boot (RunMigrations pool); Ret pool))
    (λ t o, match o with
            | Ok p => owes (λ r, r = RPool p) a t a
            | Exc (ConfigurationError _) => settles a t a
            | Exc _ => True
            end) any.
Proof.
  apply ends_attempt.
  assert (∀ t, omap acquired t = [] → settles a t a) as Hnone by (intros; by apply owes_silent).
  eapply ends_bind; [eapply ends_mono'; [apply create_pool_trace|done|]; intros t [] E; by auto|].
  intros t p E. cbn beta in E.
  apply (ends_bind _ _ (λ t' _, omap acquired t' = [])).
  - apply ends_boot; [done|]. intros []; try done. split; [|lia]. intros r. rewrite omap_app, E, gone_app.
    intros [[->%list_elem_of_singleton|[]%elem_of_nil]%elem_of_app|?]; [|by left].
    right; left; right; right. left.
  - intros t' applied E'. apply ends_ret. rewrite app_nil_r. split; [|lia]. intros r.
    rewrite omap_app, E, E', gone_app. intros [->%list_elem_of_singleton|?]; auto.
Qed.

Lemma books_postgres a : ap_postgres_pool a = None → keeps (_attach_postgres bracketed_ok repr env a) a.
Proof.
  intros Hn. unfold _attach_postgres. eapply books_after; [apply from_silent|]. intros [settings|m] _; [|by apply books_ret].
  destruct (pg_dsn settings) as [dsn|]; [|by apply books_ret].
  eapply ends_bind; [apply migrated_pool_trace|]. intros t [p|x] Ho.
  - set (a1 := a <| ap_postgres_pool := Some p |> <| ap_watch_history := Some p |> <| ap_recorder := Some p |>).
    assert (settles a t a1) as H1.
    { rewrite <- (app_nil_r t). eapply (owes_trans _ _ _ _ a); [exact Ho| |intros r ->; by left].
      apply owes_silent; [done..|]. intros [] Hh; try done. cbn in Hh. congruence. }
    eapply ends_mono; [apply (books_bind (attach_accounts env p a1) _ a1)|intros t' a' H2; by eapply settles_trans].
    + unfold attach_accounts. eapply books_after; [apply from_silent|]. intros [accounts|m] _; by apply books_ret; [|intros []].
    + intros a2. unfold attach_email. eapply books_after; [apply from_silent|]. intros [email|m] _; [|by apply books_ret].
      destruct (em_host email); by apply books_ret; [|intros []].
  - destruct x; try by apply ends_fail. apply ends_ret. by rewrite app_nil_r.
Qed.

Lemma books_start_recovery settings schedule distributed a : ap_coordinator a = None →
  keeps (_start_recovery settings schedule distributed a) a.
Proof.
  intros Hn. unfold _start_recovery, reconcile_and_record. set (co := MkCoordinator _ _ _ _ _ _ _ _).
  eapply (ends_bind _ _ (λ t _, omap acquired t = [RLease co])).
  - apply (ends_bind _ _ (λ t _, omap acquired t = [RLease co])); [by apply (ends_boot _ (ReconcileOnce co))|].
    intros t outcome E. apply (ends_bind _ _ (λ t' _, omap acquired t' = [])); [by apply (ends_boot _ ReadClock)|].
    intros t' now E'. apply ends_ret. by rewrite !omap_app, E, E'.
  - intros t readiness E. apply ends_ret. rewrite app_nil_r. split; [|cbn; lia]. intros r. rewrite E.
    intros [->%list_elem_of_singleton|Hh]; [by left|left]. destruct r; try done. cbn in *. congruence.
Qed.

(** The queue is closed before another one is bound. *)
Lemma books_rebind q a a' : ap_queue a = q →
  (∀ r, holds a r → holds a' r ∨ r = RQueue q) →
  (∀ i, (ap_queues a <= i < ap_queues a')%nat → ap_queue a' = AsyncQueue i) →
  keeps (_ ← boot (CloseQueue q); Ret a') a.
Proof.
  intros Eq Hh Hq. apply (ends_bind _ _ (λ t _, t = [Did (CloseQueue q) (Ok ())])); [by apply (ends_boot _ (CloseQueue q)); [intros []|]|].
  intros t [] ->. apply ends_ret. split; [|intros i Hi; left; by apply Hq].
  intros r [[]%elem_of_nil|Hr]. destruct (Hh r Hr) as [?| ->]; [by left|]. right; left; left. left.
Qed.

Lemma books_memory settings schedule a : keeps (attach_memory settings schedule a) a.
Proof.
  unfold attach_memory. apply books_rebind; [done| |].
  - intros [q|c|p|co] Hr; cbn in *; [right|by left..]. by rewrite Hr.
  - cbn. intros i Hi. f_equal. lia.
Qed.

Lemma books_upgrade settings schedule c a : ap_redis a = None →
  keeps (upgrade_to_redis has_celery settings schedule c a) a ∧
  yields (upgrade_to_redis has_celery settings schedule c a) (λ a', ap_redis a' = Some c ∧ ap_coordinator a' = ap_coordinator a).
Proof.
  intros Hn. unfold upgrade_to_redis. split.
  - apply books_rebind; [done| |]; destruct has_celery; cbn.
    1,2: intros [q|c'|p|co] Hr; cbn in *; [right; by rewrite Hr|congruence|by left..].
    + lia.
    + intros i Hi. f_equal. lia.
  - eapply yields_bind; [apply yields_call|]. intros [] _. apply yields_ret. by destruct has_celery.
Qed.

Lemma or_false_trace (c : boot_prog bool) (P : list boot_event → Prop) :
  ends c (λ t _, P t) (λ t _, P t) → ends (or_false c) (λ t _, P t) any.
Proof.
  intros Hc. apply (ends_try _ _ _ _ (λ t _, P t)); [done|]. intros t x Ht.
  destruct (boot_is_exception x); [|done]. apply ends_ret. by rewrite app_nil_r.
Qed.

(** The client of a server that was asked. *)
Lemma ping_trace c a : ends (ping c) (λ t _, owes (λ r, r = RClient c) a t a) any.
Proof.
  assert (∀ r, owes (λ r, r = RClient c) a [Did (Ping c) r] a) as Hp.
  { intros r. split; [|lia]. intros r' [->%list_elem_of_singleton|?]; auto. }
  apply or_false_trace, (ends_bind _ _ (λ t _, owes (λ r, r = RClient c) a t a)).
  - by apply (ends_boot _ (Ping c)).
  - intros t [] Ht. apply ends_ret. by rewrite app_nil_r.
Qed.

Lemma cluster_trace c a : ends (_redis_cluster_enabled c) (λ t _, settles a t a) any.
Proof. apply or_false_trace, (ends_boot _ (Info c)); intros; by apply owes_silent. Qed.

(** In-process after all: the client is closed. *)
Lemma books_without_redis settings schedule c t a : ap_coordinator a = None →
  owes (λ r, r = RClient c) a t a →
  ends (_ ← boot (CloseClient c); _start_recovery settings schedule false a) (λ t' a', settles a (t ++ t') a') any.
Proof.
  intros Hn Ho. apply (ends_bind _ _ (λ t' _, t' = [Did (CloseClient c) (Ok ())])); [by apply (ends_boot _ (CloseClient c)); [intros []|]|].
  intros t' [] ->. eapply ends_mono; [by apply books_start_recovery|]. intros t2 a2 H2.
  rewrite app_assoc. eapply settles_trans; [|exact H2]. eapply owes_trans; [exact Ho|by apply owes_silent|].
  intros r ->. right; left; left. left.
Qed.

Lemma books_redis a : ap_redis a = None → ap_coordinator a = None →
  keeps (_attach_redis has_redis has_celery a) a.
Proof.
  intros Hr Hn. unfold _attach_redis. destruct (ap_watch_settings a) as [settings|]; [|by apply books_ret].
  destruct (make_schedule _ _) as [schedule|]; [|by apply ends_fail].
  eapply ends_bind.
  { apply (ends_both _ (settles a) (λ a', ap_redis a' = None ∧ ap_coordinator a' = None)); [apply books_memory|].
    eapply yields_bind; [apply yields_call|]. intros [] _. by apply yields_ret. }
  intros t a1 (H1 & Hr1 & Hn1). enough (keeps (if negb has_redis then _start_recovery settings schedule false a1 else
    reachable ← ping (ws_redis_url settings);
    if negb reachable then (_ ← boot (CloseClient (ws_redis_url settings)); _start_recovery settings schedule false a1) else
    cluster ← _redis_cluster_enabled (ws_redis_url settings);
    if (cluster : bool) then (_ ← boot (CloseClient (ws_redis_url settings)); _start_recovery settings schedule false a1) else
    a ← upgrade_to_redis has_celery settings schedule (ws_redis_url settings) a1; _start_recovery settings schedule true a) a1) as Hk.
  { eapply ends_mono; [exact Hk|]. intros t' a'. by apply settles_trans. }
  destruct has_redis; cbn [negb]; [|by apply books_start_recovery].
  eapply ends_bind; [apply (ping_trace _ a1)|]. intros t1 [] Ho; cbn [negb]; [|by apply books_without_redis].
  eapply ends_bind; [apply (cluster_trace _ a1)|]. intros t2 b H2.
  assert (owes (λ r, r = RClient (ws_redis_url settings)) a1 (t1 ++ t2) a1) as Ho2.
  { eapply owes_trans; [exact Ho| |intros r ->; by right; right]. split; [|lia].
    intros r Hin. destruct (ow_resource _ _ _ _ H2 r Hin); tauto. }
  destruct b.
  - eapply ends_mono; [by apply (books_without_redis settings schedule _ (t1 ++ t2))|]. intros t' a'. by rewrite app_assoc.
  - destruct (books_upgrade settings schedule (ws_redis_url settings) a1 Hr1) as [Hk Hy].
    eapply ends_bind; [exact (ends_both _ _ _ Hk Hy)|]. intros t3 a3 (H3 & Hr3 & Hn3).
    eapply ends_mono; [apply books_start_recovery; congruence|]. intros t4 a4 H4.
    rewrite !app_assoc. eapply settles_trans; [|exact H4].
    eapply owes_trans; [exact Ho2|exact H3|]. intros r ->. by left.
Qed.

Lemma startup_settles owner t a : runs (boot_process owner) t (Ok a) →
  (∀ r, r ∈ omap acquired t → holds a r ∨ gone t r) ∧
  ∀ i, (i < ap_queues a)%nat → holds a (RQueue (AsyncQueue i)) ∨ gone t (RQueue (AsyncQueue i)).
Proof.
  revert t a.
  enough (ends (boot_process owner) (λ t a, ∃ t0 a0 t1, t = t0 ++ t1 ∧ omap acquired t0 = [] ∧
    ap_queues a0 = 1%nat ∧ ap_queue a0 = AsyncQueue 0 ∧ settles a0 t1 a) any) as He.
  { intros t a Hr. destruct (He _ _ Hr) as (t0 & a0 & t1 & -> & E & En & Eq & [Hres Hq]).
    setoid_rewrite gone_app. rewrite omap_app, E. split.
    - intros r Hin. destruct (Hres r (or_introl Hin)); tauto.
    - intros i Hi. destruct i as [|i]; [|destruct (Hq (S i)); [lia|tauto..]].
      destruct (Hres (RQueue (AsyncQueue 0)) (or_intror Eq)); tauto. }
  eapply ends_bind.
  { apply (ends_both _ (λ t a, omap acquired t = [] ∧ ap_queues a = 1%nat ∧ ap_queue a = AsyncQueue 0)); [|apply create_app_blank].
    unfold create_app. eapply ends_bind; [apply cors_silent|]. intros t cors E.
    eapply ends_bind; [apply from_silent|]. intros t' prompt [E' _]. apply ends_ret. by rewrite !omap_app, E, E'. }
  intros t0 a0 ((E0 & En & Eq) & Hb0 & Hn0).
  eapply ends_mono; [|intros t1 a1 H1; exists t0, a0, t1; split_and!; [done..|exact H1]].
  unfold startup. eapply ends_bind; [exact (ends_both _ _ _ (books_load a0) (load_settings_spec a0 Hb0 Hn0))|].
  intros t1 a1 (H1 & Hb1 & Hn1 & Hl1).
  eapply ends_bind; [exact (ends_both _ _ _ (books_postgres a1 Hn1) (attach_postgres_spec a1 Hb1 Hn1 Hl1))|].
  intros t2 a2 (H2 & Hb2 & Hl2).
  eapply ends_mono; [apply books_redis; [apply Hb2|apply Hb2]|]. intros t3 a3 H3.
  rewrite app_assoc. eapply settles_trans; [|exact H3]. by eapply settles_trans.
Qed.

(** ** Pools

    Only [shutdown] closes a pool, and only [_attach_postgres] migrates one. *)

Definition handles_pool (c : boot_call) : bool :=
  match c with ClosePool _ | RunMigrations _ => true | _ => false end.

Definition quiet t : Prop := Forall (λ e : boot_event, match e with Ev c _ => handles_pool c = false end) t.

Lemma quiet_nil : quiet [].
Proof. constructor. Qed.

Lemma quiet_app t t' : quiet t → quiet t' → quiet (t ++ t').
Proof. apply Forall_app_2. Qed.

Lemma quiet_call c : handles_pool c = false → ends (boot c) (λ t _, quiet t) (λ t _, quiet t).
Proof. intros Hc. by apply ends_boot; intros; apply Forall_singleton. Qed.

Lemma quiet_released t p : quiet t → RPool p ∉ omap released t.
Proof.
  intros Hq ([c r] & Hin & He)%list_elem_of_omap. eapply Forall_forall in Hq; [|exact Hin].
  destruct c; try done; destruct r; done.
Qed.

Lemma quiet_leaked t : quiet t → omap leaked t = [].
Proof.
  induction 1 as [|[c r] t Hc _ IH]; [done|]. destruct c; try exact IH. done.
Qed.

(** The pool of the process is left alone. *)
Notation quietly p := (ends p (λ t _, quiet t) any).

Lemma quietly_any {A} (p : boot_prog A) : ends p (λ t _, quiet t) (λ t _, quiet t) → quietly p.
Proof. intros Hp. eapply ends_mono'; [exact Hp|done..]. Qed.

Notation leaves p a := (ends p (λ t a', quiet t ∧ ap_postgres_pool a' = ap_postgres_pool a) any).

Lemma leaves_ret a a' : ap_postgres_pool a' = ap_postgres_pool a → leaves (Ret a') a.
Proof. intros. apply ends_ret. by split; [constructor|]. Qed.

Lemma leaves_after {A} (p : boot_prog A) f a : quietly p → (∀ r, leaves (f r) a) → leaves (p ≫= f) a.
Proof.
  intros Hp Hf. eapply ends_bind; [exact Hp|]. intros t r Hq. eapply ends_mono; [apply Hf|].
  intros t' a' [Hq' E]. split; [by apply quiet_app|done].
Qed.

Lemma leaves_bind p f a : leaves p a → (∀ a1, leaves (f a1) a1) → leaves (p ≫= f) a.
Proof.
  intros Hp Hf. eapply ends_bind; [exact Hp|]. intros t a1 [Hq E]. eapply ends_mono; [apply Hf|].
  intros t' a' [Hq' E']. split; [by apply quiet_app|congruence].
Qed.

Lemma quietly_from {A} (r : result A) : quietly (boot_from r).
Proof.
  unfold boot_from. destruct r; [apply ends_ret, quiet_nil|].
  destruct (_ =? _)%string; [by apply ends_fail|apply ends_ret, quiet_nil].
Qed.

Lemma quietly_or_false (c : boot_prog bool) :
  ends c (λ t _, quiet t) (λ t _, quiet t) → quietly (or_false c).
Proof. apply or_false_trace. Qed.

Lemma quietly_close c : quietly (boot (CloseClient c)).
Proof. by apply quietly_any, (quiet_call (CloseClient c)). Qed.

Lemma leaves_rebind q a a' : ap_postgres_pool a' = ap_postgres_pool a →
  leaves (_ ← boot (CloseQueue q); Ret a') a.
Proof.
  intros E. apply leaves_after; [by apply quietly_any, (quiet_call (CloseQueue q))|].
  intros _. by apply leaves_ret.
Qed.

Lemma leaves_start_recovery settings schedule distributed a :
  leaves (_start_recovery settings schedule distributed a) a.
Proof.
  unfold _start_recovery, reconcile_and_record. set (co := MkCoordinator _ _ _ _ _ _ _ _).
  apply leaves_after; [|intros readiness; by apply leaves_ret].
  apply (ends_bind _ _ (λ t _, quiet t)).
  - by apply quietly_any, (quiet_call (ReconcileOnce co)).
  - intros t outcome Hq. apply (ends_bind _ _ (λ t _, quiet t)).
    + by apply quietly_any, (quiet_call ReadClock).
    + intros t' now Hq'. apply ends_ret. rewrite app_nil_r. by apply quiet_app.
Qed.

Lemma leaves_redis a : leaves (_attach_redis has_redis has_celery a) a.
Proof.
  unfold _attach_redis. destruct (ap_watch_settings a) as [settings|]; [|by apply leaves_ret].
  destruct (make_schedule _ _) as [schedule|]; [|by apply ends_fail].
  apply leaves_bind; [by apply leaves_rebind|]. intros a1.
  destruct has_redis; cbn [negb]; [|apply leaves_start_recovery].
  apply leaves_after.
  { apply quietly_or_false, (ends_bind _ _ (λ t _, quiet t)).
    - by apply (quiet_call (Ping _)).
    - intros t [] Hq. apply ends_ret. by rewrite app_nil_r. }
  intros []; cbn [negb]; [|apply leaves_after; [apply quietly_close|intros _; apply leaves_start_recovery]].
  apply leaves_after; [apply quietly_or_false; by apply (quiet_call (Info _))|].
  intros []; [apply leaves_after; [apply quietly_close|intros _; apply leaves_start_recovery]|].
  apply leaves_bind; [|intros a2; apply leaves_start_recovery].
  unfold upgrade_to_redis. apply leaves_rebind. by destruct has_celery.
Qed.

(** What [_attach_postgres] does with the pool it opened. *)
Definition pool_fate t a : Prop :=
  (∀ p, RPool p ∉ omap released t) ∧ (omap leaked t ≠ [] → ap_postgres_pool a = None).

Lemma pool_fate_quiet t a : quiet t → pool_fate t a.
Proof. intros Hq. split; [by intros p; apply quiet_released|]. by rewrite quiet_leaked. Qed.

Lemma pool_fate_leaves t a t' a' : pool_fate t a →
  quiet t' → ap_postgres_pool a' = ap_postgres_pool a → pool_fate (t ++ t') a'.
Proof.
  intros [Hr Hl] Hq E. split.
  - intros p. rewrite omap_app, elem_of_app. intros [?|?]; [by eapply Hr|by eapply quiet_released].
  - rewrite omap_app, (quiet_leaked _ Hq), app_nil_r, E. exact Hl.
Qed.

Lemma quietly_create_pool settings :
  ends (create_pool bracketed_ok settings) (λ t _, quiet t) (λ t _, quiet t).
Proof.
  unfold create_pool. destruct (pg_dsn settings) as [dsn|]; [|apply ends_fail, quiet_nil].
  apply (ends_bind _ _ (λ t _, quiet t)).
  - apply (ends_try _ _ _ _ (λ t _, quiet t)); [by apply (quiet_call (CreatePool dsn))|].
    intros t [] Hq; try done; apply ends_fail; by rewrite app_nil_r.
  - intros t [p|] Hq; [apply ends_ret|apply ends_fail]; by rewrite app_nil_r.
Qed.

Lemma pool_fate_postgres a : ap_postgres_pool a = None →
  ends (_attach_postgres bracketed_ok repr env a) pool_fate any.
Proof.
  intros Hn. unfold _attach_postgres.
  apply (ends_bind _ _ (λ t _, quiet t)); [apply quietly_from|]. intros t0 [settings|m] H0.
  2: { apply ends_ret. rewrite app_nil_r. by apply pool_fate_quiet. }
  destruct (pg_dsn settings) as [dsn|].
  2: { apply ends_ret. rewrite app_nil_r. by apply pool_fate_quiet. }
  apply (ends_bind _ _ (λ t o, (∀ p, RPool p ∉ omap released t) ∧
    match o with Ok _ => omap leaked t = [] | Exc _ => True end)).
  - apply ends_attempt. apply (ends_bind _ _ (λ t _, quiet t)).
    { eapply ends_mono'; [apply quietly_create_pool|done|]. intros t x Hq. split; [|done].
      intros p. by apply quiet_released. }
    intros t p Hq. assert (∀ r, ∀ p', RPool p' ∉ omap released (t ++ [Did (RunMigrations p) r])) as Hrel.
    { intros r p'. rewrite omap_app, app_nil_r. by apply quiet_released. }
    apply (ends_bind _ _ (λ t' _, ∃ l, t' = [Did (RunMigrations p) (Ok l)])).
    + apply (ends_boot _ (RunMigrations p)); [eauto|]. intros x. by split; [apply Hrel|].
    + intros t' l [l' ->]. apply ends_ret. rewrite app_nil_r. split; [apply Hrel|].
      by rewrite omap_app, quiet_leaked.
  - intros t [p|x] [Hr Hl].
    + set (a1 := a <| ap_postgres_pool := Some p |> <| ap_watch_history := Some p |> <| ap_recorder := Some p |>).
      assert (pool_fate (t0 ++ t) a1) as H1.
      { split.
        - intros p'. rewrite omap_app, elem_of_app. intros [?|?]; [by eapply quiet_released|by eapply Hr].
        - by rewrite omap_app, Hl, (quiet_leaked _ H0). }
      assert (leaves (a ← attach_accounts env p a1; attach_email bracketed_ok repr env p a) a1) as Hlv.
      2: { eapply ends_mono; [exact Hlv|]. intros t' a' [Hq E]. rewrite app_assoc. by eapply pool_fate_leaves. }
      apply leaves_bind; [apply leaves_after; [apply quietly_from|]; intros []; by apply leaves_ret|].
      intros a2. apply leaves_after; [apply quietly_from|]. intros [email|m]; [destruct (em_host email)|]; by apply leaves_ret.
    + destruct x; try by apply ends_fail. apply ends_ret. rewrite app_nil_r. split; [|done].
      intros p'. rewrite omap_app, elem_of_app. intros [?|?]; [by eapply quiet_released|by eapply Hr].
Qed.

(** A startup closes no pool, and one that leaked a pool goes on without. *)
Lemma startup_pool_fate owner : ends (boot_process owner) pool_fate any.
Proof.
  apply (ends_bind _ _ (λ t a, quiet t ∧ ap_postgres_pool a = None)).
  { unfold create_app. apply (ends_bind _ _ (λ t _, quiet t)).
    - unfold _configure_cors. apply (ends_bind _ _ (λ t _, quiet t)); [apply quietly_from|].
      intros t cors Hq. apply ends_ret. by rewrite app_nil_r.
    - intros t cors Hq. apply (ends_bind _ _ (λ t _, quiet t)); [apply quietly_from|].
      intros t' prompt Hq'. apply ends_ret. rewrite app_nil_r. split; [by apply quiet_app|done]. }
  intros t0 a0 [H0 Hn0]. unfold startup.
  apply (ends_bind _ _ (λ t a, quiet t ∧ ap_postgres_pool a = None)).
  { unfold load_settings. apply (ends_bind _ _ (λ t _, quiet t)); [apply quietly_from|]. intros t watch Hq.
    apply (ends_bind _ _ (λ t _, quiet t)); [apply quietly_from|]. intros t' settings Hq'. apply ends_ret.
    rewrite app_nil_r. split; [by apply quiet_app|]. by destruct watch, settings. }
  intros t1 a1 [H1 Hn1]. eapply ends_bind; [by apply pool_fate_postgres|]. intros t2 a2 [Hr2 Hl2].
  eapply ends_mono; [apply leaves_redis|]. intros t3 a3 [H3 E3].
  rewrite !app_assoc. eapply pool_fate_leaves; [|exact H3|exact E3]. split.
  - intros p. rewrite !omap_app, !elem_of_app. intros [[Hp|Hp]|Hp]; [exact (quiet_released _ _ H0 Hp)|exact (quiet_released _ _ H1 Hp)|by eapply Hr2].
  - by rewrite !omap_app, (quiet_leaked _ H0), (quiet_leaked _ H1).
Qed.

(** ** Shutdown *)

Lemma stop_recovery_trace a : ends (_stop_recovery a) (λ t a',
  (∀ co, ap_coordinator a = Some co → RLease co ∈ omap released t) ∧ quiet t ∧
  ap_queue a' = ap_queue a ∧ ap_redis a' = ap_redis a ∧ ap_postgres_pool a' = ap_postgres_pool a ∧
  ap_orchestrator a' = ap_orchestrator a) any.
Proof.
  unfold _stop_recovery. apply (ends_bind _ _ (λ t a', quiet t ∧ ap_coordinator a' = ap_coordinator a ∧
    ap_queue a' = ap_queue a ∧ ap_redis a' = ap_redis a ∧ ap_postgres_pool a' = ap_postgres_pool a ∧
    ap_orchestrator a' = ap_orchestrator a)).
  - destruct (ap_sweep a) as [co|]; [|apply ends_ret; by split; [constructor|]].
    apply (ends_bind _ _ (λ t _, quiet t)).
    + apply (ends_try _ _ _ _ (λ t _, quiet t)); [by apply (quiet_call (CancelSweep co))|].
      intros t [] Hq; try done. apply ends_ret. by rewrite app_nil_r.
    + intros t [] Hq. apply ends_ret. by rewrite app_nil_r.
  - intros t a' (Hq & <- & Eq). destruct (ap_coordinator a') as [co|].
    + apply (ends_bind _ _ (λ t' _, t' = [Did (Release co) (Ok ())])); [by apply (ends_boot _ (Release co)); [intros []|]|].
      intros t' [] ->. apply ends_ret. split; [|split; [by apply quiet_app, Forall_singleton|exact Eq]].
      intros co' [= <-]. rewrite omap_app. set_solver.
    + apply ends_ret. rewrite app_nil_r. by split.
Qed.

Lemma when_some_trace {A} (x : option A) (f : A → boot_prog ()) (e : A → boot_event) :
  (∀ y, ends (f y) (λ t _, t = [e y]) any) →
  ends (when_some x f) (λ t _, t = match x with Some y => [e y] | None => [] end) any.
Proof. intros Hf. destruct x; [apply Hf|by apply ends_ret]. Qed.

Lemma shutdown_trace a : ends (shutdown a) (λ t _,
  (∀ r, holds a r → r ∈ omap released t) ∧
  (∀ p, RPool p ∈ omap released t → ap_postgres_pool a = Some p) ∧
  ∀ e, ap_orchestrator a = Some e → Did (CloseEngine e) (Ok ()) ∈ t) any.
Proof.
  unfold shutdown. eapply ends_bind; [apply stop_recovery_trace|]. intros t0 a' (Hl & Hq & -> & -> & -> & ->).
  apply (ends_bind _ _ (λ t _, t = [Did (CloseQueue (ap_queue a)) (Ok ())])); [by apply (ends_boot _ (CloseQueue _)); [intros []|]|].
  intros t1 [] ->.
  eapply ends_bind; [apply (when_some_trace _ _ (λ c, Did (CloseClient c) (Ok ()))); intros c; by apply (ends_boot _ (CloseClient c)); [intros []|]|].
  intros t2 [] ->.
  eapply ends_bind; [apply (when_some_trace _ _ (λ p, Did (ClosePool p) (Ok ()))); intros p; by apply (ends_boot _ (ClosePool p)); [intros []|]|].
  intros t3 [] ->.
  eapply ends_mono; [apply (when_some_trace _ _ (λ e, Did (CloseEngine e) (Ok ()))); intros e; by apply (ends_boot _ (CloseEngine e)); [intros []|]|].
  intros t4 [] ->. split; [|split].
  - intros r Hr. rewrite !omap_app, !elem_of_app. destruct r as [q|c|p|co]; cbn in Hr.
    + right; left. subst q. left.
    + right; right; left. rewrite Hr. left.
    + right; right; right; left. rewrite Hr. left.
    + left. by apply Hl.
  - intros p. rewrite !omap_app, !elem_of_app. intros [Hin|[Hin|[Hin|[Hin|Hin]]]].
    + by destruct (quiet_released _ p Hq).
    + by apply list_elem_of_singleton in Hin.
    + destruct (ap_redis a); [by apply list_elem_of_singleton in Hin|by apply elem_of_nil in Hin].
    + destruct (ap_postgres_pool a); [|by apply elem_of_nil in Hin].
      apply list_elem_of_singleton in Hin. by injection Hin as ->.
    + destruct (ap_orchestrator a); by apply elem_of_nil in Hin.
  - intros e ->. rewrite !elem_of_app. do 4 right. left.
Qed.

(** C32 (composition: release). When a process comes up and is shut down again
    without an exception, everything it acquired is released - every in-process
    queue it built is closed, whether it was replaced during startup or served
    until the end, the Redis client is closed, refused or not, the pool is
    closed, the leadership is given back, and the language model client is
    closed if one was built - with exactly one exception: a pool whose
    migrations raised a [ConfigurationError].  The startup catches the error
    and goes on without the pool, and nothing ever closes it. *)
Theorem shutdown_releases_all owner t a e t' :
  runs (boot_process owner) t (Ok a) → runs (shutdown (a <| ap_orchestrator := e |>)) t' (Ok ()) →
  (∀ r, r ∈ omap acquired t → r ∈ omap released (t ++ t') ↔ r ∉ omap leaked t) ∧
  (∀ i, (i < ap_queues a)%nat → RQueue (AsyncQueue i) ∈ omap released (t ++ t')) ∧
  (∀ en, e = Some en → Did (CloseEngine en) (Ok ()) ∈ t').
Proof.
  intros Hrun [Hrel [Hpool Hen]]%shutdown_trace.
  destruct (startup_settles _ _ _ Hrun) as [Hres Hq].
  destruct (startup_pool_fate _ _ _ Hrun) as [Hopen Hfate].
  assert (∀ r, holds a r → r ∈ omap released t') as Hg by (intros r Hr; apply Hrel; by destruct r).
  assert (∀ r, r ∈ omap leaked t → ∃ p, r = RPool p) as Hl.
  { intros r ([[] []] & _ & E)%list_elem_of_omap; try discriminate E. destruct x; try discriminate E.
    injection E as <-. eauto. }
  setoid_rewrite omap_app. setoid_rewrite elem_of_app. split_and!; [| |done].
  - intros r Hin. split.
    + intros Hout Hleak. destruct (Hl r Hleak) as [p ->]. destruct Hout as [Ht|Ht]; [by eapply Hopen|].
      apply Hpool in Ht. cbn in Ht. rewrite Hfate in Ht; [done|]. intros En. rewrite En in Hleak. by apply elem_of_nil in Hleak.
    + intros Hleak. destruct (Hres r Hin) as [Hh|[?|?]]; [right; by apply Hg|by left|done].
  - intros i Hi. destruct (Hq i Hi) as [Hh|[?|Hd]]; [right; by apply Hg|by left|].
    destruct (Hl _ Hd) as [p Hp]. discriminate Hp.
Qed.

(** ** What stops the startup *)

Definition stops (c : boot_call) x : bool :=
  match c, x with
  | CreatePool _, (ConfigurationError _ | PostgresError _ | OSError _) => false
  | RunMigrations _, ConfigurationError _ => false
  | (Ping _ | Info _), x => negb (boot_is_exception x)
  | _, _ => true
  end.

Definition cause t x : Prop := x = BootError value_error ∨ ∃ c, Did c (Exc x) ∈ t ∧ stops c x = true.

Notation fails p := (ends p (λ _ _, True) cause).

Lemma cause_app t t' x : cause t' x → cause (t ++ t') x.
Proof. intros [?|(c & Hin & Hc)]; [by left|right]. exists c. split; [|done]. apply elem_of_app. by right. Qed.

Lemma fails_bind {A B} (p : boot_prog A) (f : A → boot_prog B) : fails p → (∀ r, fails (f r)) → fails (p ≫= f).
Proof.
  intros Hp Hf. eapply ends_bind; [exact Hp|]. intros t r _. eapply ends_mono'; [apply (Hf r)|done|].
  intros t' x. apply cause_app.
Qed.

Lemma fails_ret {A} (r : A) : fails (Ret r).
Proof. by apply ends_ret. Qed.

Lemma fails_boot c : (∀ x, stops c x = true) → fails (boot c).
Proof. intros Hc. apply ends_boot; [done|]. intros x. right. exists c. split; [left|done]. Qed.

Lemma fails_from {A} (r : result A) : fails (boot_from r).
Proof. unfold boot_from. destruct r; [apply fails_ret|]. destruct (_ =? _)%string; [apply ends_fail; by left|apply fails_ret]. Qed.

Lemma fails_or_false (c : boot_prog bool) (d : boot_call) :
  ends c (λ _ _, True) (λ t x, Did d (Exc x) ∈ t) → (∀ x, stops d x = negb (boot_is_exception x)) → fails (or_false c).
Proof.
  intros Hc Hd. apply (ends_try _ _ _ _ (λ t x, Did d (Exc x) ∈ t)); [done|].
  intros t x Hin. destruct (boot_is_exception x) eqn:Ex; [by apply ends_ret|].
  right. exists d. by rewrite Hd, Ex.
Qed.

Lemma fails_start_recovery settings schedule distributed a : fails (_start_recovery settings schedule distributed a).
Proof.
  apply fails_bind; [|intros; apply fails_ret]. apply fails_bind; [by apply (fails_boot (ReconcileOnce _))|]. intros outcome.
  apply fails_bind; [by apply (fails_boot ReadClock)|]. intros; apply fails_ret.
Qed.

Lemma fails_redis a : fails (_attach_redis has_redis has_celery a).
Proof.
  unfold _attach_redis. destruct (ap_watch_settings a) as [settings|]; [|apply fails_ret].
  destruct (make_schedule _ _) as [schedule|]; [|apply ends_fail; by left].
  apply fails_bind; [apply fails_bind; [by apply (fails_boot (CloseQueue _))|intros; apply fails_ret]|]. intros a1.
  destruct has_redis; cbn [negb]; [|apply fails_start_recovery].
  apply fails_bind.
  { apply (fails_or_false _ (Ping (ws_redis_url settings))); [|done].
    apply (ends_bind _ _ (λ _ _, True)); [apply (ends_boot _ (Ping _)); [done|left]|]. intros t [] _. by apply ends_ret. }
  intros []; cbn [negb]; [|apply fails_bind; [by apply (fails_boot (CloseClient _))|intros; apply fails_start_recovery]].
  apply fails_bind.
  { apply (fails_or_false _ (Info (ws_redis_url settings))); [|done]. apply (ends_boot _ (Info _)); [done|left]. }
  intros []; [apply fails_bind; [by apply (fails_boot (CloseClient _))|intros; apply fails_start_recovery]|].
  apply fails_bind; [|intros; apply fails_start_recovery].
  apply fails_bind; [by apply (fails_boot (CloseQueue _))|intros; apply fails_ret].
Qed.

Lemma fails_postgres a : fails (_attach_postgres bracketed_ok repr env a).
Proof.
  unfold _attach_postgres. apply fails_bind; [apply fails_from|]. intros [settings|m]; [|apply fails_ret].
  destruct (pg_dsn settings) as [dsn|] eqn:Edsn; [|apply fails_ret].
  eapply (ends_bind _ _ (λ t o, match o with Exc x => match x with ConfigurationError _ => True | _ => cause t x end | Ok _ => True end)).
  - apply ends_attempt. apply (ends_bind _ _ (λ _ _, True)).
    + unfold create_pool. rewrite Edsn. apply (ends_bind _ _ (λ _ _, True)).
      * apply (ends_try _ _ _ _ (λ t x, Did (CreatePool dsn) (Exc x) ∈ t)); [apply (ends_boot _ (CreatePool dsn)); [done|left]|].
        intros t [] Hin; cbn; try done; try (by apply ends_fail); right; by exists (CreatePool dsn).
      * intros t [p|] _; [by apply ends_ret|by apply ends_fail].
    + intros t p _. apply (ends_bind _ _ (λ _ _, True)).
      * apply (ends_boot _ (RunMigrations p)); [done|]. intros [] ; try done; right; exists (RunMigrations p);
          (split; [apply elem_of_app; right; left|done]).
      * intros t' l _. by apply ends_ret.
  - intros t [p|x] Hc.
    + eapply (ends_mono' _ _ (λ _ _, True)); [|done|intros t' x; apply cause_app]. apply fails_bind.
      * unfold attach_accounts. apply fails_bind; [apply fails_from|]. intros []; apply fails_ret.
      * intros a1. unfold attach_email. apply fails_bind; [apply fails_from|].
        intros [email|m]; [destruct (em_host email)|]; apply fails_ret.
    + destruct x; try (apply ends_fail; by rewrite app_nil_r). by apply ends_ret.
Qed.

(** Startup fails only by an exception of a call
    that may: connecting to PostgreSQL with anything but an operating system or
    server error, a migration, closing a queue or a client, the first recovery
    pass, a cancellation - or by a [ValueError] from a malformed setting.  No
    configuration error, no unreachable PostgreSQL, no unreachable, refusing or
    clustered Redis keeps the process down. *)
Theorem startup_failures owner t x : runs (boot_process owner) t (Exc x) → cause t x.
Proof.
  assert (fails (boot_process owner)) as Hf.
  { apply fails_bind; [|intros a; apply fails_bind; [|intros a1; apply fails_bind; [apply fails_postgres|apply fails_redis]]].
    - apply fails_bind; [apply fails_bind; [apply fails_from|intros; apply fails_ret]|]. intros cors.
      apply fails_bind; [apply fails_from|]. intros; apply fails_ret.
    - unfold load_settings. apply fails_bind; [apply fails_from|]. intros watch.
      apply fails_bind; [apply fails_from|]. intros; apply fails_ret. }
  exact (Hf t (Exc x)).
Qed.
End theorems.

(** ** What a process is made of: examples

    A process with PostgreSQL, Redis and Celery; one whose Redis is
    unreachable; and one that a broken migration keeps down. *)

Definition demo_env (name : string) : option string :=
  if (name =? "POSTGRES_URL")%string then Some "postgresql://dibs:secret@db:5432/dibs"%string
  else if (name =? "REDIS_URL")%string then Some "redis://cache:6379/0"%string
  else None.

Definition demo_outcome : RecoveryOutcome := MkRecovery true 0 0 0 0 0 0 0 0 false.

(** The calls of a run: does Redis answer, and how do the migrations end? *)
Definition demo_boot_answers (redis_up : bool) (migrated : outcome boot_exn (list string)) (c : boot_call) (_ : ())
    : outcome boot_exn (boot_answer c) * () :=
  (match c return outcome boot_exn (boot_answer c) with
   | CreatePool _ => Ok (Some 7%nat)
   | RunMigrations _ => migrated
   | Ping _ => if redis_up then Ok () else Exc (BootError "ConnectionError")
   | Info _ => Ok false
   | ReconcileOnce _ => Ok demo_outcome
   | ReadClock => Ok 0
   | CloseQueue _ | CloseClient _ | ClosePool _ | CloseEngine _ | CancelSweep _ | Release _ => Ok ()
   end, ()).

Definition demo_process : boot_prog app :=
  create_app (λ _, true) (λ s, s) demo_env "owner" ≫= startup (λ _, true) (λ _, true) (λ s, s) demo_env true true.

Definition demo_boot (redis_up : bool) (migrated : outcome boot_exn (list string)) :=
  record (Σ := boot_calls) (demo_boot_answers redis_up migrated) demo_process ().

Lemma demo_boot_runs redis_up migrated :
  runs demo_process (demo_boot redis_up migrated).1 (demo_boot redis_up migrated).2.
Proof. apply (record_runs (Σ := boot_calls)). Qed.

Lemma startup_is_coherent_witness :
  match (demo_boot true (Ok [])).2 with
  | Ok a => coherent a ∧ ap_redis a = Some "redis://cache:6379/0"%string ∧ ap_queue a = CeleryQueue
  | Exc _ => False
  end.
Proof.
  pose proof (demo_boot_runs true (Ok [])) as Hr.
  destruct (demo_boot true (Ok [])).2 as [a|x] eqn:E; [|vm_compute in E; discriminate E].
  split; [exact (proj1 (startup_is_coherent _ _ _ _ _ _ _ _ _ Hr))|].
  vm_compute in E. injection E as <-. by split.
Defined.

(** Redis does not answer: two in-process queues were built and closed. *)
Definition demo_down (e : engine) : list boot_event :=
  match (demo_boot false (Ok [])).2 with
  | Ok a => (record (Σ := boot_calls) (demo_boot_answers false (Ok [])) (shutdown (a <| ap_orchestrator := Some e |>)) ()).1
  | Exc _ => []
  end.

Definition demo_engine : engine := MkEngine "key" "gpt-4o-mini" "America/Toronto".

Lemma shutdown_releases_all_witness :
  (∀ r, r ∈ omap acquired (demo_boot false (Ok [])).1 →
     r ∈ omap released ((demo_boot false (Ok [])).1 ++ demo_down demo_engine)) ∧
  RQueue (AsyncQueue 0) ∈ omap released ((demo_boot false (Ok [])).1 ++ demo_down demo_engine) ∧
  RQueue (AsyncQueue 1) ∈ omap released ((demo_boot false (Ok [])).1 ++ demo_down demo_engine) ∧
  Did (CloseEngine demo_engine) (Ok ()) ∈ demo_down demo_engine.
Proof.
  unfold demo_down. pose proof (demo_boot_runs false (Ok [])) as Hr.
  destruct (demo_boot false (Ok [])).2 as [a|x] eqn:E; [|vm_compute in E; discriminate E].
  pose proof (record_runs (Σ := boot_calls) (demo_boot_answers false (Ok [])) (shutdown (a <| ap_orchestrator := Some demo_engine |>)) ()) as Hs.
  assert (ap_queues a = 2%nat ∧ (record (Σ := boot_calls) (demo_boot_answers false (Ok []))
    (shutdown (a <| ap_orchestrator := Some demo_engine |>)) ()).2 = Ok ()) as [Eq Ed].
  { vm_compute in E. injection E as <-. by vm_compute. }
  rewrite Ed in Hs.
  destruct (shutdown_releases_all _ _ _ _ _ _ _ _ _ _ _ Hr Hs) as (Hres & Hq & He).
  split; [intros r Hin; apply Hres; [exact Hin|]; vm_compute; by intros ?%elem_of_nil|].
  split; [apply Hq; rewrite Eq; lia|]. split; [apply Hq; rewrite Eq; lia|]. by apply He.
Defined.

(** A migration the server refuses is not caught by [_attach_postgres]: the
    process does not come up, and the pool is never closed. *)
Lemma broken_migration_stops_startup :
  let '(t, out) := demo_boot true (Exc (PostgresError "syntax error")) in
  out = Exc (PostgresError "syntax error") ∧ RPool 7%nat ∈ omap acquired t ∧ ¬ gone t (RPool 7%nat).
Proof.
  vm_compute demo_boot. split; [done|]. split; [left|]. unfold gone. cbn. set_solver.
Qed.

(** A [ConfigurationError] of the migrations is caught: the process comes up
    without accounts and history, and neither the startup nor the shutdown
    closes the pool. *)
Lemma refused_migration_leaks_pool :
  let '(t, out) := demo_boot true (Exc (ConfigurationError "bad migration")) in
  match out with
  | Ok a =>
      let '(t', down) := record (Σ := boot_calls) (demo_boot_answers true (Ok [])) (shutdown a) () in
      down = Ok () ∧ RPool 7%nat ∈ omap acquired t ∧ RPool 7%nat ∉ omap released (t ++ t')
  | Exc _ => False
  end.
Proof. vm_compute. split; [done|]. split; [left|]. set_solver. Qed.

Lemma startup_failures_witness :
  cause (demo_boot true (Exc (PostgresError "syntax error"))).1 (PostgresError "syntax error").
Proof.
  pose proof (demo_boot_runs true (Exc (PostgresError "syntax error"))) as Hr.
  destruct (demo_boot true (Exc (PostgresError "syntax error"))).2 as [a|x] eqn:E; [vm_compute in E; discriminate E|].
  assert (x = PostgresError "syntax error") as -> by (vm_compute in E; congruence).
  exact (startup_failures _ _ _ _ _ _ _ _ _ Hr).
Defined.
