(* ===== verification/Migrations.v ===== *)
(** * Schema migrations ([backend/db/postgres.py])

    [discover_migrations] lists the files, [MigrationRunner.run] applies the
    pending ones in one transaction under an advisory lock.  What a statement
    of a migration does to the data is PostgreSQL's: [exec], which may refuse.
    The transaction sees what is committed when it holds the lock, and its own
    statements; at its end it is committed or rolled back as a whole. *)

From stdpp Require Import sorting.
From S2P Require Import Prelude Calendar Prog Url.

Record Migration := MkMigration { mg_version : string; mg_sql : string }.

(** ** [discover_migrations] *)

(** What [directory.iterdir()] lists: name, [is_file()], text. *)
Record dir_entry := MkEntry { de_name : string; de_is_file : bool; de_text : string }.

(** [path.suffix] and [path.stem]: split at the last dot, if there is
    something before and after it. *)
Definition split_suffix (name : string) : string * string :=
  let l := chars name in
  let ext := rpartition "."%char l in
  let stem := take (length l - length ext - 1) l in
  match existsb (Ascii.eqb "."%char) l, stem, ext with
  | true, _ :: _, _ :: _ => (of_chars stem, "." +:+ of_chars ext)
  | _, _, _ => (name, "")
  end.

Definition name_le (d d' : dir_entry) : Prop := String.leb (de_name d) (de_name d') = true.
#[export] Instance name_le_dec d d' : Decision (name_le d d').
Proof. unfold name_le. apply _. Defined.

Definition discover_migrations (is_dir : bool) (entries : list dir_entry) : list Migration :=
  if negb is_dir then [] else
  map (λ d, MkMigration (split_suffix (de_name d)).1 (de_text d))
    (List.filter (λ d, de_is_file d && ((split_suffix (de_name d)).2 =? ".sql")%string)
       (merge_sort name_le entries)).

(** ** Calls of a connection *)

Inductive db_exn := ServerError | UndefinedTable | UniqueViolation | ConnectionLost.

Inductive db_call :=
| AdvisoryLock                    (* [SELECT pg_advisory_xact_lock($1)] *)
| CreateTable                     (* [_SCHEMA_MIGRATIONS_DDL] *)
| SelectVersions                  (* [_applied_versions] *)
| ExecuteSql (sql : string)
| InsertVersion (version : string).

Definition db_answer (c : db_call) : Type :=
  match c with SelectVersions => gset string | _ => () end.

Definition db_calls : sig := Sig db_call db_answer db_exn.
Notation db_prog := (prog db_calls).
Definition db (c : db_call) : db_prog (db_answer c) := perform (Σ := db_calls) c.

(** ** [MigrationRunner.run], inside its transaction *)

Fixpoint apply_pending (already : gset string) (migrations : list Migration) (applied : list string)
    : db_prog (list string) :=
  match migrations with
  | [] => Ret applied
  | m :: migrations =>
      if decide (mg_version m ∈ already) then apply_pending already migrations applied else
      _ ← db (ExecuteSql (mg_sql m));
      _ ← db (InsertVersion (mg_version m));
      apply_pending already migrations (applied ++ [mg_version m])
  end.

Definition locked_run (migrations : list Migration) : db_prog (list string) :=
  _ ← db CreateTable;
  already ← db SelectVersions;
  apply_pending already migrations [].

Definition run (migrations : list Migration) : db_prog (list string) :=
  _ ← db AdvisoryLock; locked_run migrations.

(** ** The database *)

Section database.
Context {D : Type} (exec : string → D → option D).

Record database := MkDatabase {
  da_versions : option (list string);     (* [schema_migrations], in order of insertion *)
  da_data : D;
}.

(** One statement in a transaction. *)
Definition statement (c : db_call) (d : database) : outcome db_exn (db_answer c) * database :=
  match c return outcome db_exn (db_answer c) * database with
  | AdvisoryLock => (Ok (), d)
  | CreateTable => (Ok (), MkDatabase (Some (default [] (da_versions d))) (da_data d))
  | SelectVersions => (match da_versions d with Some l => Ok (list_to_set l) | None => Exc UndefinedTable end, d)
  | ExecuteSql sql =>
      match exec sql (da_data d) with
      | Some data => (Ok (), MkDatabase (da_versions d) data)
      | None => (Exc ServerError, d)
      end
  | InsertVersion version =>
      match da_versions d with
      | None => (Exc UndefinedTable, d)
      | Some l => if decide (version ∈ l) then (Exc UniqueViolation, d)
                  else (Ok (), MkDatabase (Some (l ++ [version])) (da_data d))
      end
  end.

(** ** Any number of processes at startup

    The advisory lock is held to the end of the transaction; a process may
    die, lose its connection, or lose the answer to its commit at any time. *)

Record cluster := MkCluster {
  cl_committed : database;
  cl_holder : option nat;
  cl_view : database;                                 (* of the transaction that holds the lock *)
  cl_lists : gmap nat (list Migration);               (* what each runner was given *)
  cl_running : gmap nat (db_prog (list string));
  cl_returned : gmap nat (list string);
}.
#[export] Instance cluster_eta : Eta cluster := λ s,
  MkCluster (cl_committed s) (cl_holder s) (cl_view s) (cl_lists s) (cl_running s) (cl_returned s).

Definition new_cluster (d : database) : cluster := MkCluster d None d ∅ ∅ ∅.

(** The transaction of [i] is over. *)
Definition leave (i : nat) (s : cluster) : cluster :=
  s <| cl_holder := if decide (cl_holder s = Some i) then None else cl_holder s |>
    <| cl_running := delete i (cl_running s) |>.

Inductive cluster_step (s : cluster) : cluster → Prop :=
| step_start i migrations : cl_lists s !! i = None →
    cluster_step s (s <| cl_lists := <[i := migrations]> (cl_lists s) |>
                      <| cl_running := <[i := run migrations]> (cl_running s) |>)
| step_lock i k : cl_running s !! i = Some (Call (Σ := db_calls) AdvisoryLock k) → cl_holder s = None →
    cluster_step s (s <| cl_holder := Some i |> <| cl_view := cl_committed s |>
                      <| cl_running := <[i := k (Ok ())]> (cl_running s) |>)
| step_statement i c k : cl_running s !! i = Some (Call (Σ := db_calls) c k) → cl_holder s = Some i →
    cluster_step s (s <| cl_view := (statement c (cl_view s)).2 |>
                      <| cl_running := <[i := k (statement c (cl_view s)).1]> (cl_running s) |>)
| step_commit i l : cl_running s !! i = Some (Ret l) → cl_holder s = Some i →
    cluster_step s (leave i s <| cl_committed := cl_view s |> <| cl_returned := <[i := l]> (cl_returned s) |>)
| step_commit_unanswered i l : cl_running s !! i = Some (Ret l) → cl_holder s = Some i →
    cluster_step s (leave i s <| cl_committed := cl_view s |>)
| step_rollback i p : cl_running s !! i = Some p → cluster_step s (leave i s).

(** The migrations of [log] executed one after the other. *)
Fixpoint replay (log : list Migration) (d : D) : option D :=
  match log with
  | [] => Some d
  | m :: log => exec (mg_sql m) d ≫= replay log
  end.
End database.
