(* ===== verification/MigrationTheorems.v ===== *)
(** * Schema migrations: theorems

    However many processes migrate at startup, and whenever one of them dies:
    every migration is executed at most once, and who returns leaves nothing
    pending. *)
From stdpp Require Import sorting.
From S2P Require Import Prelude Prog Calendar CalendarFacts Url Migrations.

Section facts.
Context {D : Type} (exec : string → D → option D).
Notation database := (database (D := D)).
Notation cluster := (cluster (D := D)).
Implicit Types (c d v : database) (s : cluster) (m : Migration) (ms log rest : list Migration) (i : nat).

Abbreviation rows d := (default [] (da_versions d)).

(** [d'] is [d] after the migrations of [log]. *)
Record grows d log d' : Prop := {
  gr_rows : rows d' = rows d ++ map mg_version log;
  gr_data : replay exec log (da_data d) = Some (da_data d');
  gr_once : NoDup (rows d');
}.

Lemma replay_app log log' (x : D) : replay exec (log ++ log') x = replay exec log x ≫= replay exec log'.
Proof. revert x. induction log as [|m log IH]; intros x; cbn; [done|]. by destruct (exec _ _); cbn. Qed.

Lemma grows_trans d log d' log' d'' : grows d log d' → grows d' log' d'' → grows d (log ++ log') d''.
Proof.
  intros [E1 R1 _] [E2 R2 N2]. split; [|by rewrite replay_app, R1|done].
  by rewrite E2, E1, map_app, app_assoc.
Qed.

Lemma grows_refl d : NoDup (rows d) → grows d [] d.
Proof. intros. split; [by rewrite app_nil_r|done..]. Qed.

(** ** Where the transaction of a runner can stand *)

Abbreviation seen c := (list_to_set (C := gset string) (rows c)).

Inductive point ms c : database → db_prog (list string) → Prop :=
| at_table : point ms c c (locked_run ms)
| at_select v : da_versions v = Some (rows c) → da_data v = da_data c →
    point ms c v (already ← db SelectVersions; apply_pending already ms [])
| at_apply v log rest : is_Some (da_versions v) → grows c log v → log ⊆ ms → rest ⊆ ms →
    (∀ m, m ∈ ms → mg_version m ∈ rows v ∨ m ∈ rest) →
    point ms c v (apply_pending (seen c) rest (map mg_version log))
| at_insert v0 v log m rest : is_Some (da_versions v0) → grows c log v0 → log ⊆ ms → m :: rest ⊆ ms →
    (∀ m', m' ∈ ms → mg_version m' ∈ rows v0 ∨ m' ∈ m :: rest) →
    da_versions v = da_versions v0 → exec (mg_sql m) (da_data v0) = Some (da_data v) →
    point ms c v (_ ← db (InsertVersion (mg_version m));
                  apply_pending (seen c) rest (map mg_version log ++ [mg_version m]))
| at_failed v x : point ms c v (Raise (Σ := db_calls) x).

(** The loop skips what is applied and stops at the first that is not. *)
Lemma apply_pending_next already rest applied :
  (apply_pending already rest applied = Ret applied ∧ ∀ m, m ∈ rest → mg_version m ∈ already) ∨
  ∃ skipped m rest', rest = skipped ++ m :: rest' ∧ (∀ m', m' ∈ skipped → mg_version m' ∈ already) ∧
    mg_version m ∉ already ∧
    apply_pending already rest applied =
      (_ ← db (ExecuteSql (mg_sql m)); _ ← db (InsertVersion (mg_version m));
       apply_pending already rest' (applied ++ [mg_version m])).
Proof.
  induction rest as [|m rest IH]; cbn [apply_pending]; [left; split; [done|]; by intros m []%elem_of_nil|].
  destruct (decide (mg_version m ∈ already)) as [Hin|Hn].
  - destruct IH as [[-> Hall]|(skipped & m' & rest' & -> & Hs & Hn & ->)].
    + left. split; [done|]. intros m' [->|?]%elem_of_cons; auto.
    + right. exists (m :: skipped), m', rest'. split_and!; [done| |done..]. intros m1 [->|?]%elem_of_cons; auto.
  - right. exists [], m, rest. split_and!; [done| |done..]. by intros m' []%elem_of_nil.
Qed.

Lemma seen_rows c log v m : grows c log v → mg_version m ∈ seen c → mg_version m ∈ rows v.
Proof. intros Hg. rewrite elem_of_list_to_set, (gr_rows _ _ _ Hg), elem_of_app. auto. Qed.

(** A statement keeps the transaction on its way. *)
Definition next (c : database) (p : db_prog (list string)) v : option (database * db_prog (list string)) :=
  match p with
  | Call o k => Some ((statement exec o v).2, k (statement exec o v).1)
  | _ => None
  end.

Lemma point_next ms c v p v' p' : NoDup (rows c) →
  point ms c v p → next c p v = Some (v', p') → point ms c v' p'.
Proof.
  intros Hnd Hp. destruct Hp as [|v Ev Ed|v log rest Hsome Hg Hl Hr Hall|v0 v log m rest Hsome Hg Hl Hr Hall Ev Ed|v x];
    cbn [next locked_run db perform mbind prog_bind].
  - intros [= <- <-]. apply at_select; done.
  - cbn. rewrite Ev. cbn. intros [= <- <-]. apply (at_apply ms c v [] ms); [by eexists| |set_solver|done|by auto].
    split; cbn; rewrite ?Ev, ?Ed; [by rewrite app_nil_r|done..].
  - destruct (apply_pending_next (seen c) rest (map mg_version log)) as [[-> _]|(skipped & m & rest' & -> & Hs & Hn & ->)]; [done|].
    cbn. destruct (exec (mg_sql m) (da_data v)) as [data|] eqn:Ex; cbn; intros [= <- <-]; [|apply at_failed].
    apply (at_insert ms c v _ log m rest'); [done..|set_solver| |done|done].
    intros m' Hm'. destruct (Hall m' Hm') as [?|[Hin|?]%elem_of_app]; [by left| |by right].
    left. eapply seen_rows; [done|by apply Hs].
  - cbn. destruct Hsome as [l El]. rewrite Ev, El. case_decide as Hin; cbn; intros [= <- <-]; [apply at_failed|].
    replace (map mg_version log ++ [mg_version m]) with (map mg_version (log ++ [m])) by by rewrite map_app.
    assert (rows v0 = l) as Er by by rewrite El.
    apply at_apply; cbn; [by eexists| |set_solver|set_solver|].
    + eapply grows_trans; [exact Hg|]. split; cbn; [by rewrite Er|by rewrite Ed|].
      apply NoDup_app. split_and!; [rewrite <- Er; apply Hg|set_solver|apply NoDup_singleton].
    + intros m' Hm'. rewrite elem_of_app. destruct (Hall m' Hm') as [?|[->|?]%elem_of_cons]; [rewrite <- Er; auto|left; right; left|auto].
  - done.
Qed.

(** What has been returned when the loop ends. *)
Lemma point_ret ms c v l : point ms c v (Ret l) → ∃ log, grows c log v ∧ log ⊆ ms ∧ l = map mg_version log ∧
  ∀ m, m ∈ ms → mg_version m ∈ rows v.
Proof.
  intros Hp. remember (Ret l) as p eqn:Ep. destruct Hp as [|v|v log rest Hsome Hg Hl Hr Hall|v0 v log m rest|]; try discriminate Ep.
  destruct (apply_pending_next (seen c) rest (map mg_version log)) as [[E Hall']|(skipped & m & rest' & -> & Hs & Hn & E)];
    rewrite E in Ep; [|discriminate Ep]. injection Ep as <-. exists log. split_and!; [done..|].
  intros m Hm. destruct (Hall m Hm) as [?|?]; [done|]. eapply seen_rows; [done|]. by apply Hall'.
Qed.

(** ** The invariant of the cluster *)

Context (d0 : database).

Definition answered s (l : list string) i : Prop := ∃ ms, cl_lists s !! i = Some ms ∧
  (∀ m, m ∈ ms → mg_version m ∈ rows (cl_committed s)) ∧
  ∀ version, version ∈ l →
    version ∈ map mg_version ms ∧ version ∈ rows (cl_committed s) ∧ version ∉ rows d0.

Record cluster_ok s : Prop := {
  ok_log : ∃ log, grows d0 log (cl_committed s) ∧
    ∀ m, m ∈ log → ∃ i ms, cl_lists s !! i = Some ms ∧ m ∈ ms;
  ok_running i p : cl_running s !! i = Some p → cl_returned s !! i = None ∧ ∃ ms, cl_lists s !! i = Some ms ∧
    if decide (cl_holder s = Some i) then point ms (cl_committed s) (cl_view s) p else p = run ms;
  ok_holder i : cl_holder s = Some i → is_Some (cl_running s !! i);
  ok_returned i l : cl_returned s !! i = Some l → answered s l i;
  ok_apart i j li lj version : i ≠ j → cl_returned s !! i = Some li → cl_returned s !! j = Some lj →
    version ∈ li → version ∉ lj;
}.

Lemma cluster_ok_new : NoDup (rows d0) → cluster_ok (new_cluster d0).
Proof.
  intros. split; cbn; [|done || (intros *; by rewrite lookup_empty)..].
  exists []. split; [by apply grows_refl|]. by intros m []%elem_of_nil.
Qed.

Lemma committed_once s : cluster_ok s → NoDup (rows (cl_committed s)).
Proof. intros Hs. destruct (ok_log _ Hs) as (log & Hg & _). apply Hg. Qed.

Lemma ok_start s i ms : cl_lists s !! i = None → cluster_ok s →
  cluster_ok (s <| cl_lists := <[i := ms]> (cl_lists s) |> <| cl_running := <[i := run ms]> (cl_running s) |>).
Proof.
  intros Hi Hs.
  assert (∀ j ms', cl_lists s !! j = Some ms' → <[i := ms]> (cl_lists s) !! j = Some ms') as Hkeep.
  { intros j ms' Hj. rewrite lookup_insert_ne; [done|]. intros ->. congruence. }
  split; cbn.
  - destruct (ok_log _ Hs) as (log & Hg & Hl). exists log. split; [done|]. intros m (j & ms' & Hj & Hm)%Hl. eauto.
  - intros j p [[-> <-]|[Hne Hj]]%lookup_insert_Some.
    + split.
      * apply eq_None_not_Some. intros [l Hl]. destruct (ok_returned _ Hs _ _ Hl) as (ms' & E & _). congruence.
      * exists ms. rewrite lookup_insert_eq. split; [done|]. case_decide as Hh; [|done].
        destruct (ok_holder _ Hs _ Hh) as [p E]. destruct (ok_running _ Hs _ _ E) as (_ & ms' & E' & _). congruence.
    + destruct (ok_running _ Hs _ _ Hj) as (Hr & ms' & E & Hp). split; [done|]. exists ms'. by split; [apply Hkeep|].
  - intros j Hh. destruct (ok_holder _ Hs _ Hh) as [p Hp]. destruct (decide (i = j)) as [->|];
      [rewrite lookup_insert_eq; by eexists|rewrite lookup_insert_ne by done; by eexists].
  - intros j l Hj. destruct (ok_returned _ Hs _ _ Hj) as (ms' & E & Hall). exists ms'. split; [by apply Hkeep|done].
  - apply Hs.
Qed.

(** What a runner does next once it has the lock. *)
Definition granted (p : db_prog (list string)) : db_prog (list string) :=
  match p with
  | Call c k => match c return ((outcome db_exn (db_answer c) → db_prog (list string)) → db_prog (list string)) with
                | AdvisoryLock => λ k, k (Ok ())
                | _ => λ _, p
                end k
  | p => p
  end.

(** The lock is taken, and what is committed is read. *)
Lemma ok_lock s i k : cl_running s !! i = Some (Call (Σ := db_calls) AdvisoryLock k) → cl_holder s = None → cluster_ok s →
  cluster_ok (s <| cl_holder := Some i |> <| cl_view := cl_committed s |> <| cl_running := <[i := k (Ok ())]> (cl_running s) |>).
Proof.
  intros Hi Hh Hs. split; cbn; [apply Hs| | |apply Hs..].
  - intros j p [[<- <-]|[Hne Hj]]%lookup_insert_Some.
    + destruct (ok_running _ Hs _ _ Hi) as (Hr & ms & E & Hp). split; [done|]. exists ms. split; [done|].
      rewrite decide_False in Hp by (by rewrite Hh). apply (f_equal granted) in Hp. cbn in Hp.
      rewrite decide_True, Hp by done. apply at_table.
    + destruct (ok_running _ Hs _ _ Hj) as (Hr & ms & E & Hp). rewrite Hh, decide_False in Hp by done.
      split; [done|]. exists ms. rewrite decide_False by congruence. done.
  - intros j [= <-]. rewrite lookup_insert_eq. by eexists.
Qed.

Lemma ok_statement s i (c : db_call) k : cl_running s !! i = Some (Call (Σ := db_calls) c k) → cl_holder s = Some i → cluster_ok s →
  cluster_ok (s <| cl_view := (statement exec c (cl_view s)).2 |>
                <| cl_running := <[i := k (statement exec c (cl_view s)).1]> (cl_running s) |>).
Proof.
  intros Hi Hh Hs. split; cbn; [apply Hs| | |apply Hs..].
  - intros j p [[<- <-]|[Hne Hj]]%lookup_insert_Some.
    + destruct (ok_running _ Hs _ _ Hi) as (Hr & ms & E & Hp). split; [done|]. exists ms. split; [done|].
      rewrite decide_True in Hp |- * by done. apply (point_next ms _ _ _ _ _ (committed_once _ Hs) Hp). done.
    + destruct (ok_running _ Hs _ _ Hj) as (Hr & ms & E & Hp). split; [done|]. exists ms.
      rewrite decide_False in Hp |- * by congruence. done.
  - intros j Hj. rewrite lookup_insert_is_Some. destruct (decide (i = j)); [by left|right]. split; [done|by apply Hs].
Qed.

(** A transaction ends; [committed] is what is committed then, [log'] what it added. *)
Lemma ok_leave s i committed log' : cluster_ok s → cl_holder s = Some i ∨ committed = cl_committed s →
  grows (cl_committed s) log' committed →
  (∀ m, m ∈ log' → ∃ ms, cl_lists s !! i = Some ms ∧ m ∈ ms) →
  cluster_ok (leave i s <| cl_committed := committed |>).
Proof.
  intros Hs Hwho Hg Hlog. unfold leave.
  assert (∀ version, version ∈ rows (cl_committed s) → version ∈ rows committed) as Hmore.
  { intros version Hv. rewrite (gr_rows _ _ _ Hg), elem_of_app. by left. }
  split; cbn.
  - destruct (ok_log _ Hs) as (log & Hg0 & Hl). exists (log ++ log'). split; [by eapply grows_trans|].
    intros m [Hm|Hm]%elem_of_app; [by apply Hl|]. destruct (Hlog m Hm) as (ms & ? & ?). eauto.
  - intros j p [Hne Hj]%lookup_delete_Some. destruct (ok_running _ Hs _ _ Hj) as (Hr & ms & E & Hp).
    split; [done|]. exists ms. split; [done|]. destruct (decide (cl_holder s = Some i)) as [Hi|Hi].
    + rewrite decide_False in Hp by congruence. by rewrite decide_False by done.
    + destruct Hwho as [?| ->]; [done|]. exact Hp.
  - intros j Hj. case_decide as Hi; [done|]. rewrite lookup_delete_ne; [by apply Hs|]. intros ->. done.
  - intros j l Hj. destruct (ok_returned _ Hs _ _ Hj) as (ms & E & Hall & Hin). exists ms. split; [done|].
    split; [auto|]. intros version Hv. destruct (Hin version Hv) as (? & ? & ?). auto.
  - apply Hs.
Qed.

Lemma ok_commit s i l : cl_running s !! i = Some (Ret l) → cl_holder s = Some i → cluster_ok s →
  cluster_ok (leave i s <| cl_committed := cl_view s |>) ∧
  cluster_ok (leave i s <| cl_committed := cl_view s |> <| cl_returned := <[i := l]> (cl_returned s) |>).
Proof.
  intros Hi Hh Hs. destruct (ok_running _ Hs _ _ Hi) as (Hr & ms & E & Hp). rewrite decide_True in Hp by done.
  destruct (point_ret _ _ _ _ Hp) as (log & Hg & Hl & -> & Hall).
  assert (cluster_ok (leave i s <| cl_committed := cl_view s |>)) as Hc.
  { apply (ok_leave _ _ _ log); [done|by left|done|]. intros m Hm. exists ms. auto. }
  split; [done|]. destruct (ok_log _ Hs) as (log0 & Hg0 & _).
  assert (∀ version, version ∈ map mg_version log → version ∈ rows (cl_view s) ∧ version ∉ rows (cl_committed s)) as Hnew.
  { intros version Hv. pose proof (gr_once _ _ _ Hg) as Hnd. rewrite (gr_rows _ _ _ Hg) in *.
    apply NoDup_app in Hnd as (_ & Hd & _). split; [apply elem_of_app; by right|]. intros Hv'. by apply (Hd version). }
  split; [apply Hc| |apply Hc| |]; cbn.
  - intros j p Hj. destruct (ok_running _ Hc j p Hj) as [Hrj Hpj]. split; [|done].
    apply lookup_delete_Some in Hj as [Hne _]. by rewrite lookup_insert_ne.
  - intros j l' [[<- <-]|[Hne Hj]]%lookup_insert_Some; [|by apply (ok_returned _ Hc)].
    exists ms. split; [done|]. split; [done|]. intros version Hv. destruct (Hnew version Hv) as [Hv1 Hv2].
    split_and!; [|done|].
    + apply list_elem_of_fmap in Hv as (m & -> & Hm). apply list_elem_of_fmap. eauto.
    + intros Hv0. apply Hv2. rewrite (gr_rows _ _ _ Hg0). apply elem_of_app. by left.
  - intros j j' lj lj' version Hne Hj Hj' Hv Hv'.
    apply lookup_insert_Some in Hj as [[<- <-]|[Hnj Hj]]; apply lookup_insert_Some in Hj' as [[<- <-]|[Hnj' Hj']]; [done| | |].
    + destruct (ok_returned _ Hs _ _ Hj') as (? & _ & _ & Hin). by apply (proj2 (Hnew version Hv)), Hin.
    + destruct (ok_returned _ Hs _ _ Hj) as (? & _ & _ & Hin). by apply (proj2 (Hnew version Hv')), Hin.
    + exact (ok_apart _ Hs _ _ _ _ _ Hne Hj Hj' Hv Hv').
Qed.

Lemma cluster_step_ok s s' : cluster_step exec s s' → cluster_ok s → cluster_ok s'.
Proof.
  intros [i ms Hi|i k Hi Hh|i c k Hi Hh|i l Hi Hh|i l Hi Hh|i p Hi] Hs.
  - by apply ok_start.
  - by apply ok_lock.
  - by apply ok_statement.
  - by apply ok_commit.
  - by eapply ok_commit.
  - change (leave i s) with (leave i s <| cl_committed := cl_committed s |>).
    apply (ok_leave _ _ _ []); [done|by right|by apply grows_refl, committed_once|by intros m []%elem_of_nil].
Qed.

(** C33 (migrations: once). However many processes migrate the same database at
    startup, and wherever they fail, die or lose the answer of their commit:
    the database is the result of executing the applied migrations one after
    the other, each version is applied once and recorded; a run that returns
    leaves nothing of its list pending and returns versions that were pending
    before, and no two runs return the same version. *)
Theorem migrations_run_once s : NoDup (rows d0) → rtc (cluster_step exec) (new_cluster d0) s →
  let committed := cl_committed s in
  (∃ log, rows committed = rows d0 ++ map mg_version log ∧ replay exec log (da_data d0) = Some (da_data committed) ∧
     NoDup (rows committed) ∧ ∀ m, m ∈ log → ∃ i ms, cl_lists s !! i = Some ms ∧ m ∈ ms) ∧
  (∀ i l, cl_returned s !! i = Some l → ∃ ms, cl_lists s !! i = Some ms ∧
     (∀ m, m ∈ ms → mg_version m ∈ rows committed) ∧
     ∀ version, version ∈ l → version ∈ map mg_version ms ∧ version ∈ rows committed ∧ version ∉ rows d0) ∧
  ∀ i j li lj version, i ≠ j → cl_returned s !! i = Some li → cl_returned s !! j = Some lj →
    version ∈ li → version ∉ lj.
Proof.
  intros Hnd Hr. assert (cluster_ok s) as Hs.
  { revert s Hr. apply rtc_ind_r; [by apply cluster_ok_new|]. intros s s' _ Hs Hok. by eapply cluster_step_ok. }
  split_and!.
  - destruct (ok_log _ Hs) as (log & [] & Hl). by exists log.
  - apply Hs.
  - apply Hs.
Qed.
End facts.

(** ** One process alone *)

(** The transaction of a program, nothing else being at work. *)
Definition transaction {D A} (exec : string → D → option D) (p : db_prog A) (d : database (D := D)) :
    outcome db_exn A * database (D := D) :=
  Prog.run (Σ := db_calls) (statement exec) p d.

Section alone.
Context {D : Type} (exec : string → D → option D).

Lemma apply_pending_alone (already : gset string) rest applied l (x y : D) :
  NoDup (map mg_version rest) → (∀ m, m ∈ rest → mg_version m ∉ already → mg_version m ∉ l) →
  let pending := filter (λ m, mg_version m ∉ already) rest in
  replay exec pending x = Some y →
  transaction exec (apply_pending already rest applied) (MkDatabase (Some l) x) =
    (Ok (applied ++ map mg_version pending), MkDatabase (Some (l ++ map mg_version pending)) y).
Proof.
  unfold transaction. revert applied l x. induction rest as [|m rest IH]; intros applied l x Hnd Hfresh; cbn [apply_pending].
  { cbn. intros [= ->]. by rewrite !app_nil_r. }
  apply NoDup_cons in Hnd as [Hm Hnd]. rewrite filter_cons. destruct (decide (mg_version m ∈ already)) as [Hin|Hn].
  - rewrite decide_False by (by intros H; apply H). apply IH; [done|]. intros m' Hm'. apply Hfresh. by right.
  - rewrite decide_True by done. cbn. destruct (exec (mg_sql m) x) as [z|] eqn:E; [|done]. cbn. intros Hy.
    rewrite decide_False by (apply Hfresh; [left|done]). cbn. rewrite (IH _ _ z); [|done| |done].
    + by rewrite <- !app_assoc.
    + intros m' Hm' Hn'. rewrite elem_of_app, list_elem_of_singleton. intros [Hl|E'].
      * by apply (Hfresh m'); [right|..].
      * apply Hm. rewrite <- E'. apply list_elem_of_fmap. by exists m'.
Qed.

(** A run with nobody else at work applies exactly the
    migrations that are pending, in their order, when the server accepts them;
    it returns their versions, and a second run with the same list returns
    none and changes nothing. *)
Theorem migrations_apply (d : database (D := D)) (ms : list Migration) (y : D) :
  NoDup (map mg_version ms) →
  let rows := default [] (da_versions d) in
  let pending := filter (λ m, mg_version m ∉ rows) ms in
  replay exec pending (da_data d) = Some y →
  let d' := MkDatabase (Some (rows ++ map mg_version pending)) y in
  transaction exec (run ms) d = (Ok (map mg_version pending), d') ∧
  transaction exec (run ms) d' = (Ok [], d').
Proof.
  intros Hnd rows pending Hy d'.
  assert (∀ l x z, replay exec (filter (λ m, mg_version m ∉ l) ms) x = Some z →
    transaction exec (apply_pending (list_to_set l) ms []) (MkDatabase (Some l) x) =
      (Ok (map mg_version (filter (λ m, mg_version m ∉ l) ms)),
       MkDatabase (Some (l ++ map mg_version (filter (λ m, mg_version m ∉ l) ms))) z)) as Hrun.
  { intros l x z Hz. assert (filter (λ m, mg_version m ∉ list_to_set (C := gset string) l) ms =
      filter (λ m, mg_version m ∉ l) ms) as E.
    { apply list_filter_iff. intros m. by rewrite elem_of_list_to_set. }
    rewrite (apply_pending_alone _ ms [] l x z); rewrite ?E; try done.
    intros m _. by rewrite elem_of_list_to_set. }
  split.
  - exact (Hrun rows (da_data d) y Hy).
  - transitivity (transaction exec (apply_pending (list_to_set (rows ++ map mg_version pending)) ms []) d'); [done|].
    assert (filter (λ m, mg_version m ∉ rows ++ map mg_version pending) ms = []) as E.
    { apply elem_of_nil_inv. intros m [Hn Hm]%list_elem_of_filter. destruct Hn. apply elem_of_app.
      destruct (decide (mg_version m ∈ rows)) as [|Hr]; [by left|right].
      apply list_elem_of_fmap. exists m. split; [done|]. by apply list_elem_of_filter. }
    specialize (Hrun (rows ++ map mg_version pending) y y). rewrite E in Hrun. cbn in Hrun.
    rewrite app_nil_r in Hrun. by apply Hrun.
Qed.
End alone.

(** ** The files *)

Lemma last_dot l : existsb (Ascii.eqb "."%char) l = true →
  ∃ l1 l2, l = l1 ++ "."%char :: l2 ∧ existsb (Ascii.eqb "."%char) l2 = false.
Proof.
  induction l as [|x l IH]; [done|]. cbn [existsb]. destruct (existsb _ l) eqn:E.
  - intros _. destruct (IH eq_refl) as (l1 & l2 & -> & ?). by exists (x :: l1), l2.
  - rewrite orb_false_r. intros Hx. apply Ascii.eqb_eq in Hx as <-. by exists [], l.
Qed.

Lemma after_last_free l acc : existsb (Ascii.eqb "."%char) l = false → after_last "."%char l acc = acc.
Proof.
  revert acc. induction l as [|x l IH]; intros acc; cbn [existsb after_last]; [done|]. intros [Hx Hl]%orb_false_iff.
  unfold is_char. rewrite Ascii.eqb_sym, Hx. by apply IH.
Qed.

Lemma split_suffix_app name stem suffix : split_suffix name = (stem, suffix) → name = stem +:+ suffix.
Proof.
  unfold split_suffix. intros H. assert (∀ s, s = s +:+ "") as Hnil.
  { intros s. rewrite <- (of_chars_chars s) at 1. induction s as [|c s IH]; [done|]. exact (f_equal (String c) IH). }
  destruct (existsb _ (chars name)) eqn:Hdot; [|injection H as <- <-; apply Hnil].
  destruct (last_dot _ Hdot) as (l1 & l2 & E & Hfree). unfold rpartition in H. rewrite E in H.
  rewrite after_last_app, after_last_free in H by done. rewrite length_app in H. cbn [length] in H.
  replace (length l1 + S (length l2) - length l2 - 1)%nat with (length l1) in H by lia.
  rewrite take_app_length in H.
  destruct l1 as [|x l1]; [injection H as <- <-; apply Hnil|].
  destruct l2 as [|x2 l2]; injection H as <- <-; [apply Hnil|].
  rewrite <- (of_chars_chars name), E. clear.
  change (String x (of_chars l1)) with (of_chars (x :: l1)). induction (x :: l1) as [|c l IH]; [done|].
  exact (f_equal (String c) IH).
Qed.

(** Distinct file names give distinct versions, in the order of the names. *)
Lemma discovered_distinct is_dir entries : NoDup (map de_name entries) →
  NoDup (map mg_version (discover_migrations is_dir entries)).
Proof.
  intros Hnd. unfold discover_migrations. destruct is_dir; cbn [negb]; [|constructor].
  rewrite map_map. cbn [mg_version].
  assert (NoDup (map de_name (merge_sort name_le entries))) as Hs by by rewrite (merge_sort_Permutation name_le entries).
  induction (merge_sort name_le entries) as [|d l IH]; [constructor|]. cbn [map List.filter] in *.
  apply NoDup_cons in Hs as [Hd Hs]. destruct (de_is_file d && _) eqn:E; [|by apply IH].
  cbn [map]. apply NoDup_cons. split; [|by apply IH].
  intros (d' & Ed & Hin)%list_elem_of_fmap. apply list_elem_of_In, filter_In in Hin as [Hin E'].
  apply andb_true_iff in E as [_ E%String.eqb_eq], E' as [_ E'%String.eqb_eq].
  apply Hd, list_elem_of_fmap. exists d'. split; [|by apply list_elem_of_In].
  rewrite (split_suffix_app _ _ _ (surjective_pairing (split_suffix (de_name d)))),
    (split_suffix_app _ _ _ (surjective_pairing (split_suffix (de_name d')))). by rewrite Ed, E, E'.
Qed.

(** ** Schema migrations: two replicas start at once *)

(** A server that records what it executed, and refuses an empty statement. *)
Definition demo_exec (sql : string) (data : list string) : option (list string) :=
  if (sql =? "")%string then None else Some (data ++ [sql]).

Definition demo_entries : list dir_entry :=
  [MkEntry "0002_accounts.sql" true "CREATE TABLE users";
   MkEntry ".gitkeep" true "";
   MkEntry "0001_watches.sql" true "CREATE TABLE watches";
   MkEntry "notes.sql" false "";
   MkEntry "README.md" true "read me"].

Definition demo_migrations : list Migration := discover_migrations true demo_entries.

Example demo_migrations_found :
  demo_migrations = [MkMigration "0001_watches" "CREATE TABLE watches"; MkMigration "0002_accounts" "CREATE TABLE users"].
Proof. vm_compute. reflexivity. Qed.

(** The next step of a runner that is not refused. *)
Definition advance (i : nat) (s : cluster (D := list string)) : option (cluster (D := list string)) :=
  match cl_running s !! i with
  | Some (Call c k) =>
      match c, k, cl_holder s with
      | AdvisoryLock, k, None => Some (s <| cl_holder := Some i |> <| cl_view := cl_committed s |>
                                         <| cl_running := <[i := k (Ok ())]> (cl_running s) |>)
      | c, k, Some j => if decide (j = i)
                        then Some (s <| cl_view := (statement demo_exec c (cl_view s)).2 |>
                                     <| cl_running := <[i := k (statement demo_exec c (cl_view s)).1]> (cl_running s) |>)
                        else None
      | _, _, _ => None
      end
  | Some (Ret l) =>
      if decide (cl_holder s = Some i)
      then Some (leave i s <| cl_committed := cl_view s |> <| cl_returned := <[i := l]> (cl_returned s) |>) else None
  | _ => None
  end.

Lemma advance_step i s s' : advance i s = Some s' → cluster_step demo_exec s s'.
Proof.
  unfold advance. destruct (cl_running s !! i) as [[l|x|c k]|] eqn:E; [|done| |done].
  - case_decide; [|done]. intros [= <-]. by apply (step_commit _ s i).
  - destruct (cl_holder s) as [j|] eqn:Eh; destruct c; try done; try (case_decide as Hj; [subst j|done]);
      intros [= <-]; exact (step_lock _ s i k E Eh) || exact (step_statement _ s i _ k E Eh).
Qed.

Definition advances (l : list nat) (s : cluster (D := list string)) : option (cluster (D := list string)) :=
  foldl (λ s i, s ≫= advance i) (Some s) l.

Lemma advances_steps l s s' : advances l s = Some s' → rtc (cluster_step demo_exec) s s'.
Proof.
  unfold advances. revert s. induction l as [|i l IH]; intros s; cbn; [intros [= ->]; apply rtc_refl|].
  destruct (advance i s) as [s1|] eqn:E; [|clear IH E; cbn; by induction l].
  intros Hl. eapply rtc_l; [by eapply advance_step|]. by apply IH.
Qed.

Definition demo_new : database (D := list string) := MkDatabase None [].

Definition demo_started : cluster (D := list string) :=
  new_cluster demo_new <| cl_lists := <[1%nat := demo_migrations]> (<[0%nat := demo_migrations]> ∅) |>
    <| cl_running := <[1%nat := run demo_migrations]> (<[0%nat := run demo_migrations]> ∅) |>.

(** Runner 1 takes the lock first; runner 0 finds nothing to do. *)
Definition demo_schedule : list nat := repeat 1%nat 8 ++ repeat 0%nat 4.

Lemma migrations_run_once_witness :
  match advances demo_schedule demo_started with
  | Some s => da_data (cl_committed s) = ["CREATE TABLE watches"; "CREATE TABLE users"]%string ∧
      cl_returned s !! 0%nat = Some [] ∧ cl_returned s !! 1%nat = Some ["0001_watches"; "0002_accounts"]%string ∧
      NoDup (default [] (da_versions (cl_committed s)))
  | None => False
  end.
Proof.
  destruct (advances demo_schedule demo_started) as [s|] eqn:E; [|vm_compute in E; discriminate E].
  assert (rtc (cluster_step demo_exec) (new_cluster demo_new) s) as Hr.
  { eapply rtc_l; [by apply (step_start _ _ 0%nat demo_migrations)|].
    eapply rtc_l; [by apply (step_start _ _ 1%nat demo_migrations)|].
    apply (advances_steps demo_schedule). rewrite <- E. reflexivity. }
  destruct (migrations_run_once demo_exec demo_new s (NoDup_nil_2) Hr) as ((log & _ & _ & Hnd & _) & _).
  assert (da_data (cl_committed s) = ["CREATE TABLE watches"; "CREATE TABLE users"]%string ∧
    cl_returned s !! 0%nat = Some [] ∧ cl_returned s !! 1%nat = Some ["0001_watches"; "0002_accounts"]%string) as (H1 & H2 & H3).
  { vm_compute in E. injection E as <-. by vm_compute. }
  exact (conj H1 (conj H2 (conj H3 Hnd))).
Defined.

Lemma migrations_apply_witness :
  transaction demo_exec (run demo_migrations) (MkDatabase (Some ["0001_watches"%string]) ["CREATE TABLE watches"%string]) =
    (Ok ["0002_accounts"%string],
     MkDatabase (Some ["0001_watches"; "0002_accounts"]%string) ["CREATE TABLE watches"; "CREATE TABLE users"]%string).
Proof.
  destruct (migrations_apply demo_exec (MkDatabase (Some ["0001_watches"%string]) ["CREATE TABLE watches"%string])
    demo_migrations ["CREATE TABLE watches"; "CREATE TABLE users"]%string) as [H _].
  - apply discovered_distinct. repeat constructor; set_solver.
  - vm_compute. reflexivity.
  - rewrite H. vm_compute. reflexivity.
Defined.
