(* ===== verification/Worker.v ===== *)
(** * The Celery worker ([backend/workers/tasks/monitor_watch.py],
    [backend/workers/celery_app.py])

    One process runs polls on one event loop; what it needs is built on first
    use and cached ([lru_cache]), and released once at shutdown.  The caches
    and the flag [_resources_closed] are module state, which an exception does
    not undo: [task] is a state and error monad over awaited calls.
    [_runner_lock] makes its blocks atomic between threads. *)

From S2P Require Import Prelude Calendar Policy Watch Prog Url Settings Composition.

(** ** Calls *)

Inductive worker_call :=
| Boot (c : boot_call)                                      (* what the API process calls, too *)
| PollOnce (service : watch_service) (watch_id : string)
| PollWindow (service : watch_service) (watch_id window_id : string)
| CloseRunner.

Definition worker_answer (c : worker_call) : Type :=
  match c with
  | Boot c => boot_answer c
  | PollOnce _ _ | PollWindow _ _ _ => WatchPollResult
  | CloseRunner => ()
  end.

Definition worker_calls : sig := Sig worker_call worker_answer boot_exn.
Notation worker_prog := (prog worker_calls).

(** A program of the API process, run by the worker. *)
Fixpoint on_loop {A} (p : boot_prog A) : worker_prog A :=
  match p with
  | Ret a => Ret a
  | Raise x => Raise (Σ := worker_calls) x
  | Call c k => Call (Σ := worker_calls) (Boot c) (λ r, on_loop (k r))
  end.

(** ** Module state *)

Record worker := MkWorker {
  wk_closed : bool;                            (* [_resources_closed] *)
  wk_settings : option WatchSettings;          (* the caches *)
  wk_runner : option bool;                     (* of [_runner]; has it been closed? *)
  wk_client : option client;
  wk_pool : option (option pool);
  wk_service : option watch_service;
}.
#[export] Instance worker_eta : Eta worker := λ w,
  MkWorker (wk_closed w) (wk_settings w) (wk_runner w) (wk_client w) (wk_pool w) (wk_service w).

Definition new_worker : worker := MkWorker false None None None None None.

(** ** Tasks *)

Definition task (A : Type) : Type := worker → worker_prog (outcome boot_exn A * worker).

#[export] Instance task_ret : MRet task := λ A a w, Ret (Ok a, w).
#[export] Instance task_bind : MBind task := λ A B f c w,
  r ← c w;
  match r with
  | (Ok a, w) => f a w
  | (Exc x, w) => Ret (Exc x, w)
  end.

Definition throw {A} (x : boot_exn) : task A := λ w, Ret (Exc x, w).
Definition get {A} (f : worker → A) : task A := λ w, Ret (Ok (f w), w).
Definition modify (f : worker → worker) : task () := λ w, Ret (Ok (), f w).

Definition await {A} (p : worker_prog A) : task A := λ w,
  r ← attempt (Σ := worker_calls) p; Ret (r, w).

Definition call (c : worker_call) : task (worker_answer c) := await (perform (Σ := worker_calls) c).

(** [try: c  except ...: h] *)
Definition catch {A} (c : task A) (h : boot_exn → option (task A)) : task A := λ w,
  r ← c w;
  match r with
  | (Ok a, w) => Ret (Ok a, w)
  | (Exc x, w) => match h x with Some q => q w | None => Ret (Exc x, w) end
  end.

(** [try: c  finally: q]: an exception of [q] replaces the one of [c]. *)
Definition finally {A} (c : task A) (q : task ()) : task A := λ w,
  r ← c w;
  r' ← q r.2;
  match r' with
  | (Ok _, w) => Ret (r.1, w)
  | (Exc x, w) => Ret (Exc x, w)
  end.

Section worker.
Context (known_zone : string → bool) (bracketed_ok : string → bool) (repr : string → string).
Context (env : string → option string).

(** [X.from_environment()]: the error is a [ConfigurationError], or a
    [ValueError] that escapes [urlparse] or [int]. *)
Definition loaded {A} (r : result A) : task A :=
  match r with
  | Ok a => mret a
  | Exc message => throw (if (message =? value_error)%string then BootError value_error
                          else ConfigurationError message)
  end.

(** ** Cached resources *)

Definition _settings : task WatchSettings :=
  cached ← get wk_settings;
  match cached with
  | Some settings => mret settings
  | None => settings ← loaded (WatchSettings_from_environment known_zone bracketed_ok repr env);
            modify (λ w, w <| wk_settings := Some settings |>);; mret settings
  end.

(** [_runner()], and [.run(...)] on it, which a closed runner refuses. *)
Definition _runner : task () :=
  cached ← get wk_runner;
  match cached with Some _ => mret () | None => modify (λ w, w <| wk_runner := Some false |>) end.

Definition run_on_runner {A} (p : worker_prog A) : task A :=
  _runner;;
  closed ← get wk_runner;
  if bool_decide (closed = Some true) then throw (BootError "RuntimeError") else await p.

Definition _redis_client (settings : WatchSettings) : task client :=
  cached ← get wk_client;
  match cached with
  | Some c => mret c
  | None => let c := ws_redis_url settings in modify (λ w, w <| wk_client := Some c |>);; mret c
  end.

Definition connect_pool : task (option pool) :=
  settings ← catch (settings ← loaded (PostgresSettings_from_environment bracketed_ok env); mret (Some settings))
    (λ x, match x with ConfigurationError _ => Some (mret None) | _ => None end);
  match settings with
  | None => mret None
  | Some settings =>
      match pg_dsn settings with
      | None => mret None
      | Some _ =>
          catch (pool ← run_on_runner (on_loop (create_pool bracketed_ok settings)); mret (Some pool))
            (λ x, if boot_is_exception x then Some (mret None) else None)
      end
  end.

Definition _postgres_pool : task (option pool) :=
  cached ← get wk_pool;
  match cached with
  | Some pool => mret pool
  | None => pool ← connect_pool; modify (λ w, w <| wk_pool := Some pool |>);; mret pool
  end.

Definition _build_notifier (pool : option pool) : task (option mailer) :=
  match pool with
  | None => mret None
  | Some pool =>
      settings ← catch (settings ← loaded (EmailSettings_from_environment bracketed_ok repr env); mret (Some settings))
        (λ x, match x with ConfigurationError _ => Some (mret None) | _ => None end);
      mret match settings with
           | Some settings => match em_host settings with
                              | Some _ => Some (MkMailer pool settings)
                              | None => None
                              end
           | None => None
           end
  end.

Definition scheduled (settings : WatchSettings) : task PollSchedule :=
  match make_schedule (seconds (ws_poll_interval_seconds settings)) (seconds (ws_poll_jitter_seconds settings)) with
  | Some schedule => mret schedule
  | None => throw (BootError value_error)
  end.

Definition build_watch_service : task watch_service :=
  cached ← get wk_service;
  match cached with
  | Some service => mret service
  | None =>
      settings ← _settings;
      pool ← _postgres_pool;
      c ← _redis_client settings;
      schedule ← scheduled settings;
      notifier ← _build_notifier pool;
      let service :=
        MkWatchService (RedisWatches c (seconds (ws_terminal_retention_seconds settings)))
          (MockBookingAdapter (RedisMock c (configured_bounds settings))) CeleryQueue (Some schedule)
          pool notifier DEFAULT_NOTIFY_TIMEOUT_SECONDS (Some (ws_timezone_name settings))
          (ws_max_poll_attempts settings) (seconds (ws_provider_call_timeout_seconds settings))
          (seconds (ws_provider_backoff_max_seconds settings)) in
      modify (λ w, w <| wk_service := Some service |>);; mret service
  end.

(** ** Shutdown *)

Definition _close_worker_resources : task () :=
  closed ← get wk_closed;
  if closed : bool then mret () else
  modify (λ w, w <| wk_closed := true |>);;
  runner ← get wk_runner;
  match runner with
  | None => mret ()
  | Some _ =>
      finally
        (c ← get wk_client;
         match c with Some c => call (Boot (CloseClient c)) | None => mret () end)
        (finally
           (pool ← get wk_pool;
            match pool with Some (Some pool) => call (Boot (ClosePool pool)) | _ => mret () end)
           (modify (λ w, w <| wk_runner := Some true |>);; call CloseRunner))
  end.

(** ** The task *)

(** [_RECOVERABLE_INFRASTRUCTURE_ERRORS] *)
Definition recoverable (x : boot_exn) : bool :=
  match x with
  | BootError name => bool_decide (name ∈ ["redis.ConnectionError"; "redis.TimeoutError"; "kombu.OperationalError"]%string)
  | _ => false
  end.

Inductive delivery :=
| Reported (watch_id : string) (outcome : WatchPollOutcome) (retry_in : option Z)
| RetryIn (countdown : Z) (x : boot_exn).          (* [raise self.retry(...)] *)

Definition poll (service : watch_service) (watch_id : string) (window_id : option string) : worker_prog WatchPollResult :=
  match window_id with
  | None => perform (Σ := worker_calls) (PollOnce service watch_id)
  | Some window_id => perform (Σ := worker_calls) (PollWindow service watch_id window_id)
  end.

Definition monitor_watch (watch_id : string) (window_id : option string) : task delivery :=
  service ← build_watch_service;
  catch
    (closed ← get wk_closed;
     if closed : bool then throw (BootError "RuntimeError") else
     result ← run_on_runner (poll service watch_id window_id);
     mret (Reported watch_id (po_outcome result) (po_retry result)))
    (λ x, if recoverable x then Some (mret (RetryIn (seconds 60) x)) else None).
End worker.

(** ** [celery_app] *)

Record celery_app := MkCeleryApp {
  ca_main : string;
  ca_broker : string;
  ca_backend : string;
  ca_include : list string;
  ca_task_serializer : string;
  ca_result_serializer : string;
  ca_accept_content : list string;
  ca_timezone : string;
  ca_enable_utc : bool;
  ca_task_soft_time_limit : Z;                 (* in seconds *)
  ca_task_time_limit : Z;
  ca_task_acks_late : bool;
  ca_worker_prefetch_multiplier : Z;
}.

(** [os.getenv(name, default)], as it is *)
Definition getenv_raw (env : string → option string) (name default : string) : string :=
  match env name with Some v => v | None => default end.

Definition load_celery_app (env : string → option string) : celery_app :=
  let broker_url := getenv_raw env "REDIS_URL" DEFAULT_REDIS_URL in
  MkCeleryApp "dibs" broker_url broker_url ["backend.workers.tasks.monitor_watch"]%string "json" "json" ["json"]%string
    (getenv_raw env "RESERVATION_TIMEZONE" "America/Toronto") true 60 90 true 1.
