(* ===== verification/SettingsTheorems.v ===== *)
(** * Configuration: theorems

    Settings that load are within their bounds and fit together, whatever the
    environment holds; a redacted connection URL says nothing of the
    credentials. *)

From S2P Require Import Worker.
From S2P Require Import Prelude Calendar CalendarFacts Watch Prog Policy Backoff WatchService Url Settings.

Section facts.
Context (known_zone : string → bool) (bracketed_ok : string → bool) (repr : string → string).
Implicit Types (env : string → option string).

(** ** Bounds *)

Lemma bind_ok {A B} (r : result A) (f : A → result B) b :
  (x ← r; f x) = Ok b → ∃ a, r = Ok a ∧ f a = Ok b.
Proof. destruct r as [a|x]; cbn; [eauto|done]. Qed.

Lemma raise_if_ok b message u : raise_if b message = Ok u → b = false.
Proof. unfold raise_if. by destruct b. Qed.

Lemma bounded_count_range env name default minimum maximum v :
  minimum <= default <= maximum → _bounded_count env name default minimum maximum = Ok v →
  minimum <= v <= maximum.
Proof.
  intros Hd. unfold _bounded_count. cbn zeta. case_match; [intros [= <-]; lia|].
  case_match; [done|]. case_match; [|done]. case_match eqn:Hlo; [done|].
  case_match eqn:Hhi; [done|]. intros [= <-]. lia.
Qed.

Lemma bounded_int_positive env name default v :
  0 < default → _bounded_int env name default false = Ok v → 0 < v.
Proof.
  intros Hd. unfold _bounded_int. cbn zeta. case_match; [by intros [= <-]|].
  case_match; [|done]. case_match eqn:E; [done|]. intros [= <-].
  rewrite andb_true_r in E. apply orb_false_iff in E. lia.
Qed.

Lemma bounded_int_nonneg env name default v :
  0 <= default → _bounded_int env name default true = Ok v → 0 <= v.
Proof.
  intros Hd. unfold _bounded_int. cbn zeta. case_match; [by intros [= <-]|].
  case_match; [|done]. case_match eqn:E; [done|]. intros [= <-].
  apply orb_false_iff in E. lia.
Qed.
End facts.

(** Inverting a chain of settings that loaded. *)
Ltac loaded H :=
  repeat (let a := fresh "v" in let E := fresh "E" in
          apply bind_ok in H as (a & E & H); cbn beta in H).

(** What [WatchSettings.from_environment] promises. *)
Record watch_settings_ok (s : WatchSettings) : Prop := {
  wso_interval : 15 <= ws_poll_interval_seconds s <= 3600;
  wso_jitter : 0 <= ws_poll_jitter_seconds s < ws_poll_interval_seconds s;
  wso_attempts : 1 <= ws_max_poll_attempts s <= 1_000_000;
  wso_horizon : 30 <= ws_dispatch_horizon_seconds s <= 3600;
  wso_timeout : 1 <= ws_provider_call_timeout_seconds s <= 45;
  wso_backoff : ws_poll_interval_seconds s <= ws_provider_backoff_max_seconds s <= 86_400;
  wso_capacity : 1 <= ws_mock_slot_capacity s <= 100_000;
  wso_idle : 60 <= ws_mock_slot_idle_ttl_seconds s <= 604_800;
  wso_retention : 604_800 <= ws_mock_booking_retention_seconds s <= 31_536_000;
  wso_terminal : 3600 <= ws_terminal_retention_seconds s <= 31_536_000;
  wso_lease : 5 <= ws_recovery_leader_lease_seconds s <= 300;
  wso_sweep : 5 <= ws_recovery_sweep_seconds s <= 3600;
}.

Lemma watch_settings_loaded known_zone bracketed_ok repr env s :
  WatchSettings_from_environment known_zone bracketed_ok repr env = Ok s → watch_settings_ok s.
Proof.
  intros H. unfold WatchSettings_from_environment in H. cbn zeta in H. loaded H.
  injection H as <-.
  repeat match goal with E : _bounded_count _ _ _ _ _ = Ok _ |- _ =>
    apply bounded_count_range in E; [|by vm_compute] end.
  repeat match goal with E : raise_if _ _ = Ok _ |- _ => apply raise_if_ok in E end.
  match goal with E : _bounded_int _ _ _ true = Ok _ |- _ => apply bounded_int_nonneg in E; [|by vm_compute] end.
  repeat match goal with E : negb _ = false |- _ => apply negb_false_iff in E end.
  match goal with E : _ && _ = true |- _ => apply andb_true_iff in E as [Hlo Hhi] end.
  split; cbn;
  unfold _MIN_POLL_INTERVAL_SECONDS, _MAX_POLL_INTERVAL_SECONDS, _MIN_MAX_POLL_ATTEMPTS,
    _MAX_MAX_POLL_ATTEMPTS, _MIN_DISPATCH_HORIZON_SECONDS, _MAX_DISPATCH_HORIZON_SECONDS,
    _MIN_PROVIDER_CALL_TIMEOUT_SECONDS, _MAX_PROVIDER_CALL_TIMEOUT_SECONDS,
    _MAX_PROVIDER_BACKOFF_MAX_SECONDS, _MIN_MOCK_SLOT_CAPACITY, _MAX_MOCK_SLOT_CAPACITY,
    _MIN_MOCK_SLOT_IDLE_TTL_SECONDS, _MAX_MOCK_SLOT_IDLE_TTL_SECONDS,
    _MIN_MOCK_BOOKING_RETENTION_SECONDS, _MAX_MOCK_BOOKING_RETENTION_SECONDS,
    _MIN_TERMINAL_RETENTION_SECONDS, _MAX_TERMINAL_RETENTION_SECONDS,
    _MIN_RECOVERY_LEADER_LEASE_SECONDS, _MAX_RECOVERY_LEADER_LEASE_SECONDS,
    _MIN_RECOVERY_SWEEP_SECONDS, _MAX_RECOVERY_SWEEP_SECONDS in *; lia.
Qed.

(** What Celery reads untouched, the settings strip. *)
Lemma celery_shares_settings known_zone bracketed_ok repr env s :
  WatchSettings_from_environment known_zone bracketed_ok repr env = Ok s →
  ws_redis_url s = strip (ca_broker (load_celery_app env)) ∧
  ws_timezone_name s = strip (ca_timezone (load_celery_app env)).
Proof. intros H. unfold WatchSettings_from_environment in H. cbn zeta in H. loaded H. by injection H as <-. Qed.

(** C27 (settings: watch settings). Settings that load are within their bounds
    and fit the services built from them: they make a poll schedule, the
    service keeps the configured backoff maximum and its floor, one provider
    sequence ends well within the lease of its poll, and every watch gets a
    budget of checks.  Celery, configured from the same environment, has the
    same Redis and zone up to surrounding spaces, and stops a delivery after
    the provider sequence had its time and before the lease of the poll ends. *)
Theorem watch_settings_serve known_zone bracketed_ok repr env s timezone clock_timezone history :
  WatchSettings_from_environment known_zone bracketed_ok repr env = Ok s →
  watch_settings_ok s ∧ known_zone (ws_timezone_name s) = true ∧
  (∃ schedule,
    make_schedule (seconds (ws_poll_interval_seconds s)) (seconds (ws_poll_jitter_seconds s)) = Some schedule ∧
    schedule_ok schedule ∧
    let sv := make_service schedule (ws_max_poll_attempts s)
                (seconds (ws_provider_backoff_max_seconds s)) timezone clock_timezone history in
    sv_backoff_max sv = seconds (ws_provider_backoff_max_seconds s) ∧
    MIN_DELAY_SECONDS <= sv_backoff_max sv ∧
    2 * seconds (ws_provider_call_timeout_seconds s) < _POLL_LEASE_SECONDS ∧
    ∀ now expires_at, ∃ policy, derive schedule now expires_at (sv_max_attempts sv) = Some policy ∧
      1 <= ap_effective_attempts policy <= 1_000_000) ∧
  let celery := load_celery_app env in
  ws_redis_url s = strip (ca_broker celery) ∧ ca_backend celery = ca_broker celery ∧
  ws_timezone_name s = strip (ca_timezone celery) ∧
  ws_provider_call_timeout_seconds s < ca_task_soft_time_limit celery < ca_task_time_limit celery ∧
  seconds (ca_task_time_limit celery) < _POLL_LEASE_SECONDS.
Proof.
  intros H. pose proof (watch_settings_loaded _ _ _ _ _ H) as Hs.
  destruct (celery_shares_settings _ _ _ _ _ H) as [Hr Hz].
  split; [done|]. split.
  { unfold WatchSettings_from_environment in H. cbn zeta in H. loaded H. injection H as <-.
    cbn [ws_timezone_name]. match goal with E : raise_if (negb (known_zone _)) _ = _ |- _ =>
      by apply raise_if_ok, negb_false_iff in E end. }
  clear H. destruct Hs. split.
  2: { cbn zeta. rewrite Hr, Hz. unfold _POLL_LEASE_SECONDS, seconds. cbn. split_and!; done || lia. }
  exists (MkSchedule (seconds (ws_poll_interval_seconds s)) (seconds (ws_poll_jitter_seconds s))).
  unfold seconds in *. split_and!; cbn.
  - unfold make_schedule. rewrite !(proj2 (Z.leb_gt _ _)), (proj2 (Z.ltb_ge _ _)) by lia. done.
  - unfold schedule_ok. cbn. lia.
  - lia.
  - unfold MIN_DELAY_SECONDS, seconds. lia.
  - unfold _POLL_LEASE_SECONDS, seconds. lia.
  - intros now expires_at.
    destruct (derive _ now expires_at (ws_max_poll_attempts s)) as [policy|] eqn:E.
    + exists policy. apply derive_is_some in E as (H1 & H2 & H3). split; [done|]. lia.
    + unfold derive in E. rewrite (proj2 (Z.ltb_ge _ _)) in E by lia. done.
Qed.

Definition no_environment (name : string) : option string := None.

Lemma watch_settings_serve_witness :
  ∃ s, WatchSettings_from_environment (λ _, true) (λ _, true) id no_environment = Ok s ∧
    watch_settings_ok s.
Proof.
  eexists. split; [vm_compute; reflexivity|].
  apply (watch_settings_serve (λ _, true) (λ _, true) id no_environment _ None utc true).
  vm_compute. reflexivity.
Defined.

(** The default ceiling covers thirty days, a daylight saving hour included. *)
Lemma default_settings_cover_a_month s schedule policy now expires_at :
  WatchSettings_from_environment (λ _, true) (λ _, true) id no_environment = Ok s →
  make_schedule (seconds (ws_poll_interval_seconds s)) (seconds (ws_poll_jitter_seconds s)) = Some schedule →
  expires_at - now <= days 30 + minutes 60 →
  derive schedule now expires_at (ws_max_poll_attempts s) = Some policy →
  ap_supports_deadline policy = true ∧ ap_effective_attempts policy < 18_000.
Proof.
  intros Hs. assert (ws_poll_interval_seconds s = 180 ∧ ws_poll_jitter_seconds s = 30 ∧
    ws_max_poll_attempts s = 25_000) as (-> & -> & ->) by (revert Hs; vm_compute; by intros [= <-]).
  intros [= <-] Hd. unfold derive.
  set (e := _earliest_delay_microseconds _). replace e with (seconds 150) by (vm_compute; reflexivity).
  pose proof (ceil_div_spec (Z.max 0 (expires_at - now)) (seconds 150) ltac:(vm_compute; done)).
  unfold days, minutes, seconds in *. rewrite (proj2 (Z.ltb_ge _ _)) by lia. intros [= <-]. cbn.
  rewrite Z.eqb_eq. lia.
Qed.

(** ** Redaction *)

(** Credentials that need no escaping, and a location without any. *)
Definition plain_userinfo (user : list ascii) : bool :=
  free (λ c, is_delimiter c || is_char "[" c || is_char "]" c) user.
Definition plain_location (location : list ascii) : bool :=
  free (λ c, is_delimiter c || is_char "@" c) location.

Lemma free_or p q l : free (λ c, p c || q c) l = true → free p l = true ∧ free q l = true.
Proof.
  intros H. split; (eapply free_mono; [|exact H]); intros c Hc; cbn beta; rewrite Hc; [done|apply orb_true_r].
Qed.

Lemma after_last_none c l acc : free (is_char c) l = true → after_last c l acc = acc.
Proof.
  revert acc. unfold free. induction l as [|x l IH]; intros acc; cbn; [done|].
  intros [Hx%negb_true_iff Hl]%andb_true_iff. rewrite Hx. by apply IH.
Qed.

Lemma rpartition_credentials user location :
  free (is_char "@") location = true →
  rpartition "@" (clean (user ++ "@"%char :: location)) = rpartition "@" (clean location).
Proof.
  intros Hl. rewrite clean_app. change (clean ("@"%char :: location)) with ("@"%char :: clean location).
  unfold rpartition. rewrite after_last_app. done.
Qed.

Lemma brackets_credentials bracketed_ok user location :
  plain_userinfo user = true → free (is_char "@") location = true →
  netloc_ok bracketed_ok (clean (user ++ "@"%char :: location)) = netloc_ok bracketed_ok (clean location).
Proof.
  intros Hu Hl. unfold netloc_ok. rewrite rpartition_credentials by done.
  apply free_clean, free_or in Hu as [[_ Hopen]%free_or Hclose].
  rewrite clean_app, !has_char_app, (has_char_free "[" (clean user)), (has_char_free "]" (clean user)) by done.
  done.
Qed.

(** The text logged for a connection URL is the one of
    the same URL without user, password and query, so nothing of them can be
    read off it - for credentials in which the characters that end the network
    location are escaped, as a URL requires. *)
Theorem redact_dsn_hides bracketed_ok scheme user location path query :
  scheme_ok scheme = true → plain_userinfo user = true → plain_location location = true →
  starts (is_char "/") path = true → free ends_path path = true → starts ends_path query = true →
  redact_dsn bracketed_ok (url_text scheme (user ++ "@"%char :: location) path query) =
  redact_dsn bracketed_ok (url_text scheme location path []).
Proof.
  intros Hs Hu Hl Hp Hpf Hq. apply free_or in Hl as [Hld Hla].
  assert (free is_delimiter (user ++ "@"%char :: location) = true) as Hnet.
  { rewrite free_app. apply free_or in Hu as [[Hu _]%free_or _]. rewrite Hu. exact Hld. }
  unfold redact_dsn. rewrite !urlparse_text by done. rewrite brackets_credentials by done.
  destruct (netloc_ok bracketed_ok (clean location)); [|done].
  unfold port, hostname, hostinfo. cbn [u_netloc u_scheme u_path].
  by rewrite !chars_of_chars, rpartition_credentials.
Qed.

Lemma redact_dsn_hides_witness :
  let text user query := url_text (chars "postgresql") (chars user ++ "@"%char :: chars "db:5432") (chars "/dibs") (chars query) in
  text "dibs:s3cret"%string "?sslpassword=k"%string = "postgresql://dibs:s3cret@db:5432/dibs?sslpassword=k"%string ∧
  redact_dsn (λ _, true) (text "dibs:s3cret" "?sslpassword=k")%string =
  redact_dsn (λ _, true) (url_text (chars "postgresql") (chars "db:5432") (chars "/dibs") []).
Proof.
  split; [vm_compute; reflexivity|].
  apply (redact_dsn_hides (λ _, true) (chars "postgresql") (chars "dibs:s3cret") (chars "db:5432")
    (chars "/dibs") (chars "?sslpassword=k")); vm_compute; reflexivity.
Defined.

(** A slash in a password that was not escaped shows it. *)
Example redact_dsn_leaks :
  redact_dsn (λ _, true) "postgres://dibs:/s3cret@db/dibs" = "postgres://dibs/s3cret@db/dibs"%string.
Proof. vm_compute. reflexivity. Qed.

(** The other connection URL is shown whole in its error message. *)
Example redis_url_leaks :
  WatchSettings_from_environment (λ _, true) (λ _, true) id
    (λ name, if (name =? "REDIS_URL")%string then Some "redis+tls://:s3cret@cache:6379"%string else None) =
  Exc "Invalid REDIS_URL: redis+tls://:s3cret@cache:6379. Expected a redis://, rediss://, or unix:// URL."%string.
Proof. vm_compute. reflexivity. Qed.
