(* ===== verification/WorkerTheorems.v ===== *)
(** * The Celery worker: theorems

    The worker polls with the service the API process uses, and releases its
    resources once, whatever raises. *)

From S2P Require Import Prelude Calendar Policy Watch Prog Effects Recovery TaskQueue Readiness Url Settings Composition CompositionTheorems Worker.

Abbreviation worker_event := (event worker_calls).
Abbreviation Awaited := (Ev (Σ := worker_calls)).
Implicit Types (w : worker) (t : list worker_event) (x : boot_exn).

(** ** How a task can end *)

Definition task_ends {A} (c : task A) (w : worker) (Q : list worker_event → outcome boot_exn A → worker → Prop) : Prop :=
  ∀ t out, runs (c w) t out → ∃ r w', out = Ok (r, w') ∧ Q t r w'.

Section rules.
Context {A : Type}.
Implicit Types (Q : list worker_event → outcome boot_exn A → worker → Prop).

Lemma task_mono (c : task A) w Q Q' : task_ends c w Q → (∀ t r w', Q t r w' → Q' t r w') → task_ends c w Q'.
Proof. intros Hc HQ t out Hr. destruct (Hc _ _ Hr) as (r & w' & -> & H). eauto. Qed.

Lemma task_mret (a : A) w Q : Q [] (Ok a) w → task_ends (mret a) w Q.
Proof. intros HQ t out [-> ->]%(runs_ret_inv (Σ := worker_calls)). eauto. Qed.

Lemma task_throw x w Q : Q [] (Exc x) w → task_ends (throw x) w Q.
Proof. intros HQ t out [-> ->]%(runs_ret_inv (Σ := worker_calls)). eauto. Qed.

Lemma task_await (p : worker_prog A) w Q : (∀ t r, runs p t r → Q t r w) → task_ends (await p) w Q.
Proof.
  intros HQ t out [(r & t1 & t2 & -> & H1 & H2)|(x & H1 & ->)]%(runs_bind_inv (Σ := worker_calls));
    apply (runs_attempt_inv (Σ := worker_calls)) in H1 as (r' & H1 & [=]). subst r'.
  apply (runs_ret_inv (Σ := worker_calls)) in H2 as [-> ->]. rewrite app_nil_r. eauto.
Qed.

Lemma task_bind_ends {B} (c : task B) (f : B → task A) w Q :
  task_ends c w (λ t r w', match r with
    | Ok b => task_ends (f b) w' (λ t', Q (t ++ t'))
    | Exc x => Q t (Exc x) w'
    end) →
  task_ends (c ≫= f) w Q.
Proof.
  intros Hc t out [(r & t1 & t2 & -> & H1 & H2)|(x & H1 & ->)]%(runs_bind_inv (Σ := worker_calls)).
  - destruct (Hc _ _ H1) as (r' & w' & [= ->] & Hr). destruct r' as [b|x]; [exact (Hr _ _ H2)|].
    apply (runs_ret_inv (Σ := worker_calls)) in H2 as [-> ->]. rewrite app_nil_r. eauto.
  - by destruct (Hc _ _ H1) as (r & w' & [=] & _).
Qed.

Lemma task_catch_ends (c : task A) h w Q :
  task_ends c w (λ t r w', match r with
    | Ok a => Q t (Ok a) w'
    | Exc x => match h x with Some q => task_ends q w' (λ t', Q (t ++ t')) | None => Q t (Exc x) w' end
    end) →
  task_ends (catch c h) w Q.
Proof.
  intros Hc t out [(r & t1 & t2 & -> & H1 & H2)|(x & H1 & ->)]%(runs_bind_inv (Σ := worker_calls)).
  - destruct (Hc _ _ H1) as (r' & w' & [= ->] & Hr). destruct r' as [a|x]; [|destruct (h x)]; [|exact (Hr _ _ H2)|].
    all: apply (runs_ret_inv (Σ := worker_calls)) in H2 as [-> ->]; rewrite app_nil_r; eauto.
  - by destruct (Hc _ _ H1) as (r & w' & [=] & _).
Qed.

Lemma task_finally_ends (c : task A) (q : task ()) w Q :
  task_ends c w (λ t r w', task_ends q w' (λ t' r' w'',
    Q (t ++ t') (match r' with Ok _ => r | Exc x => Exc x end) w'')) →
  task_ends (finally c q) w Q.
Proof.
  intros Hc t out [(r & t1 & t2 & -> & H1 & H2)|(x & H1 & ->)]%(runs_bind_inv (Σ := worker_calls)).
  - destruct (Hc _ _ H1) as (r' & w' & [= ->] & Hq).
    apply (runs_bind_inv (Σ := worker_calls)) in H2 as [(r2 & t3 & t4 & -> & H3 & H4)|(x & H3 & ->)].
    + destruct (Hq _ _ H3) as (r2' & w2 & [= ->] & HQ). destruct r2' as [[]|x];
        apply (runs_ret_inv (Σ := worker_calls)) in H4 as [-> ->]; rewrite app_nil_r; eauto.
    + by destruct (Hq _ _ H3) as (r2 & w2 & [=] & _).
  - by destruct (Hc _ _ H1) as (r & w' & [=] & _).
Qed.
End rules.

Lemma task_get {A} (f : worker → A) w Q : Q [] (Ok (f w)) w → task_ends (get f) w Q.
Proof. intros HQ t out [-> ->]%(runs_ret_inv (Σ := worker_calls)). eauto. Qed.

Lemma task_modify (f : worker → worker) w Q : Q [] (Ok ()) (f w) → task_ends (modify f) w Q.
Proof. intros HQ t out [-> ->]%(runs_ret_inv (Σ := worker_calls)). eauto. Qed.

Lemma task_call c w Q : (∀ r, Q [Awaited c r] r w) → task_ends (call c) w Q.
Proof. intros HQ. apply task_await. by intros t r ->%(runs_perform_inv (Σ := worker_calls) c). Qed.

Lemma on_loop_calls {A} (p : boot_prog A) t out : runs (on_loop p) t out →
  ∀ e, e ∈ t → ∃ c r, e = Awaited (Boot c) r.
Proof.
  revert t. induction p as [a|x|c k IH]; intros t Hr; cbn in Hr.
  - apply (runs_ret_inv (Σ := worker_calls)) in Hr as [-> _]. by intros e []%elem_of_nil.
  - apply (runs_raise_inv (Σ := worker_calls)) in Hr as [-> _]. by intros e []%elem_of_nil.
  - apply (runs_call_inv (Σ := worker_calls)) in Hr as (r & t' & -> & Hr).
    intros e [->|He]%elem_of_cons; [by eexists _, _|by eapply IH].
Qed.

(** ** Tasks that leave the shutdown alone *)

(** [w] becomes [w'] by the calls of [t], which are all [fine]: nothing is
    closed, and a closed runner is asked for nothing. *)
Record steady (fine : worker_event → Prop) w t w' : Prop := {
  st_closed : wk_closed w' = wk_closed w;
  st_runner : wk_runner w' = Some true ↔ wk_runner w = Some true;
  st_quiet : wk_runner w = Some true → t = [];
  st_calls e : e ∈ t → fine e;
}.

Lemma steady_trans fine w t w1 t' w' : steady fine w t w1 → steady fine w1 t' w' → steady fine w (t ++ t') w'.
Proof.
  intros [] []. split; [congruence|tauto| |].
  - intros Hw. rewrite st_quiet0 by done. cbn. by apply st_quiet1, st_runner0.
  - intros e [?|?]%elem_of_app; auto.
Qed.

Lemma steady_mono (fine fine' : worker_event → Prop) w t w' : steady fine w t w' → (∀ e, fine e → fine' e) → steady fine' w t w'.
Proof. intros [] Hf. split; auto. Qed.

Section steadily.
Context (fine : worker_event → Prop).

Definition steadily {A} (c : task A) : Prop := ∀ w, task_ends c w (λ t _ w', steady fine w t w').

Lemma steady_refl w : steady fine w [] w.
Proof. split; try done. by intros e []%elem_of_nil. Qed.

Lemma steadily_ret {A} (a : A) : steadily (mret a).
Proof. intros w. apply task_mret, steady_refl. Qed.

Lemma steadily_throw {A} x : steadily (throw (A := A) x).
Proof. intros w. apply task_throw, steady_refl. Qed.

Lemma steadily_get {A} (f : worker → A) : steadily (get f).
Proof. intros w. apply task_get, steady_refl. Qed.

Lemma steadily_modify f : (∀ w, wk_closed (f w) = wk_closed w ∧ wk_runner (f w) = wk_runner w) → steadily (modify f).
Proof. intros Hf w. apply task_modify. destruct (Hf w) as [Ec Er]. split; [done|by rewrite Er|done|by intros e []%elem_of_nil]. Qed.

Lemma steadily_bind {A B} (c : task A) (f : A → task B) : steadily c → (∀ a, steadily (f a)) → steadily (c ≫= f).
Proof.
  intros Hc Hf w. apply task_bind_ends. eapply task_mono; [apply Hc|]. intros t [a|x] w' Hs; [|done].
  eapply task_mono; [apply Hf|]. intros t' r w2. by apply steady_trans.
Qed.

Lemma steadily_catch {A} (c : task A) h : steadily c → (∀ x q, h x = Some q → steadily q) → steadily (catch c h).
Proof.
  intros Hc Hh w. apply task_catch_ends. eapply task_mono; [apply Hc|]. intros t [a|x] w' Hs; [done|].
  destruct (h x) as [q|] eqn:E; [|done]. eapply task_mono; [by eapply Hh|]. intros t' r w2. by apply steady_trans.
Qed.

Lemma steadily_runner : steadily _runner.
Proof.
  intros w. unfold _runner. apply task_bind_ends, task_get. destruct (wk_runner w) as [b|] eqn:E.
  - apply task_mret, steady_refl.
  - apply task_modify. split; [done|cbn; by rewrite E|by rewrite E|by intros e []%elem_of_nil].
Qed.

Lemma steadily_run {A} (p : worker_prog A) : (∀ t out e, runs p t out → e ∈ t → fine e) → steadily (run_on_runner p).
Proof.
  intros Hp. apply steadily_bind; [apply steadily_runner|]. intros [] w. apply task_bind_ends, task_get. cbn.
  case_bool_decide as Hr; [apply task_throw, steady_refl|]. apply task_await. intros t r Hr'.
  split; [done..|]. intros e. by apply (Hp t r).
Qed.
End steadily.

Section worker.
Context (known_zone : string → bool) (bracketed_ok : string → bool) (repr : string → string).
Context (env : string → option string).

Notation build := (build_watch_service known_zone bracketed_ok repr env).
Notation monitor := (monitor_watch known_zone bracketed_ok repr env).

(** What building a service calls. *)
Definition boots (e : worker_event) : Prop := match e with Ev (Boot _) _ => True | _ => False end.

Lemma steadily_loaded {A} (r : result A) : steadily boots (loaded r).
Proof. destruct r; [apply steadily_ret|apply steadily_throw]. Qed.

Lemma steadily_optional {A} (r : result A) :
  steadily boots (catch (settings ← loaded r; mret (Some settings))
    (λ x, match x with ConfigurationError _ => Some (mret None) | _ => None end)).
Proof.
  apply steadily_catch; [apply steadily_bind; [apply steadily_loaded|intros; apply steadily_ret]|].
  intros [] q [= <-]. apply steadily_ret.
Qed.

Lemma steadily_connect : steadily boots (connect_pool bracketed_ok env).
Proof.
  unfold connect_pool. apply steadily_bind; [apply steadily_optional|]. intros [settings|]; [|apply steadily_ret].
  destruct (pg_dsn settings); [|apply steadily_ret]. apply steadily_catch.
  - apply steadily_bind; [|intros; apply steadily_ret]. apply steadily_run.
    intros t out e Hr He. by destruct (on_loop_calls _ _ _ Hr e He) as (c & r & ->).
  - intros x q. destruct (boot_is_exception x); [|done]. intros [= <-]. apply steadily_ret.
Qed.

Lemma steadily_build : steadily boots build.
Proof.
  unfold build_watch_service. apply steadily_bind; [apply steadily_get|]. intros [service|]; [apply steadily_ret|].
  apply steadily_bind.
  { unfold _settings. apply steadily_bind; [apply steadily_get|]. intros [settings|]; [apply steadily_ret|].
    apply steadily_bind; [apply steadily_loaded|]. intros settings.
    apply steadily_bind; [by apply steadily_modify|]. intros []. apply steadily_ret. }
  intros settings. apply steadily_bind.
  { unfold _postgres_pool. apply steadily_bind; [apply steadily_get|]. intros [pool|]; [apply steadily_ret|].
    apply steadily_bind; [apply steadily_connect|]. intros pool.
    apply steadily_bind; [by apply steadily_modify|]. intros []. apply steadily_ret. }
  intros pool. apply steadily_bind.
  { unfold _redis_client. apply steadily_bind; [apply steadily_get|]. intros [c|]; [apply steadily_ret|].
    apply steadily_bind; [by apply steadily_modify|]. intros []. apply steadily_ret. }
  intros c. apply steadily_bind.
  { unfold scheduled. destruct (make_schedule _ _); [apply steadily_ret|apply steadily_throw]. }
  intros schedule. apply steadily_bind.
  { unfold _build_notifier. destruct pool; [|apply steadily_ret].
    apply steadily_bind; [apply steadily_optional|]. intros; apply steadily_ret. }
  intros notifier. apply steadily_bind; [by apply steadily_modify|]. intros []. apply steadily_ret.
Qed.

Definition polls (e : worker_event) : Prop := match e with Ev (PollOnce _ _) _ | Ev (PollWindow _ _ _) _ => True | _ => False end.
Definition ends_runner (e : worker_event) : Prop := match e with Ev CloseRunner _ => True | _ => False end.

(** A delivery: no shutdown, and no poll after one. *)
Lemma monitor_steady watch_id window_id w : task_ends (monitor watch_id window_id) w (λ t _ w',
  steady (λ e, ¬ ends_runner e) w t w' ∧ (wk_closed w = true → ∀ e, e ∈ t → ¬ polls e)).
Proof.
  unfold monitor_watch. apply task_bind_ends. eapply task_mono; [apply steadily_build|].
  intros t r w1 Hs. assert (∀ e, e ∈ t → ¬ polls e) as Hnp.
  { intros e He Hp. pose proof (st_calls _ _ _ _ Hs e He) as Hb. by destruct e as [[] r']; cbn in *. }
  assert (steady (λ e, ¬ ends_runner e) w t w1) as Hs1 by (apply (steady_mono boots); [exact Hs|]; intros [[] r'] Hb He; cbn in *; done).
  destruct r as [service|x]; [|by split]. destruct (wk_closed w) eqn:Ec.
  - apply task_catch_ends, task_bind_ends, task_get. rewrite (st_closed _ _ _ _ Hs), Ec. apply task_throw. cbn.
    rewrite app_nil_r. by split.
  - enough (steadily (λ e, ¬ ends_runner e)
      (catch (closed ← get wk_closed;
              if closed : bool then throw (BootError "RuntimeError") else
              result ← run_on_runner (poll service watch_id window_id);
              mret (Reported watch_id (po_outcome result) (po_retry result)))
         (λ x, if recoverable x then Some (mret (RetryIn (seconds 60) x)) else None))) as Hm.
    { eapply task_mono; [apply Hm|]. intros t' r w' Hs'. split; [by eapply steady_trans|done]. }
    apply steadily_catch.
    + apply steadily_bind; [apply steadily_get|]. intros []; [apply steadily_throw|].
      apply steadily_bind; [|intros; apply steadily_ret]. apply steadily_run. intros t' out e Hr He.
      destruct window_id; cbn in Hr;
        [apply (runs_perform_inv (Σ := worker_calls) (PollWindow _ _ _)) in Hr as ->
        |apply (runs_perform_inv (Σ := worker_calls) (PollOnce _ _)) in Hr as ->];
        apply list_elem_of_singleton in He as ->; by intros [].
    + intros x q. destruct (recoverable x); [|done]. intros [= <-]. apply steadily_ret.
Qed.

(** ** Shutdown *)

Definition called (e : worker_event) : worker_call := match e with Ev c _ => c end.

Definition close_calls w : list worker_call :=
  match wk_client w with Some c => [Boot (CloseClient c)] | None => [] end ++
  match wk_pool w with Some (Some p) => [Boot (ClosePool p)] | _ => [] end ++ [CloseRunner].

Lemma close_ends w : task_ends _close_worker_resources w (λ t _ w',
  wk_closed w' = true ∧
  (if wk_closed w then t = [] ∧ w' = w else
   match wk_runner w with
   | None => t = [] ∧ wk_runner w' = None
   | Some _ => map called t = close_calls w ∧ wk_runner w' = Some true
   end)).
Proof.
  unfold _close_worker_resources. apply task_bind_ends, task_get. destruct (wk_closed w) eqn:Ec.
  { apply task_mret. by split. }
  apply task_bind_ends, task_modify. set (w1 := w <| wk_closed := true |>). apply task_bind_ends, task_get.
  change (wk_runner w1) with (wk_runner w). destruct (wk_runner w) as [b|] eqn:Er; [|by apply task_mret].
  apply task_finally_ends, task_bind_ends, task_get.
  assert (task_ends (match wk_client w1 with Some c => call (Boot (CloseClient c)) | None => mret () end) w1
    (λ t _ w', w' = w1 ∧ map called t = match wk_client w with Some c => [Boot (CloseClient c)] | None => [] end)) as H1.
  { change (wk_client w1) with (wk_client w). destruct (wk_client w); [by apply (task_call (Boot (CloseClient _)))|by apply task_mret]. }
  eapply task_mono; [exact H1|]. intros t1 r1 w1' [-> E1].
  apply task_finally_ends, task_bind_ends, task_get.
  assert (task_ends (match wk_pool w1 with Some (Some p) => call (Boot (ClosePool p)) | _ => mret () end) w1
    (λ t _ w', w' = w1 ∧ map called t = match wk_pool w with Some (Some p) => [Boot (ClosePool p)] | _ => [] end)) as H2.
  { change (wk_pool w1) with (wk_pool w). destruct (wk_pool w) as [[p|]|]; [by apply (task_call (Boot (ClosePool _)))|by apply task_mret..]. }
  eapply task_mono; [exact H2|]. intros t2 r2 w2' [-> E2].
  apply task_bind_ends, task_modify. eapply (task_mono _ _ (λ t _ w', w' = w1 <| wk_runner := Some true |> ∧ map called t = [CloseRunner]));
    [by apply (task_call CloseRunner)|].
  intros t3 r3 w3 [-> E3]. split; [done|]. split; [|done].
  cbn. unfold close_calls. by rewrite !map_app, E1, E2, E3.
Qed.

(** ** Histories of a worker process *)

Inductive serves w : list worker_event → worker → Prop :=
| serves_nothing : serves w [] w
| serves_delivery t w1 watch_id window_id t' r w2 : serves w t w1 →
    runs (monitor watch_id window_id w1) t' (Ok (r, w2)) → serves w (t ++ t') w2
| serves_close t w1 t' r w2 : serves w t w1 →
    runs (_close_worker_resources w1) t' (Ok (r, w2)) → serves w (t ++ t') w2.

(** Nothing follows the end of the runner. *)
Definition ended t w : Prop :=
  match wk_runner w with
  | Some true => wk_closed w = true ∧ ∃ t0 e, t = t0 ++ [e] ∧ ends_runner e ∧ ∀ e', e' ∈ t0 → ¬ ends_runner e'
  | _ => ∀ e, e ∈ t → ¬ ends_runner e
  end.

Lemma ended_steady t w t' w' : ended t w → steady (λ e, ¬ ends_runner e) w t' w' → ended (t ++ t') w'.
Proof.
  unfold ended. intros He [Ec Er Hq Hc]. destruct (wk_runner w) as [[]|], (wk_runner w') as [[]|].
  all: try (exfalso; (discriminate (proj1 Er eq_refl) || discriminate (proj2 Er eq_refl))).
  1: rewrite Hq, app_nil_r, Ec by done; done.
  all: intros e [?|?]%elem_of_app; auto.
Qed.

Lemma calls_end (l : list worker_call) t : map called t = l ++ [CloseRunner] → CloseRunner ∉ l →
  ∃ t0 e, t = t0 ++ [e] ∧ ends_runner e ∧ ∀ e', e' ∈ t0 → ¬ ends_runner e'.
Proof.
  intros E Hn. destruct t as [|e t _] using rev_ind; [by destruct l|].
  rewrite map_app in E. apply app_inj_tail in E as [E Ee]. exists t, e. split_and!; [done| |].
  - destruct e as [c r]. cbn in Ee. by subst c.
  - intros [c r] Hin Hc. apply Hn. rewrite <- E. apply list_elem_of_fmap. exists (Ev c r). split; [|done].
    by destruct c.
Qed.

(** C34 (worker: shutdown). In every history of deliveries and shutdowns of a
    worker process: the first shutdown closes the Redis client, the pool and
    then the event loop that exist, whichever of them raises, and a later one
    does nothing; the loop is closed at most once and nothing is called after
    it; and no delivery polls once the worker was shut down. *)
Theorem worker_closes_once t w : serves new_worker t w →
  ((∀ e, e ∈ t → ¬ ends_runner e) ∨ ∃ t0 e, t = t0 ++ [e] ∧ ends_runner e ∧ ∀ e', e' ∈ t0 → ¬ ends_runner e') ∧
  (∀ t' out, runs (_close_worker_resources w) t' out → ∃ r w', out = Ok (r, w') ∧ wk_closed w' = true ∧
     map called t' = if wk_closed w then [] else match wk_runner w with Some _ => close_calls w | None => [] end) ∧
  (∀ watch_id window_id t' out, wk_closed w = true → runs (monitor watch_id window_id w) t' out → ∀ e, e ∈ t' → ¬ polls e).
Proof.
  intros Hs. split; [|split].
  - assert (ended t w) as He; [|unfold ended in He; destruct (wk_runner w) as [[]|]; [right; apply He|by left..]].
    induction Hs as [|t w1 watch_id window_id t' r w2 _ IH Hr|t w1 t' r w2 _ IH Hr].
    + intros e []%elem_of_nil.
    + destruct (monitor_steady _ _ _ _ _ Hr) as (r' & w' & [= -> ->] & Hst & _). by eapply ended_steady.
    + destruct (close_ends _ _ _ Hr) as (r' & w' & [= -> ->] & Hc & Hcase).
      destruct (wk_closed w1) eqn:Ec; [destruct Hcase as [-> ->]; by rewrite app_nil_r|].
      destruct (wk_runner w1) as [b|] eqn:Er.
      * destruct Hcase as [E Er']. unfold ended in IH |- *. rewrite Er in IH. rewrite Er'. split; [done|].
        destruct b; [by destruct IH as [? _]; congruence|].
        unfold close_calls in E. rewrite app_assoc in E. destruct (calls_end _ _ E) as (t0 & e & -> & He & Ht0).
        { destruct (wk_client w1), (wk_pool w1) as [[]|]; cbn; set_solver. }
        exists (t ++ t0), e. rewrite app_assoc. split_and!; [done..|]. intros e' [?|?]%elem_of_app; auto.
      * destruct Hcase as [-> Er']. rewrite app_nil_r. unfold ended in IH |- *. by rewrite Er', Er in *.
  - intros t' out Hr. destruct (close_ends _ _ _ Hr) as (r & w' & -> & Hc & Hcase). exists r, w'. split_and!; [done..|].
    destruct (wk_closed w); [by destruct Hcase as [-> _]|]. destruct (wk_runner w); [apply Hcase|by destruct Hcase as [-> _]].
  - intros watch_id window_id t' out Hc Hr. destruct (monitor_steady _ _ _ _ _ Hr) as (r' & w' & -> & _ & Hp). by apply Hp.
Qed.
End worker.
