(* ===== verification/WorkerService.v ===== *)
(** * The worker and the API process poll with the same service

    Both compose a [WatchService] from the same environment; once Redis and
    Celery are in use they differ in one argument, the notification timeout. *)
From S2P Require Import Prelude Prog Calendar Watch Policy Effects Recovery Url Settings.
From S2P Require Import TaskQueue Readiness Composition CompositionTheorems Worker.
From S2P Require Import WorkerTheorems.

Section service.
Context (known_zone : string → bool) (bracketed_ok : string → bool) (repr : string → string).
Context (env : string → option string).

Notation environment := (WatchSettings_from_environment known_zone bracketed_ok repr env).
Notation schedule_of settings :=
  (make_schedule (seconds (ws_poll_interval_seconds settings)) (seconds (ws_poll_jitter_seconds settings))).

(** The email notifier of a pool, if email is configured. *)
Definition notifier_for (pool : option pool) : option mailer :=
  match pool, EmailSettings_from_environment bracketed_ok repr env with
  | Some pool, Ok settings => match em_host settings with Some _ => Some (MkMailer pool settings) | None => None end
  | _, _ => None
  end.

Definition service_on_redis (settings : WatchSettings) (schedule : PollSchedule) (pool : option pool) (timeout : Z) : watch_service :=
  MkWatchService (RedisWatches (ws_redis_url settings) (seconds (ws_terminal_retention_seconds settings)))
    (MockBookingAdapter (RedisMock (ws_redis_url settings) (configured_bounds settings))) CeleryQueue (Some schedule)
    pool (notifier_for pool) timeout (Some (ws_timezone_name settings)) (ws_max_poll_attempts settings)
    (seconds (ws_provider_call_timeout_seconds settings)) (seconds (ws_provider_backoff_max_seconds settings)).

(** ** The API process *)

Definition wired a : Prop := ap_notifier a = notifier_for (ap_postgres_pool a) ∧ ap_recorder a = ap_postgres_pool a.

Lemma yields_both {A} (p : boot_prog A) (P Q : A → Prop) : yields p P → yields p Q → yields p (λ r, P r ∧ Q r).
Proof. intros HP HQ t [r|x] Hr; [split; [exact (HP _ _ Hr)|exact (HQ _ _ Hr)]|done]. Qed.

Lemma wired_postgres a : ap_postgres_pool a = None → wired a →
  yields (_attach_postgres bracketed_ok repr env a) wired.
Proof.
  intros Hn Hw. unfold _attach_postgres.
  eapply yields_bind; [apply yields_top|]. intros [settings|m] _; [|by apply yields_ret].
  destruct (pg_dsn settings); [|by apply yields_ret].
  eapply yields_bind; [apply yields_top|]. intros [pool|[]] _; try apply yields_fail; [|by apply yields_ret].
  destruct Hw as [Hm _]. rewrite Hn in Hm.
  apply (yields_bind _ _ (λ a, ap_notifier a = None ∧ ap_postgres_pool a = Some pool ∧ ap_recorder a = Some pool)).
  - unfold attach_accounts. eapply yields_bind; [apply yields_top|]. intros [accounts|m] _; apply yields_ret; by split_and!.
  - intros a1 (Hm1 & Hp1 & Hr1). unfold attach_email. eapply yields_bind; [apply yields_from|].
    intros [email|m] E.
    + destruct (em_host email) as [h|] eqn:Eh; apply yields_ret; unfold wired, notifier_for; cbn; by rewrite Hp1, E, Eh.
    + apply yields_ret. unfold wired, notifier_for. by rewrite Hp1, E.
Qed.

(** What a start over Redis binds. *)
Definition served_on_redis a : Prop := ∀ c, ap_redis a = Some c → ∃ settings schedule,
  environment = Ok settings ∧ schedule_of settings = Some schedule ∧
  ap_watch_service a = service_on_redis settings schedule (ap_postgres_pool a) (ap_notify_timeout a).

Lemma start_recovery_served settings schedule distributed a : served_on_redis a →
  yields (_start_recovery settings schedule distributed a) served_on_redis.
Proof. intros Ha. unfold _start_recovery. eapply yields_bind; [apply yields_top|]. intros readiness _. by apply yields_ret. Qed.

Lemma attach_redis_served has_redis a : wired a → ap_redis a = None → settings_loaded known_zone bracketed_ok repr env a →
  yields (_attach_redis has_redis true a) served_on_redis.
Proof.
  intros [Hm Hrec] Hr Hl. unfold _attach_redis, settings_loaded in *.
  assert (∀ a', ap_redis a' = None → served_on_redis a') as Hnone by (intros a' E c; congruence).
  destruct (ap_watch_settings a) as [settings|]; [|by apply yields_ret, Hnone]. destruct Hl as [Henv _].
  destruct (schedule_of settings) as [schedule|] eqn:Es; [|apply yields_fail].
  apply (yields_bind _ _ (λ a1, ap_redis a1 = None ∧ ap_notifier a1 = ap_notifier a ∧ ap_recorder a1 = ap_recorder a ∧
    ap_postgres_pool a1 = ap_postgres_pool a)).
  { unfold attach_memory. eapply yields_bind; [apply yields_call|]. intros [] _. by apply yields_ret. }
  intros a1 (Hr1 & Hm1 & Hrec1 & Hp1). destruct has_redis; cbn [negb]; [|by apply start_recovery_served, Hnone].
  eapply yields_bind; [apply yields_top|]. intros [] _; cbn [negb];
    [|eapply yields_bind; [apply yields_top|]; intros _ _; by apply start_recovery_served, Hnone].
  eapply yields_bind; [apply yields_top|]. intros [] _;
    [eapply yields_bind; [apply yields_top|]; intros _ _; by apply start_recovery_served, Hnone|].
  apply (yields_bind _ _ served_on_redis); [|intros a2; apply start_recovery_served].
  unfold upgrade_to_redis. eapply yields_bind; [apply yields_call|]. intros [] _. apply yields_ret.
  intros c _. exists settings, schedule. split_and!; [done..|]. cbn. unfold service_on_redis.
  by rewrite Hrec1, Hm1, Hp1, Hrec, Hm.
Qed.

Lemma startup_served has_redis owner :
  yields (create_app bracketed_ok repr env owner ≫= startup known_zone bracketed_ok repr env has_redis true) served_on_redis.
Proof.
  apply (yields_bind _ _ (λ a, (blank_app a ∧ ap_postgres_pool a = None) ∧ wired a)).
  { apply yields_both; [apply create_app_blank|]. unfold create_app. eapply yields_bind; [apply yields_top|]. intros cors _.
    eapply yields_bind; [apply yields_top|]. intros prompt _. by apply yields_ret. }
  intros a [[Hb Hn] Hw]. unfold startup.
  apply (yields_bind _ _ (λ a, (blank_app a ∧ ap_postgres_pool a = None ∧ settings_loaded known_zone bracketed_ok repr env a) ∧ wired a)).
  { apply yields_both; [by apply load_settings_spec|]. unfold load_settings. eapply yields_bind; [apply yields_top|]. intros watch _.
    eapply yields_bind; [apply yields_top|]. intros settings _. apply yields_ret. by destruct watch, settings. }
  intros a1 [(Hb1 & Hn1 & Hl1) Hw1].
  eapply yields_bind; [apply yields_both; [by apply attach_postgres_spec|by apply wired_postgres]|].
  intros a2 [[Hb2 Hl2] Hw2]. apply attach_redis_served; [done|apply Hb2|done].
Qed.

(** ** The worker *)

Definition worker_service (service : watch_service) : Prop := ∃ settings schedule pool,
  environment = Ok settings ∧ schedule_of settings = Some schedule ∧
  service = service_on_redis settings schedule pool DEFAULT_NOTIFY_TIMEOUT_SECONDS.

Record cached_ok w : Prop := {
  ca_settings settings : wk_settings w = Some settings → environment = Ok settings;
  ca_client c : wk_client w = Some c → ∃ settings, environment = Ok settings ∧ c = ws_redis_url settings;
  ca_service service : wk_service w = Some service → worker_service service;
}.

(** Every poll is one of a service of the worker. *)
Definition polls_well (e : worker_event) : Prop :=
  match e with Ev (PollOnce service _) _ | Ev (PollWindow service _ _) _ => worker_service service | _ => True end.

Definition holds_for {A} (c : task A) (P : A → Prop) : Prop := ∀ w, cached_ok w →
  task_ends c w (λ t r w', cached_ok w' ∧ (∀ e, e ∈ t → polls_well e) ∧ match r with Ok a => P a | Exc _ => True end).

Lemma none_polls : ∀ e, e ∈ ([] : list worker_event) → polls_well e.
Proof. by intros e []%elem_of_nil. Qed.

Lemma holds_mret {A} (a : A) (P : A → Prop) : P a → holds_for (mret a) P.
Proof. intros HP w Hw. apply task_mret. split_and!; [done|apply none_polls|done]. Qed.
Lemma holds_throw {A} x (P : A → Prop) : holds_for (throw x) P.
Proof. intros w Hw. apply task_throw. split_and!; [done|apply none_polls|done]. Qed.

Lemma holds_bind {A B} (c : task A) (f : A → task B) P Q :
  holds_for c P → (∀ a, P a → holds_for (f a) Q) → holds_for (c ≫= f) Q.
Proof.
  intros Hc Hf w Hw. apply task_bind_ends. eapply task_mono; [by apply Hc|]. intros t [a|x] w' (Hw' & Ht & HP); [|done].
  eapply task_mono; [by apply Hf|]. intros t' r w2 (? & Ht' & ?). split_and!; [done| |done].
  intros e [?|?]%elem_of_app; auto.
Qed.

Lemma holds_catch {A} (c : task A) h P : holds_for c P → (∀ x q, h x = Some q → holds_for q P) → holds_for (catch c h) P.
Proof.
  intros Hc Hh w Hw. apply task_catch_ends. eapply task_mono; [by apply Hc|]. intros t [a|x] w' (Hw' & Ht & HP); [done|].
  destruct (h x) as [q|] eqn:E; [|done]. eapply task_mono; [by eapply Hh|]. intros t' r w2 (? & Ht' & ?).
  split_and!; [done| |done]. intros e [?|?]%elem_of_app; auto.
Qed.

Lemma holds_get {A} (f : worker → A) (P : A → Prop) : (∀ w, cached_ok w → P (f w)) → holds_for (get f) P.
Proof. intros HP w Hw. apply task_get. split_and!; [done|apply none_polls|by apply HP]. Qed.

Lemma holds_modify f : (∀ w, cached_ok w → cached_ok (f w)) → holds_for (modify f) (λ _, True).
Proof. intros Hf w Hw. apply task_modify. split_and!; [by apply Hf|apply none_polls|done]. Qed.

Lemma holds_await {A} (p : worker_prog A) : (∀ t out e, runs p t out → e ∈ t → polls_well e) → holds_for (await p) (λ _, True).
Proof. intros Hp w Hw. apply task_await. intros t r Hr. split_and!; [done|intros e; by apply (Hp t r)|by destruct r]. Qed.

Lemma holds_run {A} (p : worker_prog A) : (∀ t out e, runs p t out → e ∈ t → polls_well e) →
  holds_for (run_on_runner p) (λ _, True).
Proof.
  intros Hp. apply (holds_bind _ _ (λ _, True)).
  - apply (holds_bind _ _ (λ _, True)); [by apply holds_get|]. intros [b|] _; [by apply holds_mret|].
    apply holds_modify. by intros w [].
  - intros [] _. apply (holds_bind _ _ (λ _, True)); [by apply holds_get|]. intros closed _.
    destruct (bool_decide _); [apply holds_throw|by apply holds_await].
Qed.

Lemma holds_loaded {A} (r : result A) : holds_for (loaded r) (λ a, r = Ok a).
Proof. destruct r; [by apply holds_mret|apply holds_throw]. Qed.

(** [None] stands for an invalid environment. *)
Lemma holds_optional {A} (r : result A) :
  holds_for (catch (settings ← loaded r; mret (Some settings))
    (λ x, match x with ConfigurationError _ => Some (mret None) | _ => None end))
    (λ o, match o, r with Some a, Ok b => a = b | None, Exc _ => True | _, _ => False end).
Proof.
  intros w Hw t out Hr. destruct r as [a|m]; cbn in Hr.
  - apply (runs_ret_inv (Σ := worker_calls)) in Hr as [-> ->]. eexists _, _. split; [done|]. split_and!; [done|apply none_polls|done].
  - destruct (m =? value_error)%string; apply (runs_ret_inv (Σ := worker_calls)) in Hr as [-> ->];
      eexists _, _; (split; [done|]; split_and!; [done|apply none_polls|done]).
Qed.

Lemma holds_connect : holds_for (connect_pool bracketed_ok env) (λ _, True).
Proof.
  unfold connect_pool. eapply holds_bind; [apply holds_optional|]. intros [settings|] _; [|by apply holds_mret].
  destruct (pg_dsn settings); [|by apply holds_mret]. apply holds_catch.
  - apply (holds_bind _ _ (λ _, True)); [|intros; by apply holds_mret]. apply holds_run.
    intros t out e Hr He. by destruct (on_loop_calls _ _ _ Hr e He) as (c & r & ->).
  - intros x q. destruct (boot_is_exception x); [|done]. intros [= <-]. by apply holds_mret.
Qed.

Lemma holds_settings : holds_for (_settings known_zone bracketed_ok repr env) (λ settings, environment = Ok settings).
Proof.
  unfold _settings. apply (holds_bind _ _ (λ o, ∀ settings, o = Some settings → environment = Ok settings));
    [apply holds_get; intros w Hw; apply Hw|].
  intros [settings|] Ho; [by apply holds_mret, Ho|]. eapply holds_bind; [apply holds_loaded|]. intros settings E. cbn in E.
  eapply holds_bind; [apply holds_modify|intros [] _; by apply holds_mret].
  intros w []. split; cbn; [by intros s [= <-]|done..].
Qed.

Lemma holds_client settings : environment = Ok settings →
  holds_for (_redis_client settings) (λ c, c = ws_redis_url settings).
Proof.
  intros E. unfold _redis_client.
  apply (holds_bind _ _ (λ o, ∀ c, o = Some c → ∃ settings, environment = Ok settings ∧ c = ws_redis_url settings));
    [apply holds_get; intros w Hw; apply Hw|].
  intros [c|] Ho.
  - apply holds_mret. destruct (Ho c eq_refl) as (s & E' & ->). congruence.
  - eapply holds_bind; [apply holds_modify|intros [] _; by apply holds_mret].
    intros w []. split; cbn; [done| |done]. intros c [= <-]. by exists settings.
Qed.

Lemma holds_notifier pool : holds_for (_build_notifier bracketed_ok repr env pool) (λ m, m = notifier_for pool).
Proof.
  unfold _build_notifier. destruct pool as [pool|]; [|by apply holds_mret].
  eapply holds_bind; [apply holds_optional|]. intros o Ho. apply holds_mret. unfold notifier_for.
  destruct o as [email|], (EmailSettings_from_environment bracketed_ok repr env); by try subst.
Qed.

Lemma holds_build : holds_for (build_watch_service known_zone bracketed_ok repr env) worker_service.
Proof.
  unfold build_watch_service. apply (holds_bind _ _ (λ o, ∀ service, o = Some service → worker_service service));
    [apply holds_get; intros w Hw; apply Hw|].
  intros [service|] Ho; [by apply holds_mret, Ho|]. eapply holds_bind; [apply holds_settings|]. intros settings E. cbn in E.
  apply (holds_bind _ _ (λ _, True)).
  { unfold _postgres_pool. apply (holds_bind _ _ (λ _, True)); [by apply holds_get|]. intros [pool|] _; [by apply holds_mret|].
    eapply holds_bind; [apply holds_connect|]. intros pool _. eapply holds_bind; [apply holds_modify|intros [] _; by apply holds_mret].
    by intros w []. }
  intros pool _. eapply holds_bind; [by apply holds_client|]. intros c ->.
  apply (holds_bind _ _ (λ schedule, schedule_of settings = Some schedule)).
  { unfold scheduled. destruct (schedule_of settings) eqn:Es; [by apply holds_mret|apply holds_throw]. }
  intros schedule Es. eapply holds_bind; [apply holds_notifier|]. intros notifier ->.
  assert (worker_service (service_on_redis settings schedule pool DEFAULT_NOTIFY_TIMEOUT_SECONDS)) as Hs
    by by exists settings, schedule, pool.
  eapply holds_bind; [apply holds_modify|intros [] _; by apply holds_mret].
  intros w []. split; cbn; [done..|]. by intros service [= <-].
Qed.

Lemma holds_monitor watch_id window_id :
  holds_for (monitor_watch known_zone bracketed_ok repr env watch_id window_id) (λ _, True).
Proof.
  unfold monitor_watch. eapply holds_bind; [apply holds_build|]. intros service Hs. apply holds_catch.
  - apply (holds_bind _ _ (λ _, True)); [by apply holds_get|]. intros [] _; [apply holds_throw|].
    apply (holds_bind _ _ (λ _, True)); [|intros; by apply holds_mret]. apply holds_run. intros t out e Hr He.
    destruct window_id; cbn in Hr;
      [apply (runs_perform_inv (Σ := worker_calls) (PollWindow _ _ _)) in Hr as ->
      |apply (runs_perform_inv (Σ := worker_calls) (PollOnce _ _)) in Hr as ->];
      by apply list_elem_of_singleton in He as ->.
  - intros x q. destruct (recoverable x); [|done]. intros [= <-]. by apply holds_mret.
Qed.

Lemma holds_finally {A} (c : task A) (q : task ()) P : holds_for c P → holds_for q (λ _, True) → holds_for (finally c q) P.
Proof.
  intros Hc Hq w Hw. apply task_finally_ends. eapply task_mono; [by apply Hc|]. intros t r w' (Hw' & Ht & HP).
  eapply task_mono; [by apply Hq|]. intros t' [[]|x] w2 (? & Ht' & _); (split_and!; [done| |done]);
    intros e [?|?]%elem_of_app; auto.
Qed.

Lemma holds_close : holds_for _close_worker_resources (λ _, True).
Proof.
  assert (∀ c, (∀ r, polls_well (Awaited (Boot c) r)) → holds_for (call (Boot c)) (λ _, True)) as Hcall.
  { intros c Hc w Hw. apply task_call. intros r. split_and!; [done| |by destruct r]. by intros e ->%list_elem_of_singleton. }
  apply (holds_bind _ _ (λ _, True)); [by apply holds_get|]. intros [] _; [by apply holds_mret|].
  apply (holds_bind _ _ (λ _, True)); [apply holds_modify; by intros w []|]. intros [] _.
  apply (holds_bind _ _ (λ _, True)); [by apply holds_get|]. intros [b|] _; [|by apply holds_mret].
  apply holds_finally.
  { apply (holds_bind _ _ (λ _, True)); [by apply holds_get|]. intros [c|] _; [by apply (Hcall (CloseClient c))|by apply holds_mret]. }
  apply holds_finally.
  { apply (holds_bind _ _ (λ _, True)); [by apply holds_get|]. intros [[p|]|] _; [by apply (Hcall (ClosePool p))|by apply holds_mret..]. }
  apply (holds_bind _ _ (λ _, True)); [apply holds_modify; by intros w []|]. intros [] _ w Hw.
  apply (task_call CloseRunner). intros r. split_and!; [done| |by destruct r]. by intros e ->%list_elem_of_singleton.
Qed.

Lemma serves_polls_well t w : serves known_zone bracketed_ok repr env new_worker t w →
  cached_ok w ∧ ∀ e, e ∈ t → polls_well e.
Proof.
  induction 1 as [|t w1 watch_id window_id t' r w2 _ [IH IHt] Hr|t w1 t' r w2 _ [IH IHt] Hr].
  - split; [by split|apply none_polls].
  - destruct (holds_monitor _ _ _ IH _ _ Hr) as (r' & w' & [= -> ->] & Hw & Ht & _). split; [done|].
    intros e [?|?]%elem_of_app; auto.
  - destruct (holds_close _ IH _ _ Hr) as (r' & w' & [= -> ->] & Hw & Ht & _). split; [done|].
    intros e [?|?]%elem_of_app; auto.
Qed.

(** The service a delivery polls with. *)
Definition polled (e : worker_event) : option watch_service :=
  match e with Ev (PollOnce service _) _ | Ev (PollWindow service _ _) _ => Some service | _ => None end.

(** C35 (worker: same service). In every history of a worker process, each
    delivery polls with the very service the API process of the same
    environment has bound on Redis and Celery - repository, provider state,
    queue, schedule, limits, history and notifier - if it reached the same
    PostgreSQL pool; but for the time a notification may take, which the API
    process takes from the SMTP settings and the worker does not. *)
Theorem worker_polls_like_the_api has_redis owner t a c t' w e service :
  runs (create_app bracketed_ok repr env owner ≫= startup known_zone bracketed_ok repr env has_redis true) t (Ok a) →
  ap_redis a = Some c → serves known_zone bracketed_ok repr env new_worker t' w →
  e ∈ t' → polled e = Some service → sv_recorder service = ap_postgres_pool a →
  service = ap_watch_service a <| sv_notify_timeout := DEFAULT_NOTIFY_TIMEOUT_SECONDS |>.
Proof.
  intros Ha Hc [_ Hp]%serves_polls_well He Hservice Hpool.
  destruct (startup_served _ _ _ _ Ha c Hc) as (settings & schedule & E & Es & ->).
  specialize (Hp e He). assert (worker_service service) as (settings' & schedule' & pool & E' & Es' & ->).
  { destruct e as [[] r]; try discriminate Hservice; injection Hservice as <-; exact Hp. }
  cbn in Hpool. subst pool. assert (settings' = settings) as -> by congruence.
  assert (schedule' = schedule) as -> by congruence. reflexivity.
Qed.
End service.

(** ** The Celery worker: examples

    A worker polls twice and is shut down while closing Redis fails; with a
    slower SMTP server configured its service differs from the one of the API. *)

Definition mail_env (name : string) : option string :=
  if (name =? "SMTP_HOST")%string then Some "smtp.example.org"%string
  else if (name =? "SMTP_FROM")%string then Some "dibs@example.org"%string
  else if (name =? "SMTP_TIMEOUT_SECONDS")%string then Some "30"%string
  else demo_env name.

Notation in_demo f := (f (λ _, true) (λ _, true) (λ s, s) mail_env) (only parsing).

Definition demo_poll_result : WatchPollResult := MkPollResult PO_NO_AVAILABILITY None (Some 180).

Definition demo_worker_answers (c : worker_call) (s : ()) : outcome boot_exn (worker_answer c) * () :=
  (match c return outcome boot_exn (worker_answer c) with
   | Boot (CloseClient _) => Exc (BootError "redis.ConnectionError")
   | Boot c => (demo_boot_answers true (Ok []) c ()).1
   | PollOnce _ _ => Exc (BootError "redis.TimeoutError")
   | PollWindow _ _ _ => Ok demo_poll_result
   | CloseRunner => Ok ()
   end, s).

Definition demo_run {A} (c : task A) (w : worker) : list worker_event * outcome boot_exn (outcome boot_exn A * worker) :=
  record (Σ := worker_calls) demo_worker_answers (c w) ().

(** The worker after a task, and what it called. *)
Definition after {A} (c : task A) (w : worker) : list worker_event * worker :=
  match (demo_run c w).2 with Ok (_, w') => ((demo_run c w).1, w') | Exc _ => ([], w) end.

Definition demo_delivery : task delivery := in_demo monitor_watch "watch_1" (Some "watch_1:0"%string).

Definition worker_1 := after demo_delivery new_worker.
Definition worker_2 := after (in_demo monitor_watch "watch_1" None) worker_1.2.
Definition worker_3 := after _close_worker_resources worker_2.2.

Definition ended_well {A} (c : task A) (w : worker) : bool :=
  match (demo_run c w).2 with Ok _ => true | Exc _ => false end.

Lemma runs_after {A} (c : task A) w : ended_well c w = true → ∃ r, runs (c w) (after c w).1 (Ok (r, (after c w).2)).
Proof.
  unfold ended_well, after. intros Hw. destruct (demo_run c w).2 as [[r w']|x] eqn:E; [|done].
  exists r. cbn. rewrite <- E. apply (record_runs (Σ := worker_calls)).
Qed.

(** A delivery is reported; the next one meets a broken Redis and is retried. *)
Example demo_outcomes :
  match (demo_run demo_delivery new_worker).2, (demo_run (in_demo monitor_watch "watch_1" None) worker_1.2).2 with
  | Ok (Ok d1, _), Ok (Ok d2, _) =>
      d1 = Reported "watch_1" PO_NO_AVAILABILITY (Some 180) ∧ d2 = RetryIn (seconds 60) (BootError "redis.TimeoutError")
  | _, _ => False
  end.
Proof. vm_compute. by split. Qed.

Lemma demo_serves :
  in_demo serves new_worker worker_1.1 worker_1.2 ∧
  in_demo serves new_worker ((worker_1.1 ++ worker_2.1) ++ worker_3.1) worker_3.2.
Proof.
  destruct (runs_after demo_delivery new_worker) as [r1 H1]; [vm_compute; reflexivity|].
  destruct (runs_after (in_demo monitor_watch "watch_1" None) worker_1.2) as [r2 H2]; [vm_compute; reflexivity|].
  destruct (runs_after _close_worker_resources worker_2.2) as [r3 H3]; [vm_compute; reflexivity|].
  assert (in_demo serves new_worker ([] ++ worker_1.1) worker_1.2) as Hs by (eapply serves_delivery; [apply serves_nothing|exact H1]).
  split; [exact Hs|]. eapply serves_close; [eapply serves_delivery; [exact Hs|exact H2]|exact H3].
Qed.

(** Closing Redis fails; pool and event loop are closed all the same. *)
Lemma worker_closes_once_witness :
  map called worker_3.1 = [Boot (CloseClient "redis://cache:6379/0"); Boot (ClosePool 7%nat); CloseRunner] ∧
  ∃ t0 e, (worker_1.1 ++ worker_2.1) ++ worker_3.1 = t0 ++ [e] ∧ ends_runner e ∧ ∀ e', e' ∈ t0 → ¬ ends_runner e'.
Proof.
  split; [vm_compute; reflexivity|].
  destruct (worker_closes_once _ _ _ _ _ _ (proj2 demo_serves)) as ([Hn|He] & _); [|exact He].
  exfalso. apply (Hn (Awaited CloseRunner (Ok ()))); [|done].
  apply elem_of_app. right. assert (worker_3.1 !! 2%nat = Some (Awaited CloseRunner (Ok ()))) as E by (vm_compute; reflexivity).
  by eapply list_elem_of_lookup_2.
Defined.

(** ** The service of the API process in the same environment *)

Definition mail_process : boot_prog app :=
  create_app (λ _, true) (λ s, s) mail_env "owner" ≫= startup (λ _, true) (λ _, true) (λ s, s) mail_env true true.

Definition mail_boot := record (Σ := boot_calls) (demo_boot_answers true (Ok [])) mail_process ().

Lemma mail_boot_runs : runs mail_process mail_boot.1 mail_boot.2.
Proof. exact (record_runs (Σ := boot_calls) (demo_boot_answers true (Ok [])) mail_process ()). Qed.

(** The API process waits thirty seconds for a notification, as long as SMTP
    may take; the worker cuts it off after ten. *)
Lemma worker_polls_like_the_api_witness :
  match mail_boot.2, polled <$> last worker_1.1 with
  | Ok a, Some (Some service) =>
      service = ap_watch_service a <| sv_notify_timeout := DEFAULT_NOTIFY_TIMEOUT_SECONDS |> ∧
      sv_notify_timeout (ap_watch_service a) = seconds 30 ∧ sv_notify_timeout service = seconds 10
  | _, _ => False
  end.
Proof.
  pose proof mail_boot_runs as Hr. destruct mail_boot.2 as [a|x] eqn:E; [|vm_compute in E; discriminate E].
  destruct (last worker_1.1) as [e|] eqn:Ee; [|vm_compute in Ee; discriminate Ee]. cbn.
  assert (ap_redis a = Some "redis://cache:6379/0"%string ∧ ap_postgres_pool a = Some 7%nat ∧
    sv_notify_timeout (ap_watch_service a) = seconds 30) as (Hc & Hp & Ht) by (vm_compute in E; injection E as <-; done).
  destruct (polled e) as [service|] eqn:Es; [|vm_compute in Ee; injection Ee as <-; discriminate Es].
  assert (sv_recorder service = Some 7%nat ∧ sv_notify_timeout service = seconds 10) as [Hs Ht'].
  { vm_compute in Ee. injection Ee as <-. vm_compute in Es. injection Es as <-. done. }
  split; [|by split].
  refine (worker_polls_like_the_api _ _ _ _ _ _ _ _ _ _ _ e service Hr Hc (proj1 demo_serves) _ Es _).
  - apply last_Some in Ee as [l ->]. apply elem_of_app. right. left.
  - congruence.
Defined.
